(* ===== verification/_CoqProject ===== *)
-Q . S2P
Prelude.v
Bytes.v
Machine.v
Memory.v
Cmd.v
Mapping.v
Queues.v
Service.v
Format.v
Os.v
Ioctl.v
Pci.v
Vfio.v
Physical.v
MemoryAccess.v
Receiver.v
QueuePair.v
Device.v
Setup.v
Startup.v
Io.v
Prp.v
Lib.v
Iommu.v
Hugepage.v
Entry.v
Batch.v
Protocol.v
Frame.v
Threads.v
Pairs.v
Examples.v
Bench.v
Measure.v
Disk.v
Programs.v
Workers.v
Schedule.v
Closures.v
Turns.v
Apart.v
Storage.v
Single.v
Bringup.v
Whole.v
