(* ===== verification/Prelude.v ===== *)
(** * vroom: a userspace NVMe driver, verified

    vroom (the Rust sources under [src/]) drives an NVMe controller from user
    space: it maps the device's registers, builds submission and completion rings
    in memory it shares with the controller, and reads and writes blocks through
    them.  This development models all of the library ([src/src/*.rs]) and the
    programs that use it ([src/examples/*.rs]), and proves what its parts do.

    ** How the code is modelled

    A Rust function that touches its receiver, shared memory, a register or the
    kernel is a function of [M E S A = S * World E → Res A * (S * World E)]
    ([Machine.v]): [S] is the object behind [&mut self]; a [World] is the state of
    the environment [E], the memory, the trace of what the driver has done and the
    statics of the crate; a [Res] is a value, the [Err] of the crate's [Result], a
    panic, or a spinning loop that ran out of fuel.  Integers are [Z], with every
    checked operation written out at its width: [ck w z] panics or wraps as the
    class [Build] says (overflow checks on in the dev profile, off in release).
    Divisions, slice indices, asserts, [unwrap] and [expect] panic as in Rust.

    What is not in the repository is a parameter.  The controller is the class
    [Hardware]: how it answers register accesses, and what it does to its state
    and the shared memory between two accesses of the driver ([tick]), so that
    every interleaving of the two is some instance.  The kernel is the class [Os],
    one function per system call; the constants of libc are the class [Libc], the
    clock and the random numbers of the benchmarks the classes [Clock] and [Rng].
    Theorems assume of them what their documentation says, as classes with laws:
    - the controller posts completions in order with the phase bit of their lap
      ([CqProducer], [CqLive]) and serves a pair of rings: every announced command
      is completed within [N] runs ([SyncService] for one command at a time,
      [CqService] for many in flight; [AdminService], [IoService], [BatchService]
      and [PairService] are the same for the queues of a device and of a pair,
      [Startup] adds the ready bit); [DiskService] is one that also executes the
      commands;
    - [QuietAllocator], [MmapKernel], [ReadKernel] and [KernelGrants] for the
      allocator and the kernel, [ClockLaws] and [RngLaws] for the benchmarks;
      [SilentMapping], that an allocator leaves its caller alone, is proved of both
      back ends.
    Each has a concrete instance in the witnesses.

    ** The files

    - [Prelude]: machine integers, ranges, chunks, tactics and hints.
      [Bytes]: little-endian layouts of records.  [Machine]: world, monad,
      accesses, loops, and the weakest-precondition rules ([wp], [wp_step]).
    - [Memory] ([memory.rs]): page sizes, DMA regions, slices, the chunk iterator
      and the loops over it.
    - [Cmd] ([cmd.rs]): command constructors and their 64-byte image.
    - [Mapping] ([mapping.rs]): the trait [Mapping] as a class, and what its
      clients need, [QuietAllocator].
    - [Queues] ([queues.rs]): both rings.  [Service]: the contract of a controller
      that serves a pair of rings, with an instance.
    - [Format]: the integer formats of messages, and decimal numerals read back.
      [Os] ([macros.rs], [error.rs]): system calls.  [Ioctl] ([ioctl_op.rs],
      [vfio_structs.rs]): ioctl numbers and structures.  [Pci] ([pci.rs]): the
      files under [/sys], number parsing.
    - [Vfio] ([vfio.rs]), [Physical] ([physical.rs]), [MemoryAccess]
      ([mapping.rs]): the two memory back ends and the choice between them.
      [Receiver]: their operations change nothing in the object that calls them.
    - [QueuePair], [Device] ([nvme.rs]): queue pairs; registers, doorbells, the
      admin queue, initialisation, identification.  [Setup]: queue pairs created
      and deleted, identify.  [Startup]: the start of the controller.
    - [Io] ([nvme.rs]): the data paths.  [Prp]: the physical region pages of their
      commands.  [Batch]: the batched transfers.  [Disk]: written data read back.
    - [Iommu], [Hugepage]: the theorems on the two memory back ends.
    - [Lib] ([lib.rs]): the entry points.  [Entry]: what they look at first.
      [Bringup]: the whole way from nothing to an identified device.
    - [Protocol]: a queue pair and its thread as a state machine ([pair_step]: the
      calls of the thread, and anything that leaves the pair alone).  [Frame]: a
      call on a pair touches its ring and its doorbells only.  [Threads]: many
      threads with pairs of their own as one system.  [Pairs]: the pairs of a
      device, created and deleted in any order.
    - [Examples], [Bench], [Programs] ([examples/*.rs]): the example programs, the
      loops of the benchmarks, the command lines.  [Measure]: the theorems on a
      thread of a benchmark.  [Single]: those on the benchmarks without threads.
      [Workers]: the threads spawned, taking turns under a given schedule, with the
      lock around the device, and joined; the programs with threads.  [Schedule], [Closures]: a thread alone and threads one after the
      other.  [Turns], [Apart]: what holds under every schedule.  [Storage]: the data
      paths and the example programs in a closed loop with a disk.  [Whole]: the
      start and such a program together, on a controller that serves both queues.

    ** What is proved

    - Data: on a controller that executes the commands in the ring as NVMe says,
      [write] then [read] gives the data back and disturbs nothing else
      ([Disk.disk_roundtrip]); the example programs that do this return what they
      wrote, whatever the order of the accesses of both sides
      ([Storage.hello_world_reads_back]), and the whole of [simple_io] does, from the
      opening of the device on ([Whole.simple_io_program]); which
      commands each data path sends, with address, LBA and count, that it returns,
      and how it fails ([Io.transfer_commands], [Io.namespace_io_command],
      [Prp.write_prp_commands], [Batch.batched_commands], [Batch.batch_errors],
      [QueuePair.submit_io_commands]); which bytes those commands transfer, with
      the cases where they are the wrong ones ([Prp.prp_list_transfers],
      [Prp.copied_transfers_skip_page], [Batch.batch_request_bytes]).
    - Rings: the submission ring refines a bounded queue, the completion ring
      yields every completion once and in order through all its laps, spinning
      ends ([Queues], [QueuePair.complete_io_takes_n], [QueuePair.polling]).
    - Concurrency: in every state that calls on a pair, the controller and other
      threads can reach, the rings are those of the commands sent, fetched and
      completed, and no call waits for ever ([Protocol.pair_protocol]); threads
      with pairs of their own run as if each were alone with the controller
      ([Threads.concurrent_threads]); the pairs alive have rings and doorbells of
      their own ([Pairs.live_pairs]).
    - Device: the entry point from the class of the device to the last namespace
      identified ([Bringup.init_brings_up]), with the order of the start sequence
      ([Startup]); a device of another class is left as it is
      ([Entry.init_checks_class]); admin commands, creation and deletion of pairs,
      registers and doorbells in bounds, identify data.
    - Memory: page rounding, chunking, the memory that the back ends map and
      release on every answer of the kernel, address translation; the VFIO back
      end is an instance of the interface the device is proved against
      ([Iommu.memory_access_quiet]).
    - Encodings: the commands built fit the fields of the packed entry and are
      decoded as themselves ([Cmd.built_image]); numbers in files are read back.
    - Programs: [fill_ns] ends and what it leaves unfilled
      ([Examples.fill_namespace]); a benchmark thread ends and has waited for what
      it sent ([Measure.benchmark_thread]), except in one mode of the latency
      benchmark ([Measure.nanos_never_returns]); the benchmarks without threads
      report one operation at a time ([Single.single_thread_benchmarks]).  Under every schedule and against
      every controller the threads come to rest and the program ends as they have
      ([Turns.threads_come_to_rest]), and no two of them ever hold pairs with an id
      or a doorbell in common ([Apart.threads_never_share]); the program with
      threads is its closures run one after the other under some schedule, and
      under every schedule if there is one thread ([Closures.threads_run_closures]).

    ** Bounds and fuel

    A loop over a collection is structural.  The chunk iterator has one call of
    [next] more than there are chunks ([DmaChunks.chunk_fuel]), and [fill_ns] one
    iteration more than there are writes ([Fill.fill_fuel]); both are proved to
    suffice.  Spinning loops ([complete_spin], the wait for the ready bit) have the
    fuel of the class [Fuel]; the theorems assume it to exceed the runs within
    which the controller answers, and then prove that the call returns.  The loops
    of the benchmarks, which run until a time is over, have the same fuel, assumed
    to exceed the duration in steps of the clock.  As state machines ([Workers]) the
    threads need none: an iteration is a turn, and the schedule says how many turns
    there are; [duration + 5] turns for each thread are proved to be enough.

    ** Not modelled

    Standard output and error, the times that [write_prp] prints, the closing of
    files, the poisoning of the mutex around the group table, the rates of the
    benchmarks in floating point; the tests, which need a device, and the scripts.
    A turn of a thread is a statement under the lock or an iteration of its loop:
    the threads do not interleave inside of these (but the controller does, and
    [Threads] has the calls of other threads in between).  The lock around the
    latencies is not one of its own: they are appended at the end of a turn.  Memory is one address space: that
    the driver's own stores to it do not overlap is assumed where it matters
    ([rings_ok], [list_apart], [chunk_ok], [region_reached]).  [usize] is 64 bits
    and the machine is little endian. *)

From Stdlib Require Export ZArith Lia.
From stdpp Require Export base numbers list strings gmap.

#[global] Open Scope Z_scope.

(** ** Machine integers

    Every integer of the program is a [Z] in the range of its type.
    [wrap w] is reduction to [w] bits; the [as_*] functions are Rust's
    truncating casts between unsigned types. [usize] is 64 bits wide. *)

Definition wrap (w z : Z) : Z := z `mod` 2 ^ w.

Definition fits (w z : Z) : bool := (0 <=? z) && (z <? 2 ^ w).

Definition as_u8 : Z → Z := wrap 8.
Definition as_u16 : Z → Z := wrap 16.
Definition as_u32 : Z → Z := wrap 32.
Definition as_u64 : Z → Z := wrap 64.
Definition as_usize : Z → Z := wrap 64.

(** [nth_chunks n l]: the pieces of [n] elements that [slice::chunks(n)]
    yields, the last one shorter when [n] does not divide the length. *)
Fixpoint chunks_fuel {A} (fuel : nat) (n : nat) (l : list A) : list (list A) :=
  match fuel, l with
  | O, _ => []
  | _, [] => []
  | S fuel, _ => take n l :: chunks_fuel fuel n (drop n l)
  end.

Definition chunks {A} (n : nat) (l : list A) : list (list A) :=
  chunks_fuel (length l) n l.

(** The half-open range [a..b] of a Rust [for] loop. *)
Definition zrange (a b : Z) : list Z :=
  (λ i : nat, a + Z.of_nat i) <$> seq 0 (Z.to_nat (b - a)).

(** ** Proof automation *)

Ltac zdiv := Z.to_euclidean_division_equations; nia.

Ltac bool_to_prop :=
  repeat match goal with
  | H : (_ && _)%bool = true |- _ => apply andb_true_iff in H as [? ?]
  | H : (_ && _)%bool = false |- _ => apply andb_false_iff in H
  | H : (_ || _)%bool = false |- _ => apply orb_false_iff in H as [? ?]
  | H : negb _ = true |- _ => apply negb_true_iff in H
  | H : negb _ = false |- _ => apply negb_false_iff in H
  | H : (_ =? _) = true |- _ => apply Z.eqb_eq in H
  | H : (_ =? _) = false |- _ => apply Z.eqb_neq in H
  | H : (_ <? _) = true |- _ => apply Z.ltb_lt in H
  | H : (_ <? _) = false |- _ => apply Z.ltb_ge in H
  | H : (_ <=? _) = true |- _ => apply Z.leb_le in H
  | H : (_ <=? _) = false |- _ => apply Z.leb_gt in H
  end.

Create HintDb vroom.
Create Rewrite HintDb world.

(** ** Lemmas on machine integers *)

Lemma fits_spec w z : fits w z = true ↔ 0 ≤ z < 2 ^ w.
Proof. unfold fits. rewrite andb_true_iff, Z.leb_le, Z.ltb_lt. lia. Qed.

Lemma fits_true w z : 0 ≤ z < 2 ^ w → fits w z = true.
Proof. apply fits_spec. Qed.

Lemma wrap_small w z : 0 ≤ z < 2 ^ w → wrap w z = z.
Proof. apply Z.mod_small. Qed.

Lemma wrap_bound w z : 0 ≤ w → 0 ≤ wrap w z < 2 ^ w.
Proof. intros. apply Z.mod_pos_bound. lia. Qed.

(** Stepping a ring index: no division, only a comparison. *)
Lemma ring_succ len h :
  0 ≤ h < len → (h + 1) `mod` len = if h + 1 =? len then 0 else h + 1.
Proof.
  intros. destruct (Z.eqb_spec (h + 1) len) as [->|?].
  - apply Z.mod_same. lia.
  - apply Z.mod_small. lia.
Qed.

Lemma ring_bound len h : 0 < len → 0 ≤ h `mod` len < len.
Proof. apply Z.mod_pos_bound. Qed.

(** ** Rounding up *)

Lemma ceil_bounds k n : 0 < k → n ≤ (n + k - 1) / k * k < n + k.
Proof.
  intros. pose proof (Z.div_mod (n + k - 1) k ltac:(lia)).
  pose proof (Z.mod_pos_bound (n + k - 1) k). lia.
Qed.

Lemma ceil_exact k n : 0 < k → n `mod` k = 0 → (n + k - 1) / k * k = n.
Proof.
  intros Hk [q ->]%Z.mod_divide; [|lia].
  replace (q * k + k - 1) with (k - 1 + q * k) by lia.
  rewrite Z.div_add, Z.div_small by lia. lia.
Qed.

Lemma ceil_inexact k n : 0 < k → n `mod` k ≠ 0 → (n + k - 1) / k = n / k + 1.
Proof.
  intros Hk Hm. pose proof (Z.div_mod n k ltac:(lia)) as Hn.
  pose proof (Z.mod_pos_bound n k). symmetry.
  apply Z.div_unique with (n `mod` k - 1); lia.
Qed.

Lemma ceil_nonneg k n : 0 < k → 0 ≤ n → 0 ≤ (n + k - 1) / k.
Proof. intros. apply Z.div_pos; lia. Qed.

(** ** Lemmas on ranges and chunks *)

Lemma zrange_length a b : length (zrange a b) = Z.to_nat (b - a).
Proof. unfold zrange. by rewrite length_fmap, length_seq. Qed.

Lemma zrange_nil a b : b ≤ a → zrange a b = [].
Proof. intros. unfold zrange. by replace (Z.to_nat (b - a)) with 0%nat by lia. Qed.

Lemma zrange_cons a b : a < b → zrange a b = a :: zrange (a + 1) b.
Proof.
  intros. unfold zrange.
  replace (Z.to_nat (b - a)) with (S (Z.to_nat (b - (a + 1)))) by lia.
  cbn [seq fmap list_fmap]. f_equal; [lia|].
  rewrite <-fmap_S_seq, <-list_fmap_compose.
  apply list_fmap_ext. intros i x _. simpl. lia.
Qed.

Lemma zrange_snoc a b : a ≤ b → zrange a (b + 1) = zrange a b ++ [b].
Proof.
  intros. unfold zrange. replace (Z.to_nat (b + 1 - a)) with (Z.to_nat (b - a) + 1)%nat by lia.
  rewrite seq_app, fmap_app. simpl. do 2 f_equal. lia.
Qed.

Lemma zrange_app a b c : a ≤ b ≤ c → zrange a b ++ zrange b c = zrange a c.
Proof.
  intros. remember (Z.to_nat (c - b)) as n eqn:Hn. revert c Hn H. induction n as [|n IH]; intros c Hn H.
  { assert (c = b) as -> by lia. rewrite (zrange_nil b b) by lia. by rewrite app_nil_r. }
  replace c with (c - 1 + 1) by lia. rewrite !zrange_snoc by lia.
  rewrite app_assoc, IH by lia. done.
Qed.

(** A trace that grows by the events of one more element. *)
Lemma zrange_bind_snoc {B} (f : Z → list B) a b :
  a ≤ b → zrange a (b + 1) ≫= f = (zrange a b ≫= f) ++ f b.
Proof. intros. rewrite zrange_snoc, bind_app by done. simpl. by rewrite app_nil_r. Qed.

Lemma chunks_one {A} n (l : list A) : (0 < length l ≤ n)%nat → chunks n l = [l].
Proof.
  intros Hl. unfold chunks. destruct l as [|x l]; [simpl in Hl; lia|].
  cbn [length chunks_fuel]. rewrite take_ge, drop_ge by (simpl in *; lia). by destruct (length l).
Qed.

Lemma concat_chunks {A} n (l : list A) : (0 < n)%nat → concat (chunks n l) = l.
Proof.
  intros Hn. unfold chunks. assert (length l ≤ length l)%nat as Hle by done. revert Hle.
  generalize (length l) at 2 3 as fuel. intros fuel. revert l.
  induction fuel as [|fuel IH]; intros l Hle.
  { by destruct l; [|simpl in Hle; lia]. }
  destruct l as [|x l]; [done|]. cbn [chunks_fuel concat]. rewrite IH, take_drop; [done|].
  rewrite length_drop. cbn [length] in *. lia.
Qed.

Lemma elem_of_zrange a b i : i ∈ zrange a b ↔ a ≤ i < b.
Proof.
  unfold zrange. rewrite list_elem_of_fmap. split.
  - intros (n & -> & Hn). apply elem_of_seq in Hn. lia.
  - intros. exists (Z.to_nat (i - a)). split; [lia|]. apply elem_of_seq. lia.
Qed.

#[export] Hint Resolve fits_true : vroom.
