(* ===== verification/Bytes.v ===== *)
(** Bytes in memory: little-endian integers and [repr(C, packed)] layouts.

    The structures the driver shares with the controller and with the kernel
    are sequences of unsigned integers without padding.  A layout is the list
    of the field widths in bytes; [enc_fields] and [dec_fields] are the memory
    image of a structure and its reading back. *)

From S2P Require Import Prelude.

(** ** Definitions *)

Fixpoint le_bytes (n : nat) (z : Z) : list Z :=
  match n with
  | O => []
  | S n => z `mod` 256 :: le_bytes n (z / 256)
  end.

Fixpoint le_val (bs : list Z) : Z :=
  match bs with
  | [] => 0
  | b :: bs => b + 256 * le_val bs
  end.

Definition is_byte (b : Z) : Prop := 0 ≤ b < 256.

(** The image of a structure whose fields are given with their widths. *)
Fixpoint enc_fields (fs : list (nat * Z)) : list Z :=
  match fs with
  | [] => []
  | (n, v) :: fs => le_bytes n v ++ enc_fields fs
  end.

Fixpoint dec_fields (ws : list nat) (bs : list Z) : list Z :=
  match ws with
  | [] => []
  | n :: ws => le_val (take n bs) :: dec_fields ws (drop n bs)
  end.

(** The size of a packed layout. *)
Definition layout_size (ws : list nat) : nat := foldr Nat.add 0%nat ws.

Definition field_ok (f : nat * Z) : Prop := 0 ≤ f.2 < 256 ^ Z.of_nat f.1.

(** ** Little-endian integers *)

Lemma le_bytes_length n z : length (le_bytes n z) = n.
Proof. revert z. induction n; intros; simpl; auto. Qed.

Lemma le_bytes_is_byte n z : Forall is_byte (le_bytes n z).
Proof.
  revert z. induction n; intros; simpl; constructor; [|auto].
  apply Z.mod_pos_bound. lia.
Qed.

Lemma le_val_bytes n z : le_val (le_bytes n z) = z `mod` 256 ^ Z.of_nat n.
Proof.
  revert z. induction n as [|n IH]; intros z.
  { simpl. by rewrite Z.mod_1_r. }
  cbn [le_bytes le_val]. rewrite IH, Nat2Z.inj_succ, Z.pow_succ_r by lia.
  rewrite Z.rem_mul_r by lia. lia.
Qed.

Lemma le_val_bytes_small n z :
  0 ≤ z < 256 ^ Z.of_nat n → le_val (le_bytes n z) = z.
Proof. intros. rewrite le_val_bytes. by apply Z.mod_small. Qed.

Lemma le_val_bound bs :
  Forall is_byte bs → 0 ≤ le_val bs < 256 ^ Z.of_nat (length bs).
Proof.
  induction 1 as [|b bs Hb _ IH]; [simpl; lia|].
  cbn [le_val length]. rewrite Nat2Z.inj_succ, Z.pow_succ_r by lia.
  unfold is_byte in Hb. lia.
Qed.

Lemma le_bytes_val bs : Forall is_byte bs → le_bytes (length bs) (le_val bs) = bs.
Proof.
  induction 1 as [|b bs Hb _ IH]; [done|].
  cbn [le_val length le_bytes]. unfold is_byte in Hb. f_equal.
  - rewrite Z.mul_comm, Z.mod_add by lia. by apply Z.mod_small.
  - rewrite Z.mul_comm, Z.div_add, Z.div_small, Z.add_0_l by lia. done.
Qed.

(** ** Packed structures *)

Lemma enc_fields_length fs : length (enc_fields fs) = layout_size fs.*1.
Proof.
  induction fs as [|[n v] fs IH]; [done|].
  cbn [enc_fields fmap list_fmap layout_size foldr fst].
  rewrite length_app, le_bytes_length, IH. done.
Qed.

Lemma enc_fields_is_byte fs : Forall is_byte (enc_fields fs).
Proof.
  induction fs as [|[n v] fs IH]; cbn; [constructor|].
  apply Forall_app; split; [apply le_bytes_is_byte|done].
Qed.

Lemma dec_enc_fields fs :
  Forall field_ok fs → dec_fields fs.*1 (enc_fields fs) = fs.*2.
Proof.
  induction 1 as [|[n v] fs Hv _ IH]; [done|].
  cbn [enc_fields fmap list_fmap dec_fields fst snd].
  rewrite take_app_length', drop_app_length' by (by rewrite le_bytes_length).
  rewrite le_val_bytes_small by apply Hv. by f_equal.
Qed.

(** Writing back what was read: the layout has no padding to lose. *)
Lemma enc_dec_fields ws bs :
  Forall is_byte bs → length bs = layout_size ws →
  enc_fields (zip ws (dec_fields ws bs)) = bs.
Proof.
  revert bs. induction ws as [|n ws IH]; intros bs Hbs Hlen.
  { by destruct bs. }
  cbn [dec_fields zip_with enc_fields]. cbn [layout_size foldr] in Hlen.
  fold (layout_size ws) in Hlen.
  rewrite IH; [|by apply Forall_drop|rewrite length_drop; lia].
  assert (length (take n bs) = n) as Hn by (rewrite length_take; lia).
  rewrite <-Hn at 1. rewrite le_bytes_val by by apply Forall_take.
  apply take_drop.
Qed.

Lemma dec_fields_length ws bs : length (dec_fields ws bs) = length ws.
Proof. revert bs. induction ws; intros; simpl; auto. Qed.

Lemma field_ok_width (n : nat) v : 0 ≤ v < 256 ^ Z.of_nat n → field_ok (n, v).
Proof. done. Qed.

#[export] Hint Resolve le_bytes_is_byte enc_fields_is_byte : vroom.
