(* ===== verification/Machine.v ===== *)
(** The machine the driver runs on, and the monad its functions live in.

    A function of the source that touches its receiver, the DMA memory, a
    device register or the kernel is a function [S * World E → Res A * (S *
    World E)]: [S] is the object behind [&mut self] and [World E] is everything
    outside the driver.  The controller and the kernel are not part of the
    repository: their state is the abstract type [E], and the class [Hardware]
    holds the functions by which they answer.  Before each access of the driver
    the environment runs ([tick]) and may change its own state and the memory
    it shares with the driver, so that every interleaving of the controller
    with the driver is some instance of [Hardware]. *)

From S2P Require Import Prelude Bytes.

(** ** Errors and panics *)

(** [std::io::Error]: an OS error number or a kind with a message. *)
Inductive IoError :=
| OsError (errno : Z)
| CustomIo (kind message : string).

(** [error.rs]: the error type of the library. *)
Inductive Error :=
| Vroom (error : string)
| Io (error : IoError)
| Allocation (error : string)
| Mmap (error : string) (io_error : IoError)
| Ioctl (error : string) (io_error : IoError)
| Vfio (error : string)
| Mmio (error : string).

(** The reasons for which safe Rust code panics. *)
Inductive PanicKind :=
| Overflow
| DivisionByZero
| AssertFailed
| OutOfBounds
| UnwrapNone
| ExpectErr (message : string).

(** The outcome of a function: a value, the [Err] of its [Result], a panic,
    or a loop that used up its fuel. *)
Inductive Res (A : Type) :=
| Ret (a : A)
| Err (e : Error)
| Panicked (p : PanicKind)
| Diverged.
Arguments Ret {A} a.
Arguments Err {A} e.
Arguments Panicked {A} p.
Arguments Diverged {A}.

(** ** Memory, events, world *)

(** Memory by host virtual address; a cell holds one byte. *)
Definition Mem := Z → Z.

Definition load_bytes (m : Mem) (a : Z) (n : nat) : list Z :=
  (λ i : nat, m (a + Z.of_nat i) `mod` 256) <$> seq 0 n.

Definition store_bytes (m : Mem) (a : Z) (bs : list Z) : Mem :=
  λ x, if (a <=? x) && (x <? a + Z.of_nat (length bs))
       then nth (Z.to_nat (x - a)) bs 0 else m x.

(** The system calls of the driver with their arguments; a file is its
    descriptor or, where it has none yet, its path. *)
Inductive OsCall :=
| OsMmap (addr len prot flags fd offset : Z)
| OsMunmap (addr len : Z)
| OsMlock (addr len : Z)
| OsMunlock (addr len : Z)
| OsIoctl (fd op : Z) (arg : list Z)
| OsPread (fd count offset : Z)
| OsPwrite (fd : Z) (buf : list Z) (offset : Z)
| OsOpen (path : string) (write create : bool)
| OsCreate (path : string)
| OsSeek (fd offset : Z)
| OsRead (fd count : Z)
| OsWrite (fd : Z) (buf : list Z)
| OsReadAll (fd : Z)
| OsReadLink (path : string)
| OsExists (path : string)
| OsReadDir (path : string)
| OsFileLen (path : string).

(** What the driver does to the outside, in program order.  [EvStore] is a
    store to DMA memory, [EvRead] and [EvWrite] are volatile accesses of
    device registers with their width in bytes. *)
Inductive Event :=
| EvStore (addr : Z) (bytes : list Z)
| EvRead (width addr val : Z)
| EvWrite (width addr val : Z)
| EvOs (call : OsCall) (ret : IoError + Z).

(** The mutable statics of the crate: [HUGEPAGE_ID] of [physical.rs],
    [IOVA_WIDTH] and [VFIO_GROUP_FILE_DESCRIPTORS] of [vfio.rs]. *)
Record Statics := mkStatics {
  HUGEPAGE_ID : Z;
  IOVA_WIDTH : Z;
  VFIO_GROUP_FILE_DESCRIPTORS : gmap Z Z;
}.

Definition X86_VA_WIDTH : Z := 47.

Definition initial_statics : Statics := mkStatics 0 X86_VA_WIDTH ∅.

Record World (E : Type) := mkWorld {
  env : E;
  mem : Mem;
  trace : list Event;
  statics : Statics;
}.
Arguments mkWorld {E} _ _ _ _.
Arguments env {E} _.
Arguments mem {E} _.
Arguments trace {E} _.
Arguments statics {E} _.

(** The environment and the memory change, the rest stays. *)
Definition upd {E} (e : E) (m : Mem) (w : World E) : World E := mkWorld e m (trace w) (statics w).

(** The world in which a program starts. *)
Definition initial {E} (e : E) (m : Mem) : World E := mkWorld e m [] initial_statics.

(** The controller (and whatever else shares the memory): [hw_run] is what
    happens between two accesses of the driver, the other two are the
    register accesses. *)
Class Hardware (E : Type) := {
  hw_run : E → Mem → E * Mem;
  hw_read : Z → Z → E → Z * E;
  hw_write : Z → Z → Z → E → E;
}.

(** How the crate is built: [overflow_checks] is on in the [dev] profile and
    off in [release] (Cargo.toml leaves both at their defaults). *)
Class Build := overflow_checks : bool.

(** The constants of the [libc] crate the driver passes to the kernel. *)
Class Libc := {
  MAP_SHARED : Z;
  MAP_ANONYMOUS : Z;
  MAP_POPULATE : Z;
  MAP_FIXED : Z;
  MAP_32BIT : Z;
  MAP_HUGETLB : Z;
  MAP_HUGE_2MB : Z;
  MAP_HUGE_1GB : Z;
  PROT_READ : Z;
  PROT_WRITE : Z;
}.

(** Bound on the iterations of a spinning loop. *)
Class Fuel := spin_fuel : nat.

(** ** The monad *)

Definition M (E S A : Type) : Type := S * World E → Res A * (S * World E).

#[export] Instance M_ret {E S} : MRet (M E S) := λ A a st, (Ret a, st).

#[export] Instance M_bind {E S} : MBind (M E S) := λ A B f m st,
  match m st with
  | (Ret a, st') => f a st'
  | (Err e, st') => (Err e, st')
  | (Panicked p, st') => (Panicked p, st')
  | (Diverged, st') => (Diverged, st')
  end.

Definition throw {E S A} (e : Error) : M E S A := λ st, (Err e, st).
Definition panic {E S A} (p : PanicKind) : M E S A := λ st, (Panicked p, st).
Definition diverge {E S A} : M E S A := λ st, (Diverged, st).

Definition get {E S} : M E S S := λ st, (Ret st.1, st).
Definition put {E S} (s : S) : M E S unit := λ st, (Ret tt, (s, st.2)).
Definition modify {E S} (f : S → S) : M E S unit := λ st, (Ret tt, (f st.1, st.2)).

(** A call on a field of the receiver. *)
Definition zoom {E S T A} (g : S → T) (p : T → S → S) (m : M E T A) : M E S A :=
  λ st, let '(r, (t, w)) := m (g st.1, st.2) in (r, (p t st.1, w)).

(** A computation on a local variable: its final value is returned. *)
Definition with_local {E S T A} (t : T) (m : M E T A) : M E S (A * T) :=
  λ st, match m (t, st.2) with
        | (Ret a, (t', w)) => (Ret (a, t'), (st.1, w))
        | (Err e, (_, w)) => (Err e, (st.1, w))
        | (Panicked p, (_, w)) => (Panicked p, (st.1, w))
        | (Diverged, (_, w)) => (Diverged, (st.1, w))
        end.

(** A call whose [Result] is dropped. *)
Definition ignore {E S A} (m : M E S A) : M E S unit :=
  λ st, match m st with
        | (Ret _, st') => (Ret tt, st')
        | (Err _, st') => (Ret tt, st')
        | (Panicked p, st') => (Panicked p, st')
        | (Diverged, st') => (Diverged, st')
        end.

(** [assert!]. *)
Definition assert {E S} (b : bool) : M E S unit :=
  if b then mret tt else panic AssertFailed.

(** [Option::unwrap]. *)
Definition unwrap {E S A} (o : option A) : M E S A :=
  match o with Some a => mret a | None => panic UnwrapNone end.

(** Indexing of an array or slice of [n] elements. *)
Definition index {E S} (i n : Z) : M E S unit :=
  if (0 <=? i) && (i <? n) then mret tt else panic OutOfBounds.

Section arithmetic.
Context {E S : Type} `{BLD : Build}.

(** The result of [+], [-] or [*] at an unsigned type of [w] bits: a panic
    or the wrapped value, depending on the profile, when it does not fit. *)
Definition ck (w z : Z) : M E S Z :=
  if fits w z then mret z
  else if overflow_checks then panic Overflow else mret (wrap w z).

Definition ck16 : Z → M E S Z := ck 16.
Definition ck32 : Z → M E S Z := ck 32.
Definition ck64 : Z → M E S Z := ck 64.

(** [a << n] at [w] bits: bits shifted out are lost silently, an amount of
    [w] or more is an overflow. *)
Definition shl (w a n : Z) : M E S Z :=
  if n <? w then mret (wrap w (Z.shiftl a n))
  else if overflow_checks then panic Overflow
  else mret (wrap w (Z.shiftl a (n `mod` w))).

(** [a / b] and [a % b] on unsigned integers. *)
Definition udiv (a b : Z) : M E S Z :=
  if b =? 0 then panic DivisionByZero else mret (a / b).

Definition umod (a b : Z) : M E S Z :=
  if b =? 0 then panic DivisionByZero else mret (a `mod` b).

End arithmetic.

(** ** Accesses of the driver *)

Section access.
Context {E S : Type} `{HW : Hardware E}.

Definition tick (w : World E) : World E :=
  let '(e, m) := hw_run (env w) (mem w) in upd e m w.

Definition log (ev : Event) (w : World E) : World E :=
  mkWorld (env w) (mem w) (trace w ++ [ev]) (statics w).

(** Read [n] bytes of DMA memory. *)
Definition load (a : Z) (n : nat) : M E S (list Z) := λ st,
  let w := tick st.2 in (Ret (load_bytes (mem w) a n), (st.1, w)).

(** Write bytes to DMA memory. *)
Definition store (a : Z) (bs : list Z) : M E S unit := λ st,
  let w := tick st.2 in
  (Ret tt, (st.1, log (EvStore a bs) (upd (env w) (store_bytes (mem w) a bs) w))).

(** [ptr::read_volatile] of a register of [width] bytes. *)
Definition read_volatile (width a : Z) : M E S Z := λ st,
  let w := tick st.2 in
  let '(v, e) := hw_read width a (env w) in
  let v := wrap (8 * width) v in
  (Ret v, (st.1, log (EvRead width a v) (upd e (mem w) w))).

(** [ptr::write_volatile] to a register of [width] bytes. *)
Definition write_volatile (width a v : Z) : M E S unit := λ st,
  let w := tick st.2 in
  (Ret tt, (st.1, log (EvWrite width a v) (upd (hw_write width a v (env w)) (mem w) w))).

End access.

(** ** Loops *)

(** The iteration of a [for] loop over a list of values. *)
Fixpoint for_each {E S A} (l : list A) (body : A → M E S unit) : M E S unit :=
  match l with
  | [] => mret tt
  | a :: l => _ ← body a; for_each l body
  end.

(** The same with a variable that the body updates. *)
Fixpoint for_fold {E S A B} (l : list A) (body : B → A → M E S B) (b : B) : M E S B :=
  match l with
  | [] => mret b
  | a :: l => b ← body b a; for_fold l body b
  end.

(** A loop that carries [a] and may be left early with [b]. *)
Inductive Flow (A B : Type) :=
| Continue (a : A)
| Break (b : B).
Arguments Continue {A B} a.
Arguments Break {A B} b.

(** [loop { .. }] with at most [n] iterations. *)
Fixpoint loop {E S A B} (n : nat) (body : A → M E S (Flow A B)) (a : A) : M E S B :=
  match n with
  | O => diverge
  | S n =>
    f ← body a;
    match f with
    | Continue a => loop n body a
    | Break b => mret b
    end
  end.

(** ** Weakest preconditions *)

Section wp.
Context {E : Type}.

Definition wp {S A} (m : M E S A) (Q : Res A → S → World E → Prop)
    (s : S) (w : World E) : Prop :=
  Q (m (s, w)).1 (m (s, w)).2.1 (m (s, w)).2.2.

(** What a bind does with the outcome of its first half. *)
Definition then_ {S A B} (k : A → S → World E → Prop)
    (Q : Res B → S → World E → Prop) (r : Res A) (s : S) (w : World E) : Prop :=
  match r with
  | Ret a => k a s w
  | Err e => Q (Err e) s w
  | Panicked p => Q (Panicked p) s w
  | Diverged => Q Diverged s w
  end.

Context {S A : Type}.
Implicit Types (m : M E S A) (Q : Res A → S → World E → Prop) (s : S) (w : World E).

Lemma wp_bind {B} (m : M E S B) (f : B → M E S A) Q s w :
  wp m (then_ (λ b, wp (f b) Q) Q) s w → wp (m ≫= f) Q s w.
Proof.
  unfold wp, then_, mbind, M_bind.
  by destruct (m (s, w)) as [[b|e|p|] [s' w']].
Qed.

Lemma wp_bind_inv {B} (m : M E S B) (f : B → M E S A) Q s w :
  wp (m ≫= f) Q s w → wp m (then_ (λ b, wp (f b) Q) Q) s w.
Proof.
  unfold wp, then_, mbind, M_bind.
  by destruct (m (s, w)) as [[b|e|p|] [s' w']].
Qed.

Lemma wp_mono m Q Q' s w :
  wp m Q s w → (∀ r s' w', Q r s' w' → Q' r s' w') → wp m Q' s w.
Proof. unfold wp. auto. Qed.

(** From a weakest precondition to the run itself. *)
Lemma wp_run m Q s w :
  wp m Q s w → ∃ r s' w', m (s, w) = (r, (s', w')) ∧ Q r s' w'.
Proof. unfold wp. destruct (m (s, w)) as [r [s' w']]. eauto. Qed.

Lemma wp_ret a Q s w : Q (Ret a) s w → wp (mret a) Q s w.
Proof. done. Qed.

Lemma wp_throw e Q s w : Q (Err e) s w → wp (throw e) Q s w.
Proof. done. Qed.

Lemma wp_panic p Q s w : Q (Panicked p) s w → wp (panic p) Q s w.
Proof. done. Qed.

Lemma wp_diverge Q s w : Q Diverged s w → wp diverge Q s w.
Proof. done. Qed.

Lemma wp_zoom {T} (g : T → S) (p : S → T → T) m
    (Q : Res A → T → World E → Prop) (t : T) w :
  wp m (λ r s' w', Q r (p s' t) w') (g t) w → wp (zoom g p m) Q t w.
Proof.
  unfold wp, zoom. simpl. by destruct (m (g t, w)) as [r [s' w']].
Qed.

Lemma wp_ignore m (Q : Res unit → S → World E → Prop) s w :
  wp m (λ r s' w', Q (match r with
                      | Ret _ | Err _ => Ret tt
                      | Panicked p => Panicked p
                      | Diverged => Diverged end) s' w') s w →
  wp (ignore m) Q s w.
Proof. unfold wp, ignore. by destruct (m (s, w)) as [[]]. Qed.

Lemma wp_with_local {T} (t : T) (m : M E T A)
    (Q : Res (A * T) → S → World E → Prop) s w :
  wp m (λ r t' w', Q (match r with
                      | Ret a => Ret (a, t')
                      | Err e => Err e
                      | Panicked p => Panicked p
                      | Diverged => Diverged end) s w') t w →
  wp (with_local t m) Q s w.
Proof. unfold wp, with_local. simpl. by destruct (m (t, w)) as [[] [? ?]]. Qed.

End wp.

Section wp_primitives.
Context {E S : Type}.
Implicit Types (s : S) (w : World E).

Lemma wp_get (Q : Res S → S → World E → Prop) s w : Q (Ret s) s w → wp get Q s w.
Proof. done. Qed.

Lemma wp_put s' (Q : Res unit → S → World E → Prop) s w :
  Q (Ret tt) s' w → wp (put s') Q s w.
Proof. done. Qed.

Lemma wp_modify f (Q : Res unit → S → World E → Prop) s w :
  Q (Ret tt) (f s) w → wp (modify f) Q s w.
Proof. done. Qed.

Lemma wp_assert b (Q : Res unit → S → World E → Prop) s w :
  (b = true → Q (Ret tt) s w) → (b = false → Q (Panicked AssertFailed) s w) →
  wp (assert b) Q s w.
Proof. unfold assert, wp. destruct b; simpl; auto. Qed.

Lemma wp_unwrap {A} (o : option A) (Q : Res A → S → World E → Prop) s w :
  match o with Some a => Q (Ret a) s w | None => Q (Panicked UnwrapNone) s w end →
  wp (unwrap o) Q s w.
Proof. by destruct o. Qed.

Lemma wp_index i n (Q : Res unit → S → World E → Prop) s w :
  0 ≤ i < n → Q (Ret tt) s w → wp (index i n) Q s w.
Proof.
  intros. unfold index.
  by rewrite (proj2 (Z.leb_le 0 i)), (proj2 (Z.ltb_lt i n)) by lia.
Qed.

Section build.
Context `{BLD : Build}.

Lemma wp_ck n z (Q : Res Z → S → World E → Prop) s w :
  0 ≤ z < 2 ^ n → Q (Ret z) s w → wp (ck n z) Q s w.
Proof. intros. unfold ck. by rewrite fits_true. Qed.

Lemma wp_ck_overflow n z (Q : Res Z → S → World E → Prop) s w :
  ¬ (0 ≤ z < 2 ^ n) →
  (overflow_checks = true → Q (Panicked Overflow) s w) →
  (overflow_checks = false → Q (Ret (wrap n z)) s w) →
  wp (ck n z) Q s w.
Proof.
  intros Hz H1 H2. unfold ck. rewrite <-fits_spec in Hz.
  unfold wp. destruct (fits n z); [done|]. destruct overflow_checks; simpl; auto.
Qed.

Lemma wp_ck_panic n z (Q : Res Z → S → World E → Prop) s w :
  overflow_checks = true → ¬ (0 ≤ z < 2 ^ n) → Q (Panicked Overflow) s w → wp (ck n z) Q s w.
Proof. intros Hc Hz ?. apply wp_ck_overflow; [done..|]. by rewrite Hc. Qed.

Lemma wp_shl n a k (Q : Res Z → S → World E → Prop) s w :
  k < n → Q (Ret (wrap n (Z.shiftl a k))) s w → wp (shl n a k) Q s w.
Proof. intros. unfold shl. by rewrite (proj2 (Z.ltb_lt k n)). Qed.

Lemma wp_udiv a b (Q : Res Z → S → World E → Prop) s w :
  b ≠ 0 → Q (Ret (a / b)) s w → wp (udiv a b) Q s w.
Proof. intros. unfold udiv. by rewrite (proj2 (Z.eqb_neq b 0)). Qed.

Lemma wp_umod a b (Q : Res Z → S → World E → Prop) s w :
  b ≠ 0 → Q (Ret (a `mod` b)) s w → wp (umod a b) Q s w.
Proof. intros. unfold umod. by rewrite (proj2 (Z.eqb_neq b 0)). Qed.

End build.

Context `{HW : Hardware E}.

Lemma wp_load a n (Q : Res (list Z) → S → World E → Prop) s w :
  Q (Ret (load_bytes (mem (tick w)) a n)) s (tick w) → wp (load a n) Q s w.
Proof. done. Qed.

Lemma wp_store a bs (Q : Res unit → S → World E → Prop) s w :
  Q (Ret tt) s (log (EvStore a bs)
    (upd (env (tick w)) (store_bytes (mem (tick w)) a bs) (tick w))) →
  wp (store a bs) Q s w.
Proof. done. Qed.

Lemma wp_write_volatile n a v (Q : Res unit → S → World E → Prop) s w :
  Q (Ret tt) s (log (EvWrite n a v)
    (upd (hw_write n a v (env (tick w))) (mem (tick w)) (tick w))) →
  wp (write_volatile n a v) Q s w.
Proof. done. Qed.

Lemma wp_read_volatile n a (Q : Res Z → S → World E → Prop) s w :
  (∀ v e, v = wrap (8 * n) (hw_read n a (env (tick w))).1 →
     e = (hw_read n a (env (tick w))).2 →
     Q (Ret v) s (log (EvRead n a v) (upd e (mem (tick w)) (tick w)))) →
  wp (read_volatile n a) Q s w.
Proof.
  unfold wp, read_volatile. simpl. intros HQ.
  destruct (hw_read n a (env (tick w))) as [v e]. by apply HQ.
Qed.

End wp_primitives.

Section world.
Context {E : Type} `{HW : Hardware E}.

Lemma trace_tick (w : World E) : trace (tick w) = trace w.
Proof. unfold tick. by destruct (hw_run _ _). Qed.

Lemma trace_ticks n (w : World E) : trace (Nat.iter n tick w) = trace w.
Proof. induction n as [|n IH]; [done|]. cbn [Nat.iter nat_rect]. by rewrite trace_tick. Qed.

Lemma trace_log ev (w : World E) : trace (log ev w) = trace w ++ [ev].
Proof. done. Qed.

Lemma mem_log ev (w : World E) : mem (log ev w) = mem w.
Proof. done. Qed.

Lemma env_log ev (w : World E) : env (log ev w) = env w.
Proof. done. Qed.

Lemma trace_upd e m (w : World E) : trace (upd e m w) = trace w.
Proof. done. Qed.

Lemma statics_tick (w : World E) : statics (tick w) = statics w.
Proof. unfold tick. by destruct (hw_run _ _). Qed.

Lemma statics_log ev (w : World E) : statics (log ev w) = statics w.
Proof. done. Qed.

End world.

#[export] Hint Rewrite @trace_tick @trace_ticks @trace_log @mem_log @env_log @trace_upd
  @statics_tick @statics_log : world.

Ltac world := simpl; autorewrite with world; simpl.

(** ** Memory *)

Lemma load_bytes_length m a n : length (load_bytes m a n) = n.
Proof. unfold load_bytes. by rewrite length_fmap, length_seq. Qed.

Lemma load_bytes_is_byte m a n : Forall is_byte (load_bytes m a n).
Proof.
  unfold load_bytes. apply Forall_fmap, Forall_true.
  intros x. apply Z.mod_pos_bound. lia.
Qed.

Lemma load_bytes_ext m m' a n :
  (∀ x, a ≤ x < a + Z.of_nat n → m x = m' x) → load_bytes m a n = load_bytes m' a n.
Proof.
  intros Hm. unfold load_bytes. apply list_fmap_ext.
  intros i x Hx%list_elem_of_lookup_2. apply elem_of_seq in Hx.
  rewrite Hm by lia. done.
Qed.

(** A part of a larger load. *)
Lemma load_bytes_drop m a k n :
  drop k (load_bytes m a n) = load_bytes m (a + Z.of_nat k) (n - k).
Proof.
  apply list_eq. intros i. unfold load_bytes.
  rewrite lookup_drop, !list_lookup_fmap.
  destruct (decide (k + i < n)%nat).
  - rewrite !lookup_seq_lt by lia. simpl. do 3 f_equal. lia.
  - by rewrite !lookup_seq_ge by lia.
Qed.

Lemma load_bytes_take m a k n :
  (k ≤ n)%nat → take k (load_bytes m a n) = load_bytes m a k.
Proof.
  intros Hk. apply list_eq. intros i. unfold load_bytes.
  destruct (decide (i < k)%nat).
  - rewrite lookup_take_lt by done. rewrite !list_lookup_fmap.
    by rewrite !lookup_seq_lt by lia.
  - rewrite lookup_take_ge by lia. rewrite list_lookup_fmap.
    by rewrite lookup_seq_ge by lia.
Qed.

Lemma store_bytes_other m a bs x :
  ¬ (a ≤ x < a + Z.of_nat (length bs)) → store_bytes m a bs x = m x.
Proof.
  intros. unfold store_bytes.
  destruct (Z.leb_spec a x), (Z.ltb_spec x (a + Z.of_nat (length bs))); done || lia.
Qed.

Lemma store_bytes_in m a bs i b :
  bs !! i = Some b → store_bytes m a bs (a + Z.of_nat i) = b.
Proof.
  intros Hi. pose proof (lookup_lt_Some _ _ _ Hi). unfold store_bytes.
  destruct (Z.leb_spec a (a + Z.of_nat i)); [|lia].
  destruct (Z.ltb_spec (a + Z.of_nat i) (a + Z.of_nat (length bs))); [|lia].
  simpl. replace (Z.to_nat (a + Z.of_nat i - a)) with i by lia.
  by apply nth_lookup_Some.
Qed.

(** What was stored is what is read back. *)
Lemma load_store_same m a bs :
  Forall is_byte bs → load_bytes (store_bytes m a bs) a (length bs) = bs.
Proof.
  intros Hbs. apply list_eq. intros i. unfold load_bytes.
  rewrite list_lookup_fmap. destruct (bs !! i) as [b|] eqn:Hi.
  - pose proof (lookup_lt_Some _ _ _ Hi).
    rewrite lookup_seq_lt by done. simpl. erewrite store_bytes_in by done.
    rewrite Z.mod_small; [done|]. exact (Forall_lookup_1 _ _ _ _ Hbs Hi).
  - apply lookup_ge_None in Hi. rewrite lookup_seq_ge by done. done.
Qed.

Lemma load_store_disjoint m a bs a' n :
  a + Z.of_nat (length bs) ≤ a' ∨ a' + Z.of_nat n ≤ a →
  load_bytes (store_bytes m a bs) a' n = load_bytes m a' n.
Proof. intros. apply load_bytes_ext. intros. apply store_bytes_other. lia. Qed.

(** ** Automation

    [wp_bind_all] puts a chain of binds in weakest-precondition form one
    element at a time; [wp_step] applies the rule of the element in front. *)
Ltac wp_bind_all := repeat (apply wp_bind; cbn beta).

Ltac wp_step :=
  lazymatch goal with
  | |- wp (mbind _ _) _ _ _ => apply wp_bind
  | |- wp (mret _) _ _ _ => apply wp_ret; cbn [then_]
  | |- wp (throw _) _ _ _ => apply wp_throw; cbn [then_]
  | |- wp (panic _) _ _ _ => apply wp_panic; cbn [then_]
  | |- wp diverge _ _ _ => apply wp_diverge; cbn [then_]
  | |- wp get _ _ _ => apply wp_get; cbn [then_]
  | |- wp (put _) _ _ _ => apply wp_put; cbn [then_]
  | |- wp (modify _) _ _ _ => apply wp_modify; cbn [then_]
  | |- wp (zoom _ _ _) _ _ _ => apply wp_zoom
  | |- wp (ignore _) _ _ _ => apply wp_ignore
  | |- wp (with_local _ _) _ _ _ => apply wp_with_local
  | |- wp (load _ _) _ _ _ => apply wp_load; cbn [then_]
  | |- wp (store _ _) _ _ _ => apply wp_store; cbn [then_]
  | |- wp (write_volatile _ _ _) _ _ _ => apply wp_write_volatile; cbn [then_]
  | |- wp (read_volatile _ _) _ _ _ =>
      apply wp_read_volatile; intros ? ? ? ?; cbn [then_]
  | |- wp (index _ _) _ _ _ => apply wp_index; [try lia | cbn [then_]]
  | |- wp (ck16 ?z) _ _ _ => apply (wp_ck 16); [try lia | cbn [then_]]
  | |- wp (ck32 ?z) _ _ _ => apply (wp_ck 32); [try lia | cbn [then_]]
  | |- wp (ck64 ?z) _ _ _ => apply (wp_ck 64); [try lia | cbn [then_]]
  | |- wp (shl _ _ _) _ _ _ => apply wp_shl; [try lia | cbn [then_]]
  | |- wp (udiv _ _) _ _ _ => apply wp_udiv; [try lia | cbn [then_]]
  | |- wp (umod _ _) _ _ _ => apply wp_umod; [try lia | cbn [then_]]
  end.
