(* ===== verification/Memory.v ===== *)
(** [src/memory.rs]: page sizes, DMA regions and their chunks. *)

From S2P Require Import Prelude Bytes Machine.

Definition SHIFT_4KIB : Z := 12.
Definition PAGESIZE_4KIB : Z := Z.shiftl 1 SHIFT_4KIB.
Definition SHIFT_2MIB : Z := 21.
Definition PAGESIZE_2MIB : Z := Z.shiftl 1 SHIFT_2MIB.
Definition SHIFT_1GIB : Z := 30.
Definition PAGESIZE_1GIB : Z := Z.shiftl 1 SHIFT_1GIB.

(** ** Page sizes *)

Module Pagesize.

Inductive Pagesize := Page4K | Page2M | Page1G.

#[export] Instance Pagesize_eq_dec : EqDecision Pagesize.
Proof. solve_decision. Defined.

Definition size (self : Pagesize) : Z :=
  match self with
  | Page4K => PAGESIZE_4KIB
  | Page2M => PAGESIZE_2MIB
  | Page1G => PAGESIZE_1GIB
  end.

Definition shift (self : Pagesize) : Z :=
  match self with
  | Page4K => SHIFT_4KIB
  | Page2M => SHIFT_2MIB
  | Page1G => SHIFT_1GIB
  end.

(** [(size >> shift) + 1] is far below [2^64], so only the last shift can
    leave the range, and a left shift drops the bits it pushes out. *)
Definition shift_up (self : Pagesize) (n : Z) : Z :=
  if n `mod` size self =? 0 then n
  else wrap 64 (Z.shiftl (Z.shiftr n (shift self) + 1) (shift self)).

Definition from_usize (n : Z) : Pagesize :=
  if n =? PAGESIZE_4KIB then Page4K
  else if n =? PAGESIZE_2MIB then Page2M
  else if n =? PAGESIZE_1GIB then Page1G
  else Page2M.

Definition mmap_flags `{LC : Libc} (self : Pagesize) : Z :=
  match self with
  | Page4K => 0
  | Page2M => Z.lor MAP_HUGETLB MAP_HUGE_2MB
  | Page1G => Z.lor MAP_HUGETLB MAP_HUGE_1GB
  end.

Definition from_str (s : string) : Pagesize :=
  if bool_decide (s = "4k"%string) then Page4K
  else if bool_decide (s = "2m"%string) then Page2M
  else if bool_decide (s = "1g"%string) then Page1G
  else Page2M.

Definition fmt (self : Pagesize) : string :=
  match self with
  | Page4K => "4KiB"
  | Page2M => "2MiB"
  | Page1G => "1GiB"
  end.

End Pagesize.

#[export] Instance Pagesize_eq_dec : EqDecision Pagesize.Pagesize.
Proof. solve_decision. Defined.

Definition DEFAULT_PAGE_SIZE : Pagesize.Pagesize := Pagesize.Page2M.

(** ** DMA regions *)

(** [Dma<T>]: [T] only fixes the element size, which the operations that
    need it take as an argument. *)
Record Dma := mkDma {
  virt : Z;
  phys : Z;
  size : Z;
}.

(** A [&[u8]] or [&mut [u8]] made from raw parts. *)
Record Slice := mkSlice {
  ptr : Z;
  len : Z;
}.

Record DmaChunk := mkDmaChunk {
  phys_addr : Z;
  chunk_slice : Slice;
}.

Record DmaChunks := mkDmaChunks {
  current_offset : Z;
  chunk_size : Z;
  dma : Dma;
}.

Module Dma.
Section Dma.
Context {E S : Type} `{BLD : Build}.

(** [DmaSlice::chunks] for [Dma<u8>]. *)
Definition chunks (self : Dma) (bytes : Z) : DmaChunks := mkDmaChunks 0 bytes self.

(** [DmaSlice::slice] for [Dma<u8>]. *)
Definition slice (self : Dma) (start end_ : Z) : M E S Dma :=
  _ ← assert (end_ <=? size self);
  p ← ck64 (phys self + start);
  n ← ck64 (end_ - start);
  mret (mkDma (virt self + start) p n).

(** [Index<Range<usize>>] and [IndexMut<Range<usize>>]. *)
Definition index_range (self : Dma) (start end_ : Z) : M E S Slice :=
  _ ← assert (end_ <=? size self);
  n ← ck64 (end_ - start);
  mret (mkSlice (virt self + start) n).

(** [Index<RangeTo<usize>>] and [Index<RangeFull>]. *)
Definition index_to (self : Dma) (end_ : Z) : M E S Slice := index_range self 0 end_.
Definition index_full (self : Dma) : M E S Slice := index_range self 0 (size self).

End Dma.
End Dma.

Module DmaChunks.
Section DmaChunks.
Context {E S : Type} `{BLD : Build}.

(** [Iterator::next] for [DmaChunks<T>] with [size_of::<T>() = elt]. *)
Definition next (elt : Z) (self : DmaChunks) : M E S (option DmaChunk * DmaChunks) :=
  if size (dma self) <=? current_offset self then mret (None, self)
  else
    o ← ck64 (current_offset self * elt);
    p ← ck64 (phys (dma self) + o);
    n ← udiv (size (dma self) - current_offset self) elt;
    let len := Z.min (chunk_size self) n in
    co ← ck64 (current_offset self + len);
    mret (Some (mkDmaChunk p (mkSlice (virt (dma self) + current_offset self * elt) len)),
          mkDmaChunks co (chunk_size self) (dma self)).

(** [for chunk in data.chunks(bytes) { body }] over a [Dma<u8>]: the loop
    carries [a] and ends with [fin a] or early. *)
Definition for_chunks {A B} (fuel : nat) (it : DmaChunks)
    (body : A → DmaChunk → M E S (Flow A B)) (fin : A → B) (a : A) : M E S B :=
  loop fuel (λ st : DmaChunks * A,
    o ← next 1 st.1;
    match o with
    | (None, _) => mret (Break (fin st.2))
    | (Some c, it) =>
      f ← body st.2 c;
      match f with
      | Continue a => mret (Continue (it, a))
      | Break b => mret (Break b)
      end
    end) (it, a).

(** One more call of [next] than there are chunks. *)
Definition chunk_fuel (it : DmaChunks) : nat :=
  Z.to_nat ((size (dma it) + chunk_size it - 1) / chunk_size it + 1).

(** The chunks as a list. *)
Definition collect (it : DmaChunks) : M E S (list DmaChunk) :=
  for_chunks (chunk_fuel it) it (λ l c, mret (Continue (l ++ [c]))) (λ l, l) [].

End DmaChunks.
End DmaChunks.

(** ** Pure counterparts of the iterations *)

(** [for_flow]: the loop of [for_chunks] over a list. *)
Fixpoint for_flow {E S C A B} (l : list C) (body : A → C → M E S (Flow A B))
    (fin : A → B) (a : A) : M E S B :=
  match l with
  | [] => mret (fin a)
  | c :: l =>
    f ← body a c;
    match f with
    | Continue a => for_flow l body fin a
    | Break b => mret b
    end
  end.

(** The [i]-th chunk of [bytes] bytes of a region. *)
Definition nth_chunk (d : Dma) (bytes i : Z) : DmaChunk :=
  mkDmaChunk (phys d + i * bytes)
    (mkSlice (virt d + i * bytes) (Z.min bytes (size d - i * bytes))).

Definition n_chunks (d : Dma) (bytes : Z) : Z := (size d + bytes - 1) / bytes.

Definition chunk_list (d : Dma) (bytes : Z) : list DmaChunk :=
  nth_chunk d bytes <$> zrange 0 (n_chunks d bytes).

(** A region whose addresses are machine addresses. *)
Definition dma_ok (d : Dma) : Prop :=
  0 ≤ phys d ∧ 0 ≤ virt d ∧ 0 ≤ size d ∧ phys d + size d < 2 ^ 64 ∧ virt d + size d < 2 ^ 64.

(** Loops over the elements numbered from [i] to [n], with an invariant. *)
Section loops.
Context {E S C A : Type} (c : Z → C) (n : Z) (I : Z → A → S → World E → Prop).

Lemma wp_for_flow {B} (body : A → C → M E S (Flow A B)) fin i a s w
    (Q : Res B → S → World E → Prop) :
  (∀ j a s w, i ≤ j < n → I j a s w →
     wp (body a (c j)) (λ r s' w', ∃ a', r = Ret (Continue a') ∧ I (j + 1) a' s' w') s w) →
  i ≤ n → I i a s w → (∀ a s w, I n a s w → Q (Ret (fin a)) s w) →
  wp (for_flow (c <$> zrange i n) body fin a) Q s w.
Proof.
  intros Hbody Hi HI HQ. remember (Z.to_nat (n - i)) as k eqn:Hk.
  revert i a s w Hk Hbody Hi HI. induction k as [|k IH]; intros i a s w Hk Hbody Hi HI.
  { assert (i = n) as -> by lia. rewrite zrange_nil by lia. by apply HQ. }
  rewrite zrange_cons by lia. cbn [fmap list_fmap for_flow]. apply wp_bind.
  eapply wp_mono; [apply Hbody; [lia|exact HI]|].
  intros ? s' w' (a' & -> & HI'). cbn [then_]. apply IH; [lia| |lia|done].
  intros j a'' s'' w'' Hj. apply Hbody. lia.
Qed.

Lemma wp_for_fold (body : A → C → M E S A) i a s w (Q : Res A → S → World E → Prop) :
  (∀ j a s w, i ≤ j < n → I j a s w →
     wp (body a (c j)) (λ r s' w', ∃ a', r = Ret a' ∧ I (j + 1) a' s' w') s w) →
  i ≤ n → I i a s w → (∀ a s w, I n a s w → Q (Ret a) s w) →
  wp (for_fold (c <$> zrange i n) body a) Q s w.
Proof.
  intros Hbody Hi HI HQ. remember (Z.to_nat (n - i)) as k eqn:Hk.
  revert i a s w Hk Hbody Hi HI. induction k as [|k IH]; intros i a s w Hk Hbody Hi HI.
  { assert (i = n) as -> by lia. rewrite zrange_nil by lia. by apply HQ. }
  rewrite zrange_cons by lia. cbn [fmap list_fmap for_fold]. apply wp_bind.
  eapply wp_mono; [apply Hbody; [lia|exact HI]|].
  intros ? s' w' (a' & -> & HI'). cbn [then_]. apply IH; [lia| |lia|done].
  intros j a'' s'' w'' Hj. apply Hbody. lia.
Qed.

End loops.

(** ** Page sizes *)

Lemma size_shift p : Pagesize.size p = 2 ^ Pagesize.shift p.
Proof. by destruct p. Qed.

Lemma size_pos p : 0 < Pagesize.size p.
Proof. by destruct p. Qed.

Lemma shift_up_ceil p n :
  0 ≤ n → Pagesize.shift_up p n =
  if n `mod` Pagesize.size p =? 0 then n
  else wrap 64 ((n + Pagesize.size p - 1) / Pagesize.size p * Pagesize.size p).
Proof.
  intros Hn. unfold Pagesize.shift_up.
  destruct (Z.eqb_spec (n `mod` Pagesize.size p) 0) as [|Hmod]; [done|].
  rewrite Z.shiftl_mul_pow2, Z.shiftr_div_pow2 by (destruct p; done).
  rewrite <-size_shift, ceil_inexact by (done || apply size_pos). done.
Qed.

Lemma shift_up_fits p n :
  0 ≤ n ≤ 2 ^ 64 - Pagesize.size p →
  n ≤ Pagesize.shift_up p n < n + Pagesize.size p ∧
  (Pagesize.size p | Pagesize.shift_up p n).
Proof.
  intros [Hn Hle]. rewrite shift_up_ceil by done. pose proof (size_pos p) as Hp.
  destruct (Z.eqb_spec (n `mod` Pagesize.size p) 0) as [Hm|Hm].
  { split; [lia|]. apply Z.mod_divide; lia. }
  rewrite wrap_small.
  - split; [by apply ceil_bounds|by apply Z.divide_factor_r].
  - assert (∃ q, 2 ^ 64 = q * Pagesize.size p) as [q Hq].
    { rewrite size_shift. exists (2 ^ (64 - Pagesize.shift p)).
      rewrite <-Z.pow_add_r by (destruct p; done). f_equal. destruct p; done. }
    rewrite Hq in *. set (k := Pagesize.size p) in *. clearbody k.
    pose proof (ceil_nonneg k n Hp Hn).
    assert ((n + k - 1) / k < q); [|nia].
    rewrite ceil_inexact by done.
    assert (n / k < q - 1); [|lia].
    apply Z.div_lt_upper_bound; [done|].
    assert (n ≠ (q - 1) * k) by (intros ->; by rewrite Z.mod_mul in Hm by lia).
    nia.
Qed.

Lemma shift_up_wraps p n :
  2 ^ 64 - Pagesize.size p < n < 2 ^ 64 → Pagesize.shift_up p n = 0.
Proof.
  intros Hn. assert (∃ q, 0 < q ∧ 2 ^ 64 = q * Pagesize.size p) as (q & Hq0 & Hq).
  { rewrite size_shift. exists (2 ^ (64 - Pagesize.shift p)). split.
    - apply Z.pow_pos_nonneg; [done|by destruct p].
    - rewrite <-Z.pow_add_r by (destruct p; done). f_equal. destruct p; done. }
  pose proof (size_pos p) as Hp. rewrite shift_up_ceil by (rewrite Hq in Hn; nia).
  rewrite Hq in Hn. set (k := Pagesize.size p) in *.
  destruct (Z.eqb_spec (n `mod` k) 0) as [Hm|Hm].
  - apply Z.mod_divide in Hm as [a ->]; [|lia].
    assert (q - 1 < a) by (apply (Zmult_lt_reg_r _ _ k); lia).
    assert (a < q) by (apply (Zmult_lt_reg_r _ _ k); lia). lia.
  - rewrite ceil_inexact by done.
    assert (n / k = q - 1) as ->.
    { symmetry. apply Z.div_unique with (n - (q - 1) * k); [left|]; nia. }
    by rewrite Z.sub_add, <-Hq.
Qed.

(** ** The chunk iterator *)

Section chunks.
Context {E S : Type} `{BLD : Build}.
Implicit Types (d : Dma) (st : S * World E).

Lemma ck_fits w z st : 0 ≤ z < 2 ^ w → ck (E:=E) (S:=S) w z st = (Ret z, st).
Proof. intros. unfold ck. by rewrite fits_true. Qed.

Lemma n_chunks_bounds d bytes :
  0 < bytes → (n_chunks d bytes - 1) * bytes < size d ≤ n_chunks d bytes * bytes.
Proof. intros Hb. pose proof (ceil_bounds bytes (size d) Hb). unfold n_chunks. nia. Qed.

Lemma n_chunks_nonneg d bytes : 0 < bytes → 0 ≤ size d → 0 ≤ n_chunks d bytes.
Proof. apply ceil_nonneg. Qed.

(** The iterator after [i] chunks. *)
Definition chunks_at d bytes i : DmaChunks :=
  mkDmaChunks (Z.min (i * bytes) (size d)) bytes d.

Lemma next_chunk d bytes i st :
  dma_ok d → 0 < bytes → 0 ≤ i < n_chunks d bytes →
  DmaChunks.next 1 (chunks_at d bytes i) st =
  (Ret (Some (nth_chunk d bytes i), chunks_at d bytes (i + 1)), st).
Proof.
  intros (?&?&?&?&?) Hb Hi. pose proof (n_chunks_bounds d bytes Hb).
  assert (i * bytes < size d) by nia.
  unfold DmaChunks.next, chunks_at, nth_chunk. simpl.
  rewrite (Z.min_l (i * bytes)) by lia.
  destruct (Z.leb_spec (size d) (i * bytes)); [lia|].
  unfold mbind, M_bind, ck64. rewrite Z.mul_1_r.
  rewrite ck_fits by nia. rewrite ck_fits by nia.
  simpl. rewrite Z.div_1_r. rewrite ck_fits by lia.
  unfold mret, M_ret. repeat (f_equal; try lia).
Qed.

Lemma next_end d bytes i st :
  0 < bytes → n_chunks d bytes ≤ i →
  DmaChunks.next 1 (chunks_at d bytes i) st = (Ret (None, chunks_at d bytes i), st).
Proof.
  intros Hb Hi. pose proof (n_chunks_bounds d bytes Hb).
  unfold DmaChunks.next. simpl.
  rewrite Z.min_r by nia. by rewrite Z.leb_refl.
Qed.

Lemma for_chunks_at {A B} fuel d bytes i (body : A → DmaChunk → M E S (Flow A B)) fin a st :
  dma_ok d → 0 < bytes → 0 ≤ i ≤ n_chunks d bytes →
  (Z.to_nat (n_chunks d bytes - i) < fuel)%nat →
  DmaChunks.for_chunks fuel (chunks_at d bytes i) body fin a st =
  for_flow (nth_chunk d bytes <$> zrange i (n_chunks d bytes)) body fin a st.
Proof.
  intros Hd Hb. revert i a st. induction fuel as [|fuel IH]; intros i a st Hi Hf; [lia|].
  unfold DmaChunks.for_chunks. cbn [loop fst snd].
  unfold mbind, M_bind. destruct (decide (i = n_chunks d bytes)) as [->|Hne].
  - rewrite next_end, zrange_nil by lia. done.
  - rewrite next_chunk, zrange_cons by (done || lia).
    cbn [fmap list_fmap for_flow]. unfold mbind, M_bind.
    destruct (body a _ st) as [[[a'|b]|e|p|] st']; try done.
    cbn. apply IH; lia.
Qed.

(** The loop of the source visits the chunks of [chunk_list], in order. *)
Lemma for_chunks_list {A B} d bytes (body : A → DmaChunk → M E S (Flow A B)) fin a st :
  dma_ok d → 0 < bytes →
  let it := Dma.chunks d bytes in
  DmaChunks.for_chunks (DmaChunks.chunk_fuel it) it body fin a st =
  for_flow (chunk_list d bytes) body fin a st.
Proof.
  intros Hd Hb it. destruct Hd as (?&?&?&?&?) eqn:Hd'.
  assert (it = chunks_at d bytes 0) as ->.
  { unfold it, chunks_at, Dma.chunks. f_equal. lia. }
  pose proof (n_chunks_nonneg d bytes Hb ltac:(lia)).
  apply for_chunks_at; [done..|lia|].
  unfold DmaChunks.chunk_fuel. simpl. fold (n_chunks d bytes). lia.
Qed.

Lemma for_flow_collect (l acc : list DmaChunk) st :
  for_flow l (λ acc c, mret (Continue (acc ++ [c]))) (λ acc, acc) acc st = (Ret (acc ++ l), st).
Proof.
  revert acc. induction l as [|c l IH]; intros acc; simpl.
  - by rewrite app_nil_r.
  - unfold mbind, M_bind at 1. simpl. rewrite IH. by rewrite <-app_assoc.
Qed.

End chunks.

(** A chunk lies inside its region and the chunks are adjacent. *)
Lemma nth_chunk_bounds d bytes i :
  0 < bytes → 0 ≤ size d → 0 ≤ i < n_chunks d bytes →
  let c := nth_chunk d bytes i in
  phys_addr c - phys d = ptr (chunk_slice c) - virt d ∧
  0 < len (chunk_slice c) ≤ bytes ∧
  ptr (chunk_slice c) + len (chunk_slice c) ≤ virt d + size d ∧
  (i + 1 < n_chunks d bytes → len (chunk_slice c) = bytes).
Proof.
  intros Hb Hs Hi c. pose proof (n_chunks_bounds d bytes Hb).
  unfold c, nth_chunk. simpl. repeat split; try nia.
Qed.

Lemma sum_chunk_len d bytes i :
  0 < bytes → 0 ≤ i ≤ n_chunks d bytes → i * bytes ≤ size d →
  foldr Z.add 0 ((λ c, len (chunk_slice c)) <$>
    (nth_chunk d bytes <$> zrange i (n_chunks d bytes))) = size d - i * bytes.
Proof.
  intros Hb. pose proof (n_chunks_bounds d bytes Hb).
  remember (Z.to_nat (n_chunks d bytes - i)) as k eqn:Hk. revert i Hk.
  induction k as [|k IH]; intros i Hk Hi Hs.
  - rewrite zrange_nil by lia. simpl. nia.
  - rewrite zrange_cons by lia. cbn [fmap list_fmap foldr].
    destruct (decide (i + 1 = n_chunks d bytes)) as [He|].
    + rewrite zrange_nil by lia. simpl. nia.
    + rewrite IH by nia. simpl. nia.
Qed.

Lemma slice_ok `{BLD : Build} {E S} d a b (st : S * World E) :
  dma_ok d → 0 ≤ a ≤ b → b ≤ size d →
  Dma.slice d a b st = (Ret (mkDma (virt d + a) (phys d + a) (b - a)), st).
Proof.
  intros (?&?&?&?&?) Ha Hb. unfold Dma.slice, assert, mbind, M_bind, ck64.
  rewrite (proj2 (Z.leb_le _ _) Hb). simpl. rewrite ck_fits by lia.
  by rewrite ck_fits by lia.
Qed.

Lemma index_range_ok `{BLD : Build} {E S} d a b (st : S * World E) :
  dma_ok d → 0 ≤ a ≤ b → b ≤ size d →
  Dma.index_range d a b st = (Ret (mkSlice (virt d + a) (b - a)), st).
Proof.
  intros (?&?&?&?&?) Ha Hb. unfold Dma.index_range, assert, mbind, M_bind, ck64.
  rewrite (proj2 (Z.leb_le _ _) Hb). simpl. by rewrite ck_fits by lia.
Qed.

Lemma index_range_oob `{BLD : Build} {E S} d a b (st : S * World E) :
  size d < b → Dma.index_range d a b st = (Panicked AssertFailed, st).
Proof.
  intros Hb. unfold Dma.index_range, assert, mbind, M_bind.
  by rewrite (proj2 (Z.leb_gt _ _) Hb).
Qed.

(** ** Properties *)

(** [Pagesize::shift_up] rounds an allocation size up to the least
    multiple of the page size that is not smaller; the only sizes for which it
    does not are those within one page of [2^64], where it wraps to zero. *)
Lemma shift_up_rounds (p : Pagesize.Pagesize) (n : Z) :
  0 ≤ n < 2 ^ 64 →
  let r := Pagesize.shift_up p n in
  (n ≤ 2 ^ 64 - Pagesize.size p →
     n ≤ r < n + Pagesize.size p ∧ (Pagesize.size p | r) ∧
     ∀ m, (Pagesize.size p | m) → n ≤ m → r ≤ m) ∧
  (2 ^ 64 - Pagesize.size p < n → r = 0).
Proof.
  intros Hn r. split; intros Hle; [|apply shift_up_wraps; lia].
  destruct (shift_up_fits p n) as [Hr Hd]; [lia|].
  split; [done|]. split; [done|]. intros m [b ->] Hm.
  destruct Hd as [a Ha]. fold r in Hr, Ha. pose proof (size_pos p).
  assert (a - 1 < b) by (apply (Zmult_lt_reg_r _ _ (Pagesize.size p)); lia).
  rewrite Ha. apply Z.mul_le_mono_nonneg_r; lia.
Qed.

(** Iterating over the chunks of a DMA region terminates and yields
    exactly the partition of the region into pieces of [bytes] bytes: adjacent
    addresses, every piece of [bytes] bytes except a shorter last one, and
    nothing left out. *)
Lemma chunks_partition `{BLD : Build} {E S} (d : Dma) (bytes : Z) (st : S * World E) :
  dma_ok d → 0 < bytes →
  DmaChunks.collect (Dma.chunks d bytes) st = (Ret (chunk_list d bytes), st) ∧
  foldr Z.add 0 ((λ c, len (chunk_slice c)) <$> chunk_list d bytes) = size d ∧
  (∀ i c, chunk_list d bytes !! i = Some c →
     phys_addr c = phys d + Z.of_nat i * bytes ∧
     ptr (chunk_slice c) = virt d + Z.of_nat i * bytes ∧
     0 < len (chunk_slice c) ≤ bytes ∧
     ptr (chunk_slice c) + len (chunk_slice c) ≤ virt d + size d ∧
     (i + 1 < length (chunk_list d bytes) → len (chunk_slice c) = bytes)%nat).
Proof.
  intros Hd Hb. assert (0 ≤ size d) as Hs by apply Hd. split; [|split].
  - unfold DmaChunks.collect.
    rewrite for_chunks_list by done. apply for_flow_collect.
  - pose proof (n_chunks_nonneg d bytes Hb Hs).
    unfold chunk_list. rewrite sum_chunk_len by lia. lia.
  - intros i c Hi. unfold chunk_list in *.
    rewrite length_fmap, zrange_length. rewrite list_lookup_fmap in Hi.
    unfold zrange in Hi. rewrite list_lookup_fmap in Hi.
    destruct (seq _ _ !! i) as [k|] eqn:Hk; [|done].
    apply lookup_seq in Hk as [-> Hk]. simpl in Hi. simplify_eq.
    pose proof (nth_chunk_bounds d bytes (Z.of_nat i) Hb Hs ltac:(lia)).
    simpl in *. destruct_and!. repeat split; lia || (intros; auto with lia).
Qed.

(** [Dma::slice] checks only the upper bound of its range.  A range with
    [start <= end <= size] gives the sub-region at the same offset of both
    addresses; [end > size] panics; a reversed range panics when overflow
    checks are on, and with them off yields a region of [2^64 - (start - end)]
    bytes, far larger than the one it was cut from. *)
Lemma slice_ranges `{BLD : Build} {E S} (d : Dma) (a b : Z) (st : S * World E) :
  dma_ok d → 0 ≤ a → 0 ≤ b → phys d + a < 2 ^ 64 →
  (a ≤ b ≤ size d →
     Dma.slice d a b st = (Ret (mkDma (virt d + a) (phys d + a) (b - a)), st) ∧
     dma_ok (mkDma (virt d + a) (phys d + a) (b - a))) ∧
  (size d < b → Dma.slice d a b st = (Panicked AssertFailed, st)) ∧
  (b < a → b ≤ size d →
     Dma.slice d a b st =
     (if overflow_checks then Panicked Overflow
      else Ret (mkDma (virt d + a) (phys d + a) (2 ^ 64 + (b - a))), st)).
Proof.
  intros Hd Ha Hb Hpa. split; [|split].
  - intros [Hab Hbs]. split; [by apply slice_ok|].
    destruct Hd as (?&?&?&?&?). unfold dma_ok. simpl. lia.
  - intros Hbs. unfold Dma.slice, assert, mbind, M_bind.
    by rewrite (proj2 (Z.leb_gt _ _) Hbs).
  - intros Hba Hbs. destruct Hd as (?&?&?&?&?).
    unfold Dma.slice, assert, mbind, M_bind, ck64.
    rewrite (proj2 (Z.leb_le _ _) Hbs). simpl. rewrite ck_fits by lia.
    unfold ck. destruct (fits 64 (b - a)) eqn:Hf.
    { apply fits_spec in Hf. lia. }
    destruct overflow_checks; [done|]. unfold wrap.
    rewrite <-(Z.mod_unique (b - a) (2 ^ 64) (-1) (2 ^ 64 + (b - a))) by lia. done.
Qed.

(** [DmaChunks<T>] counts its offset in elements but compares it with the
    size of the region in bytes.  For an element type of two bytes or more the
    iterator therefore goes on after it has yielded every element: with the
    offset at [k], the number of elements of the region, [next] returns one
    more chunk, which starts at the end of the region. *)
Lemma typed_chunks_overrun `{BLD : Build} {E S} (d : Dma) (elt k bytes : Z) (st : S * World E) :
  dma_ok d → 2 ≤ elt → 0 < k → size d = k * elt → 2 ≤ bytes < 2 ^ 64 → elt ≤ k * (elt - 1) →
  ∃ c it',
    DmaChunks.next elt (mkDmaChunks k bytes d) st = (Ret (Some c, it'), st) ∧
    ptr (chunk_slice c) = virt d + size d ∧ 0 < len (chunk_slice c).
Proof.
  intros (?&?&?&?&?) He Hk Hs Hb Hke.
  assert (1 ≤ (size d - k) / elt) by (apply Z.div_le_lower_bound; nia).
  assert ((size d - k) / elt < 2 ^ 64 - k).
  { apply Z.div_lt_upper_bound; nia. }
  eexists _, _. unfold DmaChunks.next. simpl.
  destruct (Z.leb_spec (size d) k); [nia|].
  unfold mbind, M_bind, ck64, udiv. rewrite ck_fits by nia. rewrite ck_fits by nia.
  rewrite (proj2 (Z.eqb_neq elt 0)) by lia. simpl. rewrite ck_fits by lia.
  split; [reflexivity|]. simpl. split; lia.
Qed.
