(* ===== verification/Cmd.v ===== *)
(** [src/cmd.rs]: submission queue entries.

    [NvmeCommand] is the 64-byte entry the controller fetches; its memory image
    is the packed layout of the record ([encode], read back by [decode]). *)

From S2P Require Import Prelude Bytes.

Record NvmeCommand := mkNvmeCommand {
  opcode : Z;
  flags : Z;
  c_id : Z;
  ns_id : Z;
  _rsvd : Z;
  md_ptr : Z;
  d_ptr : Z * Z;
  cdw10 : Z;
  cdw11 : Z;
  cdw12 : Z;
  cdw13 : Z;
  cdw14 : Z;
  cdw15 : Z;
}.

#[export] Instance NvmeCommand_eq_dec : EqDecision NvmeCommand.
Proof. solve_decision. Defined.

Module NvmeCommand.

(** [Default::default()]. *)
Definition default : NvmeCommand :=
  mkNvmeCommand 0 0 0 0 0 0 (0, 0) 0 0 0 0 0 0.

Definition create_io_completion_queue (c_id qid ptr size : Z) : NvmeCommand :=
  {| opcode := 5; flags := 0; c_id := c_id; ns_id := 0; _rsvd := 0; md_ptr := 0;
     d_ptr := (ptr, 0);
     cdw10 := Z.lor (wrap 32 (Z.shiftl size 16)) qid;
     cdw11 := 1;
     cdw12 := 0; cdw13 := 0; cdw14 := 0; cdw15 := 0 |}.

Definition create_io_submission_queue (c_id q_id ptr size cq_id : Z) : NvmeCommand :=
  {| opcode := 1; flags := 0; c_id := c_id; ns_id := 0; _rsvd := 0; md_ptr := 0;
     d_ptr := (ptr, 0);
     cdw10 := Z.lor (wrap 32 (Z.shiftl size 16)) q_id;
     cdw11 := Z.lor (wrap 32 (Z.shiftl cq_id 16)) 1;
     cdw12 := 0; cdw13 := 0; cdw14 := 0; cdw15 := 0 |}.

Definition delete_io_submission_queue (c_id q_id : Z) : NvmeCommand :=
  {| opcode := 0; flags := flags default; c_id := c_id; ns_id := ns_id default;
     _rsvd := _rsvd default; md_ptr := md_ptr default; d_ptr := d_ptr default;
     cdw10 := q_id;
     cdw11 := cdw11 default; cdw12 := cdw12 default; cdw13 := cdw13 default;
     cdw14 := cdw14 default; cdw15 := cdw15 default |}.

Definition delete_io_completion_queue (c_id q_id : Z) : NvmeCommand :=
  {| opcode := 4; flags := flags default; c_id := c_id; ns_id := ns_id default;
     _rsvd := _rsvd default; md_ptr := md_ptr default; d_ptr := d_ptr default;
     cdw10 := q_id;
     cdw11 := cdw11 default; cdw12 := cdw12 default; cdw13 := cdw13 default;
     cdw14 := cdw14 default; cdw15 := cdw15 default |}.

Definition identify_namespace (c_id ptr ns_id : Z) : NvmeCommand :=
  {| opcode := 6; flags := 0; c_id := c_id; ns_id := ns_id; _rsvd := 0; md_ptr := 0;
     d_ptr := (ptr, 0);
     cdw10 := 0; cdw11 := 0; cdw12 := 0; cdw13 := 0; cdw14 := 0; cdw15 := 0 |}.

Definition identify_controller (c_id ptr : Z) : NvmeCommand :=
  {| opcode := 6; flags := 0; c_id := c_id; ns_id := 0; _rsvd := 0; md_ptr := 0;
     d_ptr := (ptr, 0);
     cdw10 := 1; cdw11 := 0; cdw12 := 0; cdw13 := 0; cdw14 := 0; cdw15 := 0 |}.

Definition identify_namespace_list (c_id ptr base : Z) : NvmeCommand :=
  {| opcode := 6; flags := 0; c_id := c_id; ns_id := base; _rsvd := 0; md_ptr := 0;
     d_ptr := (ptr, 0);
     cdw10 := 2; cdw11 := 0; cdw12 := 0; cdw13 := 0; cdw14 := 0; cdw15 := 0 |}.

(** The command id is an argument and is not stored. *)
Definition get_features (_c_id ptr fid : Z) : NvmeCommand :=
  {| opcode := 10; flags := flags default; c_id := c_id default; ns_id := ns_id default;
     _rsvd := _rsvd default; md_ptr := md_ptr default; d_ptr := (ptr, 0);
     cdw10 := fid;
     cdw11 := cdw11 default; cdw12 := cdw12 default; cdw13 := cdw13 default;
     cdw14 := cdw14 default; cdw15 := cdw15 default |}.

Definition io_read (c_id ns_id lba blocks_1 ptr0 ptr1 : Z) : NvmeCommand :=
  {| opcode := 2; flags := 0; c_id := c_id; ns_id := ns_id; _rsvd := 0; md_ptr := 0;
     d_ptr := (ptr0, ptr1);
     cdw10 := as_u32 lba;
     cdw11 := as_u32 (Z.shiftr lba 32);
     cdw12 := blocks_1; cdw13 := 0; cdw14 := 0; cdw15 := 0 |}.

Definition io_write (c_id ns_id lba blocks_1 ptr0 ptr1 : Z) : NvmeCommand :=
  {| opcode := 1; flags := 0; c_id := c_id; ns_id := ns_id; _rsvd := 0; md_ptr := 0;
     d_ptr := (ptr0, ptr1);
     cdw10 := as_u32 lba;
     cdw11 := as_u32 (Z.shiftr lba 32);
     cdw12 := blocks_1; cdw13 := 0; cdw14 := 0; cdw15 := 0 |}.

Definition format_nvm (c_id ns_id : Z) : NvmeCommand :=
  {| opcode := 128; flags := 0; c_id := c_id; ns_id := ns_id; _rsvd := 0; md_ptr := 0;
     d_ptr := (0, 0);
     cdw10 := Z.shiftl 1 9;
     cdw11 := 0; cdw12 := 0; cdw13 := 0; cdw14 := 0; cdw15 := 0 |}.

Definition async_event_req (c_id : Z) : NvmeCommand :=
  {| opcode := 12; flags := 0; c_id := c_id; ns_id := 0; _rsvd := 0; md_ptr := 0;
     d_ptr := (0, 0);
     cdw10 := 0; cdw11 := 0; cdw12 := 0; cdw13 := 0; cdw14 := 0; cdw15 := 0 |}.

(** The opcode is the default one. *)
Definition get_log_page (c_id numd ptr0 ptr1 lid lpid : Z) : NvmeCommand :=
  {| opcode := opcode default; flags := flags default; c_id := c_id;
     ns_id := ns_id default; _rsvd := _rsvd default; md_ptr := md_ptr default;
     d_ptr := (ptr0, ptr1);
     cdw10 := Z.lor (wrap 32 (Z.shiftl numd 16)) lid;
     cdw11 := Z.lor (wrap 32 (Z.shiftl lpid 16)) (Z.shiftr numd 16);
     cdw12 := cdw12 default; cdw13 := cdw13 default;
     cdw14 := cdw14 default; cdw15 := cdw15 default |}.

Definition write_zeroes (c_id ns_id slba nlb : Z) (deac : bool) : NvmeCommand :=
  {| opcode := 8; flags := 0; c_id := c_id; ns_id := ns_id; _rsvd := 0; md_ptr := 0;
     d_ptr := (0, 0);
     cdw10 := as_u32 slba;
     cdw11 := as_u32 (Z.shiftr slba 32);
     cdw12 := Z.lor (wrap 32 (Z.shiftl (Z.b2z deac) 25)) nlb;
     cdw13 := 0; cdw14 := 0; cdw15 := 0 |}.

(** *** Memory image *)

(** The field widths of the [repr(C, packed)] structure. *)
Definition layout : list nat := [1; 1; 2; 4; 8; 8; 8; 8; 4; 4; 4; 4; 4; 4]%nat.

Definition fields (c : NvmeCommand) : list Z :=
  [opcode c; flags c; c_id c; ns_id c; _rsvd c; md_ptr c; (d_ptr c).1; (d_ptr c).2;
   cdw10 c; cdw11 c; cdw12 c; cdw13 c; cdw14 c; cdw15 c].

Definition of_fields (l : list Z) : NvmeCommand :=
  let f i := nth i l 0 in
  mkNvmeCommand (f 0%nat) (f 1%nat) (f 2%nat) (f 3%nat) (f 4%nat) (f 5%nat)
    (f 6%nat, f 7%nat) (f 8%nat) (f 9%nat) (f 10%nat) (f 11%nat) (f 12%nat) (f 13%nat).

Definition encode (c : NvmeCommand) : list Z := enc_fields (zip layout (fields c)).
Definition decode (bs : list Z) : NvmeCommand := of_fields (dec_fields layout bs).

(** [mem::size_of::<NvmeCommand>()]. *)
Definition size_of : Z := Z.of_nat (layout_size layout).

(** Every field is in the range of its type. *)
Definition wf (c : NvmeCommand) : Prop := Forall field_ok (zip layout (fields c)).

(** *** What the controller reads in the fields *)

(** The starting LBA of an I/O command, dwords 10 and 11. *)
Definition slba (c : NvmeCommand) : Z := cdw10 c + 2 ^ 32 * cdw11 c.

(** The number of blocks, dword 12 bits 15:0, 0's based. *)
Definition nblocks (c : NvmeCommand) : Z := cdw12 c `mod` 2 ^ 16 + 1.

(** The fields of the queue management commands. *)
Definition qsize (c : NvmeCommand) : Z := Z.shiftr (cdw10 c) 16.
Definition qid (c : NvmeCommand) : Z := cdw10 c `mod` 2 ^ 16.
Definition cqid (c : NvmeCommand) : Z := Z.shiftr (cdw11 c) 16.
Definition contiguous (c : NvmeCommand) : bool := Z.testbit (cdw11 c) 0.

End NvmeCommand.

(** ** Lemmas *)

Lemma size_of_command : NvmeCommand.size_of = 64.
Proof. reflexivity. Qed.

Lemma encode_length c : length (NvmeCommand.encode c) = 64%nat.
Proof. unfold NvmeCommand.encode. by rewrite enc_fields_length. Qed.

Lemma encode_is_byte c : Forall is_byte (NvmeCommand.encode c).
Proof. apply enc_fields_is_byte. Qed.

Lemma decode_encode c : NvmeCommand.wf c → NvmeCommand.decode (NvmeCommand.encode c) = c.
Proof.
  intros Hwf. unfold NvmeCommand.decode, NvmeCommand.encode.
  pose proof (dec_enc_fields _ Hwf) as Hd. cbn [zip zip_with NvmeCommand.layout
    NvmeCommand.fields fmap list_fmap fst snd] in Hd |- *.
  unfold NvmeCommand.layout. rewrite Hd. by destruct c as [? ? ? ? ? ? [? ?]].
Qed.

(** Joining two halves of a dword. *)
Lemma lor_shiftl_add a b n : 0 ≤ n → 0 ≤ b < 2 ^ n → Z.lor (Z.shiftl a n) b = a * 2 ^ n + b.
Proof.
  intros Hn Hb. rewrite <-Z.shiftl_mul_pow2 by done.
  assert (Z.land (Z.shiftl a n) b = 0) as Hl.
  { apply Z.bits_inj'. intros i Hi. rewrite Z.land_spec, Z.bits_0.
    destruct (Z.lt_ge_cases i n) as [?|Hni].
    - by rewrite Z.shiftl_spec_low.
    - assert (b = b `mod` 2 ^ n) as -> by (by rewrite Z.mod_small).
      rewrite Z.mod_pow2_bits_high by lia. apply andb_false_r. }
  by rewrite <-Z.lxor_lor, Z.add_nocarry_lxor.
Qed.

Lemma join16 a b :
  0 ≤ a < 2 ^ 16 → 0 ≤ b < 2 ^ 16 → Z.lor (wrap 32 (Z.shiftl a 16)) b = a * 2 ^ 16 + b.
Proof.
  intros. rewrite wrap_small by (rewrite Z.shiftl_mul_pow2 by done; lia).
  by apply lor_shiftl_add.
Qed.

Lemma split_u64 z : 0 ≤ z < 2 ^ 64 → as_u32 z + 2 ^ 32 * as_u32 (Z.shiftr z 32) = z.
Proof.
  intros. unfold as_u32. rewrite Z.shiftr_div_pow2 by done.
  rewrite (wrap_small 32 (z / _)).
  - unfold wrap. pose proof (Z.div_mod z (2 ^ 32)). lia.
  - split; [apply Z.div_pos; lia|apply Z.div_lt_upper_bound; lia].
Qed.

Lemma as_u32_bound z : 0 ≤ as_u32 z < 2 ^ 32.
Proof. by apply wrap_bound. Qed.

#[export] Hint Resolve encode_is_byte as_u32_bound : vroom.
#[export] Hint Rewrite encode_length : world.

(** Closes [wf] goals: one range per field. *)
Ltac solve_wf :=
  unfold NvmeCommand.wf; repeat (apply Forall_cons; split); try apply Forall_nil;
  try done; unfold field_ok; simpl; auto with vroom; try lia.

Lemma io_read_wf c ns lba b p0 p1 :
  0 ≤ c < 2 ^ 16 → 0 ≤ ns < 2 ^ 32 → 0 ≤ b < 2 ^ 16 →
  0 ≤ p0 < 2 ^ 64 → 0 ≤ p1 < 2 ^ 64 → NvmeCommand.wf (NvmeCommand.io_read c ns lba b p0 p1).
Proof. intros. solve_wf; apply as_u32_bound. Qed.

Lemma io_write_wf c ns lba b p0 p1 :
  0 ≤ c < 2 ^ 16 → 0 ≤ ns < 2 ^ 32 → 0 ≤ b < 2 ^ 16 →
  0 ≤ p0 < 2 ^ 64 → 0 ≤ p1 < 2 ^ 64 → NvmeCommand.wf (NvmeCommand.io_write c ns lba b p0 p1).
Proof. intros. solve_wf; apply as_u32_bound. Qed.

(** ** The commands the driver can build *)

Definition u8 (z : Z) : Prop := 0 ≤ z < 2 ^ 8.
Definition u16 (z : Z) : Prop := 0 ≤ z < 2 ^ 16.
Definition u32 (z : Z) : Prop := 0 ≤ z < 2 ^ 32.
Definition u64 (z : Z) : Prop := 0 ≤ z < 2 ^ 64.

(** The functions of [cmd.rs] at arguments of their types. *)
Inductive built : NvmeCommand → Prop :=
| built_create_cq c q p n : u16 c → u16 q → u64 p → u16 n →
    built (NvmeCommand.create_io_completion_queue c q p n)
| built_create_sq c q p n cq : u16 c → u16 q → u64 p → u16 n → u16 cq →
    built (NvmeCommand.create_io_submission_queue c q p n cq)
| built_delete_sq c q : u16 c → u16 q → built (NvmeCommand.delete_io_submission_queue c q)
| built_delete_cq c q : u16 c → u16 q → built (NvmeCommand.delete_io_completion_queue c q)
| built_identify_ns c p ns : u16 c → u64 p → u32 ns → built (NvmeCommand.identify_namespace c p ns)
| built_identify c p : u16 c → u64 p → built (NvmeCommand.identify_controller c p)
| built_identify_list c p b : u16 c → u64 p → u32 b →
    built (NvmeCommand.identify_namespace_list c p b)
| built_features c p f : u16 c → u64 p → u8 f → built (NvmeCommand.get_features c p f)
| built_read c ns lba b p0 p1 : u16 c → u32 ns → u64 lba → u16 b → u64 p0 → u64 p1 →
    built (NvmeCommand.io_read c ns lba b p0 p1)
| built_write c ns lba b p0 p1 : u16 c → u32 ns → u64 lba → u16 b → u64 p0 → u64 p1 →
    built (NvmeCommand.io_write c ns lba b p0 p1)
| built_format c ns : u16 c → u32 ns → built (NvmeCommand.format_nvm c ns)
| built_async c : u16 c → built (NvmeCommand.async_event_req c)
| built_log c n p0 p1 l lp : u16 c → u32 n → u64 p0 → u64 p1 → u8 l → u16 lp →
    built (NvmeCommand.get_log_page c n p0 p1 l lp)
| built_zeroes c ns lba n d : u16 c → u32 ns → u64 lba → u16 n →
    built (NvmeCommand.write_zeroes c ns lba n d).

Lemma lor_bound n a b : 0 ≤ n → 0 ≤ a < 2 ^ n → 0 ≤ b < 2 ^ n → 0 ≤ Z.lor a b < 2 ^ n.
Proof.
  intros Hn Ha Hb. assert (Z.lor a b = Z.lor a b `mod` 2 ^ n) as ->; [|apply Z.mod_pos_bound; lia].
  apply Z.bits_inj'. intros i Hi. destruct (Z.lt_ge_cases i n) as [?|?].
  - by rewrite Z.mod_pow2_bits_low.
  - rewrite Z.mod_pow2_bits_high, Z.lor_spec by lia.
    rewrite <-(Z.mod_small a (2 ^ n)), <-(Z.mod_small b (2 ^ n)) by done.
    by rewrite !Z.mod_pow2_bits_high by lia.
Qed.

Lemma join_bound a b : 0 ≤ b < 2 ^ 32 → 0 ≤ Z.lor (wrap 32 a) b < 2 ^ 32.
Proof. intros. apply lor_bound; [done|by apply wrap_bound|done]. Qed.

Lemma built_wf c : built c → NvmeCommand.wf c.
Proof.
  destruct 1; unfold u8, u16, u32, u64 in *; solve_wf; try apply as_u32_bound;
    change (256 ^ Z.of_nat 4) with (2 ^ 32); try (apply join_bound; lia); try lia.
  apply join_bound. rewrite Z.shiftr_div_pow2 by done. split; [apply Z.div_pos; lia|].
  apply Z.div_lt_upper_bound; lia.
Qed.

(** ** Properties *)



(** An I/O command survives its trip through memory: the 64 bytes of
    [io_read] and [io_write], decoded as the controller decodes them, carry the
    opcode (2 and 1), the command and namespace ids, the full 64-bit LBA split
    over dwords 10 and 11, the number of blocks (stored less one) and both PRP
    entries. *)
Lemma io_command_image (c ns lba b p0 p1 : Z) :
  0 ≤ c < 2 ^ 16 → 0 ≤ ns < 2 ^ 32 → 0 ≤ lba < 2 ^ 64 → 0 ≤ b < 2 ^ 16 →
  0 ≤ p0 < 2 ^ 64 → 0 ≤ p1 < 2 ^ 64 →
  ∀ (write : bool),
  let cmd := (if write then NvmeCommand.io_write else NvmeCommand.io_read) c ns lba b p0 p1 in
  let image := NvmeCommand.decode (NvmeCommand.encode cmd) in
  Z.of_nat (length (NvmeCommand.encode cmd)) = 64 ∧
  opcode image = (if write then 1 else 2) ∧ c_id image = c ∧ ns_id image = ns ∧
  NvmeCommand.slba image = lba ∧ NvmeCommand.nblocks image = b + 1 ∧
  d_ptr image = (p0, p1).
Proof.
  intros Hc Hns Hlba Hb Hp0 Hp1 write cmd image.
  assert (NvmeCommand.wf cmd) as Hwf.
  { destruct write; [by apply io_write_wf|by apply io_read_wf]. }
  split; [by rewrite encode_length|].
  unfold image. rewrite decode_encode by done.
  unfold NvmeCommand.slba, NvmeCommand.nblocks.
  destruct write; simpl; rewrite split_u64, Z.mod_small by lia; done.
Qed.

(** The queue creation commands, read back from their 64-byte images,
    name the queue, its size (0's based), its base address, the completion
    queue the submission queue is tied to, and mark the memory as physically
    contiguous. *)
Lemma create_queue_image (c qid ptr size cqid : Z) :
  0 ≤ c < 2 ^ 16 → 0 ≤ qid < 2 ^ 16 → 0 ≤ ptr < 2 ^ 64 → 0 ≤ size < 2 ^ 16 →
  0 ≤ cqid < 2 ^ 16 →
  let cq := NvmeCommand.decode
    (NvmeCommand.encode (NvmeCommand.create_io_completion_queue c qid ptr size)) in
  let sq := NvmeCommand.decode
    (NvmeCommand.encode (NvmeCommand.create_io_submission_queue c qid ptr size cqid)) in
  (opcode cq = 5 ∧ c_id cq = c ∧ NvmeCommand.qid cq = qid ∧ NvmeCommand.qsize cq = size ∧
   (d_ptr cq).1 = ptr ∧ NvmeCommand.contiguous cq = true) ∧
  (opcode sq = 1 ∧ c_id sq = c ∧ NvmeCommand.qid sq = qid ∧ NvmeCommand.qsize sq = size ∧
   (d_ptr sq).1 = ptr ∧ NvmeCommand.contiguous sq = true ∧ NvmeCommand.cqid sq = cqid).
Proof.
  intros Hc Hq Hp Hs Hcq cq sq.
  unfold cq, sq. rewrite !decode_encode.
  - unfold NvmeCommand.qid, NvmeCommand.qsize, NvmeCommand.cqid, NvmeCommand.contiguous.
    simpl. rewrite !join16 by lia. rewrite !Z.shiftr_div_pow2 by lia.
    rewrite !Z.div_add_l, !(Z.div_small _ (2 ^ 16)) by lia.
    rewrite (Z.add_comm _ qid), Z.mod_add, Z.mod_small by lia.
        rewrite Z.odd_add, Z.odd_mul, andb_false_r.
    repeat split; lia || done.
  - solve_wf; rewrite join16 by lia; lia.
  - solve_wf; rewrite join16 by lia; lia.
Qed.

(** [get_log_page] leaves the opcode at its default, and opcode 0 of the
    admin command set is Delete I/O Submission Queue: the command it builds
    decodes as the deletion of the queue whose id is the log page id.  The
    number of dwords, for its part, is split correctly over dwords 10 and 11. *)
Lemma get_log_page_image (c numd p0 p1 lid lpid : Z) :
  0 ≤ c < 2 ^ 16 → 0 ≤ numd < 2 ^ 32 → 0 ≤ p0 < 2 ^ 64 → 0 ≤ p1 < 2 ^ 64 →
  0 ≤ lid < 2 ^ 8 → 0 ≤ lpid < 2 ^ 16 →
  let cmd := NvmeCommand.get_log_page c numd p0 p1 lid lpid in
  let del := NvmeCommand.delete_io_submission_queue c lid in
  opcode cmd = opcode del ∧ NvmeCommand.qid cmd = NvmeCommand.qid del ∧
  Z.shiftr (cdw10 cmd) 16 + 2 ^ 16 * (cdw11 cmd `mod` 2 ^ 16) = numd.
Proof.
  intros Hc Hn Hp0 Hp1 Hl Hlp cmd del. unfold NvmeCommand.qid. simpl.
  assert (Z.shiftr numd 16 = numd / 2 ^ 16) as -> by by apply Z.shiftr_div_pow2.
  assert (0 ≤ numd / 2 ^ 16 < 2 ^ 16) by (split; [apply Z.div_pos|apply Z.div_lt_upper_bound]; lia).
  rewrite (join16 lpid (numd / 2 ^ 16)) by lia.
  assert (wrap 32 (Z.shiftl numd 16) = Z.shiftl (numd `mod` 2 ^ 16) 16) as ->.
  { unfold wrap. rewrite !Z.shiftl_mul_pow2 by done.
    change (2 ^ 32) with (2 ^ 16 * 2 ^ 16). by rewrite Z.mul_mod_distr_r by lia. }
  pose proof (Z.mod_pos_bound numd (2 ^ 16) ltac:(lia)).
  rewrite lor_shiftl_add by lia. rewrite Z.shiftr_div_pow2 by lia.
  rewrite Z.div_add_l, (Z.div_small lid) by lia.
  rewrite !(Z.add_comm (_ * 2 ^ 16)), !Z.mod_add by lia.
  rewrite (Z.mod_small (numd / _)) by lia.
  pose proof (Z.div_mod numd (2 ^ 16)). repeat split; lia.
Qed.
