(* ===== verification/Mapping.v ===== *)
(** [src/mapping.rs]: the trait behind which the two memory back ends stand.

    The queues and the device are written against this interface; its
    implementation by the VFIO and by the physical back end is in the files
    that model them. *)

From S2P Require Import Prelude Bytes Machine Memory.
#[local] Open Scope Z_scope.

(** [trait Mapping]. *)
Class Mapping (A E : Type) := {
  allocate : ∀ {S}, A → Z → M E S Dma;
  deallocate : ∀ {S}, A → Dma → M E S unit;
  map_resource : ∀ {S}, A → M E S (Z * Z);
}.

(** [MemoryAccess::set_page_size], the only operation of the allocator that
    is not in the trait. *)
Class SetPageSize (A : Type) := set_page_size : Pagesize.Pagesize → A → A.

(** ** What the clients need of an allocator *)

Definition is_os (ev : Event) : bool :=
  match ev with EvOs _ _ => true | _ => false end.

(** The driver's own accesses, without the system calls between them. *)
Fixpoint accesses (t : list Event) : list Event :=
  match t with
  | [] => []
  | ev :: t => if is_os ev then accesses t else ev :: accesses t
  end.

Lemma accesses_app t1 t2 : accesses (t1 ++ t2) = accesses t1 ++ accesses t2.
Proof. induction t1 as [|ev t1 IH]; [done|]. simpl. destruct (is_os ev); simpl; by rewrite IH. Qed.

(** A region as allocators give it out. *)
Definition allocated (dma : Dma) : Prop := 0 < size dma ≤ 2 ^ 31.

(** Allocation (of as much as the driver asks for at once) succeeds and freeing
    returns, both by system calls alone and without disturbing what [inv] says of
    the world. *)
Class QuietAllocator {A E} `{MAP : Mapping A E} (a : A) (inv : World E → Prop) : Prop := {
  allocates : ∀ S size (s : S) w, inv w → 0 < size ≤ PAGESIZE_2MIB → ∃ dma w',
    allocate a size (s, w) = (Ret dma, (s, w')) ∧ allocated dma ∧ inv w' ∧
    ∃ t, trace w' = trace w ++ t ∧ accesses t = [];
  frees : ∀ S dma (s : S) w, inv w → allocated dma → ∃ w',
    deallocate a dma (s, w) = (Ret tt, (s, w')) ∧ inv w' ∧
    ∃ t, trace w' = trace w ++ t ∧ accesses t = [];
}.

Section quiet.
Context {A E S : Type} `{MAP : Mapping A E} (a : A) (inv : World E → Prop).
Context `{QA : !QuietAllocator a inv}.

Lemma wp_allocate size (s : S) w (Q : Res Dma → S → World E → Prop) :
  inv w → 0 < size ≤ PAGESIZE_2MIB →
  (∀ dma w', allocated dma → inv w' → accesses (trace w') = accesses (trace w) → Q (Ret dma) s w') →
  wp (allocate a size) Q s w.
Proof.
  intros Hw Hn HQ. destruct (allocates S size s w Hw Hn) as (dma & w' & Hrun & ? & ? & t & Ht & Hos).
  unfold wp. rewrite Hrun. cbn [fst snd]. apply HQ; [done..|]. by rewrite Ht, accesses_app, Hos, app_nil_r.
Qed.

Lemma wp_deallocate dma (s : S) w (Q : Res unit → S → World E → Prop) :
  inv w → allocated dma →
  (∀ w', inv w' → accesses (trace w') = accesses (trace w) → Q (Ret tt) s w') →
  wp (deallocate a dma) Q s w.
Proof.
  intros Hw Hdma HQ. destruct (frees S dma s w Hw Hdma) as (w' & Hrun & ? & t & Ht & Hos).
  unfold wp. rewrite Hrun. cbn [fst snd]. apply HQ; [done|]. by rewrite Ht, accesses_app, Hos, app_nil_r.
Qed.

End quiet.
