(* ===== verification/Queues.v ===== *)
(** [src/queues.rs]: the submission and the completion queue of a queue pair.

    Both are rings in DMA memory.  The driver owns the tail of the submission
    queue and the head and phase of the completion queue; what the controller
    owns it learns from the entries it reads. *)

From S2P Require Import Prelude Bytes Machine Memory Cmd Mapping.

(** ** Completion queue entries *)

Record NvmeCompletion := mkNvmeCompletion {
  cpl_command_specific : Z;
  cpl_rsvd : Z;
  cpl_sq_head : Z;
  cpl_sq_id : Z;
  cpl_c_id : Z;
  cpl_status : Z;
}.

Module NvmeCompletion.

(** The field widths of the [repr(C, packed)] structure. *)
Definition layout : list nat := [4; 4; 2; 2; 2; 2]%nat.

Definition fields (c : NvmeCompletion) : list Z :=
  [cpl_command_specific c; cpl_rsvd c; cpl_sq_head c; cpl_sq_id c; cpl_c_id c; cpl_status c].

Definition of_fields (l : list Z) : NvmeCompletion :=
  let f i := nth i l 0 in
  mkNvmeCompletion (f 0%nat) (f 1%nat) (f 2%nat) (f 3%nat) (f 4%nat) (f 5%nat).

Definition encode (c : NvmeCompletion) : list Z := enc_fields (zip layout (fields c)).
Definition decode (bs : list Z) : NvmeCompletion := of_fields (dec_fields layout bs).
Definition size_of : Z := Z.of_nat (layout_size layout).

(** The offset of [status]. *)
Definition status_offset : Z := Z.of_nat (layout_size (take 5 layout)).

Definition wf (c : NvmeCompletion) : Prop := Forall field_ok (zip layout (fields c)).

End NvmeCompletion.

Definition QUEUE_LENGTH : Z := Z.shiftr (PAGESIZE_2MIB / NvmeCommand.size_of) 1.

(** ** Submission queue *)

Record SubmissionQueue := mkSubmissionQueue {
  sq_commands : Dma;
  sq_head : Z;
  sq_tail : Z;
  sq_len : Z;
  sq_doorbell : Z;
}.

Module SubmissionQueue.

Definition set_tail (t : Z) (q : SubmissionQueue) : SubmissionQueue :=
  mkSubmissionQueue (sq_commands q) (sq_head q) t (sq_len q) (sq_doorbell q).

Definition set_head (h : Z) (q : SubmissionQueue) : SubmissionQueue :=
  mkSubmissionQueue (sq_commands q) h (sq_tail q) (sq_len q) (sq_doorbell q).

Section SubmissionQueue.
Context {E : Type} `{BLD : Build} `{HW : Hardware E}.

Definition new {S A} `{MAP : Mapping A E} (allocator : A) (len doorbell : Z) : M E S SubmissionQueue :=
  commands ← allocate allocator (NvmeCommand.size_of * QUEUE_LENGTH);
  mret (mkSubmissionQueue commands 0 0 (Z.min len QUEUE_LENGTH) doorbell).

Definition is_empty (q : SubmissionQueue) : bool := sq_head q =? sq_tail q.

Definition is_full : M E SubmissionQueue bool :=
  q ← get;
  t ← ck64 (sq_tail q + 1);
  t ← umod t (sq_len q);
  mret (sq_head q =? t).

(** The entry goes to slot [tail] of the array, whose bounds check is
    against [QUEUE_LENGTH]. *)
Definition submit (entry : NvmeCommand) : M E SubmissionQueue Z :=
  q ← get;
  _ ← index (sq_tail q) QUEUE_LENGTH;
  _ ← store (virt (sq_commands q) + NvmeCommand.size_of * sq_tail q) (NvmeCommand.encode entry);
  t ← ck64 (sq_tail q + 1);
  t ← umod t (sq_len q);
  _ ← modify (set_tail t);
  mret t.

Definition submit_checked (entry : NvmeCommand) : M E SubmissionQueue (option Z) :=
  full ← is_full;
  if full : bool then mret None
  else t ← submit entry; mret (Some t).

Definition get_addr (q : SubmissionQueue) : Z := phys (sq_commands q).

End SubmissionQueue.
End SubmissionQueue.

(** ** Completion queue *)

Record CompletionQueue := mkCompletionQueue {
  cq_commands : Dma;
  cq_head : Z;
  cq_phase : bool;
  cq_len : Z;
  cq_doorbell : Z;
}.

Module CompletionQueue.

Definition set_head (h : Z) (q : CompletionQueue) : CompletionQueue :=
  mkCompletionQueue (cq_commands q) h (cq_phase q) (cq_len q) (cq_doorbell q).

Definition set_phase (p : bool) (q : CompletionQueue) : CompletionQueue :=
  mkCompletionQueue (cq_commands q) (cq_head q) p (cq_len q) (cq_doorbell q).

Section CompletionQueue.
Context {E : Type} `{BLD : Build} `{FUEL : Fuel} `{HW : Hardware E}.

Definition new {S A} `{MAP : Mapping A E} (allocator : A) (len doorbell : Z) : M E S CompletionQueue :=
  commands ← allocate allocator (NvmeCompletion.size_of * QUEUE_LENGTH);
  mret (mkCompletionQueue commands 0 true (Z.min len QUEUE_LENGTH) doorbell).

Definition slot (q : CompletionQueue) (i : Z) : Z :=
  virt (cq_commands q) + NvmeCompletion.size_of * i.

(** The status word is read first; the entry is copied only once its phase
    bit is the expected one. *)
Definition complete : M E CompletionQueue (option (Z * NvmeCompletion * Z)) :=
  q ← get;
  _ ← index (cq_head q) QUEUE_LENGTH;
  st ← load (slot q (cq_head q) + NvmeCompletion.status_offset) 2;
  if Bool.eqb (Z.land (le_val st) 1 =? 1) (cq_phase q) then
    let prev := cq_head q in
    h ← ck64 (cq_head q + 1);
    h ← umod h (cq_len q);
    _ ← modify (set_head h);
    _ ← (if h =? 0 then modify (set_phase (negb (cq_phase q))) else mret tt);
    entry ← load (slot q prev) (Z.to_nat NvmeCompletion.size_of);
    mret (Some (h, NvmeCompletion.decode entry, prev))
  else mret None.

Fixpoint complete_spin_fuel (n : nat) : M E CompletionQueue (Z * NvmeCompletion * Z) :=
  match n with
  | O => diverge
  | S n =>
    o ← complete;
    match o with
    | Some val => mret val
    | None => complete_spin_fuel n
    end
  end.

Definition complete_spin : M E CompletionQueue (Z * NvmeCompletion * Z) :=
  complete_spin_fuel spin_fuel.

Definition complete_n (commands : Z) : M E CompletionQueue (Z * NvmeCompletion * Z) :=
  q ← get;
  let prev := cq_head q in
  k ← ck64 (commands - 1);
  h ← ck64 (cq_head q + k);
  _ ← modify (set_head h);
  _ ← (if cq_len q <=? h then modify (set_phase (negb (cq_phase q))) else mret tt);
  h ← umod h (cq_len q);
  _ ← modify (set_head h);
  r ← complete_spin;
  let '(head, entry, _) := r in
  mret (head, entry, prev).

Definition get_addr (q : CompletionQueue) : Z := phys (cq_commands q).

End CompletionQueue.
End CompletionQueue.

(** ** The rings seen from outside *)

(** A queue as the driver builds and keeps it. *)
Definition sq_ok (q : SubmissionQueue) : Prop :=
  0 < sq_len q ≤ QUEUE_LENGTH ∧ 0 ≤ sq_head q < sq_len q ∧ 0 ≤ sq_tail q < sq_len q.

(** Slots in use, and the entries in them from the oldest on. *)
Definition sq_count (q : SubmissionQueue) : Z := (sq_tail q - sq_head q) `mod` sq_len q.

Definition sq_slot (q : SubmissionQueue) (i : Z) : Z :=
  virt (sq_commands q) + NvmeCommand.size_of * i.

Definition sq_entry (m : Mem) (q : SubmissionQueue) (i : Z) : NvmeCommand :=
  NvmeCommand.decode (load_bytes m (sq_slot q i) (Z.to_nat NvmeCommand.size_of)).

Definition sq_entries (m : Mem) (q : SubmissionQueue) : list NvmeCommand :=
  (λ i, sq_entry m q ((sq_head q + i) `mod` sq_len q)) <$> zrange 0 (sq_count q).

(** Completions are numbered from 0 in the order in which the controller
    posts them; number [k] goes to slot [k mod len] with this phase bit. *)
Definition phase_at (len k : Z) : bool := Z.even (k / len).

Definition cq_entry (m : Mem) (q : CompletionQueue) (k : Z) : NvmeCompletion :=
  NvmeCompletion.decode
    (load_bytes m (CompletionQueue.slot q (k `mod` cq_len q)) (Z.to_nat NvmeCompletion.size_of)).

(** The driver is about to read completion number [k]. *)
Definition cq_at (q : CompletionQueue) (k : Z) : Prop :=
  0 < cq_len q ≤ QUEUE_LENGTH ∧ 0 ≤ k ∧
  cq_head q = k `mod` cq_len q ∧ cq_phase q = phase_at (cq_len q) k.

(** Memory in which the controller has posted the completions up to number
    [P] and the driver has taken those up to number [C]. *)
Definition cq_view (q : CompletionQueue) (posted : Z → NvmeCompletion) (C P : Z) (m : Mem) : Prop :=
  0 ≤ C ≤ P ∧ P ≤ C + cq_len q ∧
  (∀ k, C ≤ k < P →
     cq_entry m q k = posted k ∧ Z.odd (cpl_status (posted k)) = phase_at (cq_len q) k) ∧
  (∀ k, P ≤ k < C + cq_len q →
     Z.odd (cpl_status (cq_entry m q k)) ≠ phase_at (cq_len q) k).

(** What a controller promises to the completion queue [q] it serves: it
    posts completions in order, never over one that the driver has not taken.
    [produces C P w] says that in the world [w] the controller has posted up
    to [P] and the driver taken up to [C]. *)
Class CqProducer {E} `{HW : Hardware E} (q : CompletionQueue) (posted : Z → NvmeCompletion)
    (produces : Z → Z → World E → Prop) : Prop := {
  produces_view : ∀ C P w, produces C P w → cq_view q posted C P (mem w);
  produces_tick : ∀ C P w, produces C P w → ∃ P', P ≤ P' ∧ produces C P' (tick w);
  produces_take : ∀ C P w, produces C P w → C < P → produces (C + 1) P w;
}.

(** ** Lemmas on rings *)

Lemma QUEUE_LENGTH_value : QUEUE_LENGTH = 16384.
Proof. reflexivity. Qed.

Lemma size_of_completion : NvmeCompletion.size_of = 16.
Proof. reflexivity. Qed.

Lemma phase_at_succ len k :
  0 < len → 0 ≤ k →
  phase_at len (k + 1) =
  if (k + 1) `mod` len =? 0 then negb (phase_at len k) else phase_at len k.
Proof.
  intros Hl Hk. unfold phase_at.
  pose proof (Z.div_mod k len ltac:(lia)) as Hd. pose proof (Z.mod_pos_bound k len Hl) as Hm.
  destruct (decide (k `mod` len + 1 = len)) as [He|He].
  - assert ((k + 1) / len = k / len + 1) as ->
      by (symmetry; apply Z.div_unique with 0; lia).
    assert ((k + 1) `mod` len = 0) as -> by (symmetry; apply Z.mod_unique with (k / len + 1); lia).
    simpl. rewrite Z.even_add. by destruct (Z.even (k / len)).
  - assert ((k + 1) / len = k / len) as ->
      by (symmetry; apply Z.div_unique with (k `mod` len + 1); lia).
    assert ((k + 1) `mod` len = k `mod` len + 1) as ->
      by (symmetry; apply Z.mod_unique with (k / len); lia).
    by rewrite (proj2 (Z.eqb_neq _ 0)) by lia.
Qed.

Lemma phase_at_wrap len k : 0 < len → phase_at len (k + len) = negb (phase_at len k).
Proof.
  intros. unfold phase_at. replace (k + len) with (k + 1 * len) by lia.
  rewrite Z.div_add by lia. rewrite Z.even_add. by destruct (Z.even (k / len)).
Qed.

Lemma mod_succ_mod len k : 0 < len → (k `mod` len + 1) `mod` len = (k + 1) `mod` len.
Proof. intros. rewrite Z.add_mod_idemp_l; lia. Qed.

(** Moving a position forward by [n] within one lap. *)
Lemma phase_at_jump len k n :
  0 < len → 0 ≤ k → 0 ≤ n < len →
  phase_at len (k + n) =
  if len <=? k `mod` len + n then negb (phase_at len k) else phase_at len k.
Proof.
  intros Hl Hk Hn. unfold phase_at.
  pose proof (Z.div_mod k len ltac:(lia)) as Hd. pose proof (Z.mod_pos_bound k len Hl) as Hm.
  destruct (Z.leb_spec len (k `mod` len + n)).
  - assert ((k + n) / len = k / len + 1) as ->
      by (symmetry; apply Z.div_unique with (k `mod` len + n - len); lia).
    rewrite Z.even_add. by destruct (Z.even (k / len)).
  - by assert ((k + n) / len = k / len) as ->
      by (symmetry; apply Z.div_unique with (k `mod` len + n); lia).
Qed.

Lemma land_1_odd z : (Z.land z 1 =? 1) = Z.odd z.
Proof.
  change 1 with (Z.ones 1) at 1. rewrite Z.land_ones, Z.pow_1_r by done.
  rewrite Zmod_odd. by destruct (Z.odd z).
Qed.

Lemma cq_view_take q posted C P m :
  0 < cq_len q → cq_view q posted C P m → C < P → cq_view q posted (C + 1) P m.
Proof.
  intros Hl (HC & HP & Hposted & Hfree) HCP. split; [lia|]. split; [lia|]. split.
  - intros k Hk. apply Hposted. lia.
  - intros k Hk. destruct (decide (k = C + cq_len q)) as [->|]; [|apply Hfree; lia].
    rewrite phase_at_wrap by done. unfold cq_entry.
    replace (C + cq_len q) with (C + 1 * cq_len q) by lia. rewrite Z.mod_add by lia.
    destruct (Hposted C ltac:(lia)) as [He Hph]. unfold cq_entry in He.
    rewrite He, Hph. by destruct (phase_at _ _).
Qed.

Lemma cq_view_functional q posted C P P' m :
  cq_view q posted C P m → cq_view q posted C P' m → P = P'.
Proof.
  intros (? & ? & Hp & Hf) (? & ? & Hp' & Hf').
  destruct (Z.lt_trichotomy P P') as [Hlt|[?|Hlt]]; [exfalso|done|exfalso].
  - destruct (Hp' P ltac:(lia)) as [He Hph]. apply (Hf P ltac:(lia)). by rewrite He.
  - destruct (Hp P' ltac:(lia)) as [He Hph]. apply (Hf' P' ltac:(lia)). by rewrite He.
Qed.

(** The status word of an entry is its last two bytes. *)
Lemma status_word m a :
  cpl_status (NvmeCompletion.decode (load_bytes m a (Z.to_nat NvmeCompletion.size_of))) =
  le_val (load_bytes m (a + NvmeCompletion.status_offset) 2).
Proof.
  unfold NvmeCompletion.decode, NvmeCompletion.of_fields, NvmeCompletion.layout.
  cbn [dec_fields nth cpl_status]. rewrite !drop_drop. simpl (_ + _)%nat.
  rewrite load_bytes_drop, load_bytes_take by (simpl; lia). done.
Qed.

(** The queue of [q] at position [k]. *)
Definition cq_pos (q : CompletionQueue) (k : Z) : CompletionQueue :=
  mkCompletionQueue (cq_commands q) (k `mod` cq_len q) (phase_at (cq_len q) k)
    (cq_len q) (cq_doorbell q).

Lemma cq_at_pos q k : cq_at q k → q = cq_pos q k.
Proof. intros (_ & _ & Hh & Hp). destruct q. unfold cq_pos. simpl in *. congruence. Qed.

Lemma cq_pos_at q k : 0 < cq_len q ≤ QUEUE_LENGTH → 0 ≤ k → cq_at (cq_pos q k) k.
Proof. done. Qed.

(** ** The submission queue *)

Section submission.
Context {E : Type} `{BLD : Build} `{HW : Hardware E}.
Implicit Types (q : SubmissionQueue) (w : World E).

Lemma is_full_run q w :
  sq_ok q → SubmissionQueue.is_full (q, w) = (Ret (sq_head q =? (sq_tail q + 1) `mod` sq_len q), (q, w)).
Proof.
  intros (Hl & Hh & Ht). rewrite QUEUE_LENGTH_value in Hl.
  unfold SubmissionQueue.is_full, get, mbind, M_bind, ck64, umod. simpl.
  rewrite ck_fits by lia. by rewrite (proj2 (Z.eqb_neq (sq_len q) 0)) by lia.
Qed.

(** [submit]: one store to the slot at the tail, and the tail moves. *)
Lemma submit_run q w entry :
  0 < sq_len q ≤ QUEUE_LENGTH → 0 ≤ sq_tail q < sq_len q →
  SubmissionQueue.submit entry (q, w) =
  (Ret ((sq_tail q + 1) `mod` sq_len q),
   (SubmissionQueue.set_tail ((sq_tail q + 1) `mod` sq_len q) q,
    log (EvStore (sq_slot q (sq_tail q)) (NvmeCommand.encode entry))
      (upd (env (tick w))
        (store_bytes (mem (tick w)) (sq_slot q (sq_tail q)) (NvmeCommand.encode entry))
        (tick w)))).
Proof.
  intros Hl Ht. rewrite QUEUE_LENGTH_value in Hl.
  unfold SubmissionQueue.submit, get, mbind, M_bind, index, store, ck64, umod, modify.
  rewrite QUEUE_LENGTH_value. simpl.
  rewrite (proj2 (Z.leb_le 0 (sq_tail q))), (proj2 (Z.ltb_lt (sq_tail q) 16384)) by lia. simpl.
  rewrite ck_fits by lia. by rewrite (proj2 (Z.eqb_neq (sq_len q) 0)) by lia.
Qed.

Lemma submit_checked_run q w entry :
  sq_ok q →
  SubmissionQueue.submit_checked entry (q, w) =
  if sq_head q =? (sq_tail q + 1) `mod` sq_len q then (Ret None, (q, w))
  else
    (Ret (Some ((sq_tail q + 1) `mod` sq_len q)),
     (SubmissionQueue.set_tail ((sq_tail q + 1) `mod` sq_len q) q,
      log (EvStore (sq_slot q (sq_tail q)) (NvmeCommand.encode entry))
        (upd (env (tick w))
          (store_bytes (mem (tick w)) (sq_slot q (sq_tail q)) (NvmeCommand.encode entry))
          (tick w)))).
Proof.
  intros Hq. unfold SubmissionQueue.submit_checked, mbind, M_bind.
  rewrite is_full_run by done. destruct (_ =? _); [done|].
  destruct Hq as (? & ? & ?). by rewrite submit_run.
Qed.

Lemma sq_ok_set_tail q t : sq_ok q → 0 ≤ t < sq_len q → sq_ok (SubmissionQueue.set_tail t q).
Proof. intros (?&?&?) ?. unfold sq_ok. simpl. lia. Qed.

Lemma sq_ok_set_head q h : sq_ok q → 0 ≤ h < sq_len q → sq_ok (SubmissionQueue.set_head h q).
Proof. intros (?&?&?) ?. unfold sq_ok. simpl. lia. Qed.

Lemma sq_count_bounds q : sq_ok q → 0 ≤ sq_count q < sq_len q.
Proof. intros (?&?&?). apply Z.mod_pos_bound. lia. Qed.

Lemma sq_count_cases q :
  sq_ok q → sq_count q = if sq_head q <=? sq_tail q then sq_tail q - sq_head q else sq_tail q - sq_head q + sq_len q.
Proof.
  intros (?&?&?). unfold sq_count. destruct (Z.leb_spec (sq_head q) (sq_tail q)).
  - apply Z.mod_small. lia.
  - symmetry. apply Z.mod_unique with (-1); lia.
Qed.

(** Full is one entry short of the length. *)
Lemma full_count q :
  sq_ok q → (sq_head q =? (sq_tail q + 1) `mod` sq_len q) = (sq_count q =? sq_len q - 1).
Proof.
  intros Hq. rewrite sq_count_cases by done. destruct Hq as (?&?&?).
  rewrite ring_succ by done. apply eq_true_iff_eq. rewrite !Z.eqb_eq.
  destruct (Z.eqb_spec (sq_tail q + 1) (sq_len q)), (Z.leb_spec (sq_head q) (sq_tail q)); lia.
Qed.

Lemma sq_count_submit q :
  sq_ok q → sq_count q < sq_len q - 1 →
  sq_count (SubmissionQueue.set_tail ((sq_tail q + 1) `mod` sq_len q) q) = sq_count q + 1.
Proof.
  intros Hq Hc. unfold sq_count in *. simpl. destruct Hq as (?&?&?).
  rewrite Zminus_mod_idemp_l. replace (sq_tail q + 1 - sq_head q) with (sq_tail q - sq_head q + 1) by lia.
  rewrite <-mod_succ_mod by lia. apply Z.mod_small.
  pose proof (Z.mod_pos_bound (sq_tail q - sq_head q) (sq_len q)). lia.
Qed.

(** The slot at the tail is not one of those in use. *)
Lemma sq_tail_free q i :
  sq_ok q → 0 ≤ i < sq_count q → (sq_head q + i) `mod` sq_len q ≠ sq_tail q.
Proof.
  intros Hq Hi. rewrite sq_count_cases in Hi by done. destruct Hq as (?&?&?).
  destruct (Z.leb_spec (sq_head q) (sq_tail q)).
  - rewrite Z.mod_small by lia. lia.
  - destruct (Z.lt_ge_cases (sq_head q + i) (sq_len q)).
    + rewrite Z.mod_small by lia. lia.
    + rewrite <-(Z.mod_unique (sq_head q + i) (sq_len q) 1 (sq_head q + i - sq_len q)) by lia. lia.
Qed.

Lemma sq_tail_count q : sq_ok q → (sq_head q + sq_count q) `mod` sq_len q = sq_tail q.
Proof.
  intros (?&?&?). unfold sq_count. rewrite Z.add_mod_idemp_r by lia.
  replace (sq_head q + (sq_tail q - sq_head q)) with (sq_tail q) by lia. by apply Z.mod_small.
Qed.

Lemma sq_entry_store m q i j c :
  NvmeCommand.wf c →
  sq_entry (store_bytes m (sq_slot q i) (NvmeCommand.encode c)) q j =
  if i =? j then c else sq_entry m q j.
Proof.
  intros Hwf. unfold sq_entry. destruct (Z.eqb_spec i j) as [->|Hne].
  - change (Z.to_nat NvmeCommand.size_of) with 64%nat.
    rewrite <-(encode_length c), load_store_same by apply encode_is_byte.
    by apply decode_encode.
  - f_equal. apply load_store_disjoint. rewrite encode_length.
    unfold sq_slot. rewrite size_of_command. simpl. lia.
Qed.

(** Appending at the tail appends to the sequence of entries. *)
Lemma sq_entries_store m q c :
  sq_ok q → NvmeCommand.wf c → sq_count q < sq_len q - 1 →
  sq_entries (store_bytes m (sq_slot q (sq_tail q)) (NvmeCommand.encode c))
    (SubmissionQueue.set_tail ((sq_tail q + 1) `mod` sq_len q) q) =
  sq_entries m q ++ [c].
Proof.
  intros Hq Hwf Hc. pose proof (sq_count_bounds q Hq). unfold sq_entries.
  rewrite sq_count_submit by done.
  assert (zrange 0 (sq_count q + 1) = zrange 0 (sq_count q) ++ [sq_count q]) as ->.
  { unfold zrange. replace (Z.to_nat (sq_count q + 1 - 0)) with (Z.to_nat (sq_count q - 0) + 1)%nat by lia.
    rewrite seq_app, fmap_app. simpl. do 2 f_equal. lia. }
  rewrite fmap_app. f_equal.
  - apply list_fmap_ext. intros j i Hi%list_elem_of_lookup_2.
    apply elem_of_zrange in Hi. simpl.
    unfold sq_entry at 1, sq_slot at 2. simpl.
    pose proof (sq_entry_store m q (sq_tail q) ((sq_head q + i) `mod` sq_len q) c Hwf) as He.
    unfold sq_entry at 1, sq_slot at 2 in He. simpl in He. rewrite He.
    by rewrite (proj2 (Z.eqb_neq _ _)) by (apply not_eq_sym, sq_tail_free; [done|lia]).
  - cbn [fmap list_fmap SubmissionQueue.set_tail sq_head sq_len].
    rewrite sq_tail_count by done. f_equal.
    pose proof (sq_entry_store m q (sq_tail q) (sq_tail q) c Hwf) as He.
    rewrite Z.eqb_refl in He. exact He.
Qed.

End submission.

(** ** The completion queue *)

(** The completion taken at position [k], as [complete] returns it. *)
Definition cq_result (q : CompletionQueue) (posted : Z → NvmeCompletion) (k : Z) :
    Z * NvmeCompletion * Z :=
  ((k + 1) `mod` cq_len q, posted k, k `mod` cq_len q).

Section completion.
Context {E : Type} `{BLD : Build} `{FUEL : Fuel} `{HW : Hardware E}.
Context (q : CompletionQueue) (posted : Z → NvmeCompletion).
Context (produces : Z → Z → World E → Prop) `{!CqProducer q posted produces}.
Context (Hlen : 0 < cq_len q ≤ QUEUE_LENGTH).
Implicit Types (w : World E) (C P K : Z).

Lemma produces_functional C P P' w : produces C P w → produces C P' w → P = P'.
Proof.
  intros Ha%produces_view Hb%produces_view. by eapply cq_view_functional.
Qed.

Lemma produces_ticks n C P w :
  produces C P w → ∃ P', P ≤ P' ∧ produces C P' (Nat.iter n tick w).
Proof.
  intros HP. induction n as [|n (P' & ? & HP')]; [exists P; split; [lia|done]|].
  destruct (produces_tick _ _ _ HP') as (P'' & ? & ?). exists P''. split; [lia|done].
Qed.

(** The status word read at position [K] decides whether number [K] has been
    posted. *)
Lemma phase_test C P K w :
  produces C P w → C ≤ K < C + cq_len q →
  Bool.eqb (Z.land (le_val (load_bytes (mem w)
    (CompletionQueue.slot q (K `mod` cq_len q) + NvmeCompletion.status_offset) 2)) 1 =? 1)
    (phase_at (cq_len q) K) = (K <? P).
Proof.
  intros HP%produces_view HK. rewrite land_1_odd, <-status_word.
  fold (cq_entry (mem w) q K). destruct HP as (? & ? & Hposted & Hfree).
  destruct (Z.ltb_spec K P).
  - destruct (Hposted K ltac:(lia)) as [-> ->]. apply eqb_reflx.
  - apply Bool.eqb_false_iff. apply Hfree. lia.
Qed.

Lemma wp_complete C P K w (Q : Res (option (Z * NvmeCompletion * Z)) → CompletionQueue → World E → Prop) :
  produces C P w → C ≤ K < C + cq_len q →
  (∀ P1, P ≤ P1 ≤ K → produces C P1 (tick w) → Q (Ret None) (cq_pos q K) (tick w)) →
  (∀ P1 P2, K < P1 ≤ P2 → produces C P1 (tick w) → produces C P2 (tick (tick w)) →
     Q (Ret (Some (cq_result q posted K))) (cq_pos q (K + 1)) (tick (tick w))) →
  wp CompletionQueue.complete Q (cq_pos q K) w.
Proof.
  intros HP HK Hnone Hsome. pose proof Hlen as Hl. rewrite QUEUE_LENGTH_value in Hl.
  pose proof (produces_view _ _ _ HP) as (? & ? & _).
  pose proof (Z.mod_pos_bound K (cq_len q) ltac:(lia)).
  unfold CompletionQueue.complete. do 4 wp_step. { rewrite QUEUE_LENGTH_value. simpl. lia. }
  do 2 wp_step. simpl cq_head. simpl cq_phase.
  change (CompletionQueue.slot (cq_pos q K)) with (CompletionQueue.slot q).
  destruct (produces_tick _ _ _ HP) as (P1 & ? & HP1).
  rewrite (phase_test C P1 K) by done.
  destruct (Z.ltb_spec K P1).
  - cbv zeta iota. cbn [cq_head cq_len cq_pos]. do 4 wp_step.
    rewrite mod_succ_mod by lia. do 2 wp_step. wp_step.
    apply wp_mono with (λ r q' w', r = Ret tt ∧ q' = cq_pos q (K + 1) ∧ w' = tick w).
    { unfold cq_pos. rewrite phase_at_succ by lia. destruct (_ =? 0); by repeat wp_step. }
    intros ? ? ? (-> & -> & ->). cbn [then_]. do 3 wp_step.
    destruct (produces_tick _ _ _ HP1) as (P2 & ? & HP2).
    pose proof (produces_view _ _ _ HP2) as (? & ? & Hposted & _).
    change (CompletionQueue.slot (cq_pos q K)) with (CompletionQueue.slot q).
    fold (cq_entry (mem (tick (tick w))) q K). rewrite (proj1 (Hposted K ltac:(lia))).
    eapply Hsome; [|done..]. lia.
  - wp_step. apply (Hnone P1); [lia|done].
Qed.

Lemma wp_complete_spin_fuel n C P K w
    (Q : Res (Z * NvmeCompletion * Z) → CompletionQueue → World E → Prop) :
  produces C P w → C ≤ K < C + cq_len q →
  (∃ i P', (i < n)%nat ∧ K < P' ∧ produces C P' (Nat.iter (S i) tick w)) →
  (∀ P' w', K < P' → produces C P' w' → trace w' = trace w →
     Q (Ret (cq_result q posted K)) (cq_pos q (K + 1)) w') →
  wp (CompletionQueue.complete_spin_fuel n) Q (cq_pos q K) w.
Proof.
  intros HP HK Hlive HQ. revert P w HP Hlive HQ. induction n as [|n IH]; intros P w HP Hlive HQ.
  { destruct Hlive as (i & _ & Hi & _). lia. }
  cbn [CompletionQueue.complete_spin_fuel]. apply wp_bind.
  eapply wp_complete; [done..| |]; cbn [then_].
  - intros P1 HP1 HP1'. apply (IH P1); [done| |].
    + destruct Hlive as (i & P' & Hi & HPi & Hpr). destruct i as [|i].
      { cbn in Hpr. pose proof (produces_functional _ _ _ _ Hpr HP1'). lia. }
      exists i, P'. split; [lia|]. split; [done|]. by rewrite <-Nat.iter_succ_r.
    + intros P' w' ? ? Ht. apply (HQ P'); [done..|]. by rewrite Ht, trace_tick.
  - intros P1 P2 ? ? ?. wp_step. apply (HQ P2); [lia|done|]. by rewrite !trace_tick.
Qed.

(** A controller that posts completion [P < goal] within [N] ticks. *)
Class CqLive (goal : Z) (N : nat) : Prop :=
  cq_live : ∀ C P w, produces C P w → P < goal →
    ∃ i P', (i < N)%nat ∧ P < P' ∧ produces C P' (Nat.iter (S i) tick w).

Lemma cq_reach goal N C P K w :
  CqLive goal N → produces C P w → K < goal → (0 < N)%nat →
  ∃ i P', (i < (Z.to_nat (K + 1 - P)) * N + 1)%nat ∧ K < P' ∧
    produces C P' (Nat.iter (S i) tick w).
Proof.
  intros Hlive HP HK HN. remember (Z.to_nat (K + 1 - P)) as d eqn:Hd.
  revert P w Hd HP. induction d as [d IH] using lt_wf_ind. intros P w -> HP.
  destruct (Z.lt_ge_cases K P) as [Hlt|Hge].
  - destruct (produces_tick _ _ _ HP) as (P' & ? & ?).
    exists 0%nat, P'. split; [lia|]. split; [lia|done].
  - destruct (Hlive _ _ _ HP ltac:(lia)) as (i & P' & Hi & HPP' & Hpr).
    destruct (Z.lt_ge_cases K P') as [Hlt|Hge'].
    { exists i, P'. split; [|done]. nia. }
    destruct (IH (Z.to_nat (K + 1 - P')) ltac:(lia) P' _ eq_refl Hpr) as (j & P'' & Hj & ? & Hpr').
    exists (j + S i)%nat, P''. split.
    + assert (Z.to_nat (K + 1 - P) ≥ S (Z.to_nat (K + 1 - P')))%nat by lia. nia.
    + split; [done|]. replace (S (j + S i)) with (S j + S i)%nat by lia.
      by rewrite Nat.iter_add.
Qed.

Lemma wp_complete_spin goal N C P K w
    (Q : Res (Z * NvmeCompletion * Z) → CompletionQueue → World E → Prop) :
  CqLive goal N → produces C P w → C ≤ K < C + cq_len q → K < goal → (0 < N)%nat →
  (Z.to_nat (K + 1 - P) * N < spin_fuel)%nat →
  (∀ P' w', K < P' → produces C P' w' → trace w' = trace w →
     Q (Ret (cq_result q posted K)) (cq_pos q (K + 1)) w') →
  wp CompletionQueue.complete_spin Q (cq_pos q K) w.
Proof.
  intros Hlive HP HK Hgoal HN Hfuel HQ. unfold CompletionQueue.complete_spin.
  eapply wp_complete_spin_fuel; [done..| |done].
  destruct (cq_reach goal N C P K w) as (i & P' & Hi & ? & ?); [done..|].
  exists i, P'. split; [|done]. lia.
Qed.

Lemma wp_complete_n goal N C P n w
    (Q : Res (Z * NvmeCompletion * Z) → CompletionQueue → World E → Prop) :
  CqLive goal N → produces C P w → 1 ≤ n ≤ cq_len q → C + n ≤ goal → (0 < N)%nat →
  (Z.to_nat n * N < spin_fuel)%nat →
  (∀ P' w', C + n ≤ P' → produces C P' w' → trace w' = trace w →
     Q (Ret ((C + n) `mod` cq_len q, posted (C + n - 1), C `mod` cq_len q))
       (cq_pos q (C + n)) w') →
  wp (CompletionQueue.complete_n n) Q (cq_pos q C) w.
Proof.
  intros Hlive HP Hn Hgoal HN Hfuel HQ. pose proof Hlen as Hl. rewrite QUEUE_LENGTH_value in Hl.
  pose proof (produces_view _ _ _ HP) as (? & ? & _).
  pose proof (Z.mod_pos_bound C (cq_len q) ltac:(lia)).
  unfold CompletionQueue.complete_n. do 2 wp_step. cbn [cq_head cq_len cq_pos cq_phase].
  do 6 wp_step.
  apply wp_bind, wp_mono with (λ r q' w', r = Ret tt ∧ w' = w ∧
    CompletionQueue.set_head ((C `mod` cq_len q + (n - 1)) `mod` cq_len q) q' =
      cq_pos q (C + (n - 1))).
  { unfold cq_pos. rewrite phase_at_jump, Z.add_mod_idemp_l by lia.
    by destruct (_ <=? _); repeat wp_step. }
  intros ? q' ? (-> & -> & Hq'). cbn [then_]. do 4 wp_step. rewrite Hq'. wp_step.
  assert (Z.to_nat (C + (n - 1) + 1 - P) ≤ Z.to_nat n)%nat by lia.
  eapply (wp_complete_spin goal N C P); [done..|lia|lia|done|nia|].
  intros P' w' ? ? Ht. cbn [then_]. unfold cq_result. cbv iota beta. wp_step.
  replace (C + (n - 1) + 1) with (C + n) by lia.
  replace (C + (n - 1)) with (C + n - 1) by lia. eapply HQ; [|done..]. lia.
Qed.

End completion.

(** [n] single completions, one after the other. *)
Fixpoint complete_each {E} `{BLD : Build, FUEL : Fuel, HW : Hardware E} (n : nat) :
    M E CompletionQueue (list NvmeCompletion) :=
  match n with
  | O => mret []
  | S n =>
    r ← CompletionQueue.complete_spin;
    rest ← complete_each n;
    mret (r.1.2 :: rest)
  end.

Section each.
Context {E : Type} `{BLD : Build} `{FUEL : Fuel} `{HW : Hardware E}.
Context (q : CompletionQueue) (posted : Z → NvmeCompletion).
Context (produces : Z → Z → World E → Prop) `{!CqProducer q posted produces}.
Context (Hlen : 0 < cq_len q ≤ QUEUE_LENGTH).

Lemma wp_complete_each goal N n C P w
    (Q : Res (list NvmeCompletion) → CompletionQueue → World E → Prop) :
  CqLive produces goal N → produces C P w → C + Z.of_nat n ≤ goal → (0 < N)%nat →
  (N < spin_fuel)%nat →
  (∀ P' w', produces (C + Z.of_nat n) P' w' → trace w' = trace w →
     Q (Ret (posted <$> zrange C (C + Z.of_nat n))) (cq_pos q (C + Z.of_nat n)) w') →
  wp (complete_each n) Q (cq_pos q C) w.
Proof.
  intros Hlive. revert C P w Q.
  induction n as [|n IH]; intros C P w Q HP Hgoal HN Hfuel HQ; cbn [complete_each].
  { wp_step. rewrite Nat2Z.inj_0, Z.add_0_r in HQ. rewrite (zrange_nil C C) in HQ by lia.
    by eapply HQ. }
  pose proof (produces_view _ _ _ HP) as (? & ? & _).
  wp_step. eapply (wp_complete_spin q posted produces Hlen goal N C P); [done..|lia|lia|done| |].
  { assert (Z.to_nat (C + 1 - P) ≤ 1)%nat by lia. nia. }
  intros P' w' HCP Hpr Ht. cbn [then_]. wp_step.
  eapply (IH (C + 1) P'); [by apply produces_take; [|lia]|lia|done..|].
  intros P'' w'' Hpr' Ht'. cbn [then_]. wp_step.
  cbn [cq_result fst snd]. replace (C + 1 + Z.of_nat n) with (C + Z.of_nat (S n)) in * by lia.
  rewrite <-fmap_cons, <-zrange_cons by lia. eapply HQ; [done|]. congruence.
Qed.

End each.

(** ** A controller that posts completions

    One completion per tick until [goal] of them are posted: the interface
    [CqProducer] has a model, on which the properties below are evaluated. *)

Section posting.
Context (q : CompletionQueue) (posted : Z → NvmeCompletion) (goal : Z).

Definition posting_hw : Hardware Z := {|
  hw_run P m :=
    if P <? goal
    then (P + 1, store_bytes m (CompletionQueue.slot q (P `mod` cq_len q))
                   (NvmeCompletion.encode (posted P)))
    else (P, m);
  hw_read _ _ e := (0, e);
  hw_write _ _ _ e := e;
|}.

Definition posting_produces (C P : Z) (w : World Z) : Prop :=
  env w = P ∧ P ≤ goal ∧ cq_view q posted C P (mem w).

(** The empty ring: every status word is 0. *)
Definition posting_world : World Z := initial 0 (λ _, 0).

Context (Hlen : 0 < cq_len q ≤ QUEUE_LENGTH) (Hgoal : 0 ≤ goal ≤ cq_len q).
Context (Hwf : ∀ k, 0 ≤ k < goal → NvmeCompletion.wf (posted k)).
Context (Hphase : ∀ k, 0 ≤ k < goal → Z.odd (cpl_status (posted k)) = phase_at (cq_len q) k).

Lemma completion_decode_encode c :
  NvmeCompletion.wf c → NvmeCompletion.decode (NvmeCompletion.encode c) = c.
Proof.
  intros Hc. unfold NvmeCompletion.decode, NvmeCompletion.encode.
  pose proof (dec_enc_fields _ Hc) as Hd.
  cbn [zip zip_with NvmeCompletion.layout NvmeCompletion.fields fmap list_fmap fst snd] in Hd |- *.
  unfold NvmeCompletion.layout. rewrite Hd. by destruct c.
Qed.

Lemma completion_encode_length c : length (NvmeCompletion.encode c) = 16%nat.
Proof. unfold NvmeCompletion.encode. by rewrite enc_fields_length. Qed.

Lemma cq_entry_store m k c :
  NvmeCompletion.wf c →
  ∀ j, cq_entry (store_bytes m (CompletionQueue.slot q (k `mod` cq_len q))
                  (NvmeCompletion.encode c)) q j =
  if k `mod` cq_len q =? j `mod` cq_len q then c else cq_entry m q j.
Proof.
  intros Hc j. unfold cq_entry. destruct (Z.eqb_spec (k `mod` cq_len q) (j `mod` cq_len q)) as [->|].
  - change (Z.to_nat NvmeCompletion.size_of) with 16%nat.
    rewrite <-(completion_encode_length c), load_store_same by apply enc_fields_is_byte.
    by apply completion_decode_encode.
  - f_equal. apply load_store_disjoint. rewrite completion_encode_length.
    unfold CompletionQueue.slot. rewrite size_of_completion. simpl. lia.
Qed.

Lemma mod_eq_near n k j : 0 < n → k `mod` n = j `mod` n → - n < k - j < n → k = j.
Proof.
  intros Hn He Hd. pose proof (Z.div_mod k n ltac:(lia)). pose proof (Z.div_mod j n ltac:(lia)).
  assert (k / n = j / n) as Hq by nia. rewrite Hq, He in *. lia.
Qed.

Lemma posting_init : posting_produces 0 0 posting_world.
Proof.
  split; [done|]. split; [lia|]. split; [lia|]. split; [lia|]. split; [lia|].
  intros k Hk. unfold cq_entry. rewrite status_word. simpl.
  unfold phase_at. rewrite Z.div_small by lia. done.
Qed.

#[local] Existing Instance posting_hw.

Lemma posting_tick C P w :
  posting_produces C P w →
  posting_produces C (if P <? goal then P + 1 else P) (tick w).
Proof.
  intros (He & HPg & (? & ? & Hposted & Hfree)). unfold posting_produces, tick. simpl.
  rewrite He. destruct (Z.ltb_spec P goal); simpl; [|done].
  split; [done|]. split; [lia|]. split; [lia|]. split; [lia|]. split; intros k Hk.
  - rewrite cq_entry_store by (apply Hwf; lia). destruct (Z.eqb_spec (P `mod` cq_len q) (k `mod` cq_len q)) as [Hm|Hm].
    + apply mod_eq_near in Hm as ->; [|lia..]. split; [done|]. apply Hphase. lia.
    + apply Hposted. assert (k ≠ P) by (by intros ->). lia.
  - rewrite cq_entry_store by (apply Hwf; lia). destruct (Z.eqb_spec (P `mod` cq_len q) (k `mod` cq_len q)) as [Hm|Hm].
    + apply mod_eq_near in Hm as ->; lia.
    + apply Hfree. lia.
Qed.

Lemma posting_producer : CqProducer q posted posting_produces.
Proof.
  split.
  - by intros C P w (_ & _ & ?).
  - intros C P w HP%posting_tick. eexists; split; [|done]. destruct (_ <? _); lia.
  - intros C P w (? & ? & ?) ?. split; [done|]. split; [done|].
    apply cq_view_take; [lia|done..].
Qed.

Lemma posting_live : CqLive posting_produces goal 1.
Proof.
  intros C P w HP%posting_tick HPg. exists 0%nat.
  rewrite (proj2 (Z.ltb_lt _ _) HPg) in HP. exists (P + 1). split; [lia|]. split; [lia|done].
Qed.

End posting.

(** A machine on which nothing happens between two accesses. *)
Definition idle_hw : Hardware unit := {|
  hw_run e m := (e, m);
  hw_read _ _ e := (0, e);
  hw_write _ _ _ e := e;
|}.

(** ** Properties *)

(** What a submission queue of [cap + 1] slots promises: a bounded queue. *)
Definition bounded_push (cap : Z) (l : list NvmeCommand) (c : NvmeCommand) :
    option (list NvmeCommand) :=
  if Z.of_nat (length l) =? cap then None else Some (l ++ [c]).

Lemma sq_entries_length m q : sq_ok q → Z.of_nat (length (sq_entries m q)) = sq_count q.
Proof.
  intros Hq. pose proof (sq_count_bounds q Hq). unfold sq_entries.
  rewrite length_fmap, zrange_length. lia.
Qed.

(** C6: [submit_checked] implements a bounded queue of [len - 1] entries.  On
    a full ring it returns [None] and touches neither the queue nor memory;
    otherwise it appends the entry, in its memory image, after the entries
    already in the ring, all of which the ring still holds, leaves the head
    alone, and performs exactly one store. *)
Theorem submit_checked_refines `{BLD : Build} {E} `{HW : Hardware E}
    (q : SubmissionQueue) (w : World E) (entry : NvmeCommand) :
  sq_ok q → NvmeCommand.wf entry →
  (∀ i, sq_entry (mem (tick w)) q i = sq_entry (mem w) q i) →
  match bounded_push (sq_len q - 1) (sq_entries (mem w) q) entry with
  | None => SubmissionQueue.submit_checked entry (q, w) = (Ret None, (q, w))
  | Some l => ∃ q' w',
      SubmissionQueue.submit_checked entry (q, w) = (Ret (Some (sq_tail q')), (q', w')) ∧
      sq_ok q' ∧ sq_head q' = sq_head q ∧ sq_entries (mem w') q' = l ∧
      trace w' = trace w ++ [EvStore (sq_slot q (sq_tail q)) (NvmeCommand.encode entry)]
  end.
Proof.
  intros Hq Hwf Htick. unfold bounded_push. rewrite sq_entries_length by done.
  rewrite submit_checked_run, full_count by done. destruct (Z.eqb_spec (sq_count q) (sq_len q - 1)); [done|].
  pose proof (sq_count_bounds q Hq).
  exists (SubmissionQueue.set_tail ((sq_tail q + 1) `mod` sq_len q) q). eexists. split; [reflexivity|].
  split; [|split; [done|split; [|by world]]].
  - apply sq_ok_set_tail; [done|]. apply Z.mod_pos_bound. destruct Hq; lia.
  - simpl. rewrite sq_entries_store by (done || lia). f_equal.
    unfold sq_entries. apply list_fmap_ext. intros. apply Htick.
Qed.

Lemma submit_checked_refines_witness :
  let q := mkSubmissionQueue (mkDma 4096 4096 2097152) 2 1 4 0 in
  sq_ok q ∧ SubmissionQueue.submit_checked (BLD:=true) (HW:=idle_hw)
    (NvmeCommand.io_read 1 1 0 7 8192 0) (q, initial tt (λ _, 0)) =
  (Ret None, (q, initial tt (λ _, 0))).
Proof.
  assert (sq_ok (mkSubmissionQueue (mkDma 4096 4096 2097152) 2 1 4 0)) as Hq
    by (unfold sq_ok; rewrite QUEUE_LENGTH_value; simpl; lia).
  split; [done|].
  apply (submit_checked_refines (BLD:=true) (HW:=idle_hw)
    (mkSubmissionQueue (mkDma 4096 4096 2097152) 2 1 4 0) (initial tt (λ _, 0))
    (NvmeCommand.io_read 1 1 0 7 8192 0) Hq); [apply io_read_wf; lia|done].
Defined.

(** Whatever the tail, [submit] either stores one 64-byte entry inside the
    [QUEUE_LENGTH] slots of the DMA region that [SubmissionQueue::new]
    allocates, or panics without storing anything. *)
Lemma submit_in_bounds `{BLD : Build} {E} `{HW : Hardware E}
    (q : SubmissionQueue) (w : World E) (entry : NvmeCommand) :
  let r := SubmissionQueue.submit entry (q, w) in
  (∃ a, trace r.2.2 = trace w ++ [EvStore a (NvmeCommand.encode entry)] ∧
     virt (sq_commands q) ≤ a ∧
     a + Z.of_nat (length (NvmeCommand.encode entry)) ≤
       virt (sq_commands q) + NvmeCommand.size_of * QUEUE_LENGTH) ∨
  (r.1 = Panicked OutOfBounds ∧ trace r.2.2 = trace w).
Proof.
  intros r. unfold r, SubmissionQueue.submit. pose proof (encode_length entry) as Hlen.
  remember (NvmeCommand.encode entry) as bs eqn:Hbs. clear Hbs. rewrite Hlen.
  unfold get, mbind, M_bind, index. cbn [fst snd].
  destruct (Z.leb_spec 0 (sq_tail q)), (Z.ltb_spec (sq_tail q) QUEUE_LENGTH); cbn; auto.
  left. exists (sq_slot q (sq_tail q)). unfold sq_slot. rewrite size_of_command.
  split; [|lia]. unfold ck64, ck, umod, modify.
  destruct (fits 64 _), (sq_len q =? 0), overflow_checks; cbn; by rewrite trace_tick.
Qed.

(** C7: the phase bit tells new completions from old ones.  Against any
    controller that posts in order and never over an unread entry, [complete]
    at position [C] takes completion number [C] if it has been posted when the
    status word is read, returning the controller's entry and moving the head
    and the phase to position [C + 1], and otherwise returns [None] and leaves
    the queue as it is.  No completion is lost, repeated or taken early,
    through any number of laps of the ring. *)
Theorem complete_takes_next `{BLD : Build} `{HW : Hardware E}
    (q : CompletionQueue) (posted : Z → NvmeCompletion) (produces : Z → Z → World E → Prop)
    (C P : Z) (w : World E) :
  CqProducer q posted produces → 0 < cq_len q ≤ QUEUE_LENGTH → produces C P w →
  ∃ P', produces C P' (tick w) ∧
    (P' = C → CompletionQueue.complete (cq_pos q C, w) = (Ret None, (cq_pos q C, tick w))) ∧
    (C < P' → ∃ P'',
       CompletionQueue.complete (cq_pos q C, w) =
         (Ret (Some ((C + 1) `mod` cq_len q, posted C, C `mod` cq_len q)),
          (cq_pos q (C + 1), tick (tick w))) ∧
       produces (C + 1) P'' (tick (tick w))).
Proof.
  intros Hprod Hlen HP. destruct (produces_tick _ _ _ HP) as (P' & ? & HP').
  exists P'. split; [done|].
  assert (wp CompletionQueue.complete (λ r q' w',
    (P' = C → (r, (q', w')) = (Ret None, (cq_pos q C, tick w))) ∧
    (C < P' → ∃ P'', (r, (q', w')) = (Ret (Some (cq_result q posted C)),
       (cq_pos q (C + 1), tick (tick w))) ∧ produces (C + 1) P'' (tick (tick w))))
    (cq_pos q C) w) as Hwp.
  { eapply (wp_complete (BLD:=BLD) q posted produces Hlen); [done|lia|..].
    - intros P1 ? HP1. pose proof (produces_functional _ _ _ _ _ _ _ HP1 HP'). split; [done|lia].
    - intros P1 P2 ? HP1 HP2. pose proof (produces_functional _ _ _ _ _ _ _ HP1 HP').
      split; [lia|]. intros _. exists P2. split; [done|]. apply produces_take; [done|lia]. }
  unfold wp in Hwp. by destruct (CompletionQueue.complete _) as [r [q' w']].
Qed.

(** The ring of four entries on which the completion properties are evaluated. *)
Definition demo_cq : CompletionQueue := mkCompletionQueue (mkDma 4096 4096 2097152) 0 true 4 0.
Definition demo_posted (k : Z) : NvmeCompletion := mkNvmeCompletion 0 0 (k + 1) 1 k 1.

Lemma demo_posted_wf k : 0 ≤ k < 3 → NvmeCompletion.wf (demo_posted k).
Proof.
  intros. unfold NvmeCompletion.wf.
  repeat (apply Forall_cons; split); try apply Forall_nil; unfold field_ok; simpl; lia.
Qed.

Lemma demo_posted_phase k : 0 ≤ k < 3 → Z.odd (cpl_status (demo_posted k)) = phase_at 4 k.
Proof. intros. unfold phase_at. by rewrite Z.div_small by lia. Qed.

Lemma demo_len : 0 < cq_len demo_cq ≤ QUEUE_LENGTH.
Proof. rewrite QUEUE_LENGTH_value. simpl. lia. Qed.

Lemma complete_takes_next_witness :
  CompletionQueue.complete (BLD:=true) (HW:=posting_hw demo_cq demo_posted 3)
    (cq_pos demo_cq 0, posting_world) =
  (Ret (Some (1, demo_posted 0, 0)),
   (cq_pos demo_cq 1, tick (HW:=posting_hw demo_cq demo_posted 3)
                        (tick (HW:=posting_hw demo_cq demo_posted 3) posting_world))).
Proof.
  pose proof demo_len as Hl.
  destruct (complete_takes_next (BLD:=true) (HW:=posting_hw demo_cq demo_posted 3)
    demo_cq demo_posted (posting_produces demo_cq demo_posted 3) 0 0 posting_world
    (posting_producer demo_cq demo_posted 3 Hl ltac:(simpl; lia) demo_posted_wf demo_posted_phase)
    Hl (posting_init demo_cq demo_posted 3 Hl ltac:(simpl; lia))) as (P' & HP' & _ & Hsome).
  pose proof (posting_tick demo_cq demo_posted 3 Hl ltac:(simpl; lia) demo_posted_wf
    demo_posted_phase 0 0 posting_world (posting_init demo_cq demo_posted 3 Hl ltac:(simpl; lia)))
    as HP1.
  destruct HP' as (He & _). destruct HP1 as (He1 & _).
  rewrite He1 in He. simpl in He. subst P'.
  destruct (Hsome ltac:(lia)) as (P'' & Hc & _). exact Hc.
Defined.

(** C29: [complete_n(n)] is [n] single completions with all but the last
    thrown away.  For [1 <= n <= len] and a controller that goes on to post
    that many, both return (given enough iterations of the spinning loop) and
    both leave the queue at position [C + n]; [complete_each] returns all the
    [n] completions, [complete_n] only the last, so the status words of the
    others are never looked at. *)
Theorem complete_n_is_n_completes `{BLD : Build} `{FUEL : Fuel} `{HW : Hardware E}
    (q : CompletionQueue) (posted : Z → NvmeCompletion) (produces : Z → Z → World E → Prop)
    (goal : Z) (N n : nat) (C P : Z) (w : World E) :
  CqProducer q posted produces → CqLive produces goal N →
  0 < cq_len q ≤ QUEUE_LENGTH → produces C P w →
  1 ≤ Z.of_nat n ≤ cq_len q → C + Z.of_nat n ≤ goal → (0 < N)%nat → (n * N < spin_fuel)%nat →
  let q' := cq_pos q (C + Z.of_nat n) in
  (∃ w', CompletionQueue.complete_n (Z.of_nat n) (cq_pos q C, w) =
     (Ret ((C + Z.of_nat n) `mod` cq_len q, posted (C + Z.of_nat n - 1), C `mod` cq_len q),
      (q', w'))) ∧
  (∃ w', complete_each n (cq_pos q C, w) =
     (Ret (posted <$> zrange C (C + Z.of_nat n)), (q', w'))).
Proof.
  intros Hprod Hlive Hlen HP Hn Hgoal HN Hfuel q'. split.
  - assert (wp (CompletionQueue.complete_n (Z.of_nat n)) (λ r s' w',
      r = Ret ((C + Z.of_nat n) `mod` cq_len q, posted (C + Z.of_nat n - 1), C `mod` cq_len q) ∧
      s' = q') (cq_pos q C) w) as Hwp.
    { eapply (wp_complete_n q posted produces Hlen goal N C P); [done..|lia|]. by intros. }
    apply wp_run in Hwp as (r & s' & w' & -> & -> & ->). by exists w'.
  - assert (wp (complete_each n) (λ r s' w',
      r = Ret (posted <$> zrange C (C + Z.of_nat n)) ∧ s' = q') (cq_pos q C) w) as Hwp.
    { eapply (wp_complete_each q posted produces Hlen goal N n C P); [done..|nia|]. by intros. }
    apply wp_run in Hwp as (r & s' & w' & -> & -> & ->). by exists w'.
Qed.

Lemma complete_n_is_n_completes_witness :
  ∃ w', CompletionQueue.complete_n (BLD:=true) (FUEL:=10%nat) (HW:=posting_hw demo_cq demo_posted 3) 3
    (cq_pos demo_cq 0, posting_world) =
  (Ret (3, demo_posted 2, 0), (cq_pos demo_cq 3, w')).
Proof.
  pose proof demo_len as Hl.
  apply (complete_n_is_n_completes (BLD:=true) (FUEL:=10%nat) (HW:=posting_hw demo_cq demo_posted 3)
    demo_cq demo_posted (posting_produces demo_cq demo_posted 3) 3 1 3 0 0 posting_world
    (posting_producer demo_cq demo_posted 3 Hl ltac:(simpl; lia) demo_posted_wf demo_posted_phase)
    (posting_live demo_cq demo_posted 3 Hl ltac:(simpl; lia) demo_posted_wf demo_posted_phase)
    Hl (posting_init demo_cq demo_posted 3 Hl ltac:(simpl; lia))); unfold spin_fuel; simpl; lia.
Defined.
