(* ===== verification/Service.v ===== *)
(** What a controller promises to a driver that keeps one queue pair: it posts
    one completion for every doorbell ring, in order, and ignores everything
    else.  The theorems on the admin queue and on the device's own I/O queue
    are proved against this interface; a controller that has it is at the end
    of the file. *)

From S2P Require Import Prelude Bytes Machine Memory Cmd Mapping Queues.
#[local] Open Scope Z_scope.

(** ** Worlds after one access of the driver *)

Definition stored {E} (a : Z) (bs : list Z) (w : World E) : World E :=
  log (EvStore a bs) (upd (env w) (store_bytes (mem w) a bs) w).

Definition written {E} `{HW : Hardware E} (width a v : Z) (w : World E) : World E :=
  log (EvWrite width a v) (upd (hw_write width a v (env w)) (mem w) w).

Definition reading {E} `{HW : Hardware E} (width a : Z) (w : World E) : World E :=
  let r := hw_read width a (env w) in
  log (EvRead width a (wrap (8 * width) r.1)) (upd r.2 (mem w) w).

Section accesses.
Context {E : Type} `{HW : Hardware E}.
Implicit Types w : World E.

Lemma trace_reading m a w :
  trace (reading m a w) = trace w ++ [EvRead m a (wrap (8 * m) (hw_read m a (env w)).1)].
Proof. done. Qed.

Lemma trace_written m a v w : trace (written m a v w) = trace w ++ [EvWrite m a v].
Proof. done. Qed.

Lemma trace_stored a bs w : trace (stored a bs w) = trace w ++ [EvStore a bs].
Proof. done. Qed.

Lemma wp_submit `{BLD : Build} q w entry (Q : Res Z → SubmissionQueue → World E → Prop) :
  0 < sq_len q ≤ QUEUE_LENGTH → 0 ≤ sq_tail q < sq_len q →
  Q (Ret ((sq_tail q + 1) `mod` sq_len q))
    (SubmissionQueue.set_tail ((sq_tail q + 1) `mod` sq_len q) q)
    (stored (sq_slot q (sq_tail q)) (NvmeCommand.encode entry) (tick w)) →
  wp (SubmissionQueue.submit entry) Q q w.
Proof.
  intros Hl Ht HQ. unfold wp. by rewrite submit_run by done.
Qed.

Lemma wp_submit_checked `{BLD : Build} q w entry
    (Q : Res (option Z) → SubmissionQueue → World E → Prop) :
  sq_ok q → sq_head q ≠ (sq_tail q + 1) `mod` sq_len q →
  Q (Ret (Some ((sq_tail q + 1) `mod` sq_len q)))
    (SubmissionQueue.set_tail ((sq_tail q + 1) `mod` sq_len q) q)
    (stored (sq_slot q (sq_tail q)) (NvmeCommand.encode entry) (tick w)) →
  wp (SubmissionQueue.submit_checked entry) Q q w.
Proof.
  intros Hq Hf HQ. unfold wp. rewrite submit_checked_run by done.
  by rewrite (proj2 (Z.eqb_neq _ _) Hf).
Qed.

End accesses.

(** The trace of a chain of accesses. *)
Ltac access_trace :=
  repeat first [ rewrite trace_reading | rewrite trace_written | rewrite trace_stored
               | rewrite trace_tick ].

(** The memory of a completion queue: the slots in use. *)
Definition cq_apart (q : CompletionQueue) (a : Z) (n : nat) : Prop :=
  a + Z.of_nat n ≤ virt (cq_commands q) ∨
  virt (cq_commands q) + NvmeCompletion.size_of * cq_len q ≤ a.

(** [serves G C P w]: in the world [w] the submission doorbell has announced
    [G] commands, the controller has posted [P] completions and the driver has
    taken [C].  [sqdb] is the address of the doorbell and [sqlen] the length of
    the submission queue.  A command is completed within [N] runs of the
    controller.  This is what a driver relies on that waits for every command
    before it goes on. *)
Class SyncService {E} `{HW : Hardware E} (q : CompletionQueue) (posted : Z → NvmeCompletion)
    (sqdb sqlen : Z) (N : nat) (serves : Z → Z → Z → World E → Prop) : Prop := {
  service_view : ∀ G C P w, serves G C P w → P ≤ G ∧ cq_view q posted C P (mem w);
  service_tick : ∀ G C P w, serves G C P w → ∃ P', P ≤ P' ∧ serves G C P' (tick w);
  service_take : ∀ G C P w, serves G C P w → C < P → serves G (C + 1) P w;
  service_store_idle : ∀ G w a bs,
    serves G G G w → cq_apart q a (length bs) → serves G G G (stored a bs w);
  service_ring_idle : ∀ G w,
    serves G G G w → 0 < cq_len q → serves (G + 1) G G (written 4 sqdb ((G + 1) `mod` sqlen) w);
  service_write : ∀ G C P w n a v, serves G C P w → a ≠ sqdb → serves G C P (written n a v w);
  service_read : ∀ G C P w n a, serves G C P w → serves G C P (reading n a w);
  service_live : ∀ G C P w, serves G C P w → P < G →
    ∃ i P', (i < N)%nat ∧ P < P' ∧ serves G C P' (Nat.iter (S i) tick w);
}.

(** With commands in flight, the driver may store and ring as well. *)
Class CqService {E} `{HW : Hardware E} (q : CompletionQueue) (posted : Z → NvmeCompletion)
    (sqdb sqlen : Z) (N : nat) (serves : Z → Z → Z → World E → Prop) : Prop := {
  service_sync :: SyncService q posted sqdb sqlen N serves;
  service_store : ∀ G C P w a bs,
    serves G C P w → cq_apart q a (length bs) → serves G C P (stored a bs w);
  service_ring : ∀ G C P w,
    serves G C P w → G < C + cq_len q →
    serves (G + 1) C P (written 4 sqdb ((G + 1) `mod` sqlen) w);
}.

Lemma cq_service_intro {E} `{HW : Hardware E} q posted sqdb sqlen N
    (serves : Z → Z → Z → World E → Prop) :
  (∀ G C P w, serves G C P w → P ≤ G ∧ cq_view q posted C P (mem w)) →
  (∀ G C P w, serves G C P w → ∃ P', P ≤ P' ∧ serves G C P' (tick w)) →
  (∀ G C P w, serves G C P w → C < P → serves G (C + 1) P w) →
  (∀ G C P w a bs, serves G C P w → cq_apart q a (length bs) → serves G C P (stored a bs w)) →
  (∀ G C P w, serves G C P w → G < C + cq_len q →
     serves (G + 1) C P (written 4 sqdb ((G + 1) `mod` sqlen) w)) →
  (∀ G C P w n a v, serves G C P w → a ≠ sqdb → serves G C P (written n a v w)) →
  (∀ G C P w n a, serves G C P w → serves G C P (reading n a w)) →
  (∀ G C P w, serves G C P w → P < G →
     ∃ i P', (i < N)%nat ∧ P < P' ∧ serves G C P' (Nat.iter (S i) tick w)) →
  CqService q posted sqdb sqlen N serves.
Proof.
  intros Hv Ht Htake Hst Hri Hw Hr Hl. split; [split|exact Hst|exact Hri]; try done.
  - intros. by apply Hst.
  - intros. apply Hri; [done|lia].
Qed.

Section service.
Context {E : Type} `{HW : Hardware E}.
Context (q : CompletionQueue) (posted : Z → NvmeCompletion) (sqdb sqlen : Z) (N : nat).
Context (serves : Z → Z → Z → World E → Prop) `{SV : !SyncService q posted sqdb sqlen N serves}.

(** With the number of rings fixed it is the interface of the completion queue. *)
Lemma service_producer G : CqProducer q posted (serves G).
Proof.
  split.
  - intros C P w HP. by apply service_view in HP as [_ ?].
  - intros C P w. apply service_tick.
  - intros C P w. apply service_take.
Qed.

Lemma service_cqlive G : CqLive (serves G) G N.
Proof. intros C P w. apply service_live. Qed.

Lemma service_N_pos G C P w : serves G C P w → P < G → (0 < N)%nat.
Proof. intros HP HG. destruct (service_live _ _ _ _ HP HG) as (i & _ & Hi & _). lia. Qed.

(** With everything taken there is nothing left to post. *)
Lemma service_idle_tick G w : serves G G G w → serves G G G (tick w).
Proof.
  intros HP. destruct (service_tick _ _ _ _ HP) as (P' & ? & HP').
  destruct (service_view _ _ _ _ HP'). by replace P' with G in HP' by lia.
Qed.

(** All taken again after the completions. *)
Lemma service_take_n G C P w n :
  serves G C P w → 0 ≤ n → C + n ≤ P → serves G (C + n) P w.
Proof.
  intros HP Hn. remember (Z.to_nat n) as j eqn:Hj. revert n Hn Hj.
  induction j as [|j IH]; intros n Hn Hj HnP.
  { by replace (C + n) with C by lia. }
  replace (C + n) with (C + (n - 1) + 1) by lia. apply service_take; [apply IH; lia|lia].
Qed.

Lemma service_taken_n C n P w :
  serves (C + n) C P w → 0 ≤ n → C + n ≤ P → serves (C + n) (C + n) (C + n) w.
Proof.
  intros HP ? ?. destruct (service_view _ _ _ _ HP) as [? _].
  replace P with (C + n) in HP by lia. apply service_take_n; [done|lia..].
Qed.

Lemma service_taken G P w :
  serves (G + 1) G P w → G < P → serves (G + 1) (G + 1) (G + 1) w.
Proof. intros. apply (service_taken_n G 1 P); [done|lia..]. Qed.

(** One store outside the queue, one ring: the state after both. *)
Lemma service_submit G w a bs :
  serves G G G w → 0 < cq_len q → cq_apart q a (length bs) →
  ∃ P, serves (G + 1) G P (written 4 sqdb ((G + 1) `mod` sqlen) (tick (stored a bs (tick w)))).
Proof.
  intros HP Hl Ha. exists G. apply service_ring_idle; [|done].
  apply service_idle_tick, service_store_idle; [|done]. by apply service_idle_tick.
Qed.

End service.

(** A store and a ring while commands are in flight. *)
Lemma service_submit_more {E} `{HW : Hardware E} q posted sqdb sqlen N
    (serves : Z → Z → Z → World E → Prop) `{SV : !CqService q posted sqdb sqlen N serves} G C P w a bs :
  serves G C P w → G < C + cq_len q → cq_apart q a (length bs) →
  ∃ P', serves (G + 1) C P' (written 4 sqdb ((G + 1) `mod` sqlen) (tick (stored a bs (tick w)))).
Proof.
  intros HP ? ?. apply service_tick in HP as (P1 & _ & HP).
  apply (service_store _ _ _ _ a bs) in HP; [|done].
  apply service_tick in HP as (P2 & _ & HP). exists P2. by apply service_ring.
Qed.


(** ** The memory of a completion queue *)

Section view.
Context (q : CompletionQueue) (posted : Z → NvmeCompletion).
Context (Hlen : 0 < cq_len q ≤ QUEUE_LENGTH).

(** The next completion is posted. *)
Lemma cq_view_post C P m :
  NvmeCompletion.wf (posted P) → Z.odd (cpl_status (posted P)) = phase_at (cq_len q) P →
  P < C + cq_len q → cq_view q posted C P m →
  cq_view q posted C (P + 1)
    (store_bytes m (CompletionQueue.slot q (P `mod` cq_len q)) (NvmeCompletion.encode (posted P))).
Proof.
  intros Hwf Hph HPC (? & ? & Hposted & Hfree). split; [lia|]. split; [lia|]. split; intros k Hk.
  - rewrite cq_entry_store by done.
    destruct (Z.eqb_spec (P `mod` cq_len q) (k `mod` cq_len q)) as [Hm|Hm].
    + apply mod_eq_near in Hm as ->; [|lia..]. by split.
    + apply Hposted. assert (k ≠ P) by (by intros ->). lia.
  - rewrite cq_entry_store by done.
    destruct (Z.eqb_spec (P `mod` cq_len q) (k `mod` cq_len q)) as [Hm|Hm].
    + apply mod_eq_near in Hm as ->; lia.
    + apply Hfree. lia.
Qed.

(** Memory outside the slots is not looked at. *)
Lemma cq_view_ext C P m m' :
  (∀ x, ¬ cq_apart q x 1 → m' x = m x) → cq_view q posted C P m → cq_view q posted C P m'.
Proof.
  intros Hm (? & ? & Hp & Hf).
  assert (∀ k, cq_entry m' q k = cq_entry m q k) as He.
  { intros k. unfold cq_entry. f_equal. apply load_bytes_ext. intros i Hi. apply Hm.
    pose proof (Z.mod_pos_bound k (cq_len q) ltac:(lia)). unfold cq_apart, CompletionQueue.slot in *.
    rewrite size_of_completion in *. simpl in *. lia. }
  split; [done|]. split; [done|]. split; intros k Hk; rewrite He; auto.
Qed.

Lemma cq_view_store C P m a bs :
  cq_apart q a (length bs) → cq_view q posted C P m → cq_view q posted C P (store_bytes m a bs).
Proof.
  intros Hap. apply cq_view_ext. intros x Hx. apply store_bytes_other.
  unfold cq_apart in *. lia.
Qed.

End view.

(** ** A controller with the interface

    It answers the [k]-th command with [posted k], one completion per run.  It
    keeps the register [cc], and the status register, 8 bytes further, reports
    its enable bit; other registers read as 0. *)

Section serving.
Context (q : CompletionQueue) (posted : Z → NvmeCompletion) (sqdb sqlen cc : Z).

(** The state is the value of the register, and the numbers of rings and of
    completions posted. *)
Definition serving_hw : Hardware (Z * (Z * Z)) := {|
  hw_run e m :=
    let '(v, (G, P)) := e in
    if P <? G
    then ((v, (G, P + 1)), store_bytes m (CompletionQueue.slot q (P `mod` cq_len q))
                             (NvmeCompletion.encode (posted P)))
    else (e, m);
  hw_read _ a e :=
    (if a =? cc then e.1 else if a =? cc + 8 then Z.land e.1 1 else 0, e);
  hw_write _ a v e :=
    let '(v0, (G, P)) := e in
    if a =? sqdb then (v0, (G + 1, P)) else (if a =? cc then v else v0, (G, P));
|}.

Definition serving (G C P : Z) (w : World (Z * (Z * Z))) : Prop :=
  (env w).2 = (G, P) ∧ P ≤ G ≤ C + cq_len q ∧ cq_view q posted C P (mem w).

Definition serving_world : World (Z * (Z * Z)) := initial (0, (0, 0)) (λ _, 0).

Context (Hlen : 0 < cq_len q ≤ QUEUE_LENGTH).
Context (Hwf : ∀ k, 0 ≤ k → NvmeCompletion.wf (posted k)).
Context (Hphase : ∀ k, 0 ≤ k → Z.odd (cpl_status (posted k)) = phase_at (cq_len q) k).

Lemma serving_init : serving 0 0 0 serving_world.
Proof.
  destruct (posting_init q posted 0 Hlen ltac:(lia)) as (_ & _ & Hview).
  split; [done|]. split; [lia|exact Hview].
Qed.

#[local] Existing Instance serving_hw.

Lemma serving_tick G C P w :
  serving G C P w → serving G C (if P <? G then P + 1 else P) (tick w).
Proof.
  intros (He & HPg & Hv). unfold serving, tick. simpl.
  destruct (env w) as [v [? ?]]. simpl in He. injection He as -> ->.
  destruct (Z.ltb_spec P G); simpl; [|done]. split; [done|]. split; [lia|].
  destruct Hv as (? & ?). apply cq_view_post; [done|apply Hwf; lia|apply Hphase; lia|lia|done].
Qed.

Lemma serving_service : CqService q posted sqdb sqlen 1 serving.
Proof.
  apply cq_service_intro.
  - by intros G C P w (_ & [? _] & ?).
  - intros G C P w HP%serving_tick. eexists; split; [|done]. destruct (_ <? _); lia.
  - intros G C P w (? & ? & ?) ?. split; [done|]. split; [lia|]. apply cq_view_take; [lia|done..].
  - intros G C P w a bs (? & ? & ?) ?. split; [done|]. split; [done|]. by apply cq_view_store.
  - intros G C P w (He & ? & ?) ?. unfold serving. simpl. rewrite Z.eqb_refl.
    destruct (env w) as [v0 [? ?]]. simpl in He. injection He as -> ->. simpl.
    split; [done|]. split; [lia|done].
  - intros G C P w n a v (He & ? & ?) Ha. unfold serving. simpl.
    destruct (env w) as [v0 [? ?]]. simpl in *. by rewrite (proj2 (Z.eqb_neq _ _) Ha).
  - by intros.
  - intros G C P w HP%serving_tick HPg. exists 0%nat, (P + 1).
    rewrite (proj2 (Z.ltb_lt _ _) HPg) in HP. split; [lia|]. split; [lia|done].
Qed.

End serving.

(** Successful completions, with the phase bit of the lap they belong to. *)
Definition success (len k : Z) : NvmeCompletion :=
  mkNvmeCompletion 0 0 ((k + 1) `mod` len) 0 (k `mod` len) (if phase_at len k then 1 else 0).

Lemma success_wf len k : 0 < len ≤ QUEUE_LENGTH → NvmeCompletion.wf (success len k).
Proof.
  rewrite QUEUE_LENGTH_value. intros. pose proof (Z.mod_pos_bound (k + 1) len).
  pose proof (Z.mod_pos_bound k len). unfold NvmeCompletion.wf.
  repeat (apply Forall_cons; split); try apply Forall_nil; unfold field_ok; simpl; try lia.
  destruct (phase_at len k); lia.
Qed.

Lemma success_phase len k : Z.odd (cpl_status (success len k)) = phase_at len k.
Proof. simpl. by destruct (phase_at len k). Qed.
