(* ===== verification/Format.v ===== *)
(** Rust's integer formatting, as far as the messages of the driver use it.

    [{:0Nb}] is a binary numeral padded to [N] digits, [{:x}] a lower-case
    hexadecimal numeral without padding, [{}] a decimal numeral, which
    [uint_from_str] reads back. *)

From S2P Require Import Prelude.
From stdpp Require Import pretty.
From Stdlib Require Import Ascii.
#[local] Open Scope Z_scope.


Definition bit_char (b : bool) : Ascii.ascii := if b then "1"%char else "0"%char.

(** The low [n] bits of [z], most significant first. *)
Fixpoint bin (n : nat) (z : Z) : string :=
  match n with
  | O => ""%string
  | S n => String (bit_char (Z.testbit z (Z.of_nat n))) (bin n z)
  end.

Definition hex_char (d : Z) : Ascii.ascii :=
  Ascii.ascii_of_nat (Z.to_nat (if d <? 10 then 48 + d else 87 + d)).

Fixpoint hex_fuel (n : nat) (z : Z) (acc : string) : string :=
  match n with
  | O => acc
  | S n =>
    let acc := String (hex_char (z `mod` 16)) acc in
    if z <? 16 then acc else hex_fuel n (z / 16) acc
  end.

(** Sixteen digits are enough for 64 bits. *)
Definition hex (z : Z) : string := hex_fuel 16 z ""%string.

Definition dec (z : Z) : string := pretty z.

(** ** Lemmas *)

Lemma bin_length n z : String.length (bin n z) = n.
Proof. induction n; simpl; auto. Qed.

Lemma substring_all s : String.substring 0 (String.length s) s = s.
Proof. induction s; simpl; congruence. Qed.

(** A slice of a binary numeral is the numeral of a field of the number. *)
Lemma substring_bin a b c z :
  String.substring a b (bin (a + b + c) z) =
  bin b (Z.shiftr z (Z.of_nat c) `mod` 2 ^ Z.of_nat b).
Proof.
  revert b. induction a as [|a IH]; intros b; [|by simpl; rewrite IH].
  induction b as [|b IHb]; [simpl; by destruct (bin c z)|].
  cbn [Nat.add bin String.substring]. f_equal.
  - rewrite Z.mod_pow2_bits_low, Z.shiftr_spec by lia. do 2 f_equal. lia.
  - simpl in IHb. rewrite IHb. clear IHb. 
    assert (∀ n x y, (∀ i, 0 ≤ i < Z.of_nat n → Z.testbit x i = Z.testbit y i) →
      bin n x = bin n y) as Hext.
    { induction n as [|n IHn]; intros x y Hxy; [done|]. cbn [bin].
      rewrite Hxy by lia. f_equal. apply IHn. intros. apply Hxy. lia. }
    apply Hext. intros i Hi. by rewrite !Z.mod_pow2_bits_low by lia.
Qed.

(** ** Decimal numerals read back *)

Definition dec_digit (c : ascii) : option Z :=
  let d := Z.of_nat (nat_of_ascii c) - 48 in
  if (0 <=? d) && (d <=? 9) then Some d else None.

Fixpoint dec_digits (limit : Z) (s : string) (acc : Z) : option Z :=
  match s with
  | EmptyString => Some acc
  | String c s =>
    d ← dec_digit c;
    if acc * 10 + d <? limit then dec_digits limit s (acc * 10 + d) else None
  end.

(** [str::parse] for an unsigned integer type of [limit] values: an optional plus
    sign, then digits. *)
Definition uint_from_str (limit : Z) (s : string) : option Z :=
  match s with
  | EmptyString => None
  | String "+"%char EmptyString => None
  | String "+"%char s => dec_digits limit s 0
  | _ => dec_digits limit s 0
  end.

(** Every character is a decimal digit. *)
Fixpoint all_dec (s : string) : Prop :=
  match s with EmptyString => True | String c s => is_Some (dec_digit c) ∧ all_dec s end.

Lemma dec_digit_char x : (x < 10)%N → dec_digit (pretty_N_char x) = Some (Z.of_N x).
Proof.
  intros Hx. assert (Forall (λ x, dec_digit (pretty_N_char x) = Some (Z.of_N x)) (N.of_nat <$> seq 0 10))
    as Hall by (repeat (apply Forall_cons; split; [reflexivity|]); apply Forall_nil; done).
  rewrite Forall_forall in Hall. apply Hall, list_elem_of_fmap. exists (N.to_nat x).
  split; [lia|]. apply elem_of_seq. lia.
Qed.

Lemma dec_digits_go limit x s :
  Z.of_N x < limit → dec_digits limit (pretty_N_go x s) 0 = dec_digits limit s (Z.of_N x).
Proof.
  revert s. induction (N.lt_wf_0 x) as [x _ IH]; intros s Hx.
  destruct (decide (x = 0)%N) as [->|Hpos]; [done|].
  assert (x `div` 10 < x)%N by (apply N.div_lt; lia).
  rewrite pretty_N_go_step, IH by lia. cbn [dec_digits].
  rewrite dec_digit_char by (apply N.mod_lt; lia). cbn [mbind option_bind].
  replace (Z.of_N (x `div` 10) * 10 + Z.of_N (x `mod` 10)) with (Z.of_N x)
    by (rewrite (N.div_mod' x 10) at 1; lia).
  by rewrite (proj2 (Z.ltb_lt _ _)).
Qed.

Lemma all_dec_go x s : all_dec s → all_dec (pretty_N_go x s).
Proof.
  revert s. induction (N.lt_wf_0 x) as [x _ IH]; intros s Hs.
  destruct (decide (x = 0)%N) as [->|Hpos]; [done|].
  assert (x `div` 10 < x)%N by (apply N.div_lt; lia).
  rewrite pretty_N_go_step by lia. apply IH; [done|]. split; [|done].
  rewrite dec_digit_char by (apply N.mod_lt; lia). by eexists.
Qed.

Lemma dec_nonneg z : 0 ≤ z → dec z = pretty (Z.to_N z).
Proof. by destruct z. Qed.

Lemma all_dec_dec z : 0 ≤ z → all_dec (dec z).
Proof.
  intros Hz. rewrite dec_nonneg by done. unfold pretty, pretty_N.
  case_decide; [by split; [eexists|]|]. by apply all_dec_go.
Qed.

(** A numeral is read back as its number when it fits. *)
Lemma uint_from_str_dec limit z : 0 ≤ z < limit → uint_from_str limit (dec z) = Some z.
Proof.
  intros Hz. assert (dec_digits limit (dec z) 0 = Some z ∧ dec z ≠ EmptyString) as [Hd Hne].
  { rewrite dec_nonneg by lia. unfold pretty, pretty_N. case_decide as Hz0.
    - assert (z = 0) as -> by lia. cbn [dec_digits]. change (dec_digit "0"%char) with (Some 0).
      cbn [mbind option_bind]. by rewrite (proj2 (Z.ltb_lt _ _)) by lia.
    - rewrite dec_digits_go by lia. split; [simpl; f_equal; lia|].
      intros He. apply (f_equal (λ s, dec_digits limit s 0)) in He.
      rewrite dec_digits_go in He by lia. simpl in He. injection He as He. lia. }
  pose proof (all_dec_dec z ltac:(lia)) as Hall. destruct (dec z) as [|c s]; [done|].
  rewrite <-Hd. destruct Hall as [[v Hv] _]. unfold uint_from_str.
  by destruct c as [[] [] [] [] [] [] [] []]; try done; destruct s.
Qed.
