(* ===== verification/Os.v ===== *)
(** The kernel as the driver sees it, and the macros of [src/macros.rs].

    The kernel and the C library are not part of the repository: the class
    [Os] holds one function per system call, which may change the environment
    and the memory and answers with a value or with the error that
    [last_os_error] reports (for [mmap] and the calls that return -1 on
    failure, the test for the failure value is in that function).  A file is
    its descriptor; that it is closed when its owner goes out of scope is not
    modelled.  Paths and file contents are strings of ASCII characters. *)

From S2P Require Import Prelude Bytes Machine Format.
#[local] Open Scope Z_scope.

Definition Answer (E A : Type) : Type := (IoError + A) * (E * Mem).

(** An entry of a directory: its name and whether it is a symbolic link. *)
Definition DirEntry : Type := string * bool.

Class Os (E : Type) := {
  os_mmap : Z → Z → Z → Z → Z → Z → E → Mem → Answer E Z;
  os_munmap : Z → Z → E → Mem → Answer E Z;
  os_mlock : Z → Z → E → Mem → Answer E Z;
  os_munlock : Z → Z → E → Mem → Answer E Z;
  (** The result, and the bytes of the argument after the call. *)
  os_ioctl : Z → Z → list Z → E → Mem → Answer E (Z * list Z);
  os_pread : Z → Z → Z → E → Mem → Answer E (list Z);
  os_pwrite : Z → list Z → Z → E → Mem → Answer E Z;
  os_open : string → bool → bool → E → Mem → Answer E Z;
  (** Opened for writing and emptied. *)
  os_create : string → E → Mem → Answer E Z;
  os_seek : Z → Z → E → Mem → Answer E Z;
  os_read_exact : Z → Z → E → Mem → Answer E (list Z);
  os_write_all : Z → list Z → E → Mem → Answer E Z;
  os_read_to_string : Z → E → Mem → Answer E string;
  os_read_link : string → E → Mem → Answer E string;
  os_exists : string → E → Mem → Answer E bool;
  os_read_dir : string → E → Mem → Answer E (list (IoError + DirEntry));
  os_file_len : string → E → Mem → Answer E Z;
  os_pagesize : Z;
  os_pid : Z;
  io_display : IoError → string;
  io_kind : IoError → string;
}.

Section os.
Context {E S : Type} `{BLD : Build} `{HW : Hardware E} `{OS : Os E} `{LC : Libc}.

(** A system call: the environment runs, then the kernel does its part.  [val]
    is what the trace keeps of the answer: bytes are kept as the number they are. *)
Definition sys {A} (call : OsCall) (val : A → Z) (f : E → Mem → Answer E A) :
    M E S (IoError + A) := λ st,
  let w := tick st.2 in
  let '(r, (e, m)) := f (env w) (mem w) in
  let ret := match r with inl err => inl err | inr a => inr (val a) end in
  (Ret r, (st.1, log (EvOs call ret) (upd e m w))).

(** [?] on an [io::Result]. *)
Definition io_try {A} (r : IoError + A) : M E S A :=
  match r with inl e => throw (Io e) | inr a => mret a end.

(** The statics of the crate. *)
Definition get_statics : M E S Statics := λ st, (Ret (statics st.2), st).

Definition set_statics (f : Statics → Statics) : M E S unit := λ st,
  (Ret tt, (st.1, mkWorld (env st.2) (mem st.2) (trace st.2) (f (statics st.2)))).

(** ** The macros *)

Definition mmap_unsafe (addr len prot flags fd offset : Z) : M E S Z :=
  r ← sys (OsMmap addr len prot flags fd offset) (λ p, p) (os_mmap addr len prot flags fd offset);
  match r with
  | inl e => throw (Mmap ("mmap with len " +:+ dec len +:+ " failed") e)
  | inr p => mret p
  end.

Definition munmap_unsafe (addr len : Z) : M E S Z :=
  r ← sys (OsMunmap addr len) (λ v, v) (os_munmap addr len);
  match r with
  | inl e => throw (Mmap ("munmap with len " +:+ dec len +:+ " failed") e)
  | inr v => mret v
  end.

Definition mmap_anonymous_unsafe (len flags : Z) : M E S Z :=
  mmap_unsafe 0 len (Z.lor PROT_READ PROT_WRITE)
    (Z.lor (Z.lor (Z.lor flags MAP_SHARED) MAP_ANONYMOUS) MAP_POPULATE) (-1) 0.

Definition mmap_fd_unsafe (len flags fd : Z) : M E S Z :=
  mmap_unsafe 0 len (Z.lor PROT_READ PROT_WRITE) (Z.lor flags MAP_SHARED) fd 0.

(** These two give an [io::Error]; their callers convert it with [?]. *)
Definition mlock_unsafe (addr len : Z) : M E S Z :=
  r ← sys (OsMlock addr len) (λ v, v) (os_mlock addr len); io_try r.

Definition munlock_unsafe (addr len : Z) : M E S Z :=
  r ← sys (OsMunlock addr len) (λ v, v) (os_munlock addr len); io_try r.

Definition pread_unsafe (fd count offset : Z) : M E S (list Z) :=
  r ← sys (OsPread fd count offset) le_val (os_pread fd count offset);
  match r with
  | inl e => throw (Io (CustomIo (io_kind e) ("pread failed " +:+ io_display e)))
  | inr bs => mret bs
  end.

Definition pwrite_unsafe (fd : Z) (buf : list Z) (offset : Z) : M E S unit :=
  r ← sys (OsPwrite fd buf offset) (λ v, v) (os_pwrite fd buf offset);
  match r with
  | inl e => throw (Io (CustomIo (io_kind e) ("pwrite failed " +:+ io_display e)))
  | inr _ => mret tt
  end.

(** ** Files *)

Definition file_open (path : string) (write create : bool) : M E S (IoError + Z) :=
  sys (OsOpen path write create) (λ fd, fd) (os_open path write create).

(** [File::create]. *)
Definition file_create (path : string) : M E S Z :=
  r ← sys (OsCreate path) (λ fd, fd) (os_create path); io_try r.

Definition file_seek (fd offset : Z) : M E S Z :=
  r ← sys (OsSeek fd offset) (λ v, v) (os_seek fd offset); io_try r.

Definition file_read_exact (fd count : Z) : M E S (list Z) :=
  r ← sys (OsRead fd count) le_val (os_read_exact fd count); io_try r.

Definition file_write_all (fd : Z) (buf : list Z) : M E S Z :=
  r ← sys (OsWrite fd buf) (λ v, v) (os_write_all fd buf); io_try r.

Definition file_read_to_string (fd : Z) : M E S string :=
  r ← sys (OsReadAll fd) (λ s, Z.of_nat (String.length s)) (os_read_to_string fd); io_try r.

(** [Path::exists]: an error counts as absence. *)
Definition path_exists (path : string) : M E S bool :=
  r ← sys (OsExists path) (λ b : bool, if b then 1 else 0) (os_exists path);
  mret (match r with inr b => b | inl _ => false end).

(** ** [error.rs] *)

Definition Error_fmt (e : Error) : string :=
  match e with
  | Io error => "IO Error: " +:+ io_display error
  | Vroom error => "Custom Error: " +:+ error
  | Allocation error => "Allocation Error: " +:+ error
  | Mmap error io_error => "Mmap failed Error: " +:+ error +:+ " OS error: " +:+ io_display io_error
  | Ioctl error io_error => "Ioctl failed Error: " +:+ error +:+ " OS error: " +:+ io_display io_error
  | Vfio error => "Vfio Error: " +:+ error
  | Mmio error => "Mmio Error: " +:+ error
  end.

(** [Result::map_err]. *)
Definition map_err {A} (f : Error → Error) (m : M E S A) : M E S A := λ st,
  match m st with (Err e, st') => (Err (f e), st') | r => r end.

(** [Result::unwrap] and [Result::expect]. *)
Definition expect {A} (msg : string) (m : M E S A) : M E S A := λ st,
  match m st with (Err _, st') => (Panicked (ExpectErr msg), st') | r => r end.

End os.

(** ** Rules *)

Lemma wp_expect {E S A} msg (m : M E S A) (Q : Res A → S → World E → Prop) s w :
  wp m (λ r s' w', Q (match r with Err _ => Panicked (ExpectErr msg) | r => r end) s' w') s w →
  wp (expect msg m) Q s w.
Proof. unfold wp, expect. by destruct (m (s, w)) as [[] ?]. Qed.

Section wp_os.
Context {E S : Type} `{HW : Hardware E}.

(** The world after a system call. *)
Definition after_sys {A} (call : OsCall) (val : A → Z) (f : E → Mem → Answer E A) (w : World E) :
    (IoError + A) * World E :=
  let r := f (env (tick w)) (mem (tick w)) in
  (r.1, log (EvOs call (match r.1 with inl err => inl err | inr a => inr (val a) end))
          (upd r.2.1 r.2.2 (tick w))).

Lemma sys_run {A} call (val : A → Z) f (s : S) (w : World E) :
  sys call val f (s, w) = (Ret (after_sys call val f w).1, (s, (after_sys call val f w).2)).
Proof. unfold sys, after_sys. simpl. by destruct (f _ _) as [? [? ?]]. Qed.

Lemma wp_sys {A} call (val : A → Z) f (s : S) (w : World E)
    (Q : Res (IoError + A) → S → World E → Prop) :
  (∀ r w', (r, w') = after_sys call val f w → Q (Ret r) s w') → wp (sys call val f) Q s w.
Proof.
  intros HQ. unfold wp. rewrite sys_run. cbn [fst snd]. apply HQ.
  by destruct (after_sys call val f w).
Qed.

Lemma trace_after_sys {A} call (val : A → Z) f (w : World E) r w' :
  (r, w') = after_sys call val f w →
  trace w' = trace w ++ [EvOs call (match r with inl e => inl e | inr a => inr (val a) end)].
Proof. intros [= -> ->]. rewrite trace_log, trace_upd. by rewrite trace_tick. Qed.

Lemma statics_after_sys {A} call (val : A → Z) f (w : World E) r w' :
  (r, w') = after_sys call val f w → statics w' = statics w.
Proof. intros [= _ ->]. rewrite statics_log. simpl. apply statics_tick. Qed.

Lemma after_sys_run {A} call (val : A → Z) f (w : World E) :
  ∃ r w', after_sys call val f w = (r, w') ∧ statics w' = statics w ∧
    trace w' = trace w ++ [EvOs call (match r with inl e => inl e | inr a => inr (val a) end)].
Proof.
  destruct (after_sys call val f w) as [r w'] eqn:He. exists r, w'. split; [done|].
  symmetry in He. split; [by eapply statics_after_sys|by eapply trace_after_sys].
Qed.

Context `{OS : Os E} `{LC : Libc}.

(** The kernel's answer to one call of the memory interface. *)
Definition mmap_sys (addr len prot flags fd offset : Z) : World E → (IoError + Z) * World E :=
  after_sys (OsMmap addr len prot flags fd offset) (λ p, p) (os_mmap addr len prot flags fd offset).

Definition munmap_sys (addr len : Z) : World E → (IoError + Z) * World E :=
  after_sys (OsMunmap addr len) (λ v, v) (os_munmap addr len).

Definition mmap_error (len : Z) (e : IoError) : Error := Mmap ("mmap with len " +:+ dec len +:+ " failed") e.
Definition munmap_error (len : Z) (e : IoError) : Error := Mmap ("munmap with len " +:+ dec len +:+ " failed") e.

(** The macros by the kernel's answer. *)
Lemma wp_mmap_unsafe addr len prot flags fd offset (s : S) (w : World E)
    (Q : Res Z → S → World E → Prop) :
  (∀ p w', mmap_sys addr len prot flags fd offset w = (inr p, w') → Q (Ret p) s w') →
  (∀ e w', mmap_sys addr len prot flags fd offset w = (inl e, w') → Q (Err (mmap_error len e)) s w') →
  wp (mmap_unsafe addr len prot flags fd offset) Q s w.
Proof.
  intros Hr He. unfold mmap_unsafe. apply wp_bind, wp_sys. intros [e|p] w' Hw'; symmetry in Hw'.
  - by apply He.
  - by apply Hr.
Qed.

Lemma wp_munmap_unsafe addr len (s : S) (w : World E) (Q : Res Z → S → World E → Prop) :
  (∀ v w', munmap_sys addr len w = (inr v, w') → Q (Ret v) s w') →
  (∀ e w', munmap_sys addr len w = (inl e, w') → Q (Err (munmap_error len e)) s w') →
  wp (munmap_unsafe addr len) Q s w.
Proof.
  intros Hr He. unfold munmap_unsafe. apply wp_bind, wp_sys. intros [e|p] w' Hw'; symmetry in Hw'.
  - by apply He.
  - by apply Hr.
Qed.

(** A call whose answer is passed on with [?]. *)
Lemma wp_sys_try {A} call (val : A → Z) f (s : S) (w : World E) (Q : Res A → S → World E → Prop) :
  (∀ a w', after_sys call val f w = (inr a, w') → trace w' = trace w ++ [EvOs call (inr (val a))] →
     Q (Ret a) s w') →
  (∀ e w', after_sys call val f w = (inl e, w') → trace w' = trace w ++ [EvOs call (inl e)] →
     Q (Err (Io e)) s w') →
  wp (r ← sys call val f; io_try r) Q s w.
Proof.
  intros Hr He. apply wp_bind, wp_sys. intros [e|a] w' Hw'; pose proof (trace_after_sys _ _ _ _ _ _ Hw');
    symmetry in Hw'; [by apply He|by apply Hr].
Qed.

Lemma trace_mmap addr len prot flags fd offset (w : World E) r w' :
  mmap_sys addr len prot flags fd offset w = (r, w') →
  trace w' = trace w ++ [EvOs (OsMmap addr len prot flags fd offset) r].
Proof. intros H. symmetry in H. apply trace_after_sys in H as ->. by destruct r. Qed.

Lemma trace_munmap addr len (w : World E) r w' :
  munmap_sys addr len w = (r, w') → trace w' = trace w ++ [EvOs (OsMunmap addr len) r].
Proof. intros H. symmetry in H. apply trace_after_sys in H as ->. by destruct r. Qed.

Lemma wp_get_statics (s : S) (w : World E) (Q : Res Statics → S → World E → Prop) :
  Q (Ret (statics w)) s w → wp get_statics Q s w.
Proof. done. Qed.

End wp_os.

(** What POSIX says of [mmap]: the mapping lies in the user half of the address
    space, and a fixed address is honoured. *)
Class MmapKernel {E} `{OS : Os E} `{LC : Libc} : Prop := {
  mmap_range : ∀ addr len prot flags fd offset e m p st,
    os_mmap addr len prot flags fd offset e m = (inr p, st) → 0 ≤ p ∧ p + len < 2 ^ 63;
  mmap_fixed : ∀ addr len prot flags fd offset e m p st,
    Z.land flags MAP_FIXED = MAP_FIXED → os_mmap addr len prot flags fd offset e m = (inr p, st) → p = addr;
}.

Lemma mmap_sys_range {E} `{HW : Hardware E} `{MK : MmapKernel E} addr len prot flags fd offset
    (w : World E) p w' :
  mmap_sys addr len prot flags fd offset w = (inr p, w') →
  0 ≤ p ∧ p + len < 2 ^ 63 ∧ (Z.land flags MAP_FIXED = MAP_FIXED → p = addr).
Proof.
  unfold mmap_sys, after_sys. intros [= Hp _].
  destruct (os_mmap _ _ _ _ _ _ _ _) as [r st] eqn:He. simpl in Hp. subst r.
  pose proof (mmap_range _ _ _ _ _ _ _ _ _ _ He). split; [lia|]. split; [lia|].
  intros. by eapply mmap_fixed.
Qed.

(** ** A kernel for examples

    Its state is the next free address; every call succeeds except [munmap] of
    nothing, which is [EINVAL].  Files hold what [file] says. *)

Definition linux_libc : Libc := {|
  MAP_SHARED := 0x1; MAP_ANONYMOUS := 0x20; MAP_POPULATE := 0x8000; MAP_FIXED := 0x10;
  MAP_32BIT := 0x40; MAP_HUGETLB := 0x40000; MAP_HUGE_2MB := Z.shiftl 21 26;
  MAP_HUGE_1GB := Z.shiftl 30 26; PROT_READ := 1; PROT_WRITE := 2;
|}.

Definition quiet_hw {E} : Hardware E := {|
  hw_run e m := (e, m);
  hw_read _ _ e := (0, e);
  hw_write _ _ _ e := e;
|}.

Section demo.
Context (file : list Z).

Definition demo_mmap (addr len flags next : Z) : IoError + Z :=
  if Z.land flags 0x10 =? 0x10
  then (if (0 <=? addr) && (addr + len <? 2 ^ 63) then inr addr else inl (OsError 22))
  else (if (0 <=? next) && (next + len <? 2 ^ 63) then inr next else inl (OsError 12)).

Definition demo_os : Os Z := {|
  os_mmap addr len _ flags _ _ next m :=
    (demo_mmap addr len flags next, (if Z.land flags 0x10 =? 0x10 then next else next + len, m));
  os_munmap _ len e m := ((if len =? 0 then inl (OsError 22) else inr 0), (e, m));
  os_mlock _ _ e m := (inr 0, (e, m));
  os_munlock _ _ e m := (inr 0, (e, m));
  os_ioctl _ _ arg e m := (inr (0, arg), (e, m));
  os_pread _ count _ e m := (inr (take (Z.to_nat count) file), (e, m));
  os_pwrite _ buf _ e m := (inr (Z.of_nat (length buf)), (e, m));
  os_open _ _ _ e m := (inr 3, (e, m));
  os_create _ e m := (inr 4, (e, m));
  os_seek _ off e m := (inr off, (e, m));
  os_read_exact _ count e m :=
    (if Z.of_nat (length file) <? count
     then inl (CustomIo "UnexpectedEof" "failed to fill whole buffer")
     else inr (take (Z.to_nat count) file), (e, m));
  os_write_all _ buf e m := (inr (Z.of_nat (length buf)), (e, m));
  os_read_to_string _ e m := (inr EmptyString, (e, m));
  os_read_link _ e m := (inr EmptyString, (e, m));
  os_exists _ e m := (inr true, (e, m));
  os_read_dir _ e m :=
    (inr [inr ("bind", false); inr ("0000:01:00.0", true); inl (OsError 5)]%string, (e, m));
  os_file_len _ e m := (inr 16384, (e, m));
  os_pagesize := 4096;
  os_pid := 1;
  io_display _ := EmptyString;
  io_kind _ := EmptyString;
|}.

Lemma demo_mmap_kernel : MmapKernel (OS:=demo_os) (LC:=linux_libc).
Proof.
  assert (∀ addr len flags next p, demo_mmap addr len flags next = inr p → 0 ≤ p ∧ p + len < 2 ^ 63) as H.
  { intros addr len flags next p. unfold demo_mmap.
    destruct (_ =? _), (Z.leb_spec 0 addr), (Z.ltb_spec (addr + len) (2 ^ 63)), (Z.leb_spec 0 next),
      (Z.ltb_spec (next + len) (2 ^ 63)); cbn [andb]; intros [=]; lia. }
  split.
  - intros addr len prot flags fd offset e m p st [= Hp _]. by eapply H.
  - intros addr len prot flags fd offset e m p st Hf [= Hp _].
    unfold demo_mmap in Hp. change (Z.land flags 0x10 = 0x10) in Hf. rewrite Hf in Hp. simpl (_ =? _) in Hp.
    destruct ((0 <=? addr) && _); by simplify_eq.
Qed.

End demo.
