(* ===== verification/Ioctl.v ===== *)
(** [src/ioctl_op.rs] and [src/vfio_structs.rs]: the numbers, flags and
    argument structures of the VFIO and IOMMUFD ioctls. *)

From S2P Require Import Prelude Bytes Machine Format Os.
#[local] Open Scope Z_scope.

Inductive IoctlOp :=
| VFIO_GET_API_VERSION
| VFIO_CHECK_EXTENSION
| VFIO_SET_IOMMU
| VFIO_GROUP_GET_STATUS
| VFIO_GROUP_SET_CONTAINER
| VFIO_GROUP_GET_DEVICE_FD
| VFIO_DEVICE_GET_REGION_INFO
| VFIO_IOMMU_GET_INFO
| VFIO_IOMMU_MAP_DMA
| VFIO_IOMMU_UNMAP_DMA
| VFIO_DEVICE_GET_IRQ_INFO
| VFIO_DEVICE_SET_IRQS
| VFIO_DEVICE_BIND_IOMMUFD
| VFIO_DEVICE_ATTACH_IOMMUFD_PT
| IOMMU_IOAS_ALLOC
| IOMMU_IOAS_MAP
| IOMMU_IOAS_UNMAP.

Module IoctlOp.

Definition _IOC_TYPESHIFT : Z := 8.
Definition _IOC_NRSHIFT : Z := 0.

Definition _IO (type_ nr : Z) : Z :=
  Z.lor (wrap 64 (Z.shiftl type_ _IOC_TYPESHIFT)) (wrap 64 (Z.shiftl nr _IOC_NRSHIFT)).

(** The character [;]. *)
Definition VFIO_TYPE : Z := 59.
Definition VFIO_BASE : Z := 100.
Definition IOMMUFD_TYPE : Z := 59.
Definition IOMMUFD_CMD_IOAS_ALLOC : Z := 0x81.
Definition IOMMUFD_CMD_IOAS_MAP : Z := 0x85.
Definition IOMMUFD_CMD_IOAS_UNMAP : Z := 0x86.

Definition op (self : IoctlOp) : Z :=
  let '(type_, nr) :=
    match self with
    | VFIO_GET_API_VERSION => (VFIO_TYPE, VFIO_BASE + 0)
    | VFIO_CHECK_EXTENSION => (VFIO_TYPE, VFIO_BASE + 1)
    | VFIO_SET_IOMMU => (VFIO_TYPE, VFIO_BASE + 2)
    | VFIO_GROUP_GET_STATUS => (VFIO_TYPE, VFIO_BASE + 3)
    | VFIO_GROUP_SET_CONTAINER => (VFIO_TYPE, VFIO_BASE + 4)
    | VFIO_GROUP_GET_DEVICE_FD => (VFIO_TYPE, VFIO_BASE + 6)
    | VFIO_DEVICE_GET_REGION_INFO => (VFIO_TYPE, VFIO_BASE + 8)
    | VFIO_IOMMU_GET_INFO => (VFIO_TYPE, VFIO_BASE + 12)
    | VFIO_IOMMU_MAP_DMA => (VFIO_TYPE, VFIO_BASE + 13)
    | VFIO_IOMMU_UNMAP_DMA => (VFIO_TYPE, VFIO_BASE + 14)
    | VFIO_DEVICE_BIND_IOMMUFD => (VFIO_TYPE, VFIO_BASE + 18)
    | VFIO_DEVICE_ATTACH_IOMMUFD_PT => (VFIO_TYPE, VFIO_BASE + 19)
    | VFIO_DEVICE_GET_IRQ_INFO => (VFIO_TYPE, VFIO_BASE + 9)
    | VFIO_DEVICE_SET_IRQS => (VFIO_TYPE, VFIO_BASE + 10)
    | IOMMU_IOAS_ALLOC => (IOMMUFD_TYPE, IOMMUFD_CMD_IOAS_ALLOC)
    | IOMMU_IOAS_MAP => (IOMMUFD_TYPE, IOMMUFD_CMD_IOAS_MAP)
    | IOMMU_IOAS_UNMAP => (IOMMUFD_TYPE, IOMMUFD_CMD_IOAS_UNMAP)
    end in
  _IO type_ nr.

(** [Display] prints the name of the variant. *)
Definition fmt (self : IoctlOp) : string :=
  match self with
  | VFIO_GET_API_VERSION => "VFIO_GET_API_VERSION"
  | VFIO_CHECK_EXTENSION => "VFIO_CHECK_EXTENSION"
  | VFIO_SET_IOMMU => "VFIO_SET_IOMMU"
  | VFIO_GROUP_GET_STATUS => "VFIO_GROUP_GET_STATUS"
  | VFIO_GROUP_SET_CONTAINER => "VFIO_GROUP_SET_CONTAINER"
  | VFIO_GROUP_GET_DEVICE_FD => "VFIO_GROUP_GET_DEVICE_FD"
  | VFIO_DEVICE_GET_REGION_INFO => "VFIO_DEVICE_GET_REGION_INFO"
  | VFIO_IOMMU_GET_INFO => "VFIO_IOMMU_GET_INFO"
  | VFIO_IOMMU_MAP_DMA => "VFIO_IOMMU_MAP_DMA"
  | VFIO_IOMMU_UNMAP_DMA => "VFIO_IOMMU_UNMAP_DMA"
  | VFIO_DEVICE_GET_IRQ_INFO => "VFIO_DEVICE_GET_IRQ_INFO"
  | VFIO_DEVICE_SET_IRQS => "VFIO_DEVICE_SET_IRQS"
  | VFIO_DEVICE_BIND_IOMMUFD => "VFIO_DEVICE_BIND_IOMMUFD"
  | VFIO_DEVICE_ATTACH_IOMMUFD_PT => "VFIO_DEVICE_ATTACH_IOMMUFD_PT"
  | IOMMU_IOAS_ALLOC => "IOMMU_IOAS_ALLOC"
  | IOMMU_IOAS_MAP => "IOMMU_IOAS_MAP"
  | IOMMU_IOAS_UNMAP => "IOMMU_IOAS_UNMAP"
  end.

End IoctlOp.

Module IoctlFlag.
Definition VFIO_GROUP_FLAGS_VIABLE : Z := Z.shiftl 1 0.
Definition VFIO_DMA_MAP_FLAG_READ : Z := Z.shiftl 1 0.
Definition VFIO_DMA_MAP_FLAG_WRITE : Z := Z.shiftl 1 1.
Definition VFIO_IRQ_SET_DATA_NONE : Z := Z.shiftl 1 0.
Definition VFIO_IRQ_SET_DATA_EVENTFD : Z := Z.shiftl 1 2.
Definition VFIO_IRQ_SET_ACTION_TRIGGER : Z := Z.shiftl 1 5.
Definition IOMMU_IOAS_MAP_FIXED_IOVA : Z := Z.shiftl 1 0.
Definition IOMMU_IOAS_MAP_WRITEABLE : Z := Z.shiftl 1 1.
Definition IOMMU_IOAS_MAP_READABLE : Z := Z.shiftl 1 1.
End IoctlFlag.

(** ** Argument structures: the widths of the fields of the [repr(C)] structs,
    in order; none of them has padding. *)

Definition vfio_iommu_type1_dma_map : list nat := [4; 4; 8; 8; 8]%nat.
Definition vfio_iommu_type1_dma_unmap : list nat := [4; 4; 8; 8; 8]%nat.
Definition vfio_group_status : list nat := [4; 4]%nat.
Definition vfio_region_info : list nat := [4; 4; 4; 4; 8; 8]%nat.
Definition vfio_iommu_type1_info : list nat := [4; 4; 8; 4; 4]%nat.
Definition vfio_irq_info : list nat := [4; 4; 4; 4]%nat.
(** The data at the end of [vfio_irq_set] are of any type; [data] is its fields, of
    at most four bytes each, so that there is no padding before them. *)
Definition vfio_irq_set (data : list nat) : list nat := ([4; 4; 4; 4; 4] ++ data)%nat.

Definition iommu_ioas_map : list nat := [4; 4; 4; 4; 8; 8; 8]%nat.
Definition iommu_ioas_unmap : list nat := [4; 4; 8; 8]%nat.
Definition vfio_device_bind_iommufd : list nat := [4; 4; 4; 4]%nat.
Definition iommu_ioas_alloc : list nat := [4; 4; 4]%nat.
Definition vfio_device_attach_iommufd_pt : list nat := [4; 4; 4]%nat.

(** [mem::size_of] of such a struct. *)
Definition struct_size (layout : list nat) : Z := Z.of_nat (layout_size layout).

(** The bytes of a struct with these values, and a field of the bytes. *)
Definition struct_bytes (layout : list nat) (values : list Z) : list Z :=
  enc_fields (zip layout values).

Definition struct_field (layout : list nat) (i : nat) (bs : list Z) : Z :=
  nth i (dec_fields layout bs) 0.

Section ioctl.
Context {E S : Type} `{HW : Hardware E} `{OS : Os E}.

(** [ioctl_unsafe!]; the bytes are those of the object that the argument
    points to, or of the integer itself. *)
Definition ioctl_unsafe (fd : Z) (o : IoctlOp) (arg : list Z) : M E S (Z * list Z) :=
  r ← sys (OsIoctl fd (IoctlOp.op o) arg) fst (os_ioctl fd (IoctlOp.op o) arg);
  match r with
  | inl e => throw (Ioctl (IoctlOp.fmt o) e)
  | inr v => mret v
  end.

End ioctl.

#[export] Instance IoctlOp_eq_dec : EqDecision IoctlOp.
Proof. solve_decision. Defined.

(** ** Lemmas *)

Lemma struct_field_bytes layout values i v :
  Forall field_ok (zip layout values) → length values = length layout →
  values !! i = Some v → struct_field layout i (struct_bytes layout values) = v.
Proof.
  intros Hok Hlen Hv. unfold struct_field, struct_bytes.
  pose proof (dec_enc_fields _ Hok) as Hd. rewrite fst_zip, snd_zip in Hd by lia.
  rewrite Hd. by apply nth_lookup_Some.
Qed.

Section wp_ioctl.
Context {E S : Type} `{HW : Hardware E} `{OS : Os E}.

Definition ioctl_sys (fd : Z) (o : IoctlOp) (arg : list Z) :
    World E → (IoError + Z * list Z) * World E :=
  after_sys (OsIoctl fd (IoctlOp.op o) arg) fst (os_ioctl fd (IoctlOp.op o) arg).

Lemma wp_ioctl_unsafe fd o arg (s : S) (w : World E) (Q : Res (Z * list Z) → S → World E → Prop) :
  (∀ v w', ioctl_sys fd o arg w = (inr v, w') → Q (Ret v) s w') →
  (∀ e w', ioctl_sys fd o arg w = (inl e, w') → Q (Err (Ioctl (IoctlOp.fmt o) e)) s w') →
  wp (ioctl_unsafe fd o arg) Q s w.
Proof.
  intros Hr He. unfold ioctl_unsafe. apply wp_bind, wp_sys. intros [e|v] w' Hw'; symmetry in Hw'.
  - by apply He.
  - by apply Hr.
Qed.

Lemma trace_ioctl fd o arg (w : World E) r w' :
  ioctl_sys fd o arg w = (r, w') →
  trace w' = trace w ++
    [EvOs (OsIoctl fd (IoctlOp.op o) arg) (match r with inl e => inl e | inr v => inr v.1 end)].
Proof. intros H. symmetry in H. apply trace_after_sys in H as ->. by destruct r. Qed.

End wp_ioctl.
