(* ===== verification/Pci.v ===== *)
(** [src/pci.rs]: access to the files of a PCI device under [/sys]. *)

From Stdlib Require Import Ascii.
From S2P Require Import Prelude Bytes Machine Format Os.
#[local] Open Scope Z_scope.

Definition COMMAND_REGISTER_OFFSET : Z := 4.
Definition BUS_MASTER_ENABLE_BIT : Z := 2.
Definition INTERRUPT_DISABLE : Z := 10.

(** ** Parsing of numbers *)

Definition code (c : ascii) : Z := Z.of_nat (nat_of_ascii c).

Definition is_space (c : ascii) : bool := ((9 <=? code c) && (code c <=? 13)) || (code c =? 32).

Fixpoint trim_start (s : string) : string :=
  match s with
  | EmptyString => EmptyString
  | String c s' => if is_space c then trim_start s' else s
  end.

(** White space at the end: a character stays if something after it does. *)
Fixpoint trim_end (s : string) : string :=
  match s with
  | EmptyString => EmptyString
  | String c s' =>
    match trim_end s' with
    | EmptyString => if is_space c then EmptyString else String c EmptyString
    | t => String c t
    end
  end.

(** [str::trim] on ASCII text. *)
Definition trim_str (s : string) : string := trim_end (trim_start s).

(** [trim_start_matches("0x")] takes every leading [0x] away. *)
Fixpoint trim_0x (s : string) : string :=
  match s with
  | String c1 (String c2 s') =>
    if (Ascii.eqb c1 "0" && Ascii.eqb c2 "x")%char then trim_0x s' else s
  | _ => s
  end.

(** [char::to_digit(16)]. *)
Definition hex_digit (c : ascii) : option Z :=
  let n := code c in
  if (48 <=? n) && (n <=? 57) then Some (n - 48)
  else if (97 <=? n) && (n <=? 102) then Some (n - 87)
  else if (65 <=? n) && (n <=? 70) then Some (n - 55)
  else None.

(** The errors of [ParseIntError], as they are printed. *)
Definition EmptyErr : string := "cannot parse integer from empty string".
Definition InvalidDigit : string := "invalid digit found in string".
Definition PosOverflow : string := "number too large to fit in target type".

Fixpoint hex_digits (s : string) (acc : Z) : string + Z :=
  match s with
  | EmptyString => inr acc
  | String c s =>
    match hex_digit c with
    | None => inl InvalidDigit
    | Some d => if 16 * acc + d <? 2 ^ 64 then hex_digits s (16 * acc + d) else inl PosOverflow
    end
  end.

(** [u64::from_str_radix(s, 16)]: an optional plus sign, then digits. *)
Definition u64_from_hex (s : string) : string + Z :=
  match s with
  | EmptyString => inl EmptyErr
  | String "+"%char EmptyString => inl InvalidDigit
  | String "+"%char s => hex_digits s 0
  | _ => hex_digits s 0
  end.

Definition parse_hex (s : string) : string + Z := u64_from_hex (trim_0x (trim_str s)).

(** ** The files *)

Section pci.
Context {E S : Type} `{HW : Hardware E} `{OS : Os E}.

Definition pci_path (pci_addr resource : string) : string :=
  "/sys/bus/pci/devices/" +:+ pci_addr +:+ "/" +:+ resource.

Definition pci_open_resource (pci_addr resource : string) : M E S Z :=
  r ← file_open (pci_path pci_addr resource) true false; io_try r.

Definition pci_open_resource_ro (pci_addr resource : string) : M E S Z :=
  r ← file_open (pci_path pci_addr resource) false false; io_try r.

(** [read_ioN] and [write_ioN] with [n] bytes, in the byte order of the
    machine, which is little endian. *)
Definition read_io (n : Z) (file offset : Z) : M E S Z :=
  _ ← file_seek file offset;
  bs ← file_read_exact file n;
  mret (le_val bs).

Definition write_io (n : Z) (file value offset : Z) : M E S unit :=
  _ ← file_seek file offset;
  _ ← file_write_all file (le_bytes (Z.to_nat n) value);
  mret tt.

Definition read_io8 : Z → Z → M E S Z := read_io 1.
Definition read_io16 : Z → Z → M E S Z := read_io 2.
Definition read_io32 : Z → Z → M E S Z := read_io 4.
Definition read_io64 : Z → Z → M E S Z := read_io 8.
Definition write_io8 : Z → Z → Z → M E S unit := write_io 1.
Definition write_io16 : Z → Z → Z → M E S unit := write_io 2.
Definition write_io32 : Z → Z → Z → M E S unit := write_io 4.
Definition write_io64 : Z → Z → Z → M E S unit := write_io 8.

Definition read_hex (file : Z) : M E S Z :=
  buffer ← file_read_to_string file;
  match parse_hex buffer with
  | inl error => throw (Vroom error)
  | inr v => mret v
  end.

End pci.

(** ** The numbers in [/sys] *)

(** Every character is a hexadecimal digit. *)
Fixpoint all_hex (s : string) : Prop :=
  match s with EmptyString => True | String c s => is_Some (hex_digit c) ∧ all_hex s end.

Fixpoint zeros (k : nat) : string :=
  match k with O => EmptyString | S k => String "0"%char (zeros k) end.

Definition newline : string := String (ascii_of_nat 10) EmptyString.

Lemma hex_digit_char d : 0 ≤ d < 16 → hex_digit (hex_char d) = Some d.
Proof.
  intros Hd. assert (Forall (λ d, hex_digit (hex_char d) = Some d) (zrange 0 16)) as Hall
    by (repeat (apply Forall_cons; split; [reflexivity|]); apply Forall_nil; done).
  apply (proj1 (Forall_forall _ _) Hall), elem_of_zrange, Hd.
Qed.

Lemma hex_digit_not_space c d : hex_digit c = Some d → is_space c = false.
Proof.
  unfold hex_digit, is_space.
  destruct (Z.leb_spec 48 (code c)), (Z.leb_spec (code c) 57), (Z.leb_spec 97 (code c)),
    (Z.leb_spec (code c) 102), (Z.leb_spec 65 (code c)), (Z.leb_spec (code c) 70); simpl; intros;
    try done; destruct (Z.leb_spec 9 (code c)), (Z.leb_spec (code c) 13), (Z.eqb_spec (code c) 32); done || lia.
Qed.

Lemma all_hex_app s t : all_hex s → all_hex t → all_hex (s +:+ t).
Proof. induction s as [|c s IH]; [done|]. intros [? ?] ?. split; [done|by apply IH]. Qed.

Lemma all_hex_fuel n z acc : 0 ≤ z → all_hex acc → all_hex (hex_fuel n z acc).
Proof.
  revert z acc. induction n as [|n IH]; intros z acc Hz Hacc; [done|]. cbn [hex_fuel].
  assert (all_hex (String (hex_char (z `mod` 16)) acc)).
  { split; [|done]. rewrite hex_digit_char by (apply Z.mod_pos_bound; lia). by eexists. }
  destruct (z <? 16); [done|]. apply IH; [apply Z.div_pos; lia|done].
Qed.

Lemma all_hex_zeros k : all_hex (zeros k).
Proof. induction k; [done|]. split; [by eexists|done]. Qed.

(** Parsing the digits gives the number back. *)
Lemma hex_digits_fuel n z acc :
  (0 < n)%nat → 0 ≤ z < 16 ^ Z.of_nat n → z < 2 ^ 64 →
  hex_digits (hex_fuel n z acc) 0 = hex_digits acc z.
Proof.
  revert z acc. induction n as [|n IH]; intros z acc Hn Hz Hz64; [lia|]. cbn [hex_fuel].
  pose proof (Z.div_mod z 16 ltac:(lia)) as Hdm. pose proof (Z.mod_pos_bound z 16 ltac:(lia)).
  assert (∀ a, 16 * a + z `mod` 16 = z →
    hex_digits (String (hex_char (z `mod` 16)) acc) a = hex_digits acc z) as Hstep.
  { intros a Ha. cbn [hex_digits]. rewrite hex_digit_char by done. rewrite Ha.
    by rewrite (proj2 (Z.ltb_lt _ _)). }
  destruct (Z.ltb_spec z 16).
  - apply Hstep. rewrite Z.mod_small; lia.
  - rewrite Nat2Z.inj_succ, Z.pow_succ_r in Hz by lia.
    assert (z / 16 < 16 ^ Z.of_nat n) by (apply Z.div_lt_upper_bound; lia).
    assert (0 ≤ z / 16) by (apply Z.div_pos; lia).
    rewrite IH; [apply Hstep; lia| |lia|lia]. destruct n; [simpl in *; lia|lia].
Qed.

Lemma hex_digits_zeros k s : hex_digits (zeros k +:+ s) 0 = hex_digits s 0.
Proof. induction k as [|k IH]; [done|]. exact IH. Qed.

Lemma trim_end_newline s : all_hex s → s ≠ EmptyString → trim_end (s +:+ newline) = s.
Proof.
  intros Hs _. induction s as [|c s IH]; [done|]. destruct Hs as [[d Hd] Hs].
  change (trim_end (String c (s +:+ newline)) = String c s). cbn [trim_end]. rewrite IH by done.
  destruct s; [|done]. by rewrite (hex_digit_not_space _ _ Hd).
Qed.

Lemma trim_0x_hex s : all_hex s → trim_0x s = s.
Proof.
  destruct s as [|c1 [|c2 s]]; [done..|]. intros (_ & [d Hd] & _). cbn [trim_0x].
  destruct (Ascii.eqb_spec c2 "x"); [by subst c2|]. by rewrite andb_false_r.
Qed.

Lemma u64_from_hex_digits s : all_hex s → s ≠ EmptyString → u64_from_hex s = hex_digits s 0.
Proof.
  destruct s as [|c s]; [done|]. intros [[d Hd] _] _. unfold u64_from_hex.
  destruct c as [[] [] [] [] [] [] [] []]; reflexivity || done.
Qed.

(** A number that does not fit is noticed at the digit that takes it over. *)
Lemma hex_digits_overflow n z acc :
  (0 < n)%nat → 2 ^ 64 ≤ z < 16 ^ Z.of_nat n → hex_digits (hex_fuel n z acc) 0 = inl PosOverflow.
Proof.
  revert z acc. induction n as [|n IH]; intros z acc Hn Hz; [lia|]. cbn [hex_fuel].
  pose proof (Z.div_mod z 16 ltac:(lia)) as Hdm. pose proof (Z.mod_pos_bound z 16 ltac:(lia)).
  rewrite Nat2Z.inj_succ, Z.pow_succ_r in Hz by lia.
  assert (2 ^ 60 ≤ z / 16 < 16 ^ Z.of_nat n) as Hq
    by (split; [apply Z.div_le_lower_bound|apply Z.div_lt_upper_bound]; lia).
  assert (0 < n)%nat by (destruct n; [simpl in *; lia|lia]).
  rewrite (proj2 (Z.ltb_ge _ _)) by lia.
  destruct (Z.lt_ge_cases (z / 16) (2 ^ 64)); [|apply IH; lia].
  rewrite hex_digits_fuel by lia. cbn [hex_digits]. rewrite hex_digit_char by done.
  by rewrite (proj2 (Z.ltb_ge _ _)) by lia.
Qed.

(** The text between the prefix and the line end. *)
Lemma parse_hex_text pre s :
  pre = "0x"%string ∨ pre = ""%string → all_hex s → s ≠ EmptyString →
  parse_hex (pre +:+ s +:+ newline) = hex_digits s 0.
Proof.
  intros Hpre Hs Hne. unfold parse_hex, trim_str. rewrite <-u64_from_hex_digits by done.
  assert (trim_start (s +:+ newline) = (s +:+ newline)%string) as Hts.
  { destruct s as [|c s]; [done|]. destruct Hs as [[d Hd] _].
    change (trim_start (String c (s +:+ newline)) = String c (s +:+ newline)). cbn [trim_start].
    by rewrite (hex_digit_not_space _ _ Hd). }
  destruct Hpre as [-> | ->].
  - change (trim_start ("0x" +:+ s +:+ newline)) with (String "0" (String "x" (s +:+ newline))).
    cbn [trim_end]. rewrite trim_end_newline by done. destruct s as [|c s]; [done|].
    change (u64_from_hex (trim_0x (String c s)) = u64_from_hex (String c s)).
    by rewrite trim_0x_hex.
  - change ("" +:+ s +:+ newline)%string with (s +:+ newline)%string.
    by rewrite Hts, trim_end_newline, trim_0x_hex by done.
Qed.

Lemma hex_fuel_nonempty n z s : (0 < n)%nat → hex_fuel n z s ≠ EmptyString.
Proof.
  revert z s. induction n as [|n IH]; intros z s Hn; [lia|]. cbn [hex_fuel].
  destruct (z <? 16); [done|]. destruct n; [done|]. apply IH. lia.
Qed.

(** C40: the numbers in the files of [/sys].  A number below [2^64] in
    hexadecimal, with or without the prefix [0x], padded with any number of
    zeros and ended by a newline, is read back as itself.  A number that does
    not fit in 64 bits is reported as an overflow, never as another number. *)
Theorem parse_hex_roundtrip (pre : string) (k : nat) (z : Z) :
  pre = "0x"%string ∨ pre = ""%string → 0 ≤ z < 16 ^ 32 →
  parse_hex (pre +:+ (zeros k +:+ hex_fuel 32 z EmptyString) +:+ newline) =
  if z <? 2 ^ 64 then inr z else inl PosOverflow.
Proof.
  intros Hpre Hz. rewrite parse_hex_text; [|done| |].
  - rewrite hex_digits_zeros. destruct (Z.ltb_spec z (2 ^ 64)).
    + by rewrite hex_digits_fuel by (simpl; lia).
    + apply hex_digits_overflow; simpl; lia.
  - apply all_hex_app; [apply all_hex_zeros|apply all_hex_fuel; [lia|done]].
  - destruct k; [|done]. by apply hex_fuel_nonempty; lia.
Qed.

Lemma parse_hex_roundtrip_witness : parse_hex ("0x0108" +:+ newline) = inr 0x0108.
Proof. exact (parse_hex_roundtrip "0x" 1 0x0108 (or_introl eq_refl) ltac:(lia)). Defined.
