(* ===== verification/Vfio.v ===== *)
(** [src/vfio.rs]: the memory back end that goes through the IOMMU, in its two
    forms (VFIO containers and IOMMUFD). *)

From stdpp Require Import gmap.
From Stdlib Require Import Ascii.
From S2P Require Import Prelude Bytes Machine Memory Mapping Format Os Ioctl Pci.
#[local] Open Scope Z_scope.

Inductive VfioBackend :=
| Legacy (container_fd : Z)
| IOMMUFD (ioas_id iommufd : Z).

Record Vfio := mkVfio {
  vfio_pci_addr : string;
  device_fd : Z;
  page_size : Pagesize.Pagesize;
  iommu : VfioBackend;
}.

(** The derived [Debug] text of the page size and of the back end. *)
Definition Pagesize_debug (p : Pagesize.Pagesize) : string :=
  match p with
  | Pagesize.Page4K => "Page4K"
  | Pagesize.Page2M => "Page2M"
  | Pagesize.Page1G => "Page1G"
  end.

Definition VfioBackend_debug (b : VfioBackend) : string :=
  match b with
  | Legacy container_fd => "Legacy { container_fd: " +:+ dec container_fd +:+ " }"
  | IOMMUFD ioas_id iommufd =>
    "IOMMUFD { ioas_id: " +:+ dec ioas_id +:+ ", iommufd: " +:+ dec iommufd +:+ " }"
  end.

(** [Display] for [Vfio]. *)
Definition Vfio_fmt (v : Vfio) : string :=
  "Vfio { pci_addr: " +:+ vfio_pci_addr v +:+ ", device_fd: " +:+ dec (device_fd v) +:+
  ", page_size: " +:+ Pagesize_debug (page_size v) +:+ ", mode: " +:+ VfioBackend_debug (iommu v) +:+ " }".

(** [as i64] and [as isize] on a 64-bit unsigned integer. *)
Definition as_i64 (z : Z) : Z := if z <? 2 ^ 63 then z else z - 2 ^ 64.

(** [i32::from_str]. *)
Definition dec_digit (c : ascii) : option Z :=
  let n := code c in if (48 <=? n) && (n <=? 57) then Some (n - 48) else None.

Fixpoint dec_digits (s : string) (sign acc : Z) : option Z :=
  match s with
  | EmptyString => Some acc
  | String c s =>
    d ← dec_digit c;
    let acc := 10 * acc + sign * d in
    if (- 2 ^ 31 <=? acc) && (acc <? 2 ^ 31) then dec_digits s sign acc else None
  end.

Definition parse_i32 (s : string) : option Z :=
  match s with
  | EmptyString => None
  | String "+"%char EmptyString => None
  | String "-"%char EmptyString => None
  | String "+"%char s => dec_digits s 1 0
  | String "-"%char s => dec_digits s (-1) 0
  | s => dec_digits s 1 0
  end.

(** The part of a path after its last slash. *)
Fixpoint file_name (s acc : string) : string :=
  match s with
  | EmptyString => acc
  | String "/"%char s => file_name s EmptyString
  | String c s => file_name s (acc +:+ String c EmptyString)
  end.

Module Vfio.

Definition VFIO_API_VERSION : Z := 0.
Definition VFIO_TYPE1_IOMMU : Z := 1.
Definition VFIO_PCI_CONFIG_REGION_INDEX : Z := 7.
Definition VFIO_PCI_BAR0_REGION_INDEX : Z := 0.
Definition VTD_CAP_MGAW_SHIFT : Z := 16.
Definition VTD_CAP_MGAW_MASK : Z := Z.shiftl 0x3f VTD_CAP_MGAW_SHIFT.

Definition set_page_size (p : Pagesize.Pagesize) (v : Vfio) : Vfio :=
  mkVfio (vfio_pci_addr v) (device_fd v) p (iommu v).

Section Vfio.
Context {E S : Type} `{BLD : Build} `{HW : Hardware E} `{OS : Os E} `{LC : Libc}.

Definition is_enabled (pci_addr : string) : M E S bool :=
  path_exists ("/sys/bus/pci/devices/" +:+ pci_addr +:+ "/iommu_group").

Definition is_intel_iommu (pci_addr : string) : M E S bool :=
  path_exists ("/sys/bus/pci/devices/" +:+ pci_addr +:+ "/iommu/intel-iommu").

(** The width in the IOMMU capabilities, one more than the field. *)
Definition mgaw (iommu_cap : Z) : Z :=
  as_u8 (Z.shiftr (Z.land iommu_cap VTD_CAP_MGAW_MASK) VTD_CAP_MGAW_SHIFT + 1).

Definition get_intel_iommu_gaw (pci_addr : string) : M E S Z :=
  file ← expect "failed to read IOMMU capabilities"
           (pci_open_resource_ro pci_addr "iommu/intel-iommu/cap");
  iommu_cap ← expect "failed to convert IOMMU capabilities hex string to u64" (read_hex file);
  mret (mgaw iommu_cap).

Definition set_iova_width (width : Z) (s : Statics) : Statics :=
  mkStatics (HUGEPAGE_ID s) width (VFIO_GROUP_FILE_DESCRIPTORS s).

Definition check_intel_iommu (pci_addr : string) : M E S unit :=
  b ← is_intel_iommu pci_addr;
  if b : bool then
    width ← get_intel_iommu_gaw pci_addr;
    set_statics (set_iova_width width)
  else mret tt.

(** [VFIO_DEVICE_GET_REGION_INFO]: size and offset of a region. *)
Definition region_info (fd index : Z) : M E S (Z * Z) :=
  r ← ioctl_unsafe fd VFIO_DEVICE_GET_REGION_INFO
        (struct_bytes vfio_region_info [struct_size vfio_region_info; 0; index; 0; 0; 0]);
  mret (struct_field vfio_region_info 4 r.2, struct_field vfio_region_info 5 r.2).

Definition enable_dma (self : Vfio) : M E S unit :=
  info ← region_info (device_fd self) VFIO_PCI_CONFIG_REGION_INDEX;
  at_ ← ck64 (info.2 + COMMAND_REGISTER_OFFSET);
  dma ← pread_unsafe (device_fd self) 2 (as_i64 at_);
  let dma := Z.lor (le_val (take 2 dma)) (Z.shiftl 1 BUS_MASTER_ENABLE_BIT) in
  pwrite_unsafe (device_fd self) (le_bytes 2 dma) (as_i64 at_).

Definition map_resource_index (self : Vfio) (index : Z) : M E S (Z * Z) :=
  info ← region_info (device_fd self) index;
  p ← mmap_unsafe 0 info.1 (Z.lor PROT_READ PROT_WRITE) MAP_SHARED (device_fd self)
        (as_i64 info.2);
  mret (p, info.1).

Definition allocate_1gib (n : Z) : M E S Z :=
  mmap_anonymous_unsafe n (Z.lor MAP_HUGETLB MAP_HUGE_1GB).

(** The address rounded up to 2 MiB, in [isize]. *)
Definition align_2mib (addr : Z) : M E S Z :=
  let a := as_i64 addr + PAGESIZE_2MIB - 1 in
  if (a <? 2 ^ 63) || negb overflow_checks
  then mret (wrap 64 (Z.land a (- PAGESIZE_2MIB)))
  else panic Overflow.

Definition allocate_2mib (n : Z) : M E S Z :=
  s ← get_statics;
  if IOVA_WIDTH s <? X86_VA_WIDTH then
    len ← ck64 (n + PAGESIZE_2MIB);
    addr ← mmap_anonymous_unsafe len MAP_32BIT;
    aligned_addr ← align_2mib addr;
    free_chunk_size ← ck64 (aligned_addr - addr);
    _ ← munmap_unsafe addr free_chunk_size;
    rest ← ck64 (PAGESIZE_2MIB - free_chunk_size);
    _ ← munmap_unsafe (wrap 64 (aligned_addr + n)) rest;
    mmap_unsafe aligned_addr n (Z.lor PROT_READ PROT_WRITE)
      (Z.lor (Z.lor (Z.lor (Z.lor MAP_SHARED MAP_ANONYMOUS) MAP_HUGETLB) MAP_HUGE_2MB) MAP_FIXED)
      (-1) 0
  else mmap_anonymous_unsafe n (Z.lor MAP_HUGETLB MAP_HUGE_2MB).

Definition allocate_4kib (n : Z) : M E S Z :=
  s ← get_statics;
  if IOVA_WIDTH s <? X86_VA_WIDTH then mmap_anonymous_unsafe n MAP_32BIT
  else mmap_anonymous_unsafe n 0.

(** [VfioBackend::map_dma]: the container maps the region at the address it
    has in the process, IOMMUFD chooses one. *)
Definition map_dma (self : VfioBackend) (p n : Z) : M E S Dma :=
  match self with
  | Legacy container_fd =>
    r ← ioctl_unsafe container_fd VFIO_IOMMU_MAP_DMA
          (struct_bytes vfio_iommu_type1_dma_map
             [struct_size vfio_iommu_type1_dma_map;
              Z.lor IoctlFlag.VFIO_DMA_MAP_FLAG_READ IoctlFlag.VFIO_DMA_MAP_FLAG_WRITE; p; p; n]);
    mret (mkDma p (struct_field vfio_iommu_type1_dma_map 3 r.2) n)
  | IOMMUFD ioas_id iommufd =>
    r ← ioctl_unsafe iommufd IOMMU_IOAS_MAP
          (struct_bytes iommu_ioas_map
             [struct_size iommu_ioas_map;
              Z.lor IoctlFlag.IOMMU_IOAS_MAP_WRITEABLE IoctlFlag.IOMMU_IOAS_MAP_READABLE;
              ioas_id; 0; p; n; 0]);
    mret (mkDma p (struct_field iommu_ioas_map 6 r.2) n)
  end.

Definition unmap_dma (self : VfioBackend) (dma : Dma) : M E S unit :=
  match self with
  | Legacy container_fd =>
    _ ← ioctl_unsafe container_fd VFIO_IOMMU_UNMAP_DMA
          (struct_bytes vfio_iommu_type1_dma_unmap
             [struct_size vfio_iommu_type1_dma_unmap; 0; phys dma; size dma; 0]);
    mret tt
  | IOMMUFD ioas_id iommufd =>
    _ ← ioctl_unsafe iommufd IOMMU_IOAS_UNMAP
          (struct_bytes iommu_ioas_unmap [struct_size iommu_ioas_unmap; ioas_id; phys dma; size dma]);
    mret tt
  end.

(** [impl Mapping for Vfio]. *)
Definition allocate (self : Vfio) (n : Z) : M E S Dma :=
  let n := Pagesize.shift_up (page_size self) n in
  p ← (match page_size self with
       | Pagesize.Page4K => allocate_4kib n
       | Pagesize.Page1G => allocate_1gib n
       | Pagesize.Page2M => allocate_2mib n
       end);
  map_dma (iommu self) p n.

Definition map_resource (self : Vfio) : M E S (Z * Z) :=
  map_resource_index self VFIO_PCI_BAR0_REGION_INDEX.

Definition deallocate (self : Vfio) (dma : Dma) : M E S unit :=
  _ ← unmap_dma (iommu self) dma;
  _ ← munmap_unsafe (virt dma) (Pagesize.shift_up (page_size self) (size dma));
  mret tt.

(** ** Initialisation *)

Definition init_iommufd (pci_addr : string) (p : Pagesize.Pagesize) : M E S Vfio :=
  r ← file_open "/dev/iommu" true false;
  iommufd ← (match r with
             | inl e => throw (Machine.Vfio ("Failed to open /dev/iommu, Err: " +:+ io_display e +:+
                                             ", is IOMMUFD set up correctly?"))
             | inr fd => mret fd end);
  r ← file_open "/dev/vfio/devices/vfio0" true false;
  cdev_fd ← (match r with
             | inl e => throw (Machine.Vfio ("Failed to open device /dev/vfio/devices/vfio0, Err: " +:+
                                             io_display e +:+ ", is IOMMUFD set up correctly?"))
             | inr fd => mret fd end);
  _ ← ioctl_unsafe cdev_fd VFIO_DEVICE_BIND_IOMMUFD
        (struct_bytes vfio_device_bind_iommufd
           [struct_size vfio_device_bind_iommufd; 0; wrap 32 iommufd; 0]);
  r ← ioctl_unsafe iommufd IOMMU_IOAS_ALLOC
        (struct_bytes iommu_ioas_alloc [struct_size iommu_ioas_alloc; 0; 0]);
  let ioas_id := struct_field iommu_ioas_alloc 2 r.2 in
  _ ← ioctl_unsafe cdev_fd VFIO_DEVICE_ATTACH_IOMMUFD_PT
        (struct_bytes vfio_device_attach_iommufd_pt
           [struct_size vfio_device_attach_iommufd_pt; 0; ioas_id]);
  let vfio := mkVfio pci_addr cdev_fd p (IOMMUFD ioas_id iommufd) in
  _ ← enable_dma vfio;
  mret vfio.

(** The group of the device, from the link in [/sys]. *)
Definition iommu_group (pci_addr : string) : M E S Z :=
  let path := "/sys/bus/pci/devices/" +:+ pci_addr +:+ "/iommu_group" in
  r ← sys (OsReadLink path) (λ s, Z.of_nat (String.length s)) (os_read_link path);
  link ← (match r with
          | inl _ => panic (ExpectErr "called `Result::unwrap()` on an `Err` value")
          | inr link => mret link end);
  match file_name link EmptyString with
  | EmptyString => panic UnwrapNone
  | name =>
    match parse_i32 name with
    | None => panic (ExpectErr "called `Result::unwrap()` on an `Err` value")
    | Some group => mret group
    end
  end.

Definition add_group (group fd : Z) (s : Statics) : Statics :=
  mkStatics (HUGEPAGE_ID s) (IOVA_WIDTH s) (<[group := fd]> (VFIO_GROUP_FILE_DESCRIPTORS s)).

(** The descriptor of a group: from the table, or opened, checked and put
    into the container. *)
Definition open_group (group container_fd : Z) : M E S Z :=
  s ← get_statics;
  match VFIO_GROUP_FILE_DESCRIPTORS s !! group with
  | Some fd => mret fd
  | None =>
    r ← file_open ("/dev/vfio/" +:+ dec group) true false;
    group_fd ← (match r with
                | inl e => throw (Machine.Vfio ("Failed to open group at path /dev/vfio" +:+ dec group +:+
                             ", Err: " +:+ io_display e +:+ ", is Vfio set up correctly?"))
                | inr fd => mret fd end);
    r ← ioctl_unsafe group_fd VFIO_GROUP_GET_STATUS
          (struct_bytes vfio_group_status [struct_size vfio_group_status; 0]);
    _ ← (if Z.land (struct_field vfio_group_status 1 r.2) IoctlFlag.VFIO_GROUP_FLAGS_VIABLE =? 1
         then mret tt
         else throw (Vroom
           "group is not viable (ie, not all devices in this group are bound to vfio)"));
    _ ← ioctl_unsafe group_fd VFIO_GROUP_SET_CONTAINER (le_bytes 4 container_fd);
    _ ← set_statics (add_group group group_fd);
    mret group_fd
  end.

(** The bytes of the address string, as the kernel is handed them. *)
Fixpoint string_bytes (s : string) : list Z :=
  match s with EmptyString => [] | String c s => code c :: string_bytes s end.

Definition init_with_args (pci_addr : string) (p : Pagesize.Pagesize) (use_iommufd : bool) :
    M E S Vfio :=
  if use_iommufd then init_iommufd pci_addr p
  else
    _ ← check_intel_iommu pci_addr;
    r ← file_open "/dev/vfio/vfio" true false;
    container_fd ← io_try r;
    r ← ioctl_unsafe container_fd VFIO_GET_API_VERSION [];
    _ ← (if r.1 =? VFIO_API_VERSION then mret tt
         else throw (Machine.Vfio "Unknown VFIO API Version"));
    _ ← map_err (λ e, Machine.Vfio ("Container doesn't support Type1 IOMMU: " +:+ Error_fmt e))
          (ioctl_unsafe container_fd VFIO_CHECK_EXTENSION (le_bytes 8 VFIO_TYPE1_IOMMU));
    group ← iommu_group pci_addr;
    group_fd ← open_group group container_fd;
    _ ← ioctl_unsafe container_fd VFIO_SET_IOMMU (le_bytes 8 VFIO_TYPE1_IOMMU);
    r ← ioctl_unsafe group_fd VFIO_GROUP_GET_DEVICE_FD (string_bytes pci_addr);
    let device_fd := r.1 in
    _ ← ioctl_unsafe container_fd VFIO_IOMMU_GET_INFO
          (struct_bytes vfio_iommu_type1_info [struct_size vfio_iommu_type1_info; 0; 0; 0; 0]);
    let vfio := mkVfio pci_addr device_fd p (Legacy container_fd) in
    _ ← enable_dma vfio;
    mret vfio.

Definition init (pci_addr : string) : M E S Vfio := init_with_args pci_addr Pagesize.Page2M false.

End Vfio.

#[global] Instance Vfio_mapping {E} `{BLD : Build} `{HW : Hardware E} `{OS : Os E} `{LC : Libc} :
    Mapping Vfio E := {|
  Mapping.allocate S := allocate (S := S);
  Mapping.deallocate S := deallocate (S := S);
  Mapping.map_resource S := map_resource (S := S);
|}.

End Vfio.
