(* ===== verification/Physical.v ===== *)
(** [src/physical.rs]: the memory back end without an IOMMU.  DMA memory is a
    locked file on [hugetlbfs] and the device is given physical addresses,
    which the driver finds in [/proc/self/pagemap]. *)

From stdpp Require Import gmap.
From S2P Require Import Prelude Bytes Machine Memory Mapping Format Os Pci.
#[local] Open Scope Z_scope.

Record Physical := mkPhysical {
  physical_pci_addr : string;
  physical_page_size : Pagesize.Pagesize;
}.

Module Physical.

(** The bits of a pagemap entry that hold the frame number. *)
Definition PFN_MASK : Z := 0x007FFFFFFFFFFFFF.

Section Physical.
Context {E S : Type} `{BLD : Build} `{HW : Hardware E} `{OS : Os E} `{LC : Libc}.

(** Is an entry of the driver's directory the link of this device? *)
Definition is_device (pci_addr : string) (e : DirEntry) : bool := e.2 && bool_decide (e.1 = pci_addr).

Fixpoint find_device (pci_addr : string) (entries : list (IoError + DirEntry)) : M E S bool :=
  match entries with
  | [] => mret false
  | entry :: entries =>
    e ← io_try entry;
    if is_device pci_addr e then mret true else find_device pci_addr entries
  end.

Definition pci_stub_dir : string := "/sys/bus/pci/drivers/pci-stub".

Definition is_bound_to_pci_stub (self : Physical) : M E S bool :=
  b ← path_exists pci_stub_dir;
  if b : bool then
    r ← sys (OsReadDir pci_stub_dir) (λ l, Z.of_nat (length l)) (os_read_dir pci_stub_dir);
    entries ← io_try r;
    find_device (physical_pci_addr self) entries
  else mret false.

Definition virt_to_phys (addr : Z) : M E S Z :=
  let pagesize := os_pagesize in
  r ← file_open "/proc/self/pagemap" false false;
  file ← io_try r;
  page ← udiv addr pagesize;
  entry ← ck64 (page * 8);
  _ ← file_seek file entry;
  buffer ← file_read_exact file 8;
  let phys := le_val buffer in
  frame ← ck64 (Z.land phys PFN_MASK * pagesize);
  offset ← umod addr pagesize;
  ck64 (frame + offset).

(** Set a bit of the command register of the device. *)
Definition set_command_bit (self : Physical) (bit : Z) : M E S unit :=
  r ← file_open (pci_path (physical_pci_addr self) "config") true false;
  file ← io_try r;
  dma ← read_io16 file COMMAND_REGISTER_OFFSET;
  write_io16 file (Z.lor dma (Z.shiftl 1 bit)) COMMAND_REGISTER_OFFSET.

Definition enable_dma (self : Physical) : M E S unit := set_command_bit self BUS_MASTER_ENABLE_BIT.

Definition disable_interrupts (self : Physical) : M E S unit := set_command_bit self INTERRUPT_DISABLE.

Definition init_with_args (pci_addr : string) (page_size : Pagesize.Pagesize) : M E S Physical :=
  _ ← (if bool_decide (page_size = Pagesize.Page4K)
       then throw (Mmio "Pagesize 4K not supported for non-Vfio!") else mret tt);
  let mmio := mkPhysical pci_addr page_size in
  bound ← is_bound_to_pci_stub mmio;
  _ ← (if bound : bool then mret tt else throw (Mmio "The device is not bound to Pci-Stub!"));
  _ ← enable_dma mmio;
  _ ← disable_interrupts mmio;
  mret mmio.

Definition init (pci_addr : string) : M E S Physical := init_with_args pci_addr DEFAULT_PAGE_SIZE.

Definition set_hugepage_id (id : Z) (s : Statics) : Statics :=
  mkStatics id (IOVA_WIDTH s) (VFIO_GROUP_FILE_DESCRIPTORS s).

(** [HUGEPAGE_ID.fetch_add(1)], which wraps. *)
Definition next_hugepage_id : M E S Z :=
  s ← get_statics;
  _ ← set_statics (set_hugepage_id (wrap 64 (HUGEPAGE_ID s + 1)));
  mret (HUGEPAGE_ID s).

Definition hugepage_path (id : Z) : string := "/mnt/huge/nvme-" +:+ dec os_pid +:+ "-" +:+ dec id.

(** [impl Mapping for Physical]. *)
Definition allocate (self : Physical) (n : Z) : M E S Dma :=
  let n := Pagesize.shift_up (physical_page_size self) n in
  id ← next_hugepage_id;
  let path := hugepage_path id in
  res ← file_open path true true;
  file ← (match res with
          | inr file => mret file
          | inl error => throw (Io (CustomIo "NotFound" ("huge page " +:+ path +:+
              " could not be created - huge pages enabled?, " +:+ io_display error)))
          end);
  p ← mmap_fd_unsafe n (Pagesize.mmap_flags (physical_page_size self)) file;
  _ ← mlock_unsafe p n;
  ph ← virt_to_phys p;
  mret (mkDma p ph n).

Definition map_resource (self : Physical) : M E S (Z * Z) :=
  let path := pci_path (physical_pci_addr self) "resource0" in
  r ← file_open path true false;
  file ← io_try r;
  r ← sys (OsFileLen path) (λ n, n) (os_file_len path);
  n ← io_try r;
  _ ← (if n =? 0 then throw (Vroom "Resource0 len is 0") else mret tt);
  p ← mmap_fd_unsafe n 0 file;
  mret (p, n).

Definition deallocate (self : Physical) (dma : Dma) : M E S unit :=
  _ ← munlock_unsafe (virt dma) (size dma);
  _ ← munmap_unsafe (virt dma) (size dma);
  mret tt.

End Physical.

#[global] Instance Physical_mapping {E} `{BLD : Build} `{HW : Hardware E} `{OS : Os E} `{LC : Libc} :
    Mapping Physical E := {|
  Mapping.allocate S := allocate (S := S);
  Mapping.deallocate S := deallocate (S := S);
  Mapping.map_resource S := map_resource (S := S);
|}.

End Physical.
