(* ===== verification/MemoryAccess.v ===== *)
(** [src/mapping.rs], the rest: the choice between the two back ends. *)

From stdpp Require Import gmap.
From S2P Require Import Prelude Bytes Machine Memory Mapping Format Os Ioctl Pci Vfio Physical.
#[local] Open Scope Z_scope.

Inductive MemoryAccess :=
| OfPhysical (mmio : Physical.Physical)
| OfVfio (vfio : Vfio.Vfio).

Module MemoryAccess.

#[global] Instance MemoryAccess_mapping {E} `{BLD : Build} `{HW : Hardware E} `{OS : Os E} `{LC : Libc} :
    Mapping MemoryAccess E := {|
  allocate S self size :=
    match self with OfPhysical mmio => allocate mmio size | OfVfio vfio => allocate vfio size end;
  deallocate S self dma :=
    match self with OfPhysical mmio => deallocate mmio dma | OfVfio vfio => deallocate vfio dma end;
  map_resource S self :=
    match self with OfPhysical mmio => map_resource mmio | OfVfio vfio => map_resource vfio end;
|}.

#[global] Instance MemoryAccess_set_page_size : SetPageSize MemoryAccess := λ page_size self,
  match self with
  | OfVfio vfio => OfVfio (Vfio.Vfio.set_page_size page_size vfio)
  | OfPhysical mmio => OfPhysical mmio
  end.

Section init.
Context {E S : Type} `{BLD : Build} `{HW : Hardware E} `{OS : Os E} `{LC : Libc}.

(** The lines it prints, and the [getuid] that decides about one of them, are
    not modelled. *)
Definition init_with_page_size (pci_addr : string) (page_size : Pagesize.Pagesize) : M E S MemoryAccess :=
  b ← Vfio.Vfio.is_enabled pci_addr;
  if b : bool then
    vfio ← Vfio.Vfio.init_with_args pci_addr page_size false;
    mret (OfVfio vfio)
  else
    mmio ← Physical.Physical.init_with_args pci_addr page_size;
    mret (OfPhysical mmio).

Definition init (pci_addr : string) : M E S MemoryAccess :=
  init_with_page_size pci_addr DEFAULT_PAGE_SIZE.

End init.
End MemoryAccess.
