(* ===== verification/Receiver.v ===== *)
(** Computations that leave their receiver as it is: what holds of every
    operation of the two memory back ends ([src/vfio.rs], [src/physical.rs]). *)

From stdpp Require Import gmap.
From S2P Require Import Prelude Bytes Machine Memory Mapping Format Os Ioctl Pci Vfio Physical MemoryAccess.
#[local] Open Scope Z_scope.

Definition keeps {E S B} (m : M E S B) : Prop := ∀ st, (m st).2.1 = st.1.

Create HintDb keeps discriminated.

Section keeps.
Context {E S : Type}.

Lemma keeps_ret {B} (b : B) : keeps (E:=E) (S:=S) (mret b).
Proof. done. Qed.

Lemma keeps_throw {B} e : keeps (E:=E) (S:=S) (B:=B) (throw e).
Proof. done. Qed.

Lemma keeps_panic {B} p : keeps (E:=E) (S:=S) (B:=B) (panic p).
Proof. done. Qed.

Lemma keeps_get : keeps (E:=E) (S:=S) get.
Proof. done. Qed.

Lemma keeps_bind {B C} (m : M E S B) (f : B → M E S C) : keeps m → (∀ b, keeps (f b)) → keeps (m ≫= f).
Proof.
  intros Hm Hf st. unfold mbind, M_bind. specialize (Hm st).
  destruct (m st) as [[b|e|p|] st']; cbn in *; [by rewrite Hf|done..].
Qed.

Lemma keeps_expect {B} msg (m : M E S B) : keeps m → keeps (expect msg m).
Proof. intros Hm st. unfold expect. specialize (Hm st). by destruct (m st) as [[b|e|p|] st']. Qed.

Lemma keeps_assert b : keeps (E:=E) (S:=S) (assert b).
Proof. by destruct b. Qed.

Lemma keeps_ck `{BLD : Build} n z : keeps (E:=E) (S:=S) (ck n z).
Proof. intros st. unfold ck. destruct (fits n z); [done|]. by destruct overflow_checks. Qed.

Lemma keeps_ck64 `{BLD : Build} z : keeps (E:=E) (S:=S) (ck64 z).
Proof. apply keeps_ck. Qed.

Lemma keeps_shl `{BLD : Build} n a b : keeps (E:=E) (S:=S) (shl n a b).
Proof. intros st. unfold shl. destruct (b <? n); [done|]. by destruct overflow_checks. Qed.

Lemma keeps_udiv a b : keeps (E:=E) (S:=S) (udiv a b).
Proof. intros st. unfold udiv. by destruct (b =? 0). Qed.

Lemma keeps_umod a b : keeps (E:=E) (S:=S) (umod a b).
Proof. intros st. unfold umod. by destruct (b =? 0). Qed.

Lemma keeps_store `{HW : Hardware E} a bs : keeps (E:=E) (S:=S) (store a bs).
Proof. done. Qed.

Lemma keeps_sys `{HW : Hardware E} {B} call (val : B → Z) f : keeps (E:=E) (S:=S) (sys call val f).
Proof. intros [s w]. by rewrite sys_run. Qed.

Lemma keeps_get_statics : keeps (E:=E) (S:=S) get_statics.
Proof. done. Qed.

Lemma keeps_set_statics f : keeps (E:=E) (S:=S) (set_statics f).
Proof. done. Qed.

Lemma wp_keeps {B} (m : M E S B) (Q : Res B → S → World E → Prop) s w :
  keeps m → (∀ r w', Q r s w') → wp m Q s w.
Proof. intros Hm HQ. unfold wp. rewrite (Hm (s, w)). apply HQ. Qed.

End keeps.

#[export] Hint Resolve keeps_ret keeps_throw keeps_panic keeps_get keeps_expect keeps_assert keeps_ck
  keeps_ck64 keeps_shl keeps_udiv keeps_umod keeps_store keeps_sys keeps_get_statics keeps_set_statics : keeps.

(** Descends into a computation. *)
Ltac solve_keeps :=
  repeat (lazymatch goal with
          | |- keeps (mbind _ _) => apply keeps_bind; [|intros ?]
          | |- keeps (if ?b then _ else _) => destruct b
          | |- keeps (match ?x with _ => _ end) => destruct x
          | |- keeps _ => first [solve [auto with keeps] | progress cbv beta zeta | fail 1]
          end).

(** An allocator whose operations leave their callers alone. *)
Class SilentMapping {A E} `{MAP : Mapping A E} : Prop := {
  allocate_keeps : ∀ S (a : A) n, keeps (S:=S) (allocate a n);
  deallocate_keeps : ∀ S (a : A) dma, keeps (S:=S) (deallocate a dma);
}.

Section back_ends.
Context {E S : Type} `{BLD : Build} `{HW : Hardware E} `{OS : Os E} `{LC : Libc}.

Lemma keeps_io_try {B} (r : IoError + B) : keeps (E:=E) (S:=S) (io_try r).
Proof. by destruct r. Qed.
#[local] Hint Resolve keeps_io_try : keeps.

Lemma keeps_mmap a n p f d o : keeps (E:=E) (S:=S) (mmap_unsafe a n p f d o).
Proof. unfold mmap_unsafe. solve_keeps. Qed.

Lemma keeps_munmap a n : keeps (E:=E) (S:=S) (munmap_unsafe a n).
Proof. unfold munmap_unsafe. solve_keeps. Qed.

Lemma keeps_ioctl fd op arg : keeps (E:=E) (S:=S) (ioctl_unsafe fd op arg).
Proof. unfold ioctl_unsafe. solve_keeps. Qed.
#[local] Hint Resolve keeps_mmap keeps_munmap keeps_ioctl : keeps.

Lemma keeps_map_dma self p n : keeps (E:=E) (S:=S) (Vfio.Vfio.map_dma self p n).
Proof. unfold Vfio.Vfio.map_dma. solve_keeps. Qed.

Lemma vfio_allocate_keeps self n : keeps (E:=E) (S:=S) (Vfio.Vfio.allocate self n).
Proof.
  unfold Vfio.Vfio.allocate. apply keeps_bind; [|intros; apply keeps_map_dma].
  unfold Vfio.Vfio.allocate_4kib, Vfio.Vfio.allocate_2mib, Vfio.Vfio.allocate_1gib,
    Vfio.Vfio.align_2mib, mmap_anonymous_unsafe. solve_keeps.
Qed.

Lemma vfio_deallocate_keeps self dma : keeps (E:=E) (S:=S) (Vfio.Vfio.deallocate self dma).
Proof. unfold Vfio.Vfio.deallocate, Vfio.Vfio.unmap_dma. solve_keeps. Qed.

Lemma physical_allocate_keeps self n : keeps (E:=E) (S:=S) (Physical.Physical.allocate self n).
Proof.
  unfold Physical.Physical.allocate, Physical.Physical.next_hugepage_id, Physical.Physical.virt_to_phys,
    mmap_fd_unsafe, mlock_unsafe, file_open, file_seek, file_read_exact. solve_keeps.
Qed.

Lemma physical_deallocate_keeps self dma : keeps (E:=E) (S:=S) (Physical.Physical.deallocate self dma).
Proof. unfold Physical.Physical.deallocate, munlock_unsafe. solve_keeps. Qed.

End back_ends.

#[export] Instance silent_memory_access {E} `{BLD : Build} `{HW : Hardware E} `{OS : Os E} `{LC : Libc} :
  SilentMapping (A:=MemoryAccess).
Proof.
  split; intros S [self|self] x; cbn.
  - apply physical_allocate_keeps.
  - apply vfio_allocate_keeps.
  - apply physical_deallocate_keeps.
  - apply vfio_deallocate_keeps.
Qed.
