(* ===== verification/QueuePair.v ===== *)
(** [src/nvme.rs], first half: [NvmeQueuePair], the queue pair handed out to a
    thread, which submits and polls without going through the device. *)

From stdpp Require Import pretty.
From Stdlib Require Import Ascii.
From S2P Require Import Prelude Bytes Machine Memory Cmd Mapping Queues Service Format.
#[local] Open Scope Z_scope.

Record NvmeQueuePair := mkNvmeQueuePair {
  qp_id : Z;
  sub_queue : SubmissionQueue;
  comp_queue : CompletionQueue;
}.

Module NvmeQueuePair.

Definition set_sub (q : SubmissionQueue) (p : NvmeQueuePair) : NvmeQueuePair :=
  mkNvmeQueuePair (qp_id p) q (comp_queue p).

Definition set_comp (q : CompletionQueue) (p : NvmeQueuePair) : NvmeQueuePair :=
  mkNvmeQueuePair (qp_id p) (sub_queue p) q.

(** [self.sub_queue.head = h]. *)
Definition set_sub_head (h : Z) (p : NvmeQueuePair) : NvmeQueuePair :=
  set_sub (SubmissionQueue.set_head h (sub_queue p)) p.

(** [self.id << 11 | self.sub_queue.tail as u16]: the bits of the id that do
    not fit are dropped, those of the tail are not masked. *)
Definition command_id (id tail : Z) : Z := Z.lor (wrap 16 (Z.shiftl id 11)) (as_u16 tail).

Section NvmeQueuePair.
Context {E : Type} `{BLD : Build} `{FUEL : Fuel} `{HW : Hardware E}.

(** One iteration of the loop of [submit_io]; the loop carries the next LBA
    and the number of requests made. *)
Definition submit_chunk (write : bool) (st : Z * Z) (chunk : DmaChunk) :
    M E NvmeQueuePair (Flow (Z * Z) Z) :=
  let '(lba, reqs) := st in
  n ← ck64 (len (chunk_slice chunk) + 512);
  n ← ck64 (n - 1);
  let blocks := n / 512 in
  let addr := phys_addr chunk in
  bytes ← ck64 (blocks * 512);
  ptr1 ← (if bytes <=? 4096 then mret 0 else ck64 (addr + 4096));
  self ← get;
  let c_id := command_id (qp_id self) (sq_tail (sub_queue self)) in
  blocks_1 ← ck16 (as_u16 blocks - 1);
  let entry :=
    if write then NvmeCommand.io_write c_id 1 lba blocks_1 addr ptr1
    else NvmeCommand.io_read c_id 1 lba blocks_1 addr ptr1 in
  o ← zoom sub_queue set_sub (SubmissionQueue.submit_checked entry);
  match o with
  | Some tail =>
    _ ← write_volatile 4 (sq_doorbell (sub_queue self)) (as_u32 tail);
    lba ← ck64 (lba + blocks);
    reqs ← ck64 (reqs + 1);
    mret (Continue (lba, reqs))
  | None => mret (Break reqs)
  end.

Definition submit_io (data : Dma) (lba : Z) (write : bool) : M E NvmeQueuePair Z :=
  let it := Dma.chunks data (2 * 4096) in
  DmaChunks.for_chunks (DmaChunks.chunk_fuel it) it (submit_chunk write) snd (lba, 0).

Definition complete_io (n : Z) : M E NvmeQueuePair (option Z) :=
  _ ← assert (0 <? n);
  r ← zoom comp_queue set_comp (CompletionQueue.complete_n n);
  let '(tail, c_entry, _) := r in
  self ← get;
  _ ← write_volatile 4 (cq_doorbell (comp_queue self)) (as_u32 tail);
  _ ← modify (set_sub_head (cpl_sq_head c_entry));
  let status := Z.shiftr (cpl_status c_entry) 1 in
  if negb (status =? 0) then mret None else mret (Some (cpl_sq_head c_entry)).

(** The status message goes to standard error, which is not modelled. *)
Definition quick_poll : M E NvmeQueuePair (option unit) :=
  o ← zoom comp_queue set_comp CompletionQueue.complete;
  match o with
  | Some (tail, c_entry, _) =>
    self ← get;
    _ ← write_volatile 4 (cq_doorbell (comp_queue self)) (as_u32 tail);
    _ ← modify (set_sub_head (cpl_sq_head c_entry));
    mret (Some tt)
  | None => mret None
  end.

End NvmeQueuePair.

(** The loop of [u16_to_variable_bit_chunks]. *)
Fixpoint bit_chunks (binary_string : string) (chunk_sizes : list Z) (pos : Z) : list string :=
  match chunk_sizes with
  | [] => []
  | size :: chunk_sizes =>
    let end_ := if 16 <? pos + size then 16 else pos + size in
    let chunk := String.substring (Z.to_nat pos) (Z.to_nat (end_ - pos)) binary_string in
    if 16 <=? end_ then [chunk] else chunk :: bit_chunks binary_string chunk_sizes end_
  end.

Definition u16_to_variable_bit_chunks (n : Z) (chunk_sizes : list Z) : string :=
  String.concat " " (bit_chunks (bin 16 n) chunk_sizes 0).

(** [{:?}] of a completion entry. *)
Definition debug_completion (c : NvmeCompletion) : string :=
  "NvmeCompletion { command_specific: " +:+ dec (cpl_command_specific c) +:+
  ", _rsvd: " +:+ dec (cpl_rsvd c) +:+ ", sq_head: " +:+ dec (cpl_sq_head c) +:+
  ", sq_id: " +:+ dec (cpl_sq_id c) +:+ ", c_id: " +:+ dec (cpl_c_id c) +:+
  ", status: " +:+ dec (cpl_status c) +:+ " }".

(** The message of [quick_poll_result]; [status] is the status field without
    the phase bit. *)
Definition poll_error (status : Z) (c_entry : NvmeCompletion) : string :=
  "QUICK_POLL Status: 0x" +:+ hex status +:+
  ", Status Code 0x" +:+ hex (Z.land status 255) +:+
  ", Status Code Type: 0x" +:+ hex (Z.land (Z.shiftr status 8) 7) +:+
  String (ascii_of_nat 10) (debug_completion c_entry).

Section results.
Context {E : Type} `{BLD : Build} `{HW : Hardware E}.

Definition quick_poll_result : M E NvmeQueuePair (option unit) :=
  o ← zoom comp_queue set_comp CompletionQueue.complete;
  match o with
  | Some (tail, c_entry, _) =>
    self ← get;
    _ ← write_volatile 4 (cq_doorbell (comp_queue self)) (as_u32 tail);
    _ ← modify (set_sub_head (cpl_sq_head c_entry));
    let status := Z.shiftr (cpl_status c_entry) 1 in
    if negb (status =? 0) then throw (Vroom ("Error: " +:+ poll_error status c_entry))
    else mret (Some tt)
  | None => mret None
  end.

End results.
End NvmeQueuePair.

(** ** Specification of a submission *)

(** A queue pair as [create_io_queue_pair] builds it. *)
Definition pair_ok (p : NvmeQueuePair) : Prop :=
  sq_ok (sub_queue p) ∧ 0 ≤ qp_id p < 2 ^ 16.

Definition chunk_blocks (c : DmaChunk) : Z := (len (chunk_slice c) + 511) / 512.

(** The command for one chunk: what is transferred is whole blocks, and the
    second PRP entry is set when they do not fit the first page. *)
Definition chunk_cmd (write : bool) (cid ns lba : Z) (c : DmaChunk) : NvmeCommand :=
  (if write then NvmeCommand.io_write else NvmeCommand.io_read)
    cid ns lba (chunk_blocks c - 1) (phys_addr c)
    (if chunk_blocks c * 512 <=? 4096 then 0 else phys_addr c + 4096).

(** The command and the accesses for the [i]-th chunk of [data], for a
    submission queue [q] that stood at its tail when the loop began. *)
Definition pair_cmd (p : NvmeQueuePair) (write : bool) (data : Dma) (lba i : Z) : NvmeCommand :=
  let q := sub_queue p in
  chunk_cmd write (NvmeQueuePair.command_id (qp_id p) ((sq_tail q + i) `mod` sq_len q))
    1 (lba + 16 * i) (nth_chunk data 8192 i).

Definition pair_events (p : NvmeQueuePair) (write : bool) (data : Dma) (lba i : Z) : list Event :=
  let q := sub_queue p in
  [EvStore (sq_slot q ((sq_tail q + i) `mod` sq_len q))
     (NvmeCommand.encode (pair_cmd p write data lba i));
   EvWrite 4 (sq_doorbell q) ((sq_tail q + i + 1) `mod` sq_len q)].

(** The queue pair after [k] submissions. *)
Definition pair_after (p : NvmeQueuePair) (k : Z) : NvmeQueuePair :=
  let q := sub_queue p in
  NvmeQueuePair.set_sub (SubmissionQueue.set_tail ((sq_tail q + k) `mod` sq_len q) q) p.

(** ** Lemmas *)

Lemma zoom_run {E St T A} (g : St → T) (pt : T → St → St) (m : M E T A) st w :
  zoom g pt m (st, w) = let '(r, (t, w')) := m (g st, w) in (r, (pt t st, w')).
Proof. done. Qed.

Lemma chunk_blocks_bounds c :
  0 < len (chunk_slice c) ≤ 8192 → 1 ≤ chunk_blocks c ≤ 16.
Proof.
  intros. unfold chunk_blocks. split.
  - apply Z.div_le_lower_bound; lia.
  - apply Z.lt_succ_r, Z.div_lt_upper_bound; lia.
Qed.

(** One page or two: decided on the bytes as well as on the blocks. *)
Lemma chunk_one_page c :
  0 < len (chunk_slice c) → (chunk_blocks c * 512 <=? 4096) = (len (chunk_slice c) <=? 4096).
Proof.
  intros. unfold chunk_blocks. apply eq_true_iff_eq. rewrite !Z.leb_le.
  replace (len (chunk_slice c) + 511) with (len (chunk_slice c) + 512 - 1) by lia.
  pose proof (ceil_bounds 512 (len (chunk_slice c))). split; [lia|]. intros.
  assert ((len (chunk_slice c) + 512 - 1) / 512 < 9); [|lia].
  apply Z.div_lt_upper_bound; lia.
Qed.

Lemma pair_after_0 p : pair_ok p → pair_after p 0 = p.
Proof.
  intros [(_ & _ & Ht) _]. unfold pair_after, NvmeQueuePair.set_sub, SubmissionQueue.set_tail.
  rewrite Z.add_0_r, Z.mod_small by done. by destruct p as [? [] ?].
Qed.

Lemma pair_after_ok p k : pair_ok p → pair_ok (pair_after p k).
Proof.
  intros [Hq Hid]. split; [|done]. apply sq_ok_set_tail; [done|].
  apply Z.mod_pos_bound. destruct Hq; lia.
Qed.

Lemma pair_after_succ p k :
  pair_ok p → pair_after (pair_after p k) 1 = pair_after p (k + 1).
Proof.
  intros [(Hl & _) _]. unfold pair_after, NvmeQueuePair.set_sub, SubmissionQueue.set_tail. simpl.
  rewrite Z.add_mod_idemp_l by lia. by rewrite Z.add_assoc.
Qed.

Lemma pair_after_count p k :
  pair_ok p → 0 ≤ k → sq_count (sub_queue p) + k < sq_len (sub_queue p) →
  sq_count (sub_queue (pair_after p k)) = sq_count (sub_queue p) + k.
Proof.
  intros [Hq _] Hk Hc. unfold sq_count in *. simpl. destruct Hq as (?&?&?).
  rewrite Zminus_mod_idemp_l.
  replace (sq_tail (sub_queue p) + k - sq_head (sub_queue p))
    with (sq_tail (sub_queue p) - sq_head (sub_queue p) + k) by lia.
  rewrite <-Z.add_mod_idemp_l by lia. apply Z.mod_small.
  pose proof (Z.mod_pos_bound (sq_tail (sub_queue p) - sq_head (sub_queue p)) (sq_len (sub_queue p))).
  lia.
Qed.

Section submit.
Context {E : Type} `{BLD : Build} `{HW : Hardware E}.

(** One iteration: nothing on a full queue, otherwise one entry, one doorbell. *)
Lemma submit_chunk_run p (w : World E) write lba reqs c :
  pair_ok p → 0 < len (chunk_slice c) ≤ 8192 →
  0 ≤ phys_addr c → phys_addr c + 4096 < 2 ^ 64 → 0 ≤ lba → lba + 16 < 2 ^ 64 →
  0 ≤ reqs → reqs + 1 < 2 ^ 64 →
  let q := sub_queue p in
  let cid := NvmeQueuePair.command_id (qp_id p) (sq_tail q) in
  if sq_count q =? sq_len q - 1
  then NvmeQueuePair.submit_chunk write (lba, reqs) c (p, w) = (Ret (Break reqs), (p, w))
  else ∃ w', NvmeQueuePair.submit_chunk write (lba, reqs) c (p, w) =
    (Ret (Continue (lba + chunk_blocks c, reqs + 1)), (pair_after p 1, w')) ∧
    trace w' = trace w ++
      [EvStore (sq_slot q (sq_tail q)) (NvmeCommand.encode (chunk_cmd write cid 1 lba c));
       EvWrite 4 (sq_doorbell q) ((sq_tail q + 1) `mod` sq_len q)].
Proof.
  intros [Hq Hid] Hlen Ha1 Ha2 Hl1 Hl2 Hr1 Hr2 q cid.
  pose proof (chunk_blocks_bounds c Hlen) as Hb.
  unfold NvmeQueuePair.submit_chunk, mbind, M_bind, ck64, ck16.
  rewrite ck_fits by lia. rewrite ck_fits by lia.
  replace (len (chunk_slice c) + 512 - 1) with (len (chunk_slice c) + 511) by lia.
  fold (chunk_blocks c). rewrite ck_fits by lia.
  assert (as_u16 (chunk_blocks c) = chunk_blocks c) as -> by (apply wrap_small; lia).
  assert (∀ st : NvmeQueuePair * World E,
    (if chunk_blocks c * 512 <=? 4096 then mret 0 else ck 64 (phys_addr c + 4096)) st =
    (Ret (if chunk_blocks c * 512 <=? 4096 then 0 else phys_addr c + 4096), st)) as Hptr.
  { intros st. destruct (_ <=? _); [done|]. apply ck_fits. lia. }
  rewrite Hptr. unfold get. cbn [fst]. rewrite ck_fits by lia.
  rewrite zoom_run, submit_checked_run, full_count by apply Hq. fold q cid.
  destruct (Z.eqb_spec (sq_count q) (sq_len q - 1)).
  - f_equal. by destruct p.
  - unfold write_volatile. cbn [fst snd]. rewrite ck_fits by lia. rewrite ck_fits by lia.
    destruct Hq as (Hql & _ & _). rewrite QUEUE_LENGTH_value in Hql. fold q in Hql.
    pose proof (Z.mod_pos_bound (sq_tail q + 1) (sq_len q) ltac:(lia)).
    eexists. split; [reflexivity|]. world. rewrite <-app_assoc. simpl. repeat f_equal.
    + unfold chunk_cmd. by destruct write.
    + apply wrap_small. lia.
Qed.

(** The loop from the [i]-th chunk on. *)
Lemma submit_loop p write data lba :
  pair_ok p → dma_ok data → 0 ≤ lba → lba + 16 * n_chunks data 8192 < 2 ^ 64 →
  phys data + size data + 4096 < 2 ^ 64 →
  let q := sub_queue p in
  let n := n_chunks data 8192 in
  let total := Z.min n (sq_len q - 1 - sq_count q) in
  ∀ i l (w : World E), 0 ≤ i ≤ total → (i < n → l = lba + 16 * i) →
  ∃ w', for_flow (nth_chunk data 8192 <$> zrange i n)
      (NvmeQueuePair.submit_chunk write) snd (l, i) (pair_after p i, w) =
    (Ret total, (pair_after p total, w')) ∧
    trace w' = trace w ++ (zrange i total ≫= pair_events p write data lba).
Proof.
  intros Hp Hd Hl Hln Hpn q n total i. pose proof (sq_count_bounds _ (proj1 Hp)) as Hc.
  fold q in Hc. assert (0 ≤ size data) as Hsz by apply Hd.
  remember (Z.to_nat (n - i)) as k eqn:Hk. revert i Hk.
  induction k as [|k IH]; intros i Hk l w Hi Hli.
  { rewrite (zrange_nil i n) by lia. assert (i = total) as -> by lia.
    exists w. rewrite zrange_nil by lia. by rewrite app_nil_r. }
  rewrite zrange_cons by lia. cbn [fmap list_fmap for_flow].
  destruct (nth_chunk_bounds data 8192 i) as (? & Hlen & Hend & Hfull); [lia..|].
  pose proof (chunk_blocks_bounds _ Hlen) as Hb. rewrite Hli by lia.
  pose proof (n_chunks_bounds data 8192 ltac:(lia)).
  pose proof (submit_chunk_run (pair_after p i) w write (lba + 16 * i) i (nth_chunk data 8192 i)
    (pair_after_ok _ _ Hp) Hlen) as Hrun.
  destruct Hd as (Hd1&Hd2&Hd3&Hd4&Hd5).
  specialize (Hrun ltac:(simpl in *; lia) ltac:(simpl in *; lia) ltac:(lia) ltac:(lia)
    ltac:(lia) ltac:(lia)). cbn zeta in Hrun.
  rewrite pair_after_count in Hrun by (done || fold q; lia).
  change (sq_len (sub_queue (pair_after p i))) with (sq_len q) in Hrun. fold q in Hrun.
  unfold mbind at 1, M_bind. destruct (Z.eqb_spec (sq_count q + i) (sq_len q - 1)).
  - rewrite Hrun. assert (i = total) as -> by lia. exists w.
    rewrite zrange_nil by lia. by rewrite app_nil_r.
  - destruct Hrun as (w1 & -> & Hw1). rewrite pair_after_succ by done.
    destruct (IH (i + 1) ltac:(lia) (lba + 16 * i + chunk_blocks (nth_chunk data 8192 i)) w1)
      as (w' & Hrun & Hw'); [lia| |].
    { intros Hin. rewrite <-Z.add_assoc. f_equal. unfold chunk_blocks.
      rewrite Hfull by lia. change ((8192 + 511) / 512) with 16. lia. }
    exists w'. split; [exact Hrun|].
    rewrite Hw', Hw1, (zrange_cons i total) by lia. rewrite <-app_assoc. f_equal.
    cbn [mbind list_bind]. f_equal. unfold pair_events, pair_cmd. fold q. cbn.
    destruct Hp as [(Hql & _) _]. fold q in Hql.
    rewrite Z.add_mod_idemp_l by lia. done.
Qed.

End submit.

(** ** Properties *)

(** C19: [submit_io] against any controller.  It submits the chunks of the
    region in order until the submission queue is full, and returns how many:
    the minimum of the number of 8 KiB chunks and the free entries.  Chunk [i]
    gives exactly one store of one I/O command (for namespace 1, at LBA
    [lba + 16 i]) into the next slot, followed by one doorbell write of the new
    tail, and nothing else is written; the call neither fails nor panics. *)
Theorem submit_io_commands `{BLD : Build} {E} `{HW : Hardware E}
    (p : NvmeQueuePair) (w : World E) (data : Dma) (lba : Z) (write : bool) :
  pair_ok p → dma_ok data → 0 ≤ lba → lba + 16 * n_chunks data 8192 < 2 ^ 64 →
  phys data + size data + 4096 < 2 ^ 64 →
  let q := sub_queue p in
  let total := Z.min (n_chunks data 8192) (sq_len q - 1 - sq_count q) in
  ∃ w', NvmeQueuePair.submit_io data lba write (p, w) = (Ret total, (pair_after p total, w')) ∧
    sq_count (sub_queue (pair_after p total)) = sq_count q + total ∧
    trace w' = trace w ++ (zrange 0 total ≫= pair_events p write data lba).
Proof.
  intros Hp Hd Hl Hln Hpn q total.
  pose proof (sq_count_bounds _ (proj1 Hp)) as Hc. fold q in Hc.
  pose proof (n_chunks_nonneg data 8192 ltac:(lia) ltac:(apply Hd)).
  destruct (submit_loop p write data lba Hp Hd Hl Hln Hpn 0 lba w) as (w' & Hrun & Ht);
    [fold q; lia|lia|].
  exists w'. split; [|split; [|done]].
  - unfold NvmeQueuePair.submit_io. change (2 * 4096) with 8192.
    rewrite for_chunks_list by (done || lia). rewrite pair_after_0 in Hrun by done. exact Hrun.
  - apply pair_after_count; [done|lia|fold q; lia].
Qed.

Definition demo_sq : SubmissionQueue := mkSubmissionQueue (mkDma 4096 4096 2097152) 2 1 4 4104.
Definition demo_pair : NvmeQueuePair := mkNvmeQueuePair 2 demo_sq demo_cq.

Lemma demo_pair_ok : pair_ok demo_pair.
Proof. unfold pair_ok, sq_ok. rewrite QUEUE_LENGTH_value. simpl. lia. Qed.

(** The queue is full: three of four slots are in use. *)
Lemma submit_io_commands_witness :
  ∃ w', NvmeQueuePair.submit_io (BLD:=true) (HW:=idle_hw) (mkDma 65536 65536 12288) 7 true
    (demo_pair, initial tt (λ _, 0)) = (Ret 0, (pair_after demo_pair 0, w')) ∧ trace w' = [].
Proof.
  destruct (submit_io_commands (BLD:=true) (HW:=idle_hw) demo_pair (initial tt (λ _, 0))
    (mkDma 65536 65536 12288) 7 true demo_pair_ok) as (w' & Hrun & _ & Ht);
    [unfold dma_ok; simpl; lia|lia|vm_compute; congruence|simpl; lia|].
  exists w'. split; [exact Hrun|exact Ht].
Defined.

(** The command id of a queue pair is [id << 11 | tail].  For tails below
    2048 it determines the tail and the low five bits of the id.  The ring has
    16384 slots, however: on a queue whose id is not a multiple of 8 the
    commands in slots 0 and [2048 * (id mod 8)] carry the same id, so commands
    in flight together are not told apart by it. *)
Lemma command_id_ranges (id : Z) :
  0 ≤ id < 2 ^ 16 →
  (∀ t, 0 ≤ t < 2048 →
     NvmeQueuePair.command_id id t `mod` 2048 = t ∧
     NvmeQueuePair.command_id id t / 2048 = id `mod` 32) ∧
  (id `mod` 8 ≠ 0 →
     ∃ t, 0 < t < QUEUE_LENGTH ∧
       NvmeQueuePair.command_id id t = NvmeQueuePair.command_id id 0).
Proof.
  intros Hid.
  assert (wrap 16 (Z.shiftl id 11) = Z.shiftl (id `mod` 32) 11) as Hw.
  { unfold wrap. rewrite !Z.shiftl_mul_pow2 by done. change (2 ^ 16) with (32 * 2 ^ 11).
    by rewrite Z.mul_mod_distr_r by lia. }
  pose proof (Z.mod_pos_bound id 32 ltac:(lia)).
  unfold NvmeQueuePair.command_id, as_u16. rewrite Hw. split.
  - intros t Ht. rewrite (wrap_small 16 t), lor_shiftl_add by lia.
    change (2 ^ 11) with 2048. rewrite Z.add_comm, Z.mod_add, Z.div_add by lia.
    rewrite Z.mod_small, Z.div_small by lia. lia.
  - intros Hne. pose proof (Z.mod_pos_bound id 8 ltac:(lia)).
    exists (Z.shiftl (id `mod` 8) 11). rewrite QUEUE_LENGTH_value.
    rewrite Z.shiftl_mul_pow2 at 1 2 by done. split; [lia|].
    rewrite (wrap_small 16 (Z.shiftl _ _)) by (rewrite Z.shiftl_mul_pow2; lia).
    rewrite (wrap_small 16 0), Z.lor_0_r by lia. rewrite <-Z.shiftl_lor. f_equal.
    change 8 with (2 ^ 3). change 32 with (2 ^ 5). apply Z.bits_inj'. intros i Hi.
    rewrite Z.lor_spec. destruct (Z.lt_ge_cases i 3).
    + rewrite !Z.mod_pow2_bits_low by lia. apply orb_diag.
    + rewrite (Z.mod_pow2_bits_high id 3) by lia. apply orb_false_r.
Qed.

(** The status dump of [quick_poll] cuts the 16-bit status word into the
    fields of the NVMe status: DNR, M, CRD (2 bits), SCT (3 bits), SC (8 bits)
    and the phase bit, each in binary at its own width, separated by spaces. *)
Lemma status_chunks (n : Z) :
  NvmeQueuePair.u16_to_variable_bit_chunks n [1; 1; 2; 3; 8; 1] =
  String.concat " "
    [bin 1 (Z.shiftr n 15 `mod` 2); bin 1 (Z.shiftr n 14 `mod` 2);
     bin 2 (Z.shiftr n 12 `mod` 4); bin 3 (Z.shiftr n 9 `mod` 8);
     bin 8 (Z.shiftr n 1 `mod` 256); bin 1 (Z.shiftr n 0 `mod` 2)].
Proof.
  unfold NvmeQueuePair.u16_to_variable_bit_chunks. f_equal.
  pose proof (substring_bin 0 1 15 n) as H0. pose proof (substring_bin 1 1 14 n) as H1.
  pose proof (substring_bin 2 2 12 n) as H2. pose proof (substring_bin 4 3 9 n) as H3.
  pose proof (substring_bin 7 8 1 n) as H4. pose proof (substring_bin 15 1 0 n) as H5.
  transitivity
    [String.substring 0 1 (bin 16 n); String.substring 1 1 (bin 16 n);
     String.substring 2 2 (bin 16 n); String.substring 4 3 (bin 16 n);
     String.substring 7 8 (bin 16 n); String.substring 15 1 (bin 16 n)];
    [generalize (bin 16 n); reflexivity|].
  cbn [Nat.add] in *. rewrite H0, H1, H2, H3, H4, H5. reflexivity.
Qed.

(** The queue pair once completion number [k - 1] has been taken. *)
Definition pair_taken (p : NvmeQueuePair) (posted : Z → NvmeCompletion) (k : Z) : NvmeQueuePair :=
  NvmeQueuePair.set_sub_head (cpl_sq_head (posted (k - 1)))
    (NvmeQueuePair.set_comp (cq_pos (comp_queue p) k) p).

(** The status field without the phase bit; 0 is success. *)
Definition sc_field (c : NvmeCompletion) : Z := Z.shiftr (cpl_status c) 1.

(** The [n]-th next completion taken, and the accesses that acknowledge it. *)
Lemma wp_pair_complete `{BLD : Build} `{FUEL : Fuel} {E} `{HW : Hardware E}
    (p : NvmeQueuePair) (posted : Z → NvmeCompletion) (produces : Z → Z → World E → Prop)
    (goal : Z) (N : nat) (C P n : Z) (w : World E)
    (Q : Res (option Z) → NvmeQueuePair → World E → Prop) :
  let cq := comp_queue p in
  CqProducer cq posted produces → CqLive produces goal N →
  0 < cq_len cq ≤ QUEUE_LENGTH → cq_at cq C → produces C P w →
  1 ≤ n ≤ cq_len cq → C + n ≤ goal → (0 < N)%nat → (Z.to_nat n * N < spin_fuel)%nat →
  (∀ P' w', C + n ≤ P' → produces C P' w' → trace w' = trace w →
     Q (Ret (if sc_field (posted (C + n - 1)) =? 0
             then Some (cpl_sq_head (posted (C + n - 1))) else None))
       (pair_taken p posted (C + n))
       (written 4 (cq_doorbell cq) ((C + n) `mod` cq_len cq) (tick w'))) →
  wp (NvmeQueuePair.complete_io n) Q p w.
Proof.
  intros cq Hprod Hlive Hlen Hat HP Hn Hgoal HN Hfuel HQ.
  unfold NvmeQueuePair.complete_io, assert. rewrite (proj2 (Z.ltb_lt 0 n)) by lia.
  do 4 wp_step. fold cq. rewrite (cq_at_pos cq C Hat) at 1.
  eapply (wp_complete_n cq posted produces Hlen goal N C P); [done..|].
  intros P' w' ? Hpr Ht. specialize (HQ P' w' ltac:(done) Hpr Ht).
  cbn [then_]. cbv iota beta. do 4 wp_step.
  cbn [comp_queue NvmeQueuePair.set_comp cq_pos cq_doorbell]. do 2 wp_step.
  pose proof (Z.mod_pos_bound (C + n) (cq_len cq) ltac:(lia)).
  rewrite QUEUE_LENGTH_value in Hlen.
  assert (as_u32 ((C + n) `mod` cq_len cq) = (C + n) `mod` cq_len cq) as ->
    by (apply wrap_small; lia).
  fold (sc_field (posted (C + n - 1))).
  destruct (sc_field (posted (C + n - 1)) =? 0); cbv iota beta delta [negb]; by wp_step.
Qed.

(** C25: [complete_io(n)] waits for the [n]-th next completion and returns.  It
    takes [n] completions off the queue, acknowledges them all with one doorbell
    write of the new head, and moves the head of the submission queue to the one
    the last completion reports; the value is that head when the last status is
    success and [None] otherwise.  [n = 0] panics at the assertion. *)
Theorem complete_io_takes_n `{BLD : Build} `{FUEL : Fuel} `{HW : Hardware E}
    (p : NvmeQueuePair) (posted : Z → NvmeCompletion) (produces : Z → Z → World E → Prop)
    (goal : Z) (N : nat) (C P n : Z) (w : World E) :
  let cq := comp_queue p in
  CqProducer cq posted produces → CqLive produces goal N →
  0 < cq_len cq ≤ QUEUE_LENGTH → cq_at cq C → produces C P w →
  0 ≤ n ≤ cq_len cq → C + n ≤ goal → (0 < N)%nat → (Z.to_nat n * N < spin_fuel)%nat →
  (n = 0 → NvmeQueuePair.complete_io n (p, w) = (Panicked AssertFailed, (p, w))) ∧
  (0 < n → ∃ w',
     NvmeQueuePair.complete_io n (p, w) =
       (Ret (if sc_field (posted (C + n - 1)) =? 0
             then Some (cpl_sq_head (posted (C + n - 1))) else None),
        (pair_taken p posted (C + n), w')) ∧
     trace w' = trace w ++ [EvWrite 4 (cq_doorbell cq) ((C + n) `mod` cq_len cq)]).
Proof.
  intros cq Hprod Hlive Hlen Hat HP Hn Hgoal HN Hfuel. split; [by intros ->|]. intros Hn0.
  assert (wp (NvmeQueuePair.complete_io n) (λ r p' w',
    r = Ret (if sc_field (posted (C + n - 1)) =? 0
             then Some (cpl_sq_head (posted (C + n - 1))) else None) ∧
    p' = pair_taken p posted (C + n) ∧
    trace w' = trace w ++ [EvWrite 4 (cq_doorbell cq) ((C + n) `mod` cq_len cq)]) p w) as Hwp.
  { eapply (wp_pair_complete p posted produces goal N C P); [done..|fold cq; lia|done|done|done|].
    intros P' w' _ _ Ht. split; [done|split; [done|]]. access_trace. by rewrite Ht. }
  apply wp_run in Hwp as (r & p' & w' & -> & -> & -> & Ht). by exists w'.
Qed.

Definition demo_pair0 : NvmeQueuePair := mkNvmeQueuePair 2 demo_sq demo_cq.

Lemma demo_cq_at : cq_at demo_cq 0.
Proof. split; [apply demo_len|]. split; [lia|]. done. Qed.

Lemma complete_io_takes_n_witness :
  ∃ w', NvmeQueuePair.complete_io (BLD:=true) (FUEL:=10%nat) (HW:=posting_hw demo_cq demo_posted 3)
    3 (demo_pair0, posting_world) =
  (Ret (Some 3), (pair_taken demo_pair0 demo_posted 3, w')) ∧
  trace w' = [EvWrite 4 0 3].
Proof.
  pose proof demo_len as Hl.
  apply (complete_io_takes_n (BLD:=true) (FUEL:=10%nat) (HW:=posting_hw demo_cq demo_posted 3)
    demo_pair0 demo_posted (posting_produces demo_cq demo_posted 3) 3 1 0 0 3 posting_world
    (posting_producer demo_cq demo_posted 3 Hl ltac:(simpl; lia) demo_posted_wf demo_posted_phase)
    (posting_live demo_cq demo_posted 3 Hl ltac:(simpl; lia) demo_posted_wf demo_posted_phase)
    Hl demo_cq_at (posting_init demo_cq demo_posted 3 Hl ltac:(simpl; lia)));
    unfold spin_fuel; simpl; lia.
Defined.

(** Taking one completion and acknowledging it, the common part of the two
    polling functions. *)
Lemma wp_poll `{BLD : Build} `{HW : Hardware E} {A}
    (p : NvmeQueuePair) (posted : Z → NvmeCompletion) (produces : Z → Z → World E → Prop)
    (C P : Z) (w : World E) (k : NvmeCompletion → M E NvmeQueuePair (option A))
    (Q : Res (option A) → NvmeQueuePair → World E → Prop) :
  let cq := comp_queue p in
  CqProducer cq posted produces → 0 < cq_len cq ≤ QUEUE_LENGTH → cq_at cq C → produces C P w →
  (produces C C (tick w) → Q (Ret None) p (tick w)) →
  (∀ P1, C < P1 → produces C P1 (tick w) →
     wp (k (posted C)) Q (pair_taken p posted (C + 1))
       (written 4 (cq_doorbell cq) ((C + 1) `mod` cq_len cq) (tick (tick (tick w))))) →
  wp (o ← zoom comp_queue NvmeQueuePair.set_comp CompletionQueue.complete;
      match o with
      | Some (tail, c_entry, _) =>
        self ← get;
        _ ← write_volatile 4 (cq_doorbell (comp_queue self)) (as_u32 tail);
        _ ← modify (NvmeQueuePair.set_sub_head (cpl_sq_head c_entry));
        k c_entry
      | None => mret None
      end) Q p w.
Proof.
  intros cq Hprod Hlen Hat HP Hnone Hsome.
  pose proof (produces_view _ _ _ HP) as ((HC & ?) & ? & _).
  do 2 wp_step. fold cq. rewrite (cq_at_pos cq C Hat) at 1.
  eapply (wp_complete cq posted produces Hlen C P C); [done|lia|..].
  - intros P1 ? HP1. cbn [then_]. wp_step. rewrite <-(cq_at_pos cq C Hat).
    assert (NvmeQueuePair.set_comp cq p = p) as -> by by destruct p.
    apply Hnone.
    destruct (produces_view _ _ _ HP1) as ((_ & ?) & _). by replace P1 with C in HP1 by lia.
  - intros P1 P2 ? HP1 HP2. cbn [then_]. unfold cq_result. cbv iota beta. do 6 wp_step.
    cbn [comp_queue NvmeQueuePair.set_comp cq_pos cq_doorbell].
    pose proof (Z.mod_pos_bound (C + 1) (cq_len cq) ltac:(lia)).
    rewrite QUEUE_LENGTH_value in Hlen.
    assert (as_u32 ((C + 1) `mod` cq_len cq) = (C + 1) `mod` cq_len cq) as ->
      by (apply wrap_small; lia).
    assert (NvmeQueuePair.set_sub_head (cpl_sq_head (posted C))
      (NvmeQueuePair.set_comp (cq_pos cq (C + 1)) p) = pair_taken p posted (C + 1)) as ->
      by (unfold pair_taken; by rewrite Z.add_simpl_r).
    apply (Hsome P1); [lia|done].
Qed.

(** The polling functions.  When no completion has been posted both return
    nothing and change nothing.  Otherwise both take exactly one, acknowledge it
    with one doorbell write and adopt the submission queue head it reports,
    whatever its status: [quick_poll] then returns [Some] also for a failed
    command, [quick_poll_result] returns the error with the status decoded in
    its message, with the queue already advanced. *)
Lemma polling `{BLD : Build} `{HW : Hardware E}
    (p : NvmeQueuePair) (posted : Z → NvmeCompletion) (produces : Z → Z → World E → Prop)
    (C P : Z) (w : World E) :
  let cq := comp_queue p in
  CqProducer cq posted produces → 0 < cq_len cq ≤ QUEUE_LENGTH → cq_at cq C → produces C P w →
  (produces C C (tick w) →
     NvmeQueuePair.quick_poll (p, w) = (Ret None, (p, tick w)) ∧
     NvmeQueuePair.quick_poll_result (p, w) = (Ret None, (p, tick w))) ∧
  (∀ P', produces C P' (tick w) → C < P' → ∃ w1 w2,
     NvmeQueuePair.quick_poll (p, w) = (Ret (Some tt), (pair_taken p posted (C + 1), w1)) ∧
     NvmeQueuePair.quick_poll_result (p, w) =
       (if sc_field (posted C) =? 0 then Ret (Some tt)
        else Err (Vroom ("Error: " +:+
               NvmeQueuePair.poll_error (sc_field (posted C)) (posted C))),
        (pair_taken p posted (C + 1), w2)) ∧
     let ev := EvWrite 4 (cq_doorbell cq) ((C + 1) `mod` cq_len cq) in
     trace w1 = trace w ++ [ev] ∧ trace w2 = trace w ++ [ev]).
Proof.
  intros cq Hprod Hlen Hat HP.
  set (R1 := Ret (Some tt)).
  set (R2 := if sc_field (posted C) =? 0 then Ret (Some tt)
     else Err (Vroom ("Error: " +:+ NvmeQueuePair.poll_error (sc_field (posted C)) (posted C)))).
  set (post := λ R (r : Res (option unit)) p' (w' : World E),
    (r = Ret None ∧ p' = p ∧ w' = tick w ∧ produces C C (tick w)) ∨
    (∃ P1, C < P1 ∧ produces C P1 (tick w) ∧ r = R ∧ p' = pair_taken p posted (C + 1) ∧
     trace w' = trace w ++ [EvWrite 4 (cq_doorbell cq) ((C + 1) `mod` cq_len cq)])).
  assert (wp NvmeQueuePair.quick_poll (post R1) p w) as H1.
  { eapply (wp_poll p posted produces C P w (λ _, mret (Some tt))); [done..| |].
    - by left.
    - intros P1 ? ?. wp_step. right. exists P1. by access_trace. }
  assert (wp NvmeQueuePair.quick_poll_result (post R2) p w) as H2.
  { eapply (wp_poll p posted produces C P w (λ c_entry,
      if negb (Z.shiftr (cpl_status c_entry) 1 =? 0)
      then throw (Vroom ("Error: " +:+
             NvmeQueuePair.poll_error (Z.shiftr (cpl_status c_entry) 1) c_entry))
      else mret (Some tt))); [done..| |].
    - by left.
    - intros P1 ? ?. fold (sc_field (posted C)). unfold R2.
      destruct (sc_field (posted C) =? 0); cbn [negb]; wp_step; right; exists P1; by access_trace. }
  apply wp_run in H1 as (r1 & p1 & w1 & -> & H1). apply wp_run in H2 as (r2 & p2 & w2 & -> & H2).
  split.
  - intros HC. destruct H1 as [(-> & -> & -> & _)|(P1 & ? & HP1 & _)];
      [|pose proof (produces_functional _ _ _ _ _ _ _ HC HP1); lia].
    destruct H2 as [(-> & -> & -> & _)|(P1 & ? & HP1 & _)];
      [done|pose proof (produces_functional _ _ _ _ _ _ _ HC HP1); lia].
  - intros P' HP' HC.
    destruct H1 as [(_ & _ & _ & Hc)|(_ & _ & _ & -> & -> & ?)];
      [pose proof (produces_functional _ _ _ _ _ _ _ Hc HP'); lia|].
    destruct H2 as [(_ & _ & _ & Hc)|(_ & _ & _ & -> & -> & ?)];
      [pose proof (produces_functional _ _ _ _ _ _ _ Hc HP'); lia|].
    by exists w1, w2.
Qed.
