(* ===== verification/Device.v ===== *)
(** [src/nvme.rs], second half: [NvmeDevice], its registers, the admin queue,
    initialisation, identification and the creation of queue pairs.

    The device is generic in its allocator: [A] with the interface [Mapping]. *)

From stdpp Require Import gmap.
From S2P Require Import Prelude Bytes Machine Memory Cmd Mapping Queues Service QueuePair.
#[local] Open Scope Z_scope.

(** ** Registers *)

Inductive NvmeRegs32 :=
| VS | INTMS | INTMC | CC | CSTS | NSSR | AQA | CMBLOC | CMBSZ | BPINFO | BPRSEL | BPMBL
| CMBSTS | PMRCAP | PMRCTL | PMRSTS | PMREBS | PMRSWTP.

Definition reg32 (r : NvmeRegs32) : Z :=
  match r with
  | VS => 0x8 | INTMS => 0xC | INTMC => 0x10 | CC => 0x14 | CSTS => 0x1C | NSSR => 0x20
  | AQA => 0x24 | CMBLOC => 0x38 | CMBSZ => 0x3C | BPINFO => 0x40 | BPRSEL => 0x44
  | BPMBL => 0x48 | CMBSTS => 0x58 | PMRCAP => 0xE00 | PMRCTL => 0xE04 | PMRSTS => 0xE08
  | PMREBS => 0xE0C | PMRSWTP => 0xE10
  end.

Inductive NvmeRegs64 := CAP | ASQ | ACQ | CMBMSC | PMRMSC.

Definition reg64 (r : NvmeRegs64) : Z :=
  match r with
  | CAP => 0x0 | ASQ => 0x28 | ACQ => 0x30 | CMBMSC => 0x50 | PMRMSC => 0xE14
  end.

Inductive NvmeArrayRegs :=
| SQyTDBL
| CQyHDBL.

(** ** Identify data *)

(** The fields of [IdentifyNamespaceData] with their widths in bytes, in
    order; the structure is [repr(C, packed)]. *)
Definition IdentifyNamespaceData : list (string * nat) :=
  [("nsze", 8); ("ncap", 8); ("nuse", 8); ("nsfeat", 1); ("nlbaf", 1); ("flbas", 1);
   ("mc", 1); ("dpc", 1); ("dps", 1); ("nmic", 1); ("rescap", 1); ("fpi", 1); ("dlfeat", 1);
   ("nawun", 2); ("nawupf", 2); ("nacwu", 2); ("nabsn", 2); ("nabo", 2); ("nabspf", 2);
   ("noiob", 2); ("nvmcap", 16); ("npwg", 2); ("npwa", 2); ("npdg", 2); ("npda", 2);
   ("nows", 2); ("_rsvd1", 18); ("anagrpid", 4); ("_rsvd2", 3); ("nsattr", 1);
   ("nvmsetid", 2); ("endgid", 2); ("nguid", 16); ("eui64", 8);
   ("lba_format_support", 64); ("_rsvd3", 192); ("vendor_specific", 3712)]%nat%string.

(** The bytes of one field. *)
Fixpoint field_bytes (layout : list (string * nat)) (name : string) (bs : list Z) : list Z :=
  match layout with
  | [] => []
  | (f, n) :: layout =>
    if bool_decide (f = name) then take n bs else field_bytes layout name (drop n bs)
  end.

Definition ns_field (name : string) (bs : list Z) : Z :=
  le_val (field_bytes IdentifyNamespaceData name bs).

(** [lba_format_support[i]]. *)
Definition lba_format (i : Z) (bs : list Z) : Z :=
  le_val (take 4 (drop (4 * Z.to_nat i) (field_bytes IdentifyNamespaceData "lba_format_support" bs))).

Record NvmeNamespace := mkNvmeNamespace {
  nsp_id : Z;
  blocks : Z;
  block_size : Z;
}.

(** The namespace [identify_namespace] makes of the data. *)
Definition parse_namespace (id : Z) (data : list Z) : NvmeNamespace :=
  let flba_idx := Z.land (ns_field "flbas" data) 0xF in
  let flba_data := Z.land (Z.shiftr (lba_format flba_idx data) 16) 0xFF in
  let block_size := if (9 <=? flba_data) && (flba_data <? 32) then Z.shiftl 1 flba_data else 0 in
  mkNvmeNamespace id (ns_field "ncap" data) block_size.

(** [char::is_whitespace] on the characters a byte can be cast to. *)
Definition is_whitespace (c : Z) : bool :=
  ((9 <=? c) && (c <=? 13)) || (c =? 32) || (c =? 133) || (c =? 160).

Fixpoint drop_while (f : Z → bool) (l : list Z) : list Z :=
  match l with
  | [] => []
  | x :: l' => if f x then drop_while f l' else l
  end.

Fixpoint take_while (f : Z → bool) (l : list Z) : list Z :=
  match l with
  | [] => []
  | x :: l => if f x then x :: take_while f l else []
  end.

(** [str::trim]; a string is the list of its characters. *)
Definition trim (l : list Z) : list Z :=
  rev (drop_while is_whitespace (rev (drop_while is_whitespace l))).

(** The bytes of a text field up to the first zero, trimmed. *)
Definition text_field (bs : list Z) : list Z := trim (take_while (λ b, negb (b =? 0)) bs).

(** Four-byte integers of a byte string. *)
Fixpoint u32s (n : nat) (bs : list Z) : list Z :=
  match n with
  | O => []
  | S n => le_val (take 4 bs) :: u32s n (drop 4 bs)
  end.

(** ** The device *)

Record NvmeStats := mkNvmeStats {
  completions : Z;
  submissions : Z;
}.

Record NvmeDevice (A : Type) := mkNvmeDevice {
  pci_addr : string;
  addr : Z;
  dev_len : Z;
  dstrd : Z;
  admin_sq : SubmissionQueue;
  admin_cq : CompletionQueue;
  io_sq : SubmissionQueue;
  io_cq : CompletionQueue;
  buffer : Dma;
  prp_list : Dma;
  namespaces : gmap Z NvmeNamespace;
  stats : NvmeStats;
  q_id : Z;
  allocator : A;
}.
Arguments mkNvmeDevice {A}.
Arguments pci_addr {A}. Arguments addr {A}. Arguments dev_len {A}. Arguments dstrd {A}.
Arguments admin_sq {A}. Arguments admin_cq {A}. Arguments io_sq {A}. Arguments io_cq {A}.
Arguments buffer {A}. Arguments prp_list {A}. Arguments namespaces {A}. Arguments stats {A}.
Arguments q_id {A}. Arguments allocator {A}.

(** The request sizes of the two buffers of the device. *)
Definition BUFFER_SIZE : Z := PAGESIZE_4KIB.
Definition PRP_LIST_SIZE : Z := PAGESIZE_4KIB.

Module NvmeDevice.

Section setters.
Context {A : Type}.
Implicit Types d : NvmeDevice A.

Definition set_admin_sq q d := mkNvmeDevice (pci_addr d) (addr d) (dev_len d) (dstrd d) q
  (admin_cq d) (io_sq d) (io_cq d) (buffer d) (prp_list d) (namespaces d) (stats d) (q_id d) (allocator d).
Definition set_admin_cq q d := mkNvmeDevice (pci_addr d) (addr d) (dev_len d) (dstrd d) (admin_sq d)
  q (io_sq d) (io_cq d) (buffer d) (prp_list d) (namespaces d) (stats d) (q_id d) (allocator d).
Definition set_io_sq q d := mkNvmeDevice (pci_addr d) (addr d) (dev_len d) (dstrd d) (admin_sq d)
  (admin_cq d) q (io_cq d) (buffer d) (prp_list d) (namespaces d) (stats d) (q_id d) (allocator d).
Definition set_io_cq q d := mkNvmeDevice (pci_addr d) (addr d) (dev_len d) (dstrd d) (admin_sq d)
  (admin_cq d) (io_sq d) q (buffer d) (prp_list d) (namespaces d) (stats d) (q_id d) (allocator d).
Definition set_namespaces n d := mkNvmeDevice (pci_addr d) (addr d) (dev_len d) (dstrd d) (admin_sq d)
  (admin_cq d) (io_sq d) (io_cq d) (buffer d) (prp_list d) n (stats d) (q_id d) (allocator d).
Definition set_stats s d := mkNvmeDevice (pci_addr d) (addr d) (dev_len d) (dstrd d) (admin_sq d)
  (admin_cq d) (io_sq d) (io_cq d) (buffer d) (prp_list d) (namespaces d) s (q_id d) (allocator d).
Definition set_q_id q d := mkNvmeDevice (pci_addr d) (addr d) (dev_len d) (dstrd d) (admin_sq d)
  (admin_cq d) (io_sq d) (io_cq d) (buffer d) (prp_list d) (namespaces d) (stats d) q (allocator d).
Definition set_allocator (a : A) d : NvmeDevice A := mkNvmeDevice (pci_addr d) (addr d) (dev_len d) (dstrd d) (admin_sq d)
  (admin_cq d) (io_sq d) (io_cq d) (buffer d) (prp_list d) (namespaces d) (stats d) (q_id d) a.
Definition set_io_head h d := set_io_sq (SubmissionQueue.set_head h (io_sq d)) d.

End setters.

Section registers.
Context {A E : Type} `{BLD : Build} `{HW : Hardware E}.

(** [assert!(reg as usize <= self.len - n, "memory access out of bounds")]. *)
Definition check_reg (reg n : Z) : M E (NvmeDevice A) unit :=
  self ← get;
  l ← ck64 (dev_len self - n);
  assert (reg <=? l).

Definition set_reg32 (reg value : Z) : M E (NvmeDevice A) unit :=
  _ ← check_reg reg 4;
  self ← get;
  p ← ck64 (addr self + reg);
  write_volatile 4 p value.

Definition get_reg32 (reg : Z) : M E (NvmeDevice A) Z :=
  _ ← check_reg reg 4;
  self ← get;
  p ← ck64 (addr self + reg);
  read_volatile 4 p.

Definition set_reg64 (reg value : Z) : M E (NvmeDevice A) unit :=
  _ ← check_reg reg 8;
  self ← get;
  p ← ck64 (addr self + reg);
  write_volatile 8 p value.

Definition get_reg64 (reg : Z) : M E (NvmeDevice A) Z :=
  _ ← check_reg reg 8;
  self ← get;
  p ← ck64 (addr self + reg);
  read_volatile 8 p.

(** The offset [(4 << dstrd) * (2 * qid)] and its successor are [u16]. *)
Definition write_reg_idx (reg : NvmeArrayRegs) (qid val : Z) : M E (NvmeDevice A) unit :=
  self ← get;
  a ← ck64 (addr self + 0x1000);
  stride ← shl 16 4 (dstrd self);
  i ← ck16 (2 * qid);
  i ← (match reg with SQyTDBL => mret i | CQyHDBL => ck16 (i + 1) end);
  o ← ck16 (stride * i);
  p ← ck64 (a + o);
  write_volatile 4 p val.

End registers.

Section admin.
Context {A E : Type} `{BLD : Build} `{FUEL : Fuel} `{HW : Hardware E}.

Definition submit_and_complete_admin (cmd_init : Z → Z → M E (NvmeDevice A) NvmeCommand) :
    M E (NvmeDevice A) NvmeCompletion :=
  self ← get;
  let cid := sq_tail (admin_sq self) in
  cmd ← cmd_init (as_u16 cid) (phys (buffer self));
  tail ← zoom admin_sq set_admin_sq (SubmissionQueue.submit cmd);
  _ ← write_reg_idx SQyTDBL 0 (as_u32 tail);
  r ← zoom admin_cq set_admin_cq CompletionQueue.complete_spin;
  let '(head, entry, _) := r in
  _ ← write_reg_idx CQyHDBL 0 (as_u32 head);
  let status := Z.shiftr (cpl_status entry) 1 in
  if negb (status =? 0) then throw (Vroom "Requesting i/o completion queue failed")
  else mret entry.

(** Spin until bit 0 of CSTS equals [ready]. *)
Definition wait_csts (ready : bool) : M E (NvmeDevice A) unit :=
  loop spin_fuel (λ _ : unit,
    csts ← get_reg32 (reg32 CSTS);
    if Bool.eqb (Z.land csts 1 =? 1) ready then mret (Break tt) else mret (Continue tt)) tt.

End admin.

Section init.
Context {A E : Type} `{BLD : Build} `{FUEL : Fuel} `{HW : Hardware E} `{MAP : Mapping A E}.

(** [init] after the construction of the structure, in the order of the code:
    the PRP list, the reset, the admin queues, the start, the I/O queues. *)
Definition fill_prp_list : M E (NvmeDevice A) unit :=
  for_each (zrange 1 512) (λ i,
    dev ← get;
    o ← ck64 (i * 4096);
    p ← ck64 (phys (buffer dev) + o);
    _ ← index (i - 1) 512;
    store (virt (prp_list dev) + 8 * (i - 1)) (le_bytes 8 p)).

(** The values printed are read, too. *)
Definition disable_controller : M E (NvmeDevice A) unit :=
  cap ← get_reg64 (reg64 CAP);
  _ ← ck16 (as_u16 (Z.land cap 0xFFFF) + 1);
  _ ← get_reg64 (reg64 CAP);
  _ ← get_reg32 (reg32 VS);
  _ ← get_reg32 (reg32 CC);
  ctrl_config ← get_reg32 (reg32 CC);
  _ ← set_reg32 (reg32 CC) (Z.land ctrl_config 0xFFFFFFFE);
  wait_csts false.

Definition admin_queue_attributes : Z :=
  Z.lor (wrap 32 (Z.shiftl (QUEUE_LENGTH - 1) 16)) (QUEUE_LENGTH - 1).

Definition entry_sizes : Z := Z.lor (Z.shiftl 4 20) (Z.shiftl 6 16).

Definition configure_controller : M E (NvmeDevice A) unit :=
  dev ← get;
  _ ← set_reg64 (reg64 ASQ) (SubmissionQueue.get_addr (admin_sq dev));
  _ ← set_reg64 (reg64 ACQ) (CompletionQueue.get_addr (admin_cq dev));
  _ ← set_reg32 (reg32 AQA) admin_queue_attributes;
  cc ← get_reg32 (reg32 CC);
  set_reg32 (reg32 CC) (Z.lor (Z.land cc 0xFF00000F) entry_sizes).

Definition enable_controller : M E (NvmeDevice A) unit :=
  ctrl_config ← get_reg32 (reg32 CC);
  _ ← set_reg32 (reg32 CC) (Z.lor ctrl_config 1);
  wait_csts true.

Definition create_device_queues : M E (NvmeDevice A) unit :=
  dev ← get;
  let q := q_id dev in
  let a := CompletionQueue.get_addr (io_cq dev) in
  _ ← submit_and_complete_admin (λ c_id _,
        mret (NvmeCommand.create_io_completion_queue c_id q a (as_u16 (QUEUE_LENGTH - 1))));
  let a := SubmissionQueue.get_addr (io_sq dev) in
  _ ← submit_and_complete_admin (λ c_id _,
        mret (NvmeCommand.create_io_submission_queue c_id q a (as_u16 (QUEUE_LENGTH - 1)) q));
  dev ← get;
  q ← ck16 (q_id dev + 1);
  modify (set_q_id q).

Definition configure : M E (NvmeDevice A) unit :=
  _ ← fill_prp_list;
  _ ← disable_controller;
  _ ← configure_controller;
  _ ← enable_controller;
  create_device_queues.

Definition init {S} (pci : string) (alloc : A) : M E S (NvmeDevice A) :=
  r ← map_resource alloc;
  let '(a, l) := r in
  buffer ← allocate alloc BUFFER_SIZE;
  prp_list ← allocate alloc PRP_LIST_SIZE;
  p ← ck64 (a + reg64 CAP);
  cap ← read_volatile 8 p;
  let dstrd := as_u16 (Z.land (Z.shiftr cap 32) 15) in
  admin_sq ← SubmissionQueue.new alloc QUEUE_LENGTH 0;
  admin_cq ← CompletionQueue.new alloc QUEUE_LENGTH 0;
  io_sq ← SubmissionQueue.new alloc QUEUE_LENGTH 0;
  io_cq ← CompletionQueue.new alloc QUEUE_LENGTH 0;
  dev ← with_local (mkNvmeDevice pci a l dstrd admin_sq admin_cq io_sq io_cq buffer prp_list
                      ∅ (mkNvmeStats 0 0) 1 alloc) configure;
  mret dev.2.

(** The doorbell offset is computed in [usize] here. *)
Definition create_io_queue_pair (len : Z) : M E (NvmeDevice A) NvmeQueuePair :=
  self ← get;
  let q := q_id self in
  stride ← shl 64 4 (dstrd self);
  i ← ck16 (2 * q);
  i ← ck16 (i + 1);
  o ← ck64 (stride * i);
  offset ← ck64 (0x1000 + o);
  l ← ck64 (dev_len self - 4);
  _ ← assert (offset <=? l);
  dbl ← ck64 (addr self + offset);
  comp_queue ← CompletionQueue.new (allocator self) len dbl;
  _ ← submit_and_complete_admin (λ c_id _,
        l ← ck64 (len - 1);
        mret (NvmeCommand.create_io_completion_queue c_id q
          (CompletionQueue.get_addr comp_queue) (as_u16 l)));
  a ← ck64 (addr self + 0x1000);
  stride ← shl 64 4 (dstrd self);
  i ← ck16 (2 * q);
  o ← ck64 (stride * i);
  dbl ← ck64 (a + o);
  sub_queue ← SubmissionQueue.new (allocator self) len dbl;
  _ ← submit_and_complete_admin (λ c_id _,
        l ← ck64 (len - 1);
        mret (NvmeCommand.create_io_submission_queue c_id q
          (SubmissionQueue.get_addr sub_queue) (as_u16 l) q));
  self ← get;
  q' ← ck16 (q_id self + 1);
  _ ← modify (set_q_id q');
  mret (mkNvmeQueuePair q sub_queue comp_queue).

Definition delete_io_queue_pair (qpair : NvmeQueuePair) : M E (NvmeDevice A) unit :=
  _ ← submit_and_complete_admin (λ c_id _,
        mret (NvmeCommand.delete_io_submission_queue c_id (qp_id qpair)));
  _ ← submit_and_complete_admin (λ c_id _,
        mret (NvmeCommand.delete_io_completion_queue c_id (qp_id qpair)));
  self ← get;
  _ ← deallocate (allocator self) (sq_commands (sub_queue qpair));
  _ ← deallocate (allocator self) (cq_commands (comp_queue qpair));
  mret tt.

End init.

Section identify.
Context {A E : Type} `{BLD : Build} `{FUEL : Fuel} `{HW : Hardware E}.

(** [for &b in &data[a..b]] over the device buffer. *)
Definition buffer_text (a b : Z) : M E (NvmeDevice A) (list Z) :=
  self ← get;
  s ← Dma.index_range (buffer self) a b;
  load (ptr s) (Z.to_nat (len s)).

(** Model, serial number and firmware revision. *)
Definition identify_controller : M E (NvmeDevice A) (list Z * list Z * list Z) :=
  _ ← submit_and_complete_admin (λ c_id a, mret (NvmeCommand.identify_controller c_id a));
  serial ← buffer_text 4 24;
  model ← buffer_text 24 64;
  firmware ← buffer_text 64 72;
  mret (text_field model, text_field serial, text_field firmware).

(** The line it prints goes to standard output, which is not modelled. *)
Definition identify_controller_print : M E (NvmeDevice A) unit :=
  _ ← identify_controller;
  mret tt.

Definition identify_namespace_list (base : Z) : M E (NvmeDevice A) (list Z) :=
  _ ← ignore (submit_and_complete_admin (λ c_id a,
        mret (NvmeCommand.identify_namespace_list c_id a base)));
  self ← get;
  data ← load (virt (buffer self)) (4 * 1024);
  mret (take_while (λ id, negb (id =? 0)) (u32s 1024 data)).

Definition identify_namespace (id : Z) : M E (NvmeDevice A) NvmeNamespace :=
  _ ← ignore (submit_and_complete_admin (λ c_id a,
        mret (NvmeCommand.identify_namespace c_id a id)));
  self ← get;
  data ← load (virt (buffer self)) (layout_size IdentifyNamespaceData.*2);
  let namespace := parse_namespace id data in
  _ ← modify (λ d, set_namespaces (<[id := namespace]> (namespaces d)) d);
  mret namespace.

Definition format_namespace (ns_id : option Z) : M E (NvmeDevice A) unit :=
  self ← get;
  ns_id ← (match ns_id with
           | Some ns_id =>
             _ ← assert (bool_decide (is_Some (namespaces self !! ns_id)));
             mret ns_id
           | None => mret 0xFFFFFFFF
           end);
  ignore (submit_and_complete_admin (λ c_id _, mret (NvmeCommand.format_nvm c_id ns_id))).

Definition set_page_size `{SetPageSize A} (page_size : Pagesize.Pagesize) : M E (NvmeDevice A) unit :=
  modify (λ d, set_allocator (Mapping.set_page_size page_size (allocator d)) d).

End identify.

(** [impl Mapping for NvmeDevice]. *)
#[global] Instance NvmeDevice_mapping {A E} `{MAP : Mapping A E} : Mapping (NvmeDevice A) E := {|
  allocate S self size := allocate (allocator self) size;
  deallocate S self dma := deallocate (allocator self) dma;
  map_resource S self := map_resource (allocator self);
|}.

End NvmeDevice.

(** ** Registers and doorbells *)

(** A device whose registers are mapped at machine addresses. *)
Definition dev_ok {A} (d : NvmeDevice A) : Prop :=
  0 ≤ addr d ∧ 8 ≤ dev_len d ∧ addr d + dev_len d < 2 ^ 64 ∧
  addr d + 2 ^ 17 < 2 ^ 64 ∧ 0 ≤ dstrd d < 16.

(** The doorbells of NVMe: submission tail ([k = 0]) and completion head
    ([k = 1]) of queue [qid]. *)
Definition doorbell_offset (stride qid k : Z) : Z := (2 * qid + k) * 2 ^ (2 + stride).

Definition doorbell_at {A} (d : NvmeDevice A) (qid k : Z) : Z :=
  addr d + 0x1000 + doorbell_offset (dstrd d) qid k.

Definition doorbell_kind (reg : NvmeArrayRegs) : Z :=
  match reg with SQyTDBL => 0 | CQyHDBL => 1 end.

Section registers.
Context {A E : Type} `{BLD : Build} `{HW : Hardware E}.
Implicit Types (d : NvmeDevice A) (w : World E).

Lemma check_reg_run reg n d w :
  n ≤ 8 → 0 ≤ n → dev_ok d → 0 ≤ reg →
  NvmeDevice.check_reg reg n (d, w) =
  (if reg + n <=? dev_len d then Ret tt else Panicked AssertFailed, (d, w)).
Proof.
  intros ? ? (? & ? & ? & ? & ?) ?. unfold NvmeDevice.check_reg, get, mbind, M_bind, ck64. simpl.
  rewrite ck_fits by lia. unfold assert.
  destruct (Z.leb_spec reg (dev_len d - n)), (Z.leb_spec (reg + n) (dev_len d)); done || lia.
Qed.

(** The four accessors: an access inside the mapping or a failed assertion. *)
Lemma reg_access_run {B} reg n (acc : Z → M E (NvmeDevice A) B) d w :
  n ≤ 8 → 0 ≤ n → dev_ok d → 0 ≤ reg →
  (_ ← NvmeDevice.check_reg reg n; self ← get; p ← ck64 (addr self + reg); acc p) (d, w) =
  if reg + n <=? dev_len d then acc (addr d + reg) (d, w) else (Panicked AssertFailed, (d, w)).
Proof.
  intros Hn Hn0 Hd Hr. unfold mbind at 1, M_bind. rewrite check_reg_run by done.
  destruct (Z.leb_spec (reg + n) (dev_len d)); [|done]. destruct Hd as (? & ? & ? & ? & ?).
  unfold get, mbind, M_bind, ck64. simpl. by rewrite ck_fits by lia.
Qed.

Lemma write_reg_idx_run reg qid v d w :
  dev_ok d → 0 ≤ qid → doorbell_offset (dstrd d) qid (doorbell_kind reg) < 2 ^ 16 →
  dstrd d < 14 →
  NvmeDevice.write_reg_idx reg qid v (d, w) =
  write_volatile 4 (doorbell_at d qid (doorbell_kind reg)) v (d, w).
Proof.
  intros (? & ? & ? & ? & ?) Hq Ho Hs. unfold doorbell_offset in *.
  assert (4 ≤ 2 ^ (2 + dstrd d) < 2 ^ 16) as Hp.
  { split; [change 4 with (2 ^ 2); apply Z.pow_le_mono_r; lia|apply Z.pow_lt_mono_r; lia]. }
  assert (0 ≤ doorbell_kind reg ≤ 1) as Hk by (destruct reg; simpl; lia).
  unfold NvmeDevice.write_reg_idx, get, mbind, M_bind, ck64, ck16, shl. simpl.
  rewrite ck_fits by lia. rewrite (proj2 (Z.ltb_lt (dstrd d) 16)) by lia.
  rewrite Z.shiftl_mul_pow2 by lia. change 4 with (2 ^ 2) at 1. rewrite <-Z.pow_add_r by lia.
  rewrite wrap_small by lia. cbn [fst snd mret M_ret].
  rewrite ck_fits by nia.
  assert ((match reg with SQyTDBL => mret (2 * qid) | CQyHDBL => ck 16 (2 * qid + 1) end) (d, w) =
    (Ret (2 * qid + doorbell_kind reg), (d, w))) as ->.
  { destruct reg; simpl in *; [by rewrite Z.add_0_r|]. apply ck_fits. nia. }
  rewrite ck_fits by nia. rewrite ck_fits by nia. unfold doorbell_at, doorbell_offset.
  f_equal. lia.
Qed.

Lemma doorbell_offset_bound qid k s :
  0 ≤ s < 14 → 0 ≤ 2 * qid + k ≤ 1 → 0 ≤ doorbell_offset s qid k < 2 ^ 16.
Proof.
  intros. unfold doorbell_offset.
  assert (0 < 2 ^ (2 + s) < 2 ^ 16) by (split; [lia|apply Z.pow_lt_mono_r; lia]). nia.
Qed.

Lemma wp_write_reg_idx d reg qid v d' w (Q : Res unit → NvmeDevice A → World E → Prop) :
  dev_ok d → dstrd d < 14 →
  addr d' = addr d → dev_len d' = dev_len d → dstrd d' = dstrd d → 0 ≤ qid →
  doorbell_offset (dstrd d) qid (doorbell_kind reg) < 2 ^ 16 →
  Q (Ret tt) d' (written 4 (doorbell_at d qid (doorbell_kind reg)) v (tick w)) →
  wp (NvmeDevice.write_reg_idx reg qid v) Q d' w.
Proof.
  intros Hd Hs14 Ha Hl Hs Hq Ho HQ. unfold wp.
  rewrite write_reg_idx_run; [|unfold dev_ok; rewrite Ha, Hl, Hs; exact Hd|done|by rewrite Hs|lia].
  unfold doorbell_at. rewrite Ha, Hs. exact HQ.
Qed.

End registers.

(** Register accesses stay inside the mapping.  [set_reg32], [get_reg32],
    [set_reg64] and [get_reg64] make exactly one volatile access, of the width
    in their name, at [addr + reg], when all its bytes belong to the [len]
    bytes mapped, and otherwise fail their assertion without any access.  Every
    register the driver names lies in the first 4096 bytes. *)
Lemma register_access `{BLD : Build} {A E} `{HW : Hardware E}
    (d : NvmeDevice A) (reg v : Z) (w : World E) :
  dev_ok d → 0 ≤ reg →
  (NvmeDevice.set_reg32 reg v (d, w) =
     if reg + 4 <=? dev_len d then write_volatile 4 (addr d + reg) v (d, w)
     else (Panicked AssertFailed, (d, w))) ∧
  (NvmeDevice.get_reg32 reg (d, w) =
     if reg + 4 <=? dev_len d then read_volatile 4 (addr d + reg) (d, w)
     else (Panicked AssertFailed, (d, w))) ∧
  (NvmeDevice.set_reg64 reg v (d, w) =
     if reg + 8 <=? dev_len d then write_volatile 8 (addr d + reg) v (d, w)
     else (Panicked AssertFailed, (d, w))) ∧
  (NvmeDevice.get_reg64 reg (d, w) =
     if reg + 8 <=? dev_len d then read_volatile 8 (addr d + reg) (d, w)
     else (Panicked AssertFailed, (d, w))) ∧
  (∀ r, 0 ≤ reg32 r ∧ reg32 r + 4 ≤ 4096) ∧ (∀ r, 0 ≤ reg64 r ∧ reg64 r + 8 ≤ 4096).
Proof.
  intros Hd Hr.
  split; [by apply (reg_access_run reg 4 (λ p, write_volatile 4 p v))|].
  split; [by apply (reg_access_run reg 4 (read_volatile 4))|].
  split; [by apply (reg_access_run reg 8 (λ p, write_volatile 8 p v))|].
  split; [by apply (reg_access_run reg 8 (read_volatile 8))|].
  split; intros []; simpl; lia.
Qed.

(** A device with queues of four entries, mapped at 65536. *)
Definition demo_device (stride : Z) : NvmeDevice unit :=
  mkNvmeDevice "0000:01:00.0" 65536 16384 stride
    (mkSubmissionQueue (mkDma 0x1000000 0x1000000 0x100000) 0 0 4 0)
    (mkCompletionQueue (mkDma 0x1100000 0x1100000 0x40000) 0 true 4 0)
    (mkSubmissionQueue (mkDma 0x1200000 0x1200000 0x100000) 0 0 4 0)
    (mkCompletionQueue (mkDma 0x1300000 0x1300000 0x40000) 0 true 4 0)
    (mkDma 0x2000000 0x2000000 4096) (mkDma 0x2200000 0x2200000 4096)
    ∅ (mkNvmeStats 0 0) 1 tt.

Lemma demo_device_ok stride : 0 ≤ stride < 16 → dev_ok (demo_device stride).
Proof. intros. unfold dev_ok. simpl. lia. Qed.

(** C37: doorbells.  As long as the 16-bit arithmetic of [write_reg_idx] does
    not overflow, the doorbell written is the one NVMe assigns to the queue,
    [0x1000 + (2 qid + k) * (4 << dstrd)].  For a stride of 13 or more it does:
    a release build then writes the tails of the I/O queue of the device to the
    doorbell of the admin queue, in silence for strides 14 and 15. *)
Theorem doorbell_addresses `{BLD : Build} {A E} `{HW : Hardware E}
    (d : NvmeDevice A) (reg : NvmeArrayRegs) (qid v : Z) (w : World E) :
  dev_ok d → 0 ≤ qid →
  let k := doorbell_kind reg in
  (dstrd d < 14 → doorbell_offset (dstrd d) qid k < 2 ^ 16 →
     NvmeDevice.write_reg_idx reg qid v (d, w) =
     write_volatile 4 (addr d + 0x1000 + (2 * qid + k) * 2 ^ (2 + dstrd d)) v (d, w)) ∧
  (13 ≤ dstrd d →
     NvmeDevice.write_reg_idx SQyTDBL 1 v (d, w) =
     if overflow_checks && (dstrd d =? 13) then (Panicked Overflow, (d, w))
     else write_volatile 4 (doorbell_at d 0 0) v (d, w)).
Proof.
  intros Hd Hq k. split.
  - intros Hs Ho. by rewrite write_reg_idx_run by (done || lia).
  - destruct Hd as (? & ? & ? & ? & ?). intros Hs.
    unfold NvmeDevice.write_reg_idx, get, mbind, M_bind, ck64, ck16, doorbell_at, doorbell_offset.
    cbn [fst snd]. rewrite ck_fits by lia.
    assert (dstrd d = 13 ∨ dstrd d = 14 ∨ dstrd d = 15) as [->|[->| ->]] by lia;
      cbn; unfold ck, overflow_checks; cbn; destruct BLD; cbn.
    all: repeat (match goal with
         | |- context [fits 16 ?x] => let b := eval vm_compute in (fits 16 x) in change (fits 16 x) with b
         | |- context [wrap 16 ?x] => let b := eval vm_compute in (wrap 16 x) in change (wrap 16 x) with b
         end; cbn).
    all: try done.
    all: match goal with
         | |- context [fits 64 ?x] => rewrite (fits_true 64 x) by lia
         end; cbn; do 2 f_equal; lia.
Qed.

Lemma doorbell_addresses_witness :
  NvmeDevice.write_reg_idx (BLD:=false) (HW:=idle_hw) SQyTDBL 1 5
    (demo_device 14, initial tt (λ _, 0)) =
  write_volatile (HW:=idle_hw) 4 69632 5 (demo_device 14, initial tt (λ _, 0)).
Proof.
  destruct (doorbell_addresses (BLD:=false) (HW:=idle_hw) (demo_device 14) SQyTDBL 1 5
    (initial tt (λ _, 0)) (demo_device_ok 14 ltac:(lia)) ltac:(lia)) as [_ H].
  rewrite H by (simpl; lia). reflexivity.
Defined.

(** ** The admin queue *)

(** The device when [k] admin commands have been submitted and completed;
    [d] is the device as [init] builds it. *)
Definition admin_pos {A} (d : NvmeDevice A) (k : Z) : NvmeDevice A :=
  NvmeDevice.set_admin_cq (cq_pos (admin_cq d) k)
    (NvmeDevice.set_admin_sq
       (SubmissionQueue.set_tail (k `mod` sq_len (admin_sq d)) (admin_sq d)) d).

(** A ring pair on which a service can be run: lengths in range, the slots of
    the submission queue away from the completion queue. *)
Definition rings_ok (q : SubmissionQueue) (c : CompletionQueue) : Prop :=
  0 < sq_len q ≤ QUEUE_LENGTH ∧ 0 ≤ sq_head q < sq_len q ∧ 0 < cq_len c ≤ QUEUE_LENGTH ∧
  (∀ i, 0 ≤ i < sq_len q → cq_apart c (sq_slot q i) 64).

(** What the driver does for the [k]-th admin command. *)
Definition admin_events {A} (d : NvmeDevice A) (k : Z) (cmd : NvmeCommand) : list Event :=
  [EvStore (sq_slot (admin_sq d) (k `mod` sq_len (admin_sq d))) (NvmeCommand.encode cmd);
   EvWrite 4 (doorbell_at d 0 0) ((k + 1) `mod` sq_len (admin_sq d));
   EvWrite 4 (doorbell_at d 0 1) ((k + 1) `mod` cq_len (admin_cq d))].

(** The value of an admin command: the entry, or the one error for all. *)
Definition admin_result (c : NvmeCompletion) : Res NvmeCompletion :=
  if sc_field c =? 0 then Ret c
  else Err (Vroom "Requesting i/o completion queue failed").

(** The id and the buffer address the command is built with. *)
Definition admin_cid {A} (d : NvmeDevice A) (k : Z) : Z := as_u16 (k `mod` sq_len (admin_sq d)).

(** A device whose admin queue is served by the controller, with enough fuel
    for one completion. *)
Class AdminService {A E} `{FUEL : Fuel} `{HW : Hardware E} (d : NvmeDevice A)
    (posted : Z → NvmeCompletion) (N : nat) (serves : Z → Z → Z → World E → Prop) : Prop := {
  admin_service : CqService (admin_cq d) posted (doorbell_at d 0 0) (sq_len (admin_sq d)) N serves;
  admin_dev_ok : dev_ok d;
  admin_stride : dstrd d < 14;
  admin_rings : rings_ok (admin_sq d) (admin_cq d);
  admin_fuel : (0 < N < spin_fuel)%nat;
}.

(** The same service for a device that knows other namespaces, or has another next
    id. *)
Lemma admin_service_namespaces {A E} `{FUEL : Fuel} `{HW : Hardware E} (d : NvmeDevice A) m posted N serves :
  AdminService d posted N serves → AdminService (NvmeDevice.set_namespaces m d) posted N serves.
Proof. intros [? ? ? ? ?]. by split. Qed.

Lemma admin_service_q_id {A E} `{FUEL : Fuel} `{HW : Hardware E} (d : NvmeDevice A) q posted N serves :
  AdminService d posted N serves → AdminService (NvmeDevice.set_q_id q d) posted N serves.
Proof. intros [? ? ? ? ?]. by split. Qed.

Section admin.
Context {A E : Type} `{BLD : Build} `{FUEL : Fuel} `{HW : Hardware E}.
Context (d : NvmeDevice A) (posted : Z → NvmeCompletion) (N : nat).
Context (serves : Z → Z → Z → World E → Prop) `{AS : !AdminService d posted N serves}.
Implicit Types (w : World E) (k : Z).

Let SV : CqService (admin_cq d) posted (doorbell_at d 0 0) (sq_len (admin_sq d)) N serves :=
  admin_service.
Let Hd : dev_ok d := admin_dev_ok.
#[local] Existing Instance SV.

Lemma doorbells_distinct : doorbell_at d 0 1 ≠ doorbell_at d 0 0.
Proof using AS.
  unfold doorbell_at, doorbell_offset. destruct Hd as (? & ? & ? & ? & ?).
  assert (0 < 2 ^ (2 + dstrd d)) by lia. lia.
Qed.

Lemma wp_admin k cmd_init cmd w (Q : Res NvmeCompletion → NvmeDevice A → World E → Prop) :
  (∀ w, cmd_init (admin_cid d k) (phys (buffer d)) (admin_pos d k, w) = (Ret cmd, (admin_pos d k, w))) →
  serves k k k w →
  (∀ w', serves (k + 1) (k + 1) (k + 1) w' → trace w' = trace w ++ admin_events d k cmd →
     Q (admin_result (posted k)) (admin_pos d (k + 1)) w') →
  wp (NvmeDevice.submit_and_complete_admin cmd_init) Q (admin_pos d k) w.
Proof.
  intros Hinit Hserves HQ. destruct admin_rings as (Hsl & Hsh & Hcl & Hap).
  pose proof Hsl as Hsl'. pose proof Hcl as Hcl'. rewrite QUEUE_LENGTH_value in Hsl', Hcl'.
  pose proof Hd as (? & ? & ? & ? & ?). pose proof admin_stride. pose proof admin_fuel as [HN0 HN].
  destruct (service_view _ _ _ _ Hserves) as (_ & (? & ?) & _).
  pose proof (Z.mod_pos_bound k (sq_len (admin_sq d)) ltac:(lia)) as Hk.
  pose proof (Z.mod_pos_bound (k + 1) (sq_len (admin_sq d)) ltac:(lia)).
  pose proof (Z.mod_pos_bound (k + 1) (cq_len (admin_cq d)) ltac:(lia)).
  destruct (service_submit (admin_cq d) posted (doorbell_at d 0 0) (sq_len (admin_sq d)) N serves
    k w (sq_slot (admin_sq d) (k `mod` sq_len (admin_sq d))) (NvmeCommand.encode cmd) Hserves)
    as (P & HP); [lia|rewrite encode_length; auto|].
  pose proof (service_producer (admin_cq d) posted _ _ N serves (k + 1)) as Hprod.
  pose proof (service_cqlive (admin_cq d) posted _ _ N serves (k + 1)) as Hlive.
  unfold NvmeDevice.submit_and_complete_admin. do 3 wp_step.
  unfold wp at 1. change (sq_tail (admin_sq (admin_pos d k))) with (k `mod` sq_len (admin_sq d)).
  change (phys (buffer (admin_pos d k))) with (phys (buffer d)).
  fold (admin_cid d k). rewrite Hinit. cbn [fst snd then_]. do 2 wp_step.
  apply wp_submit; [done..|]. cbn [then_ admin_sq admin_pos NvmeDevice.set_admin_sq
    NvmeDevice.set_admin_cq SubmissionQueue.set_tail sq_tail sq_len].
  rewrite mod_succ_mod by lia. wp_step.
  apply (wp_write_reg_idx d); try (apply doorbell_offset_bound; simpl; lia); [done..|].
  unfold as_u32. rewrite wrap_small by lia. cbn [then_ doorbell_kind]. do 2 wp_step.
  change (admin_cq _) with (cq_pos (admin_cq d) k).
  eapply (wp_complete_spin (admin_cq d) posted (serves (k + 1)) Hcl (k + 1) N k P);
    [done|exact HP|lia|lia|exact HN0| |].
  { destruct (service_view _ _ _ _ HP) as (? & (? & ?) & _). nia. }
  intros P' w' HkP' Hw' Ht. cbn [then_]. unfold cq_result. cbv iota beta. wp_step.
  apply (wp_write_reg_idx d CQyHDBL); try (apply doorbell_offset_bound; simpl; lia); [done..|].
  unfold as_u32. rewrite wrap_small by lia. cbn [then_ doorbell_kind].
  apply (service_taken (admin_cq d) posted (doorbell_at d 0 0) (sq_len (admin_sq d)) N serves) in Hw'; [|done..].
  apply (service_idle_tick (admin_cq d) posted (doorbell_at d 0 0) (sq_len (admin_sq d)) N serves) in Hw'; [|done..].
  apply (service_write _ _ _ _ 4 (doorbell_at d 0 1) ((k + 1) `mod` cq_len (admin_cq d))) in Hw';
    [|exact doorbells_distinct].
  apply HQ in Hw'.
  - revert Hw'. unfold admin_result, sc_field.
    destruct (_ =? 0); cbv iota beta delta [negb]; intros; by wp_step.
  - unfold written, stored in Ht |- *. revert Ht. world. intros ->.
    unfold admin_events. by rewrite <-!app_assoc.
Qed.

End admin.

(** C18: an admin command, against any controller that serves the admin queue.
    [submit_and_complete_admin] returns: it stores the command built from the
    slot number (as command id) and the address of the device buffer in the next
    slot, rings the submission doorbell with the new tail, waits for the
    completion of this command, and acknowledges it on the completion doorbell.
    The result is that completion when its status is 0 and an error otherwise,
    and in both cases the queues are ready for the next command. *)
Theorem admin_command `{BLD : Build} `{FUEL : Fuel} {A E} `{HW : Hardware E}
    (d : NvmeDevice A) (posted : Z → NvmeCompletion) (N : nat)
    (serves : Z → Z → Z → World E → Prop) (k : Z) (w : World E)
    (cmd_init : Z → Z → NvmeCommand) :
  AdminService d posted N serves → serves k k k w →
  let cmd := cmd_init (admin_cid d k) (phys (buffer d)) in
  ∃ w', NvmeDevice.submit_and_complete_admin (λ cid a, mret (cmd_init cid a)) (admin_pos d k, w) =
      (if sc_field (posted k) =? 0 then Ret (posted k)
       else Err (Vroom "Requesting i/o completion queue failed"), (admin_pos d (k + 1), w')) ∧
    serves (k + 1) (k + 1) (k + 1) w' ∧
    trace w' = trace w ++
      [EvStore (sq_slot (admin_sq d) (k `mod` sq_len (admin_sq d))) (NvmeCommand.encode cmd);
       EvWrite 4 (doorbell_at d 0 0) ((k + 1) `mod` sq_len (admin_sq d));
       EvWrite 4 (doorbell_at d 0 1) ((k + 1) `mod` cq_len (admin_cq d))].
Proof.
  intros HAS Hserves cmd.
  assert (wp (NvmeDevice.submit_and_complete_admin (λ cid a, mret (cmd_init cid a)))
    (λ r d' w', r = admin_result (posted k) ∧ d' = admin_pos d (k + 1) ∧
       serves (k + 1) (k + 1) (k + 1) w' ∧ trace w' = trace w ++ admin_events d k cmd)
    (admin_pos d k) w) as Hwp by (by apply (wp_admin d posted N serves k _ cmd)).
  apply wp_run in Hwp as (r & d' & w' & Hrun & -> & -> & ? & ?). by exists w'.
Qed.

Definition demo_serving (posted : Z → NvmeCompletion) : Hardware (Z * (Z * Z)) :=
  serving_hw (admin_cq (demo_device 0)) posted (doorbell_at (demo_device 0) 0 0)
    (addr (demo_device 0) + reg32 CC).

Lemma demo_rings_ok : rings_ok (admin_sq (demo_device 0)) (admin_cq (demo_device 0)).
Proof.
  unfold rings_ok. rewrite QUEUE_LENGTH_value. simpl. repeat split; try lia.
  intros i Hi. left. unfold sq_slot. rewrite size_of_command. simpl. lia.
Qed.

Lemma demo_admin_service (posted : Z → NvmeCompletion) :
  (∀ k, 0 ≤ k → NvmeCompletion.wf (posted k)) →
  (∀ k, 0 ≤ k → Z.odd (cpl_status (posted k)) = phase_at 4 k) →
  AdminService (FUEL:=10%nat) (HW:=demo_serving posted) (demo_device 0) posted 1
    (serving (admin_cq (demo_device 0)) posted).
Proof.
  intros. split.
  - apply serving_service; [|done..]. rewrite QUEUE_LENGTH_value. simpl. lia.
  - apply demo_device_ok. lia.
  - simpl. lia.
  - apply demo_rings_ok.
  - unfold spin_fuel. lia.
Qed.

Lemma demo_success_service :
  AdminService (FUEL:=10%nat) (HW:=demo_serving (success 4)) (demo_device 0) (success 4) 1
    (serving (admin_cq (demo_device 0)) (success 4)).
Proof.
  apply demo_admin_service; intros.
  - apply success_wf. rewrite QUEUE_LENGTH_value. lia.
  - apply success_phase.
Qed.

Lemma demo_serving_init posted :
  serving (admin_cq (demo_device 0)) posted 0 0 0 serving_world.
Proof. apply serving_init. rewrite QUEUE_LENGTH_value. simpl. lia. Qed.

Lemma admin_command_witness :
  ∃ w', NvmeDevice.submit_and_complete_admin (BLD:=true) (FUEL:=10%nat) (HW:=demo_serving (success 4))
      (λ cid a, mret (NvmeCommand.identify_controller cid a))
      (admin_pos (demo_device 0) 0, serving_world) =
    (Ret (success 4 0), (admin_pos (demo_device 0) 1, w')).
Proof.
  destruct (admin_command (BLD:=true) (FUEL:=10%nat) (HW:=demo_serving (success 4)) (demo_device 0)
    (success 4) 1 (serving (admin_cq (demo_device 0)) (success 4)) 0 serving_world
    NvmeCommand.identify_controller demo_success_service (demo_serving_init _))
    as (w' & Hrun & _).
  exists w'. exact Hrun.
Defined.
