(* ===== verification/Setup.v ===== *)
(** The admin commands of [src/nvme.rs] on a device that is up: the theorems on the
    queue pairs and on the identification commands. *)

From stdpp Require Import gmap.
From S2P Require Import Prelude Bytes Machine Memory Cmd Mapping Queues Service QueuePair Device.
#[local] Open Scope Z_scope.

(** ** Queue pairs *)

Lemma doorbell_stride s :
  0 ≤ s < 14 → wrap 64 (Z.shiftl 4 s) = 2 ^ (2 + s) ∧ 4 ≤ 2 ^ (2 + s) < 2 ^ 16.
Proof.
  intros. assert (4 ≤ 2 ^ (2 + s) < 2 ^ 16).
  { split; [change 4 with (2 ^ 2); apply Z.pow_le_mono_r; lia|apply Z.pow_lt_mono_r; lia]. }
  split; [|done]. rewrite Z.shiftl_mul_pow2 by lia. change 4 with (2 ^ 2) at 1.
  rewrite <-Z.pow_add_r by lia. apply wrap_small. lia.
Qed.

(** The rings of a pair are regions an allocator has given out. *)
Definition pair_allocated (qp : NvmeQueuePair) : Prop :=
  allocated (sq_commands (sub_queue qp)) ∧ allocated (cq_commands (comp_queue qp)).

Section pairs.
Context {A E : Type} `{BLD : Build} `{FUEL : Fuel} `{HW : Hardware E} `{MAP : Mapping A E}.
Context (d : NvmeDevice A) (posted : Z → NvmeCompletion) (N : nat).
Context (serves : Z → Z → Z → World E → Prop) `{AS : !AdminService d posted N serves}.
Context `{QA : ∀ G, QuietAllocator (allocator d) (serves G G G)}.
Implicit Types (w : World E) (k len : Z).

(** The commands that create the queues of a pair. *)
Definition create_cq_cmd k (cq : CompletionQueue) len : NvmeCommand :=
  NvmeCommand.create_io_completion_queue (admin_cid d k) (q_id d)
    (CompletionQueue.get_addr cq) (len - 1).

Definition create_sq_cmd k (sq : SubmissionQueue) len : NvmeCommand :=
  NvmeCommand.create_io_submission_queue (admin_cid d k) (q_id d)
    (SubmissionQueue.get_addr sq) (len - 1) (q_id d).

(** The queues of the new pair, in the regions the allocator chose. *)
Definition new_sq (dma : Dma) len : SubmissionQueue :=
  mkSubmissionQueue dma 0 0 (Z.min len QUEUE_LENGTH) (doorbell_at d (q_id d) 0).

Definition new_cq (dma : Dma) len : CompletionQueue :=
  mkCompletionQueue dma 0 true (Z.min len QUEUE_LENGTH) (doorbell_at d (q_id d) 1).

(** The outcome of [create_io_queue_pair], by the statuses of the two admin
    commands: the result, the device and the accesses made. *)
Definition pair_created k len (dma_cq dma_sq : Dma) :
    Res NvmeQueuePair * NvmeDevice A * list Event :=
  let ev1 := admin_events d k (create_cq_cmd k (new_cq dma_cq len) len) in
  let ev2 := admin_events d (k + 1) (create_sq_cmd (k + 1) (new_sq dma_sq len) len) in
  let e := Err (Vroom "Requesting i/o completion queue failed") in
  if negb (sc_field (posted k) =? 0) then (e, admin_pos d (k + 1), ev1)
  else if negb (sc_field (posted (k + 1)) =? 0) then (e, admin_pos d (k + 2), ev1 ++ ev2)
  else (Ret (mkNvmeQueuePair (q_id d) (new_sq dma_sq len) (new_cq dma_cq len)),
        NvmeDevice.set_q_id (q_id d + 1) (admin_pos d (k + 2)), ev1 ++ ev2).

(** The number of admin commands of a creation or deletion. *)
Definition commands_run k : Z := if negb (sc_field (posted k) =? 0) then 1 else 2.

Lemma wp_new_pair k len w (Q : Res NvmeQueuePair → NvmeDevice A → World E → Prop) :
  serves k k k w → 0 ≤ q_id d < 2 ^ 15 - 1 → 1 ≤ len ≤ 2 ^ 16 →
  0x1000 + doorbell_offset (dstrd d) (q_id d) 1 + 4 ≤ dev_len d →
  (∀ dma_cq dma_sq w', let n := k + commands_run k in
     allocated dma_cq → allocated dma_sq → serves n n n w' →
     let '(r, d', evs) := pair_created k len dma_cq dma_sq in
     accesses (trace w') = accesses (trace w) ++ evs → Q r d' w') →
  wp (NvmeDevice.create_io_queue_pair len) Q (admin_pos d k) w.
Proof.
  intros Hw Hq Hlen Hdb HQ. pose proof (admin_dev_ok (d:=d)) as (? & ? & ? & ? & ?).
  pose proof (admin_stride (d:=d)).
  pose proof (doorbell_stride (dstrd d) ltac:(lia)) as [Hs Hp].
  unfold doorbell_offset in Hdb.
  unfold NvmeDevice.create_io_queue_pair. do 2 wp_step.
  cbn [q_id dstrd addr dev_len allocator admin_pos NvmeDevice.set_admin_sq NvmeDevice.set_admin_cq].
  do 2 wp_step. rewrite Hs. do 4 wp_step.
  do 6 (wp_step; try nia).
  wp_step. apply wp_assert; [intros _; cbn [then_]|rewrite Z.leb_gt; nia].
  wp_step. wp_step; try nia. wp_step. unfold CompletionQueue.new. wp_step.
  eapply (wp_allocate _ _ _ _ _ _ Hw); [by vm_compute|]. intros dma_cq w1 Hcq Hw1 Ht1. cbn [then_].
  wp_step. wp_step.
  assert (∀ n, addr d + (4096 + 2 ^ (2 + dstrd d) * (2 * q_id d + n)) = doorbell_at d (q_id d) n)
    as Hdb_at by (intros; unfold doorbell_at, doorbell_offset; lia).
  rewrite Hdb_at. fold (new_cq dma_cq len).
  set (cmd1 := create_cq_cmd k (new_cq dma_cq len) len).
  eapply (wp_admin d posted N serves k _ cmd1); [|exact Hw1|].
  { intros w'. unfold mbind, M_bind, ck64. rewrite ck_fits by lia. unfold as_u16.
    by rewrite wrap_small by lia. }
  intros w2 Hw2 Ht2. apply (f_equal accesses) in Ht2. rewrite accesses_app, Ht1 in Ht2.
  unfold admin_result, then_ at 1. specialize (HQ dma_cq). unfold pair_created, commands_run in HQ.
  destruct (sc_field (posted k) =? 0); cbn [negb] in HQ; [|by eapply (HQ dma_cq)].
  do 4 (wp_step; try lia). rewrite Hs. do 6 (wp_step; try nia). wp_step.
  unfold SubmissionQueue.new. wp_step.
  eapply (wp_allocate _ _ _ _ _ _ Hw2); [by vm_compute|]. intros dma_sq w3 Hsq Hw3 Ht3. cbn [then_].
  wp_step. wp_step. specialize (HQ dma_sq).
  assert (addr d + 4096 + 2 ^ (2 + dstrd d) * (2 * q_id d) = doorbell_at d (q_id d) 0)
    as -> by (unfold doorbell_at, doorbell_offset; lia).
  fold (new_sq dma_sq len). set (cmd2 := create_sq_cmd (k + 1) (new_sq dma_sq len) len).
  eapply (wp_admin d posted N serves (k + 1) _ cmd2); [|exact Hw3|].
  { intros w'. unfold mbind, M_bind, ck64. rewrite ck_fits by lia. unfold as_u16.
    by rewrite wrap_small by lia. }
  replace (k + 1 + 1) with (k + 2) by lia. intros w4 Hw4 Ht4.
  apply (f_equal accesses) in Ht4. rewrite accesses_app, Ht3, Ht2, <-app_assoc in Ht4.
  unfold admin_result, then_ at 1.
  destruct (sc_field (posted (k + 1)) =? 0); cbn [negb] in HQ; [|by eapply HQ].
  do 2 wp_step. cbn [q_id admin_pos NvmeDevice.set_admin_sq NvmeDevice.set_admin_cq].
  do 5 (wp_step; try lia). by apply HQ.
Qed.
(** Deletion: the submission queue goes first. *)
Lemma wp_delete_pair k qp w (Q : Res unit → NvmeDevice A → World E → Prop) :
  serves k k k w → pair_allocated qp →
  (∀ w', let n := k + commands_run k in serves n n n w' →
     let ev1 := admin_events d k
       (NvmeCommand.delete_io_submission_queue (admin_cid d k) (qp_id qp)) in
     let ev2 := admin_events d (k + 1)
       (NvmeCommand.delete_io_completion_queue (admin_cid d (k + 1)) (qp_id qp)) in
     let e := Err (Vroom "Requesting i/o completion queue failed") in
     let '(r, d', evs) :=
       if negb (sc_field (posted k) =? 0) then (e, admin_pos d (k + 1), ev1)
       else if negb (sc_field (posted (k + 1)) =? 0) then (e, admin_pos d (k + 2), ev1 ++ ev2)
       else (Ret tt, admin_pos d (k + 2), ev1 ++ ev2) in
     accesses (trace w') = accesses (trace w) ++ evs → Q r d' w') →
  wp (NvmeDevice.delete_io_queue_pair qp) Q (admin_pos d k) w.
Proof.
  intros Hw [Hsq Hcq] HQ. unfold commands_run in HQ. unfold NvmeDevice.delete_io_queue_pair. wp_step.
  eapply (wp_admin d posted N serves k); [done|exact Hw|].
  intros w2 Hw2 Ht2. apply (f_equal accesses) in Ht2. rewrite accesses_app in Ht2.
  unfold admin_result, then_ at 1.
  destruct (sc_field (posted k) =? 0); cbn [negb] in HQ; [|by eapply HQ]. wp_step.
  eapply (wp_admin d posted N serves (k + 1)); [done|exact Hw2|].
  replace (k + 1 + 1) with (k + 2) by lia. intros w4 Hw4 Ht4.
  apply (f_equal accesses) in Ht4. rewrite accesses_app, Ht2, <-app_assoc in Ht4.
  unfold admin_result, then_ at 1.
  destruct (sc_field (posted (k + 1)) =? 0); cbn [negb] in HQ; [|by eapply HQ].
  do 3 wp_step. eapply (wp_deallocate _ _ _ _ _ _ Hw4); [done|]. intros w5 Hw5 Ht5. cbn [then_].
  wp_step. eapply (wp_deallocate _ _ _ _ _ _ Hw5); [done|]. intros w6 Hw6 Ht6. cbn [then_].
  wp_step. apply HQ; [done|]. by rewrite Ht6, Ht5, Ht4.
Qed.

End pairs.

(** C15: [create_io_queue_pair], against any controller that serves the admin
    queue and an allocator that succeeds.  The completion queue is created
    before the submission queue that refers to it, both under the next unused
    queue id, with the length and the physical address of the ring; the pair
    returned has empty rings and the two doorbells NVMe assigns to this id, and
    the next id is used next.  A failed admin command ends the call with its
    error, and the id is not consumed.  When the doorbell is outside the mapping
    the call panics before doing anything. *)
Theorem create_io_queue_pair_spec `{BLD : Build} `{FUEL : Fuel} {A E} `{HW : Hardware E}
    `{MAP : Mapping A E} (d : NvmeDevice A) (posted : Z → NvmeCompletion) (N : nat)
    (serves : Z → Z → Z → World E → Prop) (k len : Z) (w : World E) :
  AdminService d posted N serves → (∀ G, QuietAllocator (allocator d) (serves G G G)) →
  serves k k k w → 0 ≤ q_id d < 2 ^ 15 - 1 → 1 ≤ len ≤ 2 ^ 16 →
  let create := NvmeDevice.create_io_queue_pair len (admin_pos d k, w) in
  if 0x1000 + doorbell_offset (dstrd d) (q_id d) 1 + 4 <=? dev_len d then
    ∃ dma_cq dma_sq w',
      let '(r, d', evs) := pair_created d posted k len dma_cq dma_sq in
      create = (r, (d', w')) ∧ accesses (trace w') = accesses (trace w) ++ evs
  else create = (Panicked AssertFailed, (admin_pos d k, w)).
Proof.
  intros HAS HQA Hw Hq Hlen create.
  destruct (Z.leb_spec (0x1000 + doorbell_offset (dstrd d) (q_id d) 1 + 4) (dev_len d)) as [Hdb|Hdb].
  - assert (wp (NvmeDevice.create_io_queue_pair len) (λ r d' w', ∃ dma_cq dma_sq,
      let '(r0, d0, evs) := pair_created d posted k len dma_cq dma_sq in
      r = r0 ∧ d' = d0 ∧ accesses (trace w') = accesses (trace w) ++ evs) (admin_pos d k) w) as Hwp.
    { eapply (wp_new_pair d posted N serves); [done..|]. intros dma_cq dma_sq w' n _ _ _.
      destruct (pair_created d posted k len dma_cq dma_sq) as [[r0 d0] evs] eqn:He.
      intros. exists dma_cq, dma_sq. by rewrite He. }
    apply wp_run in Hwp as (r & d' & w' & Hrun & dma_cq & dma_sq & Hc).
    exists dma_cq, dma_sq, w'. destruct (pair_created d posted k len dma_cq dma_sq) as [[r0 d0] evs].
    destruct Hc as (-> & -> & ?). done.
  - pose proof (admin_dev_ok (d:=d)) as (? & ? & ? & ? & ?). pose proof (admin_stride (d:=d)).
    pose proof (doorbell_stride (dstrd d) ltac:(lia)) as [Hs Hp].
    unfold doorbell_offset in Hdb. unfold create, NvmeDevice.create_io_queue_pair.
    unfold get, mbind, M_bind, ck64, ck16, shl.
    cbn [fst snd q_id dstrd addr dev_len admin_pos NvmeDevice.set_admin_sq NvmeDevice.set_admin_cq].
    rewrite (proj2 (Z.ltb_lt (dstrd d) 64)) by lia. rewrite Hs. cbn [mret M_ret].
    rewrite !ck_fits by nia. unfold assert. by rewrite (proj2 (Z.leb_gt _ _)) by lia.
Qed.

(** An allocator that places each request by its size. *)
Definition demo_mapping : Mapping unit (Z * (Z * Z)) := {|
  allocate S _ size := mret (mkDma (0x3000000 + size) (0x3000000 + size) size);
  deallocate S _ _ := mret tt;
  map_resource S _ := mret (65536, 16384);
|}.

Lemma demo_quiet (inv : World (Z * (Z * Z)) → Prop) : QuietAllocator (MAP:=demo_mapping) tt inv.
Proof.
  split.
  - intros S size s w ? [? Hn]. exists (mkDma (0x3000000 + size) (0x3000000 + size) size), w.
    change PAGESIZE_2MIB with 2097152 in Hn. split; [done|].
    split; [unfold allocated; simpl; lia|]. split; [done|]. exists []. by rewrite app_nil_r.
  - intros S dma s w ? _. exists w. split; [done|]. split; [done|]. exists []. by rewrite app_nil_r.
Qed.

Lemma create_io_queue_pair_spec_witness :
  ∃ dma_cq dma_sq w',
    NvmeDevice.create_io_queue_pair (BLD:=true) (FUEL:=10%nat) (HW:=demo_serving (success 4))
      (MAP:=demo_mapping) 32 (admin_pos (demo_device 0) 0, serving_world) =
    (Ret (mkNvmeQueuePair 1 (mkSubmissionQueue dma_sq 0 0 32 69640)
            (mkCompletionQueue dma_cq 0 true 32 69644)),
     (NvmeDevice.set_q_id 2 (admin_pos (demo_device 0) 2), w')).
Proof.
  destruct (create_io_queue_pair_spec (BLD:=true) (FUEL:=10%nat) (HW:=demo_serving (success 4))
    (MAP:=demo_mapping) (demo_device 0) (success 4) 1
    (serving (admin_cq (demo_device 0)) (success 4)) 0 32 serving_world demo_success_service
    (λ G, demo_quiet _) (demo_serving_init _) ltac:(simpl; lia) ltac:(lia))
    as (dma_cq & dma_sq & w' & Hrun & _).
  exists dma_cq, dma_sq, w'. exact Hrun.
Defined.

(** C33: [delete_io_queue_pair] deletes the submission queue before the
    completion queue it posts to, as NVMe requires, both by the id of the pair;
    a failed command ends the call with its error, and after a failed first one
    the second is not sent. *)
Theorem delete_io_queue_pair_spec `{BLD : Build} `{FUEL : Fuel} {A E} `{HW : Hardware E}
    `{MAP : Mapping A E} (d : NvmeDevice A) (posted : Z → NvmeCompletion) (N : nat)
    (serves : Z → Z → Z → World E → Prop) (k : Z) (qp : NvmeQueuePair) (w : World E) :
  AdminService d posted N serves → (∀ G, QuietAllocator (allocator d) (serves G G G)) →
  serves k k k w → pair_allocated qp →
  let ev1 := admin_events d k
    (NvmeCommand.delete_io_submission_queue (admin_cid d k) (qp_id qp)) in
  let ev2 := admin_events d (k + 1)
    (NvmeCommand.delete_io_completion_queue (admin_cid d (k + 1)) (qp_id qp)) in
  let failed := Err (Vroom "Requesting i/o completion queue failed") in
  ∃ w', let '(r, d', evs) :=
      if negb (sc_field (posted k) =? 0) then (failed, admin_pos d (k + 1), ev1)
      else if negb (sc_field (posted (k + 1)) =? 0)
      then (failed, admin_pos d (k + 2), ev1 ++ ev2)
      else (Ret tt, admin_pos d (k + 2), ev1 ++ ev2) in
    NvmeDevice.delete_io_queue_pair qp (admin_pos d k, w) = (r, (d', w')) ∧
    accesses (trace w') = accesses (trace w) ++ evs.
Proof.
  intros HAS HQA Hw Hqp ev1 ev2 failed.
  set (out := if negb (sc_field (posted k) =? 0) then _ else _).
  assert (wp (NvmeDevice.delete_io_queue_pair qp) (λ r d' w',
    r = out.1.1 ∧ d' = out.1.2 ∧ accesses (trace w') = accesses (trace w) ++ out.2)
    (admin_pos d k) w) as Hwp.
  { eapply (wp_delete_pair d posted N serves); [done..|]. intros w' n _ e1 e2 e.
    fold ev1 ev2 failed in e1, e2, e. subst e1 e2 e. fold out. by destruct out as [[]]. }
  apply wp_run in Hwp as (r & d' & w' & -> & -> & -> & Ht). exists w'. by destruct out as [[]].
Qed.

Lemma delete_io_queue_pair_spec_witness :
  ∃ w', NvmeDevice.delete_io_queue_pair (BLD:=true) (FUEL:=10%nat) (HW:=demo_serving (success 4))
      (MAP:=demo_mapping) demo_pair (admin_pos (demo_device 0) 0, serving_world) =
    (Ret tt, (admin_pos (demo_device 0) 2, w')).
Proof.
  destruct (delete_io_queue_pair_spec (BLD:=true) (FUEL:=10%nat) (HW:=demo_serving (success 4))
    (MAP:=demo_mapping) (demo_device 0) (success 4) 1
    (serving (admin_cq (demo_device 0)) (success 4)) 0 demo_pair serving_world demo_success_service
    (λ G, demo_quiet _) (demo_serving_init _) ltac:(unfold pair_allocated, allocated; simpl; lia))
    as (w' & Hrun & _).
  exists w'. exact Hrun.
Defined.

(** ** Identification *)

(** The one byte of a little-endian word. *)
Lemma le_val_byte2 b0 b1 b2 b3 :
  is_byte b0 → is_byte b1 → is_byte b2 → is_byte b3 →
  Z.land (Z.shiftr (le_val [b0; b1; b2; b3]) 16) 0xFF = b2.
Proof.
  unfold is_byte. intros. simpl. change 255 with (Z.ones 8).
  rewrite Z.land_ones, Z.shiftr_div_pow2 by done. change (2 ^ 16) with 65536. change (2 ^ 8) with 256.
  assert ((b0 + 256 * (b1 + 256 * (b2 + 256 * (b3 + 256 * 0)))) / 65536 = b2 + b3 * 256) as ->.
  { symmetry. apply Z.div_unique with (b0 + 256 * b1); lia. }
  rewrite Z.mod_add by lia. apply Z.mod_small. lia.
Qed.

Lemma take_drop_nth n i (data : list Z) :
  (i + n ≤ length data)%nat → take n (drop i data) = (λ j, nth (i + j) data 0) <$> seq 0 n.
Proof.
  intros Hl. apply list_eq. intros j. rewrite list_lookup_fmap.
  destruct (decide (j < n)%nat).
  - rewrite lookup_take_lt, lookup_drop, lookup_seq_lt by lia. simpl.
    destruct (lookup_lt_is_Some_2 data (i + j) ltac:(lia)) as [x Hx].
    rewrite Hx. f_equal. symmetry. by apply nth_lookup_Some.
  - rewrite lookup_take_ge, lookup_seq_ge by lia. done.
Qed.

Lemma field_bytes_skip f n layout name bs :
  f ≠ name → field_bytes ((f, n) :: layout) name bs = field_bytes layout name (drop n bs).
Proof. intros. simpl. by rewrite bool_decide_eq_false_2. Qed.

(** C39: the structure [IdentifyNamespaceData] has the 4096 bytes that the
    controller writes, and the fields that the driver uses are where NVMe puts
    them: of a data structure [data] the namespace gets as its number of blocks
    the 64-bit integer at offset 8 (NCAP), and as its block size [2 ^ n] where
    [n] is the third byte of the LBA format (offset 128, four bytes each) that
    the low four bits of byte 26 select, if [9 <= n < 32], and otherwise 0. *)
Theorem namespace_of_identify_data (id : Z) (data : list Z) :
  length data = 4096%nat → Forall is_byte data →
  layout_size IdentifyNamespaceData.*2 = length data ∧
  let flbas := nth 26 data 0 in
  let lbads := nth (128 + 4 * Z.to_nat (flbas `mod` 16) + 2) data 0 in
  parse_namespace id data =
  mkNvmeNamespace id (le_val (take 8 (drop 8 data)))
    (if (9 <=? lbads) && (lbads <? 32) then 2 ^ lbads else 0).
Proof.
  intros Hlen Hb. split; [by rewrite Hlen|]. cbn zeta.
  assert (∀ i, is_byte (nth i data 0)) as Hbyte.
  { intros i. destruct (nth_in_or_default i data 0) as [Hin| ->]; [|done].
    rewrite Forall_forall in Hb. apply Hb. by apply list_elem_of_In. }
  assert (ns_field "flbas" data = nth 26 data 0) as Hflbas.
  { unfold ns_field, IdentifyNamespaceData. rewrite !field_bytes_skip by done. cbn [field_bytes].
    rewrite bool_decide_eq_true_2 by done. rewrite !drop_drop. simpl (_ + _)%nat.
    rewrite take_drop_nth by lia. apply Z.add_0_r. }
  assert (∀ i, 0 ≤ i < 16 →
    Z.land (Z.shiftr (lba_format i data) 16) 0xFF = nth (128 + 4 * Z.to_nat i + 2) data 0) as Hlba.
  { intros i Hi. unfold lba_format, IdentifyNamespaceData.
    rewrite !field_bytes_skip by done. cbn [field_bytes].
    rewrite bool_decide_eq_true_2 by done. rewrite !drop_drop. simpl (_ + _)%nat at 1.
    rewrite skipn_firstn_comm, take_take, drop_drop, Nat.min_l by lia.
    rewrite take_drop_nth by lia. simpl seq. cbn [fmap list_fmap].
    rewrite le_val_byte2 by done. f_equal. }
  unfold parse_namespace. rewrite Hflbas. change 0xF with (Z.ones 4). rewrite Z.land_ones by done.
  change (2 ^ 4) with 16. pose proof (Z.mod_pos_bound (nth 26 data 0) 16 ltac:(lia)).
  rewrite Hlba by done. f_equal.
  destruct (Z.leb_spec 9 (nth (128 + 4 * Z.to_nat (nth 26 data 0 `mod` 16) + 2) data 0));
    cbn [andb]; [|done]. by rewrite Z.shiftl_1_l.
Qed.

(** 512-byte blocks in format 1, a thousand of them. *)
Definition demo_identify : list Z :=
  replicate 8 0 ++ [232; 3] ++ replicate 16 0 ++ [1] ++ replicate 107 0 ++ [9] ++ replicate 3961 0.

Lemma namespace_of_identify_data_witness :
  parse_namespace 1 demo_identify = mkNvmeNamespace 1 1000 512.
Proof.
  destruct (namespace_of_identify_data 1 demo_identify) as [_ ->]; [done| |done].
  unfold demo_identify. rewrite !Forall_app.
  repeat split; repeat (apply Forall_replicate || constructor); unfold is_byte; lia.
Defined.

Section identify.
Context {A E : Type} `{BLD : Build} `{FUEL : Fuel} `{HW : Hardware E}.
Context (d : NvmeDevice A) (posted : Z → NvmeCompletion) (N : nat).
Context (serves : Z → Z → Z → World E → Prop) `{AS : !AdminService d posted N serves}.

Lemma wp_admin_ignored k cmd_init w (Q : Res unit → NvmeDevice A → World E → Prop) :
  serves k k k w →
  (∀ w', serves (k + 1) (k + 1) (k + 1) w' →
     trace w' = trace w ++ admin_events d k (cmd_init (admin_cid d k) (phys (buffer d))) →
     Q (Ret tt) (admin_pos d (k + 1)) w') →
  wp (ignore (NvmeDevice.submit_and_complete_admin (λ cid a, mret (cmd_init cid a)))) Q
    (admin_pos d k) w.
Proof.
  intros Hw HQ. wp_step.
  apply (wp_admin d posted N serves k _ (cmd_init (admin_cid d k) (phys (buffer d)))); [done..|].
  intros w' Hw' Ht. unfold admin_result. destruct (_ =? 0); by apply HQ.
Qed.

End identify.

(** Identifying namespaces.  [identify_namespace] and
    [identify_namespace_list] send one identify command each for the device
    buffer, wait for it, and then read the buffer whatever the status of the
    command was: a failed command leaves them with what the buffer held before,
    and [identify_namespace] also enters it into the table of namespaces.  The
    list returned is the longest prefix without a 0 of the 1024 ids. *)
Lemma identify_reads_buffer `{BLD : Build} `{FUEL : Fuel} {A E} `{HW : Hardware E}
    (d : NvmeDevice A) (posted : Z → NvmeCompletion) (N : nat)
    (serves : Z → Z → Z → World E → Prop) (k id : Z) (w : World E) :
  AdminService d posted N serves → serves k k k w →
  let cid := admin_cid d k in let buf := phys (buffer d) in
  (∃ w1, serves (k + 1) (k + 1) (k + 1) w1 ∧
     trace w1 = trace w ++ admin_events d k (NvmeCommand.identify_namespace cid buf id) ∧
     let ns := parse_namespace id (load_bytes (mem (tick w1)) (virt (buffer d)) 4096) in
     NvmeDevice.identify_namespace id (admin_pos d k, w) =
     (Ret ns, (NvmeDevice.set_namespaces (<[id := ns]> (namespaces d)) (admin_pos d (k + 1)),
       tick w1))) ∧
  (∃ w1, serves (k + 1) (k + 1) (k + 1) w1 ∧
     trace w1 = trace w ++ admin_events d k (NvmeCommand.identify_namespace_list cid buf id) ∧
     let ids := u32s 1024 (load_bytes (mem (tick w1)) (virt (buffer d)) (4 * 1024)) in
     NvmeDevice.identify_namespace_list id (admin_pos d k, w) =
     (Ret (take_while (λ i, negb (i =? 0)) ids), (admin_pos d (k + 1), tick w1)) ∧
     ∃ rest, ids = take_while (λ i, negb (i =? 0)) ids ++ rest ∧ (rest ≠ [] → head rest = Some 0)).
Proof.
  intros HAS Hw cid buf. split.
  - assert (wp (NvmeDevice.identify_namespace id) (λ r d' w', ∃ w1,
      serves (k + 1) (k + 1) (k + 1) w1 ∧
      trace w1 = trace w ++ admin_events d k (NvmeCommand.identify_namespace cid buf id) ∧
      let ns := parse_namespace id (load_bytes (mem (tick w1)) (virt (buffer d)) 4096) in
      (r, (d', w')) = (Ret ns, (NvmeDevice.set_namespaces (<[id := ns]> (namespaces d))
        (admin_pos d (k + 1)), tick w1))) (admin_pos d k) w) as Hwp.
    { unfold NvmeDevice.identify_namespace. wp_step.
      eapply (wp_admin_ignored d posted N serves k
        (λ c a, NvmeCommand.identify_namespace c a id)); [done|].
      intros w1 ? ?. cbn [then_]. repeat wp_step. by exists w1. }
    apply wp_run in Hwp as (r & d' & w' & -> & w1 & ? & ? & Hr). exists w1. naive_solver.
  - assert (wp (NvmeDevice.identify_namespace_list id) (λ r d' w', ∃ w1,
      serves (k + 1) (k + 1) (k + 1) w1 ∧
      trace w1 = trace w ++ admin_events d k (NvmeCommand.identify_namespace_list cid buf id) ∧
      (r, (d', w')) = (Ret (take_while (λ i, negb (i =? 0))
          (u32s 1024 (load_bytes (mem (tick w1)) (virt (buffer d)) (4 * 1024)))),
        (admin_pos d (k + 1), tick w1))) (admin_pos d k) w) as Hwp.
    { unfold NvmeDevice.identify_namespace_list. wp_step.
      eapply (wp_admin_ignored d posted N serves k
        (λ c a, NvmeCommand.identify_namespace_list c a id)); [done|].
      intros w1 ? ?. cbn [then_]. repeat wp_step. by exists w1. }
    apply wp_run in Hwp as (r & d' & w' & -> & w1 & ? & ? & Hr). exists w1.
    split; [done|]. split; [done|]. split; [exact Hr|].
    generalize (u32s 1024 (load_bytes (mem (tick w1)) (virt (buffer d)) (4 * 1024))).
    intros l. induction l as [|x l (rest & He & Hrest)]; [by exists []|]. simpl.
    destruct (Z.eqb_spec x 0) as [->|]; simpl; [by eexists|]. exists rest.
    split; [by f_equal|done].
Qed.

(** *** Text fields *)

Lemma drop_while_spec f l :
  ∃ pre, l = pre ++ drop_while f l ∧ (∀ x, head (drop_while f l) = Some x → f x = false).
Proof.
  induction l as [|a l (pre & He & Hh)]; [by exists []|]. simpl.
  destruct (f a) eqn:Hf; [exists (a :: pre); simpl; by rewrite <-He|].
  exists []. split; [done|]. simpl. by intros x [= <-].
Qed.

Lemma take_while_spec f l :
  ∃ post, l = take_while f l ++ post ∧ Forall (λ x, f x = true) (take_while f l).
Proof.
  induction l as [|a l (post & He & Hf)]; [by exists []|]. simpl.
  destruct (f a) eqn:Ha; [|by exists (a :: l)].
  exists post. simpl. split; [by f_equal|by constructor].
Qed.

(** What is shown of a text field: a part of it without zeros that neither
    begins nor ends with white space. *)
Definition trimmed_part (bs text : list Z) : Prop :=
  (∃ pre post, bs = pre ++ text ++ post) ∧ (0 ∉ text) ∧
  (∀ x, head text = Some x → is_whitespace x = false) ∧
  (∀ x, last text = Some x → is_whitespace x = false).

Lemma text_field_trimmed bs : trimmed_part bs (text_field bs).
Proof.
  unfold text_field, trim.
  destruct (take_while_spec (λ b, negb (b =? 0)) bs) as (post & Hbs & Hz).
  set (t := take_while _ bs) in *.
  destruct (drop_while_spec is_whitespace t) as (pre & Ht & Hh).
  set (u := drop_while is_whitespace t) in *.
  destruct (drop_while_spec is_whitespace (rev u)) as (suf & Hu & Hl).
  set (v := drop_while is_whitespace (rev u)) in *.
  assert (u = rev v ++ rev suf) as Hu'.
  { rewrite <-(rev_involutive u), Hu. by rewrite rev_app_distr. }
  split; [|split; [|split]].
  - exists pre, (rev suf ++ post). rewrite Hbs at 1. rewrite Ht at 1. rewrite Hu' at 1.
    by rewrite <-!app_assoc.
  - intros Hin. rewrite Forall_forall in Hz. specialize (Hz 0).
    assert (0 ∈ t) as Hint by (rewrite Ht, Hu'; set_solver). by apply Hz in Hint.
  - intros x Hx. apply Hh. rewrite Hu'. by destruct (rev v).
  - intros x Hx. apply Hl. destruct v as [|y v']; [done|].
    simpl in Hx. by rewrite last_snoc in Hx.
Qed.

Lemma buffer_text_run `{BLD : Build} {A E} `{HW : Hardware E} (a b : Z) (d : NvmeDevice A)
    (w : World E) :
  0 ≤ a ≤ b → b < 2 ^ 64 →
  NvmeDevice.buffer_text a b (d, w) =
  if b <=? size (buffer d)
  then (Ret (load_bytes (mem (tick w)) (virt (buffer d) + a) (Z.to_nat (b - a))), (d, tick w))
  else (Panicked AssertFailed, (d, w)).
Proof.
  intros. unfold NvmeDevice.buffer_text, Dma.index_range, get, mbind, M_bind, assert, ck64.
  cbn [fst snd]. destruct (_ <=? _); [|done]. cbn [mret M_ret]. by rewrite ck_fits by lia.
Qed.

(** [identify_controller] returns the error of the admin command, or else
    model, serial number and firmware revision: the parts of bytes 24..64, 4..24
    and 64..72 of the buffer before the first zero, without the white space
    around them.  On a buffer of less than 72 bytes it panics at a bounds
    assertion. *)
Lemma identify_controller_text `{BLD : Build} `{FUEL : Fuel} {A E} `{HW : Hardware E}
    (d : NvmeDevice A) (posted : Z → NvmeCompletion) (N : nat)
    (serves : Z → Z → Z → World E → Prop) (k : Z) (w : World E) :
  AdminService d posted N serves → serves k k k w → 0 ≤ size (buffer d) →
  ∃ w1 w', trace w1 = trace w ++
      admin_events d k (NvmeCommand.identify_controller (admin_cid d k) (phys (buffer d))) ∧
    let field i a b := load_bytes (mem (Nat.iter i tick w1)) (virt (buffer d) + a) (b - Z.to_nat a) in
    let serial := field 1%nat 4 24%nat in
    let model := field 2%nat 24 64%nat in
    let firmware := field 3%nat 64 72%nat in
    NvmeDevice.identify_controller (admin_pos d k, w) =
    ((if negb (sc_field (posted k) =? 0)
      then Err (Vroom "Requesting i/o completion queue failed")
      else if size (buffer d) <? 72 then Panicked AssertFailed
      else Ret (text_field model, text_field serial, text_field firmware)),
     (admin_pos d (k + 1), w')) ∧
    trimmed_part model (text_field model) ∧ trimmed_part serial (text_field serial) ∧
    trimmed_part firmware (text_field firmware).
Proof.
  intros HAS Hw Hsize.
  set (out w1 := let field i a b := load_bytes (mem (Nat.iter i tick w1)) (virt (buffer d) + a)
        (b - Z.to_nat a) in
    if negb (sc_field (posted k) =? 0) then Err (Vroom "Requesting i/o completion queue failed")
    else if size (buffer d) <? 72 then Panicked AssertFailed
    else Ret (text_field (field 2%nat 24 64%nat), text_field (field 1%nat 4 24%nat),
              text_field (field 3%nat 64 72%nat))).
  assert (wp NvmeDevice.identify_controller (λ r d' w', ∃ w1,
    trace w1 = trace w ++
      admin_events d k (NvmeCommand.identify_controller (admin_cid d k) (phys (buffer d))) ∧
    r = out w1 ∧ d' = admin_pos d (k + 1)) (admin_pos d k) w) as Hwp.
  { unfold NvmeDevice.identify_controller. wp_step.
    eapply (wp_admin d posted N serves k); [done|exact Hw|]. intros w1 _ Ht.
    unfold admin_result, then_ at 1.
    destruct (sc_field (posted k) =? 0) eqn:Hst; [|exists w1; split; [done|]; unfold out; by rewrite ?Hst].
    unfold out. rewrite ?Hst. cbn [negb]. unfold wp, mbind, M_bind.
    assert (size (buffer d) < 72 → ∃ w2, trace w2 = trace w ++ admin_events d k
        (NvmeCommand.identify_controller (admin_cid d k) (phys (buffer d))) ∧
      Panicked AssertFailed = out w2 ∧ admin_pos d (k + 1) = admin_pos d (k + 1)) as Hshort.
    { intros Hs. exists w1. unfold out. rewrite ?Hst. cbn [negb]. by rewrite (proj2 (Z.ltb_lt _ _) Hs). }
    do 3 (rewrite buffer_text_run by lia;
      change (size (buffer (admin_pos d (k + 1)))) with (size (buffer d));
      change (virt (buffer (admin_pos d (k + 1)))) with (virt (buffer d));
      match goal with |- context [?n <=? size (buffer d)] =>
        destruct (Z.leb_spec n (size (buffer d))); [|apply Hshort; lia] end).
    exists w1. split; [done|]. by rewrite (proj2 (Z.ltb_ge _ _)) by lia. }
  apply wp_run in Hwp as (r & d' & w' & -> & w1 & Ht & -> & ->).
  exists w1, w'. split; [done|]. cbn zeta. split; [done|].
  split; [|split]; apply text_field_trimmed.
Qed.
