(* ===== verification/Startup.v ===== *)
(** The start of the controller: the part of [NvmeDevice::init] in
    [src/nvme.rs] after the construction of the structure. *)

From stdpp Require Import gmap.
From S2P Require Import Prelude Bytes Machine Memory Cmd Mapping Queues Service QueuePair Device Setup.
#[local] Open Scope Z_scope.

(** ** Polling the status register *)

Section csts.
Context {A E : Type} `{HW : Hardware E}.
Implicit Types (d : NvmeDevice A) (w : World E).

Definition csts_addr d : Z := addr d + reg32 CSTS.

Definition rdy (csts : Z) : bool := Z.land csts 1 =? 1.

(** The world after [i] reads of CSTS, and the value read next. *)
Definition csts_reads d (i : nat) w : World E :=
  Nat.iter i (λ w, reading 4 (csts_addr d) (tick w)) w.

Definition csts_value d (i : nat) w : Z :=
  wrap 32 (hw_read 4 (csts_addr d) (env (tick (csts_reads d i w)))).1.

(** Reads of CSTS of which only the last shows what is waited for. *)
Definition polled d (ready : bool) (t : list Event) : Prop :=
  ∃ vs v, t = (EvRead 4 (csts_addr d) <$> vs) ++ [EvRead 4 (csts_addr d) v] ∧
    Forall (λ v, rdy v = negb ready) vs ∧ rdy v = ready.

Lemma csts_reads_succ d i w :
  csts_reads d (S i) w = csts_reads d i (reading 4 (csts_addr d) (tick w)).
Proof. unfold csts_reads. by rewrite Nat.iter_succ_r. Qed.

End csts.

(** What is asked of a controller that is started: CSTS.RDY follows CC.EN
    within [n] reads, and its queue size limit leaves the [u16] room for the
    increment.  [serves] says that nothing has been submitted yet. *)
Class Startup {A E} `{HW : Hardware E} (d : NvmeDevice A)
    (serves : Z → Z → Z → World E → Prop) (n : nat) : Prop := {
  startup_ready : ∀ w v, serves 0 0 0 w → ∃ i, (i < n)%nat ∧
    rdy (csts_value d i (written 4 (addr d + reg32 CC) v w)) = Z.odd v;
  startup_mqes : ∀ w, serves 0 0 0 w →
    Z.land (wrap 64 (hw_read 8 (addr d + reg64 CAP) (env w)).1) 0xFFFF < 0xFFFF;
  startup_len : 0x1000 ≤ dev_len d;
  startup_prp : ∀ i, 0 ≤ i < 511 → cq_apart (admin_cq d) (virt (prp_list d) + 8 * i) 8;
  startup_buffer : 0 ≤ phys (buffer d) ∧ phys (buffer d) + 511 * 4096 < 2 ^ 64;
}.

(** ** The steps *)

(** The PRP list: entry [i - 1] is the address of page [i] after the buffer. *)
Definition prp_stores {A} (d : NvmeDevice A) : list Event :=
  (λ i, EvStore (virt (prp_list d) + 8 * (i - 1)) (le_bytes 8 (phys (buffer d) + i * 4096)))
    <$> zrange 1 512.

(** From the reset to the admin queues to the enable bit. *)
Definition disable_events {A} (d : NvmeDevice A) (cap cap' vs cc c0 : Z) : list Event :=
  [EvRead 8 (addr d + reg64 CAP) cap; EvRead 8 (addr d + reg64 CAP) cap';
   EvRead 4 (addr d + reg32 VS) vs; EvRead 4 (addr d + reg32 CC) cc;
   EvRead 4 (addr d + reg32 CC) c0;
   EvWrite 4 (addr d + reg32 CC) (Z.land c0 0xFFFFFFFE)].

Definition enable_events {A} (d : NvmeDevice A) (c1 c2 : Z) : list Event :=
  [EvWrite 8 (addr d + reg64 ASQ) (phys (sq_commands (admin_sq d)));
   EvWrite 8 (addr d + reg64 ACQ) (phys (cq_commands (admin_cq d)));
   EvWrite 4 (addr d + reg32 AQA) NvmeDevice.admin_queue_attributes;
   EvRead 4 (addr d + reg32 CC) c1;
   EvWrite 4 (addr d + reg32 CC) (Z.lor (Z.land c1 0xFF00000F) NvmeDevice.entry_sizes);
   EvRead 4 (addr d + reg32 CC) c2;
   EvWrite 4 (addr d + reg32 CC) (Z.lor c2 1)].

Section startup.
Context {A E : Type} `{BLD : Build} `{FUEL : Fuel} `{HW : Hardware E}.
Context (d : NvmeDevice A) (posted : Z → NvmeCompletion) (N n : nat).
Context (serves : Z → Z → Z → World E → Prop) `{AS : !AdminService d posted N serves}.
Context `{ST : !Startup d serves n} (Hn : (n ≤ spin_fuel)%nat).
Implicit Types (w : World E).

Let SV : CqService (admin_cq d) posted (doorbell_at d 0 0) (sq_len (admin_sq d)) N serves :=
  admin_service.
#[local] Existing Instance SV.
Let off (w : World E) : Prop := serves 0 0 0 w.

Lemma off_tick w : off w → off (tick w).
Proof. apply (service_idle_tick (admin_cq d) posted _ _ N serves). Qed.

Lemma off_read m a w : off w → off (reading m a (tick w)).
Proof. intros. by apply service_read, off_tick. Qed.

Lemma off_write m reg v w :
  0 ≤ reg → reg < 0x1000 → off w → off (written m (addr d + reg) v (tick w)).
Proof.
  intros. apply service_write; [by apply off_tick|]. unfold doorbell_at, doorbell_offset. lia.
Qed.

(** The accessors on the device at position [k] of its admin queue. *)
Lemma wp_set_reg32 k reg v w (Q : Res unit → NvmeDevice A → World E → Prop) :
  0 ≤ reg → reg + 4 ≤ 0x1000 → Q (Ret tt) (admin_pos d k) (written 4 (addr d + reg) v (tick w)) →
  wp (NvmeDevice.set_reg32 reg v) Q (admin_pos d k) w.
Proof.
  intros ? ? HQ. pose proof (startup_len (d:=d)). unfold wp, NvmeDevice.set_reg32.
  rewrite (reg_access_run reg 4 (λ p, write_volatile 4 p v)) by (lia || exact (admin_dev_ok (d:=d))).
  by rewrite (proj2 (Z.leb_le _ _)) by (simpl; lia).
Qed.

Lemma wp_set_reg64 k reg v w (Q : Res unit → NvmeDevice A → World E → Prop) :
  0 ≤ reg → reg + 8 ≤ 0x1000 → Q (Ret tt) (admin_pos d k) (written 8 (addr d + reg) v (tick w)) →
  wp (NvmeDevice.set_reg64 reg v) Q (admin_pos d k) w.
Proof.
  intros ? ? HQ. pose proof (startup_len (d:=d)). unfold wp, NvmeDevice.set_reg64.
  rewrite (reg_access_run reg 8 (λ p, write_volatile 8 p v)) by (lia || exact (admin_dev_ok (d:=d))).
  by rewrite (proj2 (Z.leb_le _ _)) by (simpl; lia).
Qed.

Lemma read_volatile_run {S} m a (s : S) w :
  read_volatile m a (s, w) =
  (Ret (wrap (8 * m) (hw_read m a (env (tick w))).1), (s, reading m a (tick w))).
Proof. unfold read_volatile, reading. simpl. by destruct (hw_read m a (env (tick w))). Qed.

Lemma wp_get_reg32 k reg w (Q : Res Z → NvmeDevice A → World E → Prop) :
  0 ≤ reg → reg + 4 ≤ 0x1000 →
  (∀ v, v = wrap 32 (hw_read 4 (addr d + reg) (env (tick w))).1 →
     Q (Ret v) (admin_pos d k) (reading 4 (addr d + reg) (tick w))) →
  wp (NvmeDevice.get_reg32 reg) Q (admin_pos d k) w.
Proof.
  intros ? ? HQ. pose proof (startup_len (d:=d)). unfold wp, NvmeDevice.get_reg32.
  rewrite (reg_access_run reg 4 (read_volatile 4)) by (lia || exact (admin_dev_ok (d:=d))).
  rewrite (proj2 (Z.leb_le _ _)) by (simpl; lia). rewrite read_volatile_run. by apply HQ.
Qed.

Lemma wp_get_reg64 k reg w (Q : Res Z → NvmeDevice A → World E → Prop) :
  0 ≤ reg → reg + 8 ≤ 0x1000 →
  (∀ v, v = wrap 64 (hw_read 8 (addr d + reg) (env (tick w))).1 →
     Q (Ret v) (admin_pos d k) (reading 8 (addr d + reg) (tick w))) →
  wp (NvmeDevice.get_reg64 reg) Q (admin_pos d k) w.
Proof.
  intros ? ? HQ. pose proof (startup_len (d:=d)). unfold wp, NvmeDevice.get_reg64.
  rewrite (reg_access_run reg 8 (read_volatile 8)) by (lia || exact (admin_dev_ok (d:=d))).
  rewrite (proj2 (Z.leb_le _ _)) by (simpl; lia). rewrite read_volatile_run. by apply HQ.
Qed.

Lemma wp_poll_csts k ready fuel w (Q : Res unit → NvmeDevice A → World E → Prop) :
  (∃ i, (i < fuel)%nat ∧ rdy (csts_value d i w) = ready) → off w →
  (∀ w' t, off w' → polled d ready t → trace w' = trace w ++ t → Q (Ret tt) (admin_pos d k) w') →
  wp (loop fuel (λ _ : unit,
    csts ← NvmeDevice.get_reg32 (reg32 CSTS);
    if Bool.eqb (Z.land csts 1 =? 1) ready then mret (Break tt) else mret (Continue tt)) tt) Q
    (admin_pos d k) w.
Proof.
  revert w. induction fuel as [|fuel IH]; intros w (i & Hi & Hr) Hw HQ; [lia|].
  cbn [loop]. do 2 wp_step. apply wp_get_reg32; [simpl; lia..|]. intros v Hv. cbn [then_].
  fold (rdy v). fold (csts_addr d).
  assert (trace (reading 4 (csts_addr d) (tick w)) = trace w ++ [EvRead 4 (csts_addr d) v]) as Ht.
  { rewrite trace_reading, trace_tick, Hv. done. }
  destruct (Bool.eqb (rdy v) ready) eqn:Heq.
  - apply Bool.eqb_prop in Heq. do 2 wp_step. apply (HQ _ [EvRead 4 (csts_addr d) v]).
    + by apply off_read.
    + by exists [], v.
    + done.
  - apply Bool.eqb_false_iff in Heq. wp_step. cbn [then_].
    apply IH; [| by apply off_read|].
    + destruct i as [|i]; [by rewrite Hv in Heq|]. exists i. split; [lia|].
      unfold csts_value in *. by rewrite csts_reads_succ in Hr.
    + intros w' t Hw' (vs & v' & -> & Hvs & Hv') Ht'. eapply HQ; [done| |].
      * exists (v :: vs), v'. split; [reflexivity|]. split; [|done].
        constructor; [|done]. by destruct (rdy v), ready.
      * rewrite Ht', Ht. cbn [fmap list_fmap]. by rewrite <-!app_assoc.
Qed.

(** Each step ends with the controller still unused and a known trace. *)
Definition step_post (Q : Res unit → NvmeDevice A → World E → Prop) (w : World E)
    (T : list Event → Prop) : Prop :=
  ∀ w' t, off w' → T t → trace w' = trace w ++ t → Q (Ret tt) (admin_pos d 0) w'.

Lemma wp_fill l w (Q : Res unit → NvmeDevice A → World E → Prop) :
  Forall (λ i, 1 ≤ i < 512) l → off w →
  step_post Q w (λ t, t = (λ i, EvStore (virt (prp_list d) + 8 * (i - 1))
                             (le_bytes 8 (phys (buffer d) + i * 4096))) <$> l) →
  wp (for_each l (λ i,
    dev ← get;
    o ← ck64 (i * 4096);
    p ← ck64 (phys (buffer dev) + o);
    _ ← index (i - 1) 512;
    store (virt (prp_list dev) + 8 * (i - 1)) (le_bytes 8 p))) Q (admin_pos d 0) w.
Proof.
  intros Hl. revert w. induction Hl as [|i l Hi _ IH]; intros w Hw HQ.
  { apply (HQ w []); [done..|by rewrite app_nil_r]. }
  destruct (startup_buffer (d:=d)). cbn [for_each fmap list_fmap]. do 3 wp_step.
  change (buffer (admin_pos d 0)) with (buffer d). change (prp_list (admin_pos d 0)) with (prp_list d).
  do 7 (wp_step; try lia).
  set (bs := le_bytes 8 (phys (buffer d) + i * 4096)). set (a := virt (prp_list d) + 8 * (i - 1)).
  change (wp ?m Q (admin_pos d 0) (log _ _)) with (wp m Q (admin_pos d 0) (stored a bs (tick w))).
  apply IH.
  - apply service_store; [by apply off_tick|]. unfold bs. rewrite le_bytes_length.
    apply startup_prp. lia.
  - intros w' t Hw' -> Ht. eapply HQ; [done|reflexivity|].
    rewrite Ht, trace_stored, trace_tick. cbn [fmap list_fmap]. by rewrite <-app_assoc.
Qed.

Lemma wp_disable w (Q : Res unit → NvmeDevice A → World E → Prop) :
  off w →
  step_post Q w (λ t, ∃ cap cap' vs cc c0 polls,
    polled d false polls ∧ t = disable_events d cap cap' vs cc c0 ++ polls) →
  wp NvmeDevice.disable_controller Q (admin_pos d 0) w.
Proof.
  intros Hw HQ. unfold NvmeDevice.disable_controller.
  wp_step. apply wp_get_reg64; [simpl; lia..|]. intros cap Hcap. cbn [then_].
  pose proof (startup_mqes _ (off_tick _ Hw)) as Hm. rewrite <-Hcap in Hm.
  assert (0 ≤ Z.land cap 0xFFFF).
  { apply Z.land_nonneg. right. lia. }
  do 2 (wp_step; unfold as_u16; rewrite ?wrap_small by lia; try lia).
  wp_step. apply wp_get_reg64; [simpl; lia..|]. intros cap' Hcap'. cbn [then_].
  wp_step. apply wp_get_reg32; [simpl; lia..|]. intros vs Hvs. cbn [then_].
  wp_step. apply wp_get_reg32; [simpl; lia..|]. intros cc Hcc. cbn [then_].
  wp_step. apply wp_get_reg32; [simpl; lia..|]. intros c0 Hc0. cbn [then_].
  wp_step. apply wp_set_reg32; [simpl; lia..|]. cbn [then_].
  set (v0 := Z.land c0 0xFFFFFFFE). set (w1 := reading 4 (addr d + reg32 CC) _).
  assert (off w1) as Hw1 by (do 5 apply off_read; done).
  assert (Z.odd v0 = false) as Hodd.
  { unfold v0. rewrite <-Z.bit0_odd, Z.land_spec. by rewrite andb_false_r. }
  unfold NvmeDevice.wait_csts. apply wp_poll_csts.
  - destruct (startup_ready (tick w1) v0) as (i & Hi & Hr); [by apply off_tick|].
    exists i. split; [lia|]. by rewrite Hr.
  - apply off_write; [simpl; lia..|done].
  - intros w' t Hw' Hp Ht. eapply HQ; [done|by exists cap, cap', vs, cc, c0, t|].
    rewrite Ht. unfold disable_events, w1. access_trace.
    change (8 * 8) with 64. change (8 * 4) with 32. rewrite <-Hcap, <-Hcap', <-Hvs, <-Hcc, <-Hc0.
    by rewrite <-!app_assoc.
Qed.

Lemma wp_enable w (Q : Res unit → NvmeDevice A → World E → Prop) :
  off w →
  step_post Q w (λ t, ∃ c1 c2 polls, polled d true polls ∧ t = enable_events d c1 c2 ++ polls) →
  wp (_ ← NvmeDevice.configure_controller; NvmeDevice.enable_controller) Q (admin_pos d 0) w.
Proof.
  intros Hw HQ. unfold NvmeDevice.configure_controller, NvmeDevice.enable_controller. do 3 wp_step.
  change (SubmissionQueue.get_addr (admin_sq (admin_pos d 0))) with (phys (sq_commands (admin_sq d))).
  change (CompletionQueue.get_addr (admin_cq (admin_pos d 0))) with (phys (cq_commands (admin_cq d))).
  wp_step. apply wp_set_reg64; [simpl; lia..|]. cbn [then_].
  wp_step. apply wp_set_reg64; [simpl; lia..|]. cbn [then_].
  wp_step. apply wp_set_reg32; [simpl; lia..|]. cbn [then_].
  wp_step. apply wp_get_reg32; [simpl; lia..|]. intros c1 Hc1. cbn [then_].
  apply wp_set_reg32; [simpl; lia..|]. cbn [then_].
  wp_step. apply wp_get_reg32; [simpl; lia..|]. intros c2 Hc2. cbn [then_].
  wp_step. apply wp_set_reg32; [simpl; lia..|]. cbn [then_].
  set (w1 := reading 4 (addr d + reg32 CC) (tick (written _ _ (Z.lor _ _) _))).
  assert (off w1) as Hw1.
  { apply off_read, off_write; [simpl; lia..|]. apply off_read.
    do 3 (apply off_write; [simpl; lia..|]). done. }
  assert (Z.odd (Z.lor c2 1) = true) as Hodd.
  { rewrite <-Z.bit0_odd, Z.lor_spec. apply orb_true_r. }
  unfold NvmeDevice.wait_csts. apply wp_poll_csts.
  - destruct (startup_ready (tick w1) (Z.lor c2 1)) as (i & Hi & Hr); [by apply off_tick|].
    exists i. split; [lia|]. by rewrite Hr.
  - apply off_write; [simpl; lia..|done].
  - intros w' t Hw' Hp Ht. eapply HQ; [done|by exists c1, c2, t|].
    rewrite Ht. unfold enable_events, w1. access_trace.
    change (8 * 4) with 32. rewrite <-Hc1, <-Hc2. by rewrite <-!app_assoc.
Qed.

(** The I/O queues of the device itself: the two admin commands that create
    them, under the first queue id. *)
Definition device_queue_cmds : NvmeCommand * NvmeCommand :=
  (NvmeCommand.create_io_completion_queue (admin_cid d 0) (q_id d)
     (phys (cq_commands (io_cq d))) (QUEUE_LENGTH - 1),
   NvmeCommand.create_io_submission_queue (admin_cid d 1) (q_id d)
     (phys (sq_commands (io_sq d))) (QUEUE_LENGTH - 1) (q_id d)).

Definition queues_created : Res unit * NvmeDevice A * list Event :=
  let ev1 := admin_events d 0 device_queue_cmds.1 in
  let ev2 := admin_events d 1 device_queue_cmds.2 in
  let e := Err (Vroom "Requesting i/o completion queue failed") in
  if negb (sc_field (posted 0) =? 0) then (e, admin_pos d 1, ev1)
  else if negb (sc_field (posted 1) =? 0) then (e, admin_pos d 2, ev1 ++ ev2)
  else (Ret tt, NvmeDevice.set_q_id (q_id d + 1) (admin_pos d 2), ev1 ++ ev2).

(** The number of these commands that are sent. *)
Definition queue_commands : Z := if sc_field (posted 0) =? 0 then 2 else 1.

Lemma wp_create_device_queues w (Q : Res unit → NvmeDevice A → World E → Prop) :
  off w → 0 ≤ q_id d < 2 ^ 16 - 1 →
  (∀ w', serves queue_commands queue_commands queue_commands w' →
     trace w' = trace w ++ queues_created.2 → Q queues_created.1.1 queues_created.1.2 w') →
  wp NvmeDevice.create_device_queues Q (admin_pos d 0) w.
Proof.
  intros Hw Hq HQ. unfold NvmeDevice.create_device_queues. do 3 wp_step.
  eapply (wp_admin d posted N serves 0 _ device_queue_cmds.1); [done|exact Hw|].
  change (0 + 1) with 1. intros w1 Hw1 Ht1. unfold queues_created, queue_commands in HQ. unfold admin_result, then_ at 1.
  destruct (sc_field (posted 0) =? 0); cbn [negb fst snd] in HQ; [|by apply HQ]. wp_step.
  eapply (wp_admin d posted N serves 1 _ device_queue_cmds.2); [done|exact Hw1|].
  change (1 + 1) with 2. intros w2 Hw2 Ht2. rewrite Ht1, <-app_assoc in Ht2.
  unfold admin_result, then_ at 1.
  destruct (sc_field (posted 1) =? 0); cbn [negb fst snd] in HQ; [|by apply HQ].
  do 2 wp_step. change (q_id (admin_pos d 2)) with (q_id d).
  do 3 (wp_step; try lia). by apply HQ.
Qed.

Lemma wp_configure w (Q : Res unit → NvmeDevice A → World E → Prop) :
  off w → 0 ≤ q_id d < 2 ^ 16 - 1 →
  (∀ w' cap cap' vs cc c0 c1 c2 polls0 polls1,
     polled d false polls0 → polled d true polls1 →
     serves queue_commands queue_commands queue_commands w' →
     trace w' = trace w ++ prp_stores d ++ disable_events d cap cap' vs cc c0 ++ polls0 ++
       enable_events d c1 c2 ++ polls1 ++ queues_created.2 →
     Q queues_created.1.1 queues_created.1.2 w') →
  wp NvmeDevice.configure Q (admin_pos d 0) w.
Proof.
  intros Hw Hq HQ. unfold NvmeDevice.configure. wp_step. apply wp_fill; [|done|].
  { apply Forall_forall. intros i Hi. by apply elem_of_zrange in Hi. }
  intros w1 t1 Hw1 Hs1 Ht1. cbn [then_].
  wp_step. apply wp_disable; [done|].
  intros w2 t2 Hw2 (cap & cap' & vs & cc & c0 & polls0 & Hp0 & Hs2) Ht2. cbn [then_].
  assert (wp (_ ← (_ ← NvmeDevice.configure_controller; NvmeDevice.enable_controller);
    NvmeDevice.create_device_queues) Q (admin_pos d 0) w2) as Hrest.
  { wp_step. apply wp_enable; [done|]. intros w3 t3 Hw3 (c1 & c2 & polls1 & Hp1 & Hs3) Ht3. cbn [then_].
    apply wp_create_device_queues; [done..|]. intros w4 Hw4 Ht4.
    eapply (HQ w4 cap cap' vs cc c0 c1 c2 polls0 polls1); [done..|].
    rewrite Ht4, Ht3, Ht2, Ht1, Hs1, Hs2, Hs3. by rewrite <-!app_assoc. }
  unfold wp, mbind, M_bind in Hrest |- *.
  by destruct (NvmeDevice.configure_controller (admin_pos d 0, w2)) as [[] ?].
Qed.

End startup.

(** The start of the controller, in the order NVMe prescribes.  Against a
    controller whose RDY bit follows its enable bit and that serves its admin
    queue, [init] fills the PRP list, clears CC.EN and waits until CSTS.RDY is
    0, only then sets the addresses and sizes of the admin queues and CC, sets
    CC.EN and waits until CSTS.RDY is 1, and only then sends admin commands: it
    creates the completion queue and then the submission queue of the device,
    both of the full length, under the first queue id, and moves on to the next
    id.  A failed command ends the call with its error.  The waits terminate. *)
Lemma configure_sequence `{BLD : Build} `{FUEL : Fuel} {A E} `{HW : Hardware E}
    (d : NvmeDevice A) (posted : Z → NvmeCompletion) (N n : nat)
    (serves : Z → Z → Z → World E → Prop) (w : World E) :
  AdminService d posted N serves → Startup d serves n → (n ≤ spin_fuel)%nat →
  serves 0 0 0 w → 0 ≤ q_id d < 2 ^ 16 - 1 →
  ∃ w' cap cap' vs cc c0 c1 c2 polls0 polls1,
    NvmeDevice.configure (admin_pos d 0, w) =
      ((queues_created d posted).1.1, ((queues_created d posted).1.2, w')) ∧
    polled d false polls0 ∧ polled d true polls1 ∧
    trace w' = trace w ++ prp_stores d ++ disable_events d cap cap' vs cc c0 ++ polls0 ++
      enable_events d c1 c2 ++ polls1 ++ (queues_created d posted).2.
Proof.
  intros HAS HST Hn Hw Hq.
  assert (wp NvmeDevice.configure (λ r d' w',
    r = (queues_created d posted).1.1 ∧ d' = (queues_created d posted).1.2 ∧
    ∃ cap cap' vs cc c0 c1 c2 polls0 polls1,
    polled d false polls0 ∧ polled d true polls1 ∧
    trace w' = trace w ++ prp_stores d ++ disable_events d cap cap' vs cc c0 ++ polls0 ++
      enable_events d c1 c2 ++ polls1 ++ (queues_created d posted).2) (admin_pos d 0) w) as Hwp.
  { eapply (wp_configure d posted N n serves); [done..|].
    intros w' cap cap' vs cc c0 c1 c2 polls0 polls1 ? ? _ ?.
    split; [done|]. split; [done|]. by exists cap, cap', vs, cc, c0, c1, c2, polls0, polls1. }
  apply wp_run in Hwp as (r & d' & w' & -> & -> & -> & cap & cap' & vs & cc & c0 & c1 & c2 & p0 & p1 & ?).
  by exists w', cap, cap', vs, cc, c0, c1, c2, p0, p1.
Qed.

(** The demonstration controller is ready at once. *)
Lemma serving_ready {A} (d : NvmeDevice A) q posted sqdb w v :
  addr d + reg32 CC ≠ sqdb → serving q posted 0 0 0 w →
  let HW := serving_hw q posted sqdb (addr d + reg32 CC) in
  ∃ i, (i < 1)%nat ∧ rdy (csts_value d i (written 4 (addr d + reg32 CC) v w)) = Z.odd v.
Proof.
  intros Hne (He & _) HW. exists 0%nat. split; [lia|].
  unfold csts_value, csts_reads, csts_addr, tick, written. simpl. destruct (env w) as [v0 [G P]].
  simpl in He. injection He as -> ->. simpl in Hne. rewrite (proj2 (Z.eqb_neq _ _) Hne), Z.eqb_refl. simpl.
  rewrite (proj2 (Z.eqb_neq (addr d + 28) (addr d + 20))) by lia.
  rewrite (proj2 (Z.eqb_eq (addr d + 28) (addr d + 20 + 8))) by lia. unfold rdy, wrap.
  assert (∀ z, Z.land z 1 = z `mod` 2) as H1 by (intros z; exact (Z.land_ones z 1 ltac:(done))).
  rewrite !H1. pose proof (Z.mod_pos_bound v 2 ltac:(lia)).
  rewrite (Z.mod_small _ (2 ^ 32)), Z.mod_mod by lia. rewrite Zmod_odd. by destruct (Z.odd v).
Qed.

Lemma demo_startup :
  Startup (HW:=demo_serving (success 4)) (demo_device 0)
    (serving (admin_cq (demo_device 0)) (success 4)) 1.
Proof.
  split.
  - intros w v. by apply serving_ready.
  - intros w _. simpl. reflexivity.
  - simpl. lia.
  - intros i Hi. right. simpl. rewrite size_of_completion. lia.
  - simpl. lia.
Qed.

(** The values written at the start.  CC keeps the enable bit it had and
    selects 64-byte submission and 16-byte completion entries, 4 KiB memory
    pages (MPS 0), the NVM command set and round-robin arbitration, whatever it
    held before.  AQA asks for 16384 entries in both admin queues, although
    these fields of the register have 12 bits: the upper bits of the sizes fall
    into reserved bits and the sizes that the controller sees are 4096. *)
Lemma controller_configuration (c : Z) :
  let cc := Z.lor (Z.land c 0xFF00000F) NvmeDevice.entry_sizes in
  let field r lo w := Z.land (Z.shiftr r lo) (Z.ones w) in
  field cc 16 4 = 6 ∧ field cc 20 4 = 4 ∧ field cc 7 4 = 0 ∧ field cc 4 3 = 0 ∧
  field cc 11 3 = 0 ∧ Z.odd cc = Z.odd c ∧
  let aqa := NvmeDevice.admin_queue_attributes in
  field aqa 0 16 = QUEUE_LENGTH - 1 ∧ field aqa 16 16 = QUEUE_LENGTH - 1 ∧
  field aqa 0 12 = 4095 ∧ field aqa 16 12 = 4095 ∧ field aqa 12 4 ≠ 0 ∧ field aqa 28 4 ≠ 0.
Proof.
  cbn zeta.
  assert (∀ lo w v, 0 ≤ lo → Z.land (Z.shiftr 0xFF00000F lo) (Z.ones w) = 0 →
    Z.land (Z.shiftr NvmeDevice.entry_sizes lo) (Z.ones w) = v →
    Z.land (Z.shiftr (Z.lor (Z.land c 0xFF00000F) NvmeDevice.entry_sizes) lo) (Z.ones w) = v) as Hf.
  { intros lo w v Hlo H0 <-. rewrite Z.shiftr_lor, Z.land_lor_distr_l, Z.shiftr_land.
    by rewrite <-Z.land_assoc, H0, Z.land_0_r, Z.lor_0_l. }
  do 5 (split; [by apply Hf|]). split; [|by vm_compute].
  rewrite <-!Z.bit0_odd, Z.lor_spec, Z.land_spec.
  change (Z.testbit 0xFF00000F 0) with true. change (Z.testbit NvmeDevice.entry_sizes 0) with false.
  by rewrite andb_true_r, orb_false_r.
Qed.
