(* ===== verification/Io.v ===== *)
(** [src/nvme.rs], second half: the data path of [NvmeDevice].  Every
    function builds read or write commands for the one I/O queue pair the
    device keeps for itself and waits for their completion. *)

From stdpp Require Import gmap.
From S2P Require Import Prelude Bytes Machine Memory Cmd Mapping Queues Service QueuePair Device.
#[local] Open Scope Z_scope.

Module Io.
Section Io.
Context {A E : Type} `{BLD : Build} `{FUEL : Fuel} `{HW : Hardware E}.

Definition add_submission (d : NvmeDevice A) (n : Z) : NvmeDevice A :=
  NvmeDevice.set_stats (mkNvmeStats (completions (stats d)) n) d.

Definition add_completion (d : NvmeDevice A) (n : Z) : NvmeDevice A :=
  NvmeDevice.set_stats (mkNvmeStats n (submissions (stats d))) d.

(** [self.stats.submissions += 1] and [self.stats.completions += 1]. *)
Definition count_submission : M E (NvmeDevice A) unit :=
  d ← get; n ← ck64 (submissions (stats d) + 1); put (add_submission d n).

Definition count_completion : M E (NvmeDevice A) unit :=
  d ← get; n ← ck64 (completions (stats d) + 1); put (add_completion d n).

Definition complete_io (step : Z) : M E (NvmeDevice A) (option Z) :=
  r ← zoom io_cq NvmeDevice.set_io_cq (CompletionQueue.complete_n step);
  let '(tail, c_entry, _) := r in
  _ ← NvmeDevice.write_reg_idx CQyHDBL 1 (as_u32 tail);
  let status := Z.shiftr (cpl_status c_entry) 1 in
  if negb (status =? 0) then mret None
  else
    _ ← count_completion;
    mret (Some (cpl_sq_head c_entry)).

(** The entry for a transfer of [blocks] blocks at [addr]. *)
Definition io_entry (write : bool) (ns_id blocks lba addr ptr1 : Z) :
    M E (NvmeDevice A) NvmeCommand :=
  self ← get;
  let c_id := as_u16 (sq_tail (io_sq self)) in
  blocks_1 ← ck16 (as_u16 blocks - 1);
  mret (if write then NvmeCommand.io_write c_id ns_id lba blocks_1 addr ptr1
        else NvmeCommand.io_read c_id ns_id lba blocks_1 addr ptr1).

Definition namespace_io (ns_id blocks lba addr : Z) (write : bool) : M E (NvmeDevice A) unit :=
  _ ← assert (0 <? blocks);
  _ ← assert (blocks <=? 0x10000);
  bytes ← ck64 (blocks * 512);
  self ← get;
  ptr1 ← (if bytes <=? 4096 then mret 0
          else if bytes <=? 8192 then ck64 (addr + 4096)
          else ck64 (phys (prp_list self) + 8));
  entry ← io_entry write ns_id blocks lba addr ptr1;
  tail ← zoom io_sq NvmeDevice.set_io_sq (SubmissionQueue.submit entry);
  _ ← count_submission;
  _ ← NvmeDevice.write_reg_idx SQyTDBL 1 (as_u32 tail);
  o ← complete_io 1;
  h ← unwrap o;
  modify (NvmeDevice.set_io_head h).

Definition submit_io (ns : NvmeNamespace) (addr blocks lba : Z) (write : bool) :
    M E (NvmeDevice A) (option Z) :=
  _ ← assert (0 <? blocks);
  _ ← assert (blocks <=? 0x10000);
  bytes ← ck64 (blocks * block_size ns);
  self ← get;
  ptr1 ← (if bytes <=? 4096 then mret 0
          else if bytes <=? 8192 then ck64 (addr + 4096)
          else
            o ← ck64 (addr - phys (buffer self));
            ck64 (phys (prp_list self) + o / 8));
  entry ← io_entry write (nsp_id ns) blocks lba addr ptr1;
  zoom io_sq NvmeDevice.set_io_sq (SubmissionQueue.submit_checked entry).

(** One iteration of the loops of [write] and [read]; the loop carries the
    next LBA. *)
Definition transfer_chunk (write : bool) (lba : Z) (chunk : DmaChunk) :
    M E (NvmeDevice A) (Flow Z unit) :=
  n ← ck64 (len (chunk_slice chunk) + 512);
  n ← ck64 (n - 1);
  let blocks := n / 512 in
  _ ← namespace_io 1 blocks lba (phys_addr chunk) write;
  lba ← ck64 (lba + blocks);
  mret (Continue lba).

Definition write (data : Dma) (lba : Z) : M E (NvmeDevice A) unit :=
  let it := Dma.chunks data (2 * 4096) in
  DmaChunks.for_chunks (DmaChunks.chunk_fuel it) it (transfer_chunk true) (λ _, tt) lba.

Definition read (dest : Dma) (lba : Z) : M E (NvmeDevice A) unit :=
  let it := Dma.chunks dest (2 * 4096) in
  DmaChunks.for_chunks (DmaChunks.chunk_fuel it) it (transfer_chunk false) (λ _, tt) lba.

(** The durations that [write_prp] measures are not modelled; the division by
    the number of pages when it prints the latency of a chunk is. *)
Definition prp_chunk (write : bool) (lba : Z) (chunk : DmaChunk) :
    M E (NvmeDevice A) (Flow Z unit) :=
  let chunk_len := len (chunk_slice chunk) in
  let prp_pages := chunk_len / PAGESIZE_4KIB in
  _ ← for_each (zrange 0 prp_pages) (λ i,
        self ← get;
        o ← ck64 (i * 4096);
        p ← ck64 (phys_addr chunk + o);
        _ ← index i 512;
        store (virt (prp_list self) + 8 * i) (le_bytes 8 p));
  n ← ck64 (chunk_len + 512);
  n ← ck64 (n - 1);
  let blocks := n / 512 in
  _ ← namespace_io 1 blocks lba (phys_addr chunk) write;
  _ ← udiv 0 prp_pages;
  lba ← ck64 (lba + blocks);
  mret (Continue lba).

Definition write_prp (data : Dma) (lba : Z) (write : bool) : M E (NvmeDevice A) unit :=
  let it := Dma.chunks data (128 * 4096) in
  DmaChunks.for_chunks (DmaChunks.chunk_fuel it) it (prp_chunk write) (λ _, tt) lba.

(** [self.buffer[..chunk.len()].copy_from_slice(chunk)]. *)
Definition copy_to_buffer (chunk : list Z) : M E (NvmeDevice A) unit :=
  self ← get;
  s ← Dma.index_to (buffer self) (Z.of_nat (length chunk));
  store (ptr s) chunk.

(** [chunk.copy_from_slice(&self.buffer[..chunk.len()])]. *)
Definition copy_from_buffer (n : Z) : M E (NvmeDevice A) (list Z) :=
  self ← get;
  s ← Dma.index_to (buffer self) n;
  load (ptr s) (Z.to_nat (len s)).

(** [(n + ns.block_size - 1) / ns.block_size]. *)
Definition blocks_of (ns : NvmeNamespace) (n : Z) : M E (NvmeDevice A) Z :=
  b ← ck64 (n + block_size ns);
  b ← ck64 (b - 1);
  udiv b (block_size ns).

Definition write_copied (data : list Z) (lba : Z) : M E (NvmeDevice A) unit :=
  self ← get;
  ns ← unwrap (namespaces self !! 1);
  _ ← for_fold (chunks (Z.to_nat (128 * 4096)) data) (λ lba chunk,
        _ ← copy_to_buffer chunk;
        blocks ← blocks_of ns (Z.of_nat (length chunk));
        self ← get;
        _ ← namespace_io 1 blocks lba (phys (buffer self)) true;
        ck64 (lba + blocks)) lba;
  mret tt.

(** [dest] is given by its length; the bytes written to it are returned. *)
Definition read_copied (dest : list Z) (lba : Z) : M E (NvmeDevice A) (list Z) :=
  self ← get;
  ns ← unwrap (namespaces self !! 1);
  r ← for_fold (chunks (Z.to_nat (128 * 4096)) dest) (λ '(lba, acc) chunk,
        blocks ← blocks_of ns (Z.of_nat (length chunk));
        self ← get;
        _ ← namespace_io 1 blocks lba (phys (buffer self)) false;
        lba ← ck64 (lba + blocks);
        bytes ← copy_from_buffer (Z.of_nat (length chunk));
        mret (lba, acc ++ bytes)) (lba, []);
  mret r.2.

(** The submissions of one batch: requests [0..batch_len] of [batch_size]
    bytes and [blocks] blocks each; returns the next LBA. *)
Definition submit_batch (ns : NvmeNamespace) (write : bool) (batch_len batch_size blocks lba : Z) :
    M E (NvmeDevice A) Z :=
  for_fold (zrange 0 batch_len) (λ lba i,
    self ← get;
    o ← ck64 (i * batch_size);
    a ← ck64 (phys (buffer self) + o);
    o ← submit_io ns a blocks lba write;
    _ ← (match o with
         | Some tail =>
           _ ← count_submission;
           NvmeDevice.write_reg_idx SQyTDBL 1 (as_u32 tail)
         | None => mret tt
         end);
    ck64 (lba + blocks)) lba.

(** One chunk of a batched transfer, from the cut into requests to the
    completion of the last. *)
Definition batch (ns : NvmeNamespace) (write : bool) (batch_len lba n : Z) :
    M E (NvmeDevice A) Z :=
  let batch_len := Z.min batch_len (n / 512) in
  batch_size ← udiv n batch_len;
  blocks ← udiv batch_size (block_size ns);
  lba ← submit_batch ns write batch_len batch_size blocks lba;
  o ← complete_io batch_len;
  h ← unwrap o;
  _ ← modify (NvmeDevice.set_io_head h);
  mret lba.

Definition batched_write (ns_id : Z) (data : list Z) (lba batch_len : Z) :
    M E (NvmeDevice A) unit :=
  self ← get;
  ns ← unwrap (namespaces self !! ns_id);
  _ ← for_fold (chunks (Z.to_nat PAGESIZE_2MIB) data) (λ lba chunk,
        _ ← copy_to_buffer chunk;
        batch ns true batch_len lba (Z.of_nat (length chunk))) lba;
  mret tt.

Definition batched_read (ns_id : Z) (data : list Z) (lba batch_len : Z) :
    M E (NvmeDevice A) (list Z) :=
  self ← get;
  ns ← unwrap (namespaces self !! ns_id);
  r ← for_fold (chunks (Z.to_nat PAGESIZE_2MIB) data) (λ '(lba, acc) chunk,
        lba ← batch ns false batch_len lba (Z.of_nat (length chunk));
        bytes ← copy_from_buffer (Z.of_nat (length chunk));
        mret (lba, acc ++ bytes)) (lba, []);
  mret r.2.

End Io.
End Io.

(** ** The I/O queue of the device *)

(** The device after [t] I/O commands have been submitted and [k] completions
    taken, with the submission head [h] last reported and the counters [s]. *)
Definition io_dev {A} (d : NvmeDevice A) (t k h : Z) (s : NvmeStats) : NvmeDevice A :=
  NvmeDevice.set_stats s
    (NvmeDevice.set_io_cq (cq_pos (io_cq d) k)
       (NvmeDevice.set_io_sq
          (SubmissionQueue.set_head h (SubmissionQueue.set_tail (t `mod` sq_len (io_sq d)) (io_sq d)))
          d)).

(** Nothing in flight. *)
Definition io_pos {A} (d : NvmeDevice A) (k h : Z) (s : NvmeStats) : NvmeDevice A := io_dev d k k h s.

(** A device whose I/O queue, number 1, is served by the controller. *)
Class IoService {A E} `{FUEL : Fuel} `{HW : Hardware E} (d : NvmeDevice A)
    (posted : Z → NvmeCompletion) (N : nat) (serves : Z → Z → Z → World E → Prop) : Prop := {
  io_service : SyncService (io_cq d) posted (doorbell_at d 1 0) (sq_len (io_sq d)) N serves;
  io_dev_ok : dev_ok d;
  io_stride : dstrd d < 13;
  io_rings : rings_ok (io_sq d) (io_cq d);
  io_fuel : (0 < N < spin_fuel)%nat;
}.

(** The command of a transfer: the second PRP entry by the size in blocks of
    512 bytes. *)
Definition io_ptr1 {A} (d : NvmeDevice A) (blocks addr : Z) : Z :=
  if blocks * 512 <=? 4096 then 0
  else if blocks * 512 <=? 8192 then addr + 4096
  else phys (prp_list d) + 8.

Definition io_cmd {A} (d : NvmeDevice A) (k : Z) (write : bool) (ns_id blocks lba addr : Z) :
    NvmeCommand :=
  (if write then NvmeCommand.io_write else NvmeCommand.io_read)
    (k `mod` sq_len (io_sq d)) ns_id lba (blocks - 1) addr (io_ptr1 d blocks addr).

Definition io_events {A} (d : NvmeDevice A) (k : Z) (cmd : NvmeCommand) : list Event :=
  [EvStore (sq_slot (io_sq d) (k `mod` sq_len (io_sq d))) (NvmeCommand.encode cmd);
   EvWrite 4 (doorbell_at d 1 0) ((k + 1) `mod` sq_len (io_sq d));
   EvWrite 4 (doorbell_at d 1 1) ((k + 1) `mod` cq_len (io_cq d))].

(** One more command: the counters afterwards. *)
Definition submitted (s : NvmeStats) : NvmeStats := mkNvmeStats (completions s) (submissions s + 1).
Definition counted (s : NvmeStats) : NvmeStats := mkNvmeStats (completions s + 1) (submissions s + 1).

Definition stats_room (s : NvmeStats) (n : Z) : Prop :=
  0 ≤ completions s ∧ completions s + n < 2 ^ 64 ∧ 0 ≤ submissions s ∧ submissions s + n < 2 ^ 64.

Section io.
Context {A E : Type} `{BLD : Build} `{FUEL : Fuel} `{HW : Hardware E}.
Context (d : NvmeDevice A) (posted : Z → NvmeCompletion) (N : nat).
Context (serves : Z → Z → Z → World E → Prop) `{IS : !IoService d posted N serves}.
Implicit Types (w : World E) (k h : Z) (s : NvmeStats).

Let SV : SyncService (io_cq d) posted (doorbell_at d 1 0) (sq_len (io_sq d)) N serves := io_service.
Let Hd : dev_ok d := io_dev_ok.
#[local] Existing Instance SV.

Lemma io_doorbell_offset k :
  0 ≤ k ≤ 1 → 0 ≤ doorbell_offset (dstrd d) 1 k < 2 ^ 16.
Proof.
  intros. unfold doorbell_offset. destruct Hd as (? & ? & ? & ? & ?).
  pose proof (io_stride (d:=d)).
  assert (0 < 2 ^ (2 + dstrd d) ≤ 2 ^ 14) by (split; [lia|apply Z.pow_le_mono_r; lia]). nia.
Qed.

Lemma io_doorbells_distinct : doorbell_at d 1 1 ≠ doorbell_at d 1 0.
Proof.
  unfold doorbell_at, doorbell_offset. destruct Hd as (? & ? & ? & ? & ?).
  assert (0 < 2 ^ (2 + dstrd d)) by lia. lia.
Qed.

(** [complete_io] of the [n] commands in flight: the status of the last one
    counts, and they are acknowledged together. *)
Lemma wp_complete_io_n n k P h s w (Q : Res (option Z) → NvmeDevice A → World E → Prop) :
  serves (k + n) k P w → 1 ≤ n ≤ cq_len (io_cq d) → (Z.to_nat n * N < spin_fuel)%nat →
  0 ≤ completions s → completions s + 1 < 2 ^ 64 →
  (∀ w', serves (k + n) (k + n) (k + n) w' →
     trace w' = trace w ++ [EvWrite 4 (doorbell_at d 1 1) ((k + n) `mod` cq_len (io_cq d))] →
     let last := posted (k + n - 1) in
     if sc_field last =? 0
     then Q (Ret (Some (cpl_sq_head last)))
            (io_pos d (k + n) h (mkNvmeStats (completions s + 1) (submissions s))) w'
     else Q (Ret None) (io_pos d (k + n) h s) w') →
  wp (Io.complete_io n) Q (io_dev d (k + n) k h s) w.
Proof.
  intros HP Hn Hfuel ? ? HQ. destruct io_rings as (Hsl & Hsh & Hcl & Hap).
  pose proof Hcl as Hcl'. rewrite QUEUE_LENGTH_value in Hcl'.
  pose proof Hd as (? & ? & ? & ? & ?). pose proof io_stride. pose proof io_fuel as [HN0 _].
  destruct (service_view _ _ _ _ HP) as (HPk & (? & ?) & ?).
  pose proof (Z.mod_pos_bound (k + n) (cq_len (io_cq d)) ltac:(lia)).
  pose proof (service_producer (io_cq d) posted _ _ N serves (k + n)) as Hprod.
  pose proof (service_cqlive (io_cq d) posted _ _ N serves (k + n)) as Hlive.
  unfold Io.complete_io. do 2 wp_step. cbn [io_cq io_dev NvmeDevice.set_stats NvmeDevice.set_io_cq].
  eapply (wp_complete_n (io_cq d) posted (serves (k + n)) Hcl (k + n) N k P);
    [done|exact HP|lia|lia|exact HN0|done|].
  intros P' w' HkP' Hw' Ht. cbn [then_]. wp_step.
  apply (wp_write_reg_idx d CQyHDBL); try done; try lia;
    [apply io_doorbell_offset; simpl; lia|].
  unfold as_u32. rewrite wrap_small by lia. cbn [then_ doorbell_kind].
  apply (service_taken_n (io_cq d) posted (doorbell_at d 1 0) (sq_len (io_sq d)) N serves) in Hw';
    [|lia..].
  apply (service_idle_tick (io_cq d) posted (doorbell_at d 1 0) (sq_len (io_sq d)) N serves) in Hw'.
  apply (service_write _ _ _ _ 4 (doorbell_at d 1 1) ((k + n) `mod` cq_len (io_cq d))) in Hw';
    [|exact io_doorbells_distinct].
  apply HQ in Hw'; [|access_trace; by rewrite Ht]. cbn zeta in Hw'.
  fold (sc_field (posted (k + n - 1))).
  destruct (sc_field (posted (k + n - 1)) =? 0); cbv iota beta delta [negb]; [|by wp_step].
  unfold Io.count_completion. do 3 wp_step. do 4 (wp_step; try (simpl; lia)). exact Hw'.
Qed.

Lemma wp_complete_io k P h s w (Q : Res (option Z) → NvmeDevice A → World E → Prop) :
  serves (k + 1) k P w → 0 ≤ completions s → completions s + 1 < 2 ^ 64 →
  (∀ w', serves (k + 1) (k + 1) (k + 1) w' →
     trace w' = trace w ++ [EvWrite 4 (doorbell_at d 1 1) ((k + 1) `mod` cq_len (io_cq d))] →
     if sc_field (posted k) =? 0
     then Q (Ret (Some (cpl_sq_head (posted k))))
            (io_pos d (k + 1) h (mkNvmeStats (completions s + 1) (submissions s))) w'
     else Q (Ret None) (io_pos d (k + 1) h s) w') →
  wp (Io.complete_io 1) Q (io_dev d (k + 1) k h s) w.
Proof.
  intros HP ? ? HQ. destruct io_rings as (_ & _ & ? & _). pose proof io_fuel as [_ ?].
  apply (wp_complete_io_n 1 k P); [done|lia..|]. cbn zeta. by replace (k + 1 - 1) with k by lia.
Qed.

(** The ways [namespace_io] ends before it touches the queue. *)
Definition io_rejected (blocks : Z) : option PanicKind :=
  if negb ((0 <? blocks) && (blocks <=? 0x10000)) then Some AssertFailed
  else if (blocks =? 0x10000) && overflow_checks then Some Overflow
  else None.

(** The entry is built from the tail; a block count of 65536 wraps to 0 and,
    without overflow checks, back to 65535. *)
Lemma wp_io_entry t k h s ns_id blocks lba addr ptr1 (write : bool) w
    (Q : Res NvmeCommand → NvmeDevice A → World E → Prop) :
  io_rejected blocks = None →
  Q (Ret ((if write then NvmeCommand.io_write else NvmeCommand.io_read)
            (t `mod` sq_len (io_sq d)) ns_id lba (blocks - 1) addr ptr1)) (io_dev d t k h s) w →
  wp (Io.io_entry write ns_id blocks lba addr ptr1) Q (io_dev d t k h s) w.
Proof.
  intros Hb HQ. destruct io_rings as (Hsl & _). rewrite QUEUE_LENGTH_value in Hsl.
  pose proof (Z.mod_pos_bound t (sq_len (io_sq d)) ltac:(lia)) as Hk.
  unfold io_rejected in Hb. destruct (Z.ltb_spec 0 blocks), (Z.leb_spec blocks 0x10000); try done.
  cbn [andb negb] in Hb. unfold Io.io_entry. do 3 wp_step.
  apply wp_mono with (λ r d' w', r = Ret (blocks - 1) ∧ d' = io_dev d t k h s ∧ w' = w).
  - unfold as_u16. destruct (Z.eqb_spec blocks 0x10000) as [->|].
    + destruct overflow_checks eqn:Hc; [done|].
      apply (wp_ck_overflow 16); [by intros []|congruence|done].
    + rewrite wrap_small by lia. by wp_step; try lia.
  - intros ? ? ? (-> & -> & ->). cbn [then_].
    change (sq_tail (io_sq (io_dev d t k h s))) with (t `mod` sq_len (io_sq d)).
    unfold as_u16. rewrite wrap_small by lia. by destruct write; wp_step.
Qed.

(** The part of [namespace_io] that builds the command. *)
Lemma wp_namespace_cmd {B} k h s ns_id blocks lba addr (write : bool) w
    (f : NvmeCommand → M E (NvmeDevice A) B) (Q : Res B → NvmeDevice A → World E → Prop) :
  io_rejected blocks = None → 0 ≤ addr → addr + 4096 < 2 ^ 64 →
  0 ≤ phys (prp_list d) → phys (prp_list d) + 8 < 2 ^ 64 →
  wp (f (io_cmd d k write ns_id blocks lba addr)) Q (io_pos d k h s) w →
  wp ((_ ← assert (0 <? blocks);
      _ ← assert (blocks <=? 0x10000);
      bytes ← ck64 (blocks * 512);
      self ← get;
      ptr1 ← (if bytes <=? 4096 then mret 0
              else if bytes <=? 8192 then ck64 (addr + 4096)
              else ck64 (phys (prp_list self) + 8));
      entry ← Io.io_entry write ns_id blocks lba addr ptr1;
      f entry) : M E (NvmeDevice A) B) Q (io_pos d k h s) w.
Proof.
  intros Hb Ha1 Ha2 Hp1 Hp2 Hf. pose proof Hb as Hb'. unfold io_rejected in Hb'.
  destruct (Z.ltb_spec 0 blocks), (Z.leb_spec blocks 0x10000); try done.
  unfold assert. do 4 wp_step. do 2 (wp_step; try lia). do 2 wp_step. wp_step.
  apply wp_mono with (λ r d' w', r = Ret (io_ptr1 d blocks addr) ∧ d' = io_pos d k h s ∧ w' = w).
  { unfold io_ptr1. change (prp_list (io_pos d k h s)) with (prp_list d).
    destruct (_ <=? 4096); [by wp_step|]. destruct (_ <=? 8192); by wp_step. }
  intros ? ? ? (-> & -> & ->). cbn [then_]. wp_step. by apply wp_io_entry.
Qed.

Lemma wp_namespace_io k h s ns_id blocks lba addr (write : bool) w
    (Q : Res unit → NvmeDevice A → World E → Prop) :
  serves k k k w → stats_room s 1 → io_rejected blocks = None →
  0 ≤ addr → addr + 4096 < 2 ^ 64 → 0 ≤ phys (prp_list d) → phys (prp_list d) + 8 < 2 ^ 64 →
  (∀ w', serves (k + 1) (k + 1) (k + 1) w' →
     trace w' = trace w ++ io_events d k (io_cmd d k write ns_id blocks lba addr) →
     if sc_field (posted k) =? 0
     then Q (Ret tt) (io_pos d (k + 1) (cpl_sq_head (posted k)) (counted s)) w'
     else Q (Panicked UnwrapNone) (io_pos d (k + 1) h (submitted s)) w') →
  wp (Io.namespace_io ns_id blocks lba addr write) Q (io_pos d k h s) w.
Proof.
  intros Hw Hs Hb Ha1 Ha2 Hp1 Hp2 HQ. destruct io_rings as (Hsl & Hsh & Hcl & Hap).
  pose proof Hsl as Hsl'. rewrite QUEUE_LENGTH_value in Hsl'. pose proof io_stride.
  destruct (service_view _ _ _ _ Hw) as (_ & (? & ?) & _).
  pose proof (Z.mod_pos_bound k (sq_len (io_sq d)) ltac:(lia)) as Hk.
  pose proof (Z.mod_pos_bound (k + 1) (sq_len (io_sq d)) ltac:(lia)).
  apply wp_namespace_cmd; [done..|].
  destruct (service_submit (io_cq d) posted (doorbell_at d 1 0) (sq_len (io_sq d)) N serves
    k w (sq_slot (io_sq d) (k `mod` sq_len (io_sq d)))
    (NvmeCommand.encode (io_cmd d k write ns_id blocks lba addr)) Hw)
    as (P & HP); [lia|rewrite encode_length; auto|].
  do 2 wp_step. apply wp_submit; [done..|]. cbn [then_].
  change (sq_tail (io_sq (io_pos d k h s))) with (k `mod` sq_len (io_sq d)).
  change (sq_len (io_sq (io_pos d k h s))) with (sq_len (io_sq d)). rewrite mod_succ_mod by lia.
  unfold Io.count_submission. destruct Hs as (? & ? & ? & ?).
  do 4 wp_step. wp_step; [simpl; lia|]. do 2 wp_step.
  apply (wp_write_reg_idx d SQyTDBL); try done; try (simpl; lia);
    [by apply (io_doorbell_offset 0)|].
  unfold as_u32. rewrite wrap_small by lia. cbn [then_ doorbell_kind]. wp_step.
  change (Io.add_submission _ _) with (io_dev d (k + 1) k h (submitted s)).
  eapply wp_complete_io; [exact HP|simpl; lia..|].
  intros w' Hw' Ht. unfold written, stored in Ht. apply HQ in Hw'.
  - destruct (sc_field (posted k) =? 0); cbn [then_]; wp_step; apply wp_unwrap; cbn [then_];
      [by wp_step|done].
  - rewrite Ht. unfold io_events. world. by rewrite <-!app_assoc.
Qed.

Lemma namespace_io_rejected k h s ns_id blocks lba addr (write : bool) w p :
  io_rejected blocks = Some p → 0 ≤ addr → addr + 4096 < 2 ^ 64 →
  0 ≤ phys (prp_list d) → phys (prp_list d) + 8 < 2 ^ 64 →
  Io.namespace_io ns_id blocks lba addr write (io_pos d k h s, w) =
  (Panicked p, (io_pos d k h s, w)).
Proof.
  intros Hp ? ? ? ?. unfold io_rejected in Hp. unfold Io.namespace_io, mbind, M_bind, assert.
  destruct (0 <? blocks); [|naive_solver]. cbn [mret M_ret].
  destruct (Z.leb_spec blocks 0x10000); [|naive_solver]. cbn [mret M_ret].
  cbn [andb negb] in Hp. destruct (Z.eqb_spec blocks 0x10000) as [->|]; [|done].
  destruct overflow_checks eqn:Hc; [|done]. injection Hp as <-.
  unfold get, ck64. cbn [fst]. rewrite !ck_fits by (done || simpl; lia). simpl.
  rewrite ck_fits by lia. unfold Io.io_entry, ck16, mbind, M_bind, get, ck. cbn [fst].
  change (fits 16 _) with false. by rewrite Hc.
Qed.

End io.

(** The head after [n] more commands, and the counters. *)
Definition io_head (posted : Z → NvmeCompletion) (k h n : Z) : Z :=
  if n =? 0 then h else cpl_sq_head (posted (k + n - 1)).

Definition stats_add (s : NvmeStats) (n : Z) : NvmeStats :=
  mkNvmeStats (completions s + n) (submissions s + n).

(** Addresses a device can have: room for the constants added to them. *)
Definition addrs_ok {A} (d : NvmeDevice A) : Prop :=
  0 ≤ phys (prp_list d) ∧ phys (prp_list d) + 8 < 2 ^ 64.

(** C13: one synchronous transfer, against any controller that serves the
    device's I/O queue.  Of 1 to 65535 blocks (65536 in a build without overflow
    checks), [namespace_io] stores one read or write command with this block
    count, LBA and address in the next slot, rings the doorbell, waits for its
    completion and acknowledges it; both counters go up by one and the head of
    the ring becomes the one reported.  When the completion reports a failure the
    call panics, after it has been acknowledged.  Other block counts panic before
    anything is done. *)
Theorem namespace_io_command `{BLD : Build} `{FUEL : Fuel} {A E} `{HW : Hardware E}
    (d : NvmeDevice A) (posted : Z → NvmeCompletion) (N : nat)
    (serves : Z → Z → Z → World E → Prop) (k h : Z) (s : NvmeStats)
    (ns_id blocks lba addr : Z) (write : bool) (w : World E) :
  IoService d posted N serves → serves k k k w → stats_room s 1 → addrs_ok d →
  0 ≤ addr → addr + 4096 < 2 ^ 64 →
  let run := Io.namespace_io ns_id blocks lba addr write (io_pos d k h s, w) in
  match io_rejected blocks with
  | Some p => run = (Panicked p, (io_pos d k h s, w))
  | None => ∃ w',
      run =
        (if sc_field (posted k) =? 0
         then (Ret tt, (io_pos d (k + 1) (cpl_sq_head (posted k)) (stats_add s 1), w'))
         else (Panicked UnwrapNone, (io_pos d (k + 1) h (submitted s), w'))) ∧
      serves (k + 1) (k + 1) (k + 1) w' ∧
      trace w' = trace w ++ io_events d k (io_cmd d k write ns_id blocks lba addr)
  end.
Proof.
  intros HIS Hw Hs [Hp1 Hp2] Ha1 Ha2 run. destruct (io_rejected blocks) as [p|] eqn:Hb.
  { by apply namespace_io_rejected. }
  set (out := if sc_field (posted k) =? 0
    then (Ret tt, io_pos d (k + 1) (cpl_sq_head (posted k)) (stats_add s 1))
    else (Panicked UnwrapNone, io_pos d (k + 1) h (submitted s))).
  assert (wp (Io.namespace_io ns_id blocks lba addr write) (λ r d' w',
    r = out.1 ∧ d' = out.2 ∧ serves (k + 1) (k + 1) (k + 1) w' ∧
    trace w' = trace w ++ io_events d k (io_cmd d k write ns_id blocks lba addr)) (io_pos d k h s) w)
    as Hwp.
  { apply (wp_namespace_io d posted N serves); [done..|]. intros w' ? ?. unfold out.
    by destruct (sc_field (posted k) =? 0). }
  apply wp_run in Hwp as (r & d' & w' & Hrun & -> & -> & ? & ?). exists w'. split; [|done].
  unfold run. rewrite Hrun. unfold out. by destruct (sc_field (posted k) =? 0).
Qed.

Definition demo_io_hw : Hardware (Z * (Z * Z)) :=
  serving_hw (io_cq (demo_device 0)) (success 4) (doorbell_at (demo_device 0) 1 0)
    (addr (demo_device 0) + reg32 CC).

Definition demo_io_serves : Z → Z → Z → World (Z * (Z * Z)) → Prop :=
  serving (io_cq (demo_device 0)) (success 4).

Lemma demo_io_len : 0 < cq_len (io_cq (demo_device 0)) ≤ QUEUE_LENGTH.
Proof. rewrite QUEUE_LENGTH_value. simpl. lia. Qed.

Lemma demo_io_cq :
  CqService (HW:=demo_io_hw) (io_cq (demo_device 0)) (success 4) (doorbell_at (demo_device 0) 1 0)
    (sq_len (io_sq (demo_device 0))) 1 demo_io_serves.
Proof.
  apply serving_service; [exact demo_io_len| |].
  - intros. apply success_wf. rewrite QUEUE_LENGTH_value. lia.
  - intros. apply success_phase.
Qed.

Lemma demo_io_service :
  IoService (FUEL:=10%nat) (HW:=demo_io_hw) (demo_device 0) (success 4) 1 demo_io_serves.
Proof.
  split.
  - apply demo_io_cq.
  - apply demo_device_ok. lia.
  - simpl. lia.
  - unfold rings_ok. rewrite QUEUE_LENGTH_value. simpl. repeat split; try lia.
    intros i Hi. left. unfold sq_slot. rewrite size_of_command. simpl. lia.
  - unfold spin_fuel. lia.
Qed.

Lemma demo_io_init : demo_io_serves 0 0 0 serving_world.
Proof. apply serving_init, demo_io_len. Qed.

Lemma demo_addrs_ok : addrs_ok (demo_device 0).
Proof. unfold addrs_ok. simpl. lia. Qed.

Lemma demo_stats_room n : n ≤ 1000 → stats_room (mkNvmeStats 0 0) n.
Proof. unfold stats_room. simpl. lia. Qed.

Lemma namespace_io_command_witness :
  ∃ w', Io.namespace_io (BLD:=true) (FUEL:=10%nat) (HW:=demo_io_hw) 1 8 100 0x4000000 true
      (io_pos (demo_device 0) 0 0 (mkNvmeStats 0 0), serving_world) =
    (Ret tt, (io_pos (demo_device 0) 1 1 (mkNvmeStats 1 1), w')).
Proof.
  destruct (namespace_io_command (BLD:=true) (FUEL:=10%nat) (HW:=demo_io_hw) (demo_device 0)
    (success 4) 1 demo_io_serves 0 0 (mkNvmeStats 0 0) 1 8 100 0x4000000 true serving_world
    demo_io_service demo_io_init (demo_stats_room 1 ltac:(lia)) demo_addrs_ok ltac:(lia) ltac:(lia))
    as (w' & Hrun & _).
  exists w'. exact Hrun.
Defined.

(** ** Transfers of a region *)

(** The accesses for chunk [i] of a transfer in chunks of two pages. *)
Definition transfer_events {A} (d : NvmeDevice A) (k : Z) (write : bool) (data : Dma) (lba i : Z) :
    list Event :=
  let c := nth_chunk data 8192 i in
  io_events d (k + i)
    (io_cmd d (k + i) write 1 (chunk_blocks c) (lba + 16 * i) (phys data + 8192 * i)).

Lemma io_rejected_small blocks `{BLD : Build} : 1 ≤ blocks ≤ 65535 → io_rejected blocks = None.
Proof.
  intros. unfold io_rejected. destruct (Z.ltb_spec 0 blocks), (Z.leb_spec blocks 0x10000); try lia.
  by rewrite (proj2 (Z.eqb_neq _ _)) by lia.
Qed.

Lemma stats_add_succ s i : counted (stats_add s i) = stats_add s (i + 1).
Proof. unfold counted, stats_add. simpl. f_equal; lia. Qed.

Section transfer.
Context {A E : Type} `{BLD : Build} `{FUEL : Fuel} `{HW : Hardware E}.
Context (d : NvmeDevice A) (posted : Z → NvmeCompletion) (N : nat).
Context (serves : Z → Z → Z → World E → Prop) `{IS : !IoService d posted N serves}.

(** The state after [i] chunks of [step] blocks, for a loop whose chunk [i]
    makes the accesses [ev i]; [full] is the number of blocks of a full chunk. *)
Definition transferred k h s lba full n (ev : Z → list Event) (w0 : World E)
    (i : Z) (l : Z) (d' : NvmeDevice A) (w : World E) : Prop :=
  (i < n → l = lba + full * i) ∧ d' = io_pos d (k + i) (io_head posted k h i) (stats_add s i) ∧
  serves (k + i) (k + i) (k + i) w ∧ trace w = trace w0 ++ (zrange 0 i ≫= ev).

(** One successful command in such a loop. *)
Lemma wp_transfer_io k h s lba full n ev w0 i ns_id blocks l a (write : bool) pre d' w1
    (Q : Res unit → NvmeDevice A → World E → Prop) :
  0 ≤ i → io_rejected blocks = None → stats_room s (i + 1) → addrs_ok d →
  0 ≤ a → a + 4096 < 2 ^ 64 → sc_field (posted (k + i)) = 0 →
  d' = io_pos d (k + i) (io_head posted k h i) (stats_add s i) →
  serves (k + i) (k + i) (k + i) w1 → trace w1 = trace w0 ++ (zrange 0 i ≫= ev) ++ pre →
  ev i = pre ++ io_events d (k + i) (io_cmd d (k + i) write ns_id blocks l a) →
  (∀ d'' w', (∀ l', (i + 1 < n → l' = lba + full * (i + 1)) →
     transferred k h s lba full n ev w0 (i + 1) l' d'' w') → Q (Ret tt) d'' w') →
  wp (Io.namespace_io ns_id blocks l a write) Q d' w1.
Proof.
  intros Hi Hb (? & ? & ? & ?) [? ?] ? ? Hok -> Hw1 Ht1 Hev HQ.
  apply (wp_namespace_io d posted N serves); [done| |done..|].
  { unfold stats_room, stats_add. simpl. lia. }
  intros w' Hw' Ht. rewrite Hok. simpl (0 =? 0). apply HQ. intros l' Hl'.
  split; [done|]. rewrite Z.add_assoc. split; [|split; [done|]].
  - unfold io_head. rewrite (proj2 (Z.eqb_neq (i + 1) 0)) by lia.
    replace (k + (i + 1) - 1) with (k + i) by lia. by rewrite stats_add_succ.
  - rewrite Ht, Ht1, zrange_bind_snoc, Hev by done. by rewrite <-!app_assoc.
Qed.

(** The body of the loops of [write] and [read]. *)
Lemma wp_transfer_chunk k h s lba n data (write : bool) w0 i l d' w :
  dma_ok data → phys data + size data + 4096 < 2 ^ 64 → n = n_chunks data 8192 →
  0 ≤ lba → lba + 16 * n < 2 ^ 64 → stats_room s n → addrs_ok d →
  (∀ j, k ≤ j < k + n → sc_field (posted j) = 0) → 0 ≤ i < n →
  let I := transferred k h s lba 16 n (transfer_events d k write data lba) w0 in
  I i l d' w →
  wp (Io.transfer_chunk write l (nth_chunk data 8192 i))
    (λ r d' w', ∃ l', r = Ret (Continue l') ∧ I (i + 1) l' d' w') d' w.
Proof.
  intros Hd Hend -> Hl0 Hl Hs Ha Hok Hi I (Hli & Hd' & Hw & Ht).
  specialize (Hli ltac:(lia)). subst l. destruct Hd as (? & ? & ? & ? & ?).
  destruct (nth_chunk_bounds data 8192 i) as (? & Hlen & Hend' & Hfull); [lia..|].
  pose proof (chunk_blocks_bounds _ Hlen) as Hb.
  assert (i < n_chunks data 8192 - 1 → chunk_blocks (nth_chunk data 8192 i) = 16) as Hfull16.
  { intros. unfold chunk_blocks. by rewrite Hfull by lia. }
  unfold Io.transfer_chunk. do 4 (wp_step; try lia).
  replace (len (chunk_slice (nth_chunk data 8192 i)) + 512 - 1)
    with (len (chunk_slice (nth_chunk data 8192 i)) + 511) by lia.
  fold (chunk_blocks (nth_chunk data 8192 i)). wp_step.
  apply (wp_transfer_io k h s lba 16 (n_chunks data 8192) (transfer_events d k write data lba) w0 i
    _ _ _ _ _ []); try done; try (simpl in *; lia).
  - apply io_rejected_small. lia.
  - destruct Hs as (? & ? & ? & ?). unfold stats_room. lia.
  - apply Hok. lia.
  - by rewrite app_nil_r.
  - unfold transfer_events. simpl. do 2 f_equal. lia.
  - intros d'' w' HI. cbn [then_]. do 2 (wp_step; try lia). wp_step.
    eexists. split; [reflexivity|]. apply HI. intros. rewrite Hfull16 by lia. lia.
Qed.

(** The loops from beginning to end. *)
Lemma transfer_run k h s data lba (write : bool) w :
  serves k k k w → addrs_ok d → dma_ok data → phys data + size data + 4096 < 2 ^ 64 →
  let n := n_chunks data 8192 in
  0 ≤ lba → lba + 16 * n < 2 ^ 64 → stats_room s n →
  (∀ j, k ≤ j < k + n → sc_field (posted j) = 0) →
  ∃ w', (if write then Io.write data lba else Io.read data lba) (io_pos d k h s, w) =
      (Ret tt, (io_pos d (k + n) (io_head posted k h n) (stats_add s n), w')) ∧
    serves (k + n) (k + n) (k + n) w' ∧
    trace w' = trace w ++ (zrange 0 n ≫= transfer_events d k write data lba).
Proof.
  intros Hw Ha Hd Hend n Hl0 Hl Hs Hok.
  assert (0 ≤ n) as Hn by (apply n_chunks_nonneg; [lia|apply Hd]).
  set (I := transferred k h s lba 16 n (transfer_events d k write data lba) w).
  assert (wp (for_flow (nth_chunk data 8192 <$> zrange 0 n) (Io.transfer_chunk write) (λ _, tt) lba)
    (λ r d' w', r = Ret tt ∧ ∃ l, I n l d' w') (io_pos d k h s) w) as Hwp.
  { apply (wp_for_flow (nth_chunk data 8192) n I); [|done| |].
    - intros j l d' w' Hj HI. by apply wp_transfer_chunk.
    - split; [intros; lia|]. rewrite Z.add_0_r. split; [|split; [done|]].
      + unfold io_head, stats_add. simpl. rewrite !Z.add_0_r. by destruct s.
      + by rewrite app_nil_r.
    - intros l d' w' HI. split; [done|by exists l]. }
  apply wp_run in Hwp as (r & d' & w' & Hrun & -> & l & _ & -> & Hw' & Ht). exists w'.
  split; [|done].
  destruct write; unfold Io.write, Io.read; change (2 * 4096) with 8192;
    rewrite for_chunks_list by (done || lia); exact Hrun.
Qed.

End transfer.

(** C4: [write] and [read] of a DMA region, against any controller that serves
    the I/O queue and completes the commands with success.  The region is
    transferred by one command per 8 KiB chunk, in order, each waited for before
    the next is sent: chunk [i] goes to or comes from LBA [lba + 16 i] of
    namespace 1, its address is that of byte [8192 i] of the region, and its
    number of blocks is that of the bytes of the chunk, rounded up.  The calls
    return, and count exactly these commands. *)
Theorem transfer_commands `{BLD : Build} `{FUEL : Fuel} {A E} `{HW : Hardware E}
    (d : NvmeDevice A) (posted : Z → NvmeCompletion) (N : nat)
    (serves : Z → Z → Z → World E → Prop) (k h : Z) (s : NvmeStats)
    (data : Dma) (lba : Z) (write : bool) (w : World E) :
  IoService d posted N serves → serves k k k w → addrs_ok d → dma_ok data →
  phys data + size data + 4096 < 2 ^ 64 →
  let n := n_chunks data 8192 in
  0 ≤ lba → lba + 16 * n < 2 ^ 64 → stats_room s n →
  (∀ j, k ≤ j < k + n → sc_field (posted j) = 0) →
  ∃ w', (if write then Io.write data lba else Io.read data lba) (io_pos d k h s, w) =
      (Ret tt, (io_pos d (k + n) (io_head posted k h n) (stats_add s n), w')) ∧
    serves (k + n) (k + n) (k + n) w' ∧
    trace w' = trace w ++ (zrange 0 n ≫= transfer_events d k write data lba).
Proof.
  intros HIS. by apply (transfer_run d posted N).
Qed.

Lemma transfer_commands_witness :
  ∃ w', Io.write (BLD:=true) (FUEL:=10%nat) (HW:=demo_io_hw) (mkDma 0x4000000 0x4000000 12288) 100
      (io_pos (demo_device 0) 0 0 (mkNvmeStats 0 0), serving_world) =
    (Ret tt, (io_pos (demo_device 0) 2 2 (mkNvmeStats 2 2), w')).
Proof.
  destruct (transfer_commands (BLD:=true) (FUEL:=10%nat) (HW:=demo_io_hw) (demo_device 0)
    (success 4) 1 demo_io_serves 0 0 (mkNvmeStats 0 0) (mkDma 0x4000000 0x4000000 12288) 100 true
    serving_world demo_io_service demo_io_init demo_addrs_ok) as (w' & Hrun & _);
    [unfold dma_ok; simpl; lia|simpl; lia|lia|vm_compute; congruence|
     apply demo_stats_room; vm_compute; congruence| |].
  { intros j Hj. unfold sc_field, success. simpl. by destruct (phase_at 4 j). }
  exists w'. exact Hrun.
Defined.
