(* ===== verification/Prp.v ===== *)
(** Physical region pages: which bytes of memory a command of [src/nvme.rs]
    makes the controller transfer.

    [prp_walk] is how NVMe reads the two PRP entries of a command; it is the
    specification here, and the theorems say for which transfers the entries
    that the driver builds describe the bytes it means. *)

From stdpp Require Import gmap.
From S2P Require Import Prelude Bytes Machine Memory Cmd Mapping Queues Service QueuePair Device Setup Startup Io.
#[local] Open Scope Z_scope.

(** ** The specification *)

(** The segments (bus address and length) of a transfer of [n] bytes.  The
    first entry may have an offset into its page; a second page is named by the
    second entry; for more pages the second entry is the address of a list of
    them, whose entries [entry] reads. *)
Definition prp_walk (entry : Z → Z) (prp1 prp2 n : Z) : list (Z * Z) :=
  let first := 4096 - prp1 `mod` 4096 in
  if n <=? first then [(prp1, n)]
  else if n <=? first + 4096 then [(prp1, first); (prp2, n - first)]
  else (prp1, first) ::
    ((λ i, (entry (prp2 + 8 * i), Z.min 4096 (n - first - 4096 * i)))
       <$> zrange 0 ((n - first + 4095) / 4096)).

(** The addresses of the bytes, in the order of the transfer. *)
Definition walk_bytes (segs : list (Z * Z)) : list Z :=
  segs ≫= λ '(a, l), zrange a (a + l).

(** The entry at a bus address inside the PRP list of the device. *)
Definition list_entry {A} (d : NvmeDevice A) (m : Mem) (a : Z) : Z :=
  le_val (load_bytes m (virt (prp_list d) + (a - phys (prp_list d))) 8).

(** Memory after the stores of a trace. *)
Definition replay (t : list Event) (m : Mem) : Mem :=
  foldl (λ m ev, match ev with EvStore a bs => store_bytes m a bs | _ => m end) m t.

(** ** Lemmas *)

Lemma pages_contiguous base rest :
  0 ≤ rest →
  (zrange 0 ((rest + 4095) / 4096) ≫= λ i,
     zrange (base + 4096 * i) (base + 4096 * i + Z.min 4096 (rest - 4096 * i))) =
  zrange base (base + rest).
Proof.
  intros Hr. set (n := (rest + 4095) / 4096).
  assert (rest ≤ 4096 * n < rest + 4096) as Hn.
  { pose proof (ceil_bounds 4096 rest ltac:(lia)). unfold n.
    replace (rest + 4095) with (rest + 4096 - 1) by lia. lia. }
  assert (∀ j, 0 ≤ j ≤ n → (zrange 0 j ≫= λ i,
     zrange (base + 4096 * i) (base + 4096 * i + Z.min 4096 (rest - 4096 * i))) =
     zrange base (base + Z.min (4096 * j) rest)) as Hall.
  { intros j Hj. remember (Z.to_nat j) as k eqn:Hk. revert j Hj Hk.
    induction k as [|k IH]; intros j Hj Hk.
    - assert (j = 0) as -> by lia. rewrite !zrange_nil by lia. done.
    - replace j with (j - 1 + 1) by lia. rewrite zrange_bind_snoc, IH by lia.
      destruct (decide (rest < 4096 * (j - 1))).
      + lia.
      + rewrite (Z.min_l (4096 * (j - 1))) by lia. rewrite zrange_app by lia. f_equal. lia. }
  rewrite Hall by lia. f_equal. lia.
Qed.

(** A list whose entries name consecutive pages from [base] on. *)
Lemma walk_list entry prp1 prp2 n base :
  prp1 `mod` 4096 = 0 → 8192 < n →
  (∀ i, 0 ≤ i < (n - 1) / 4096 → entry (prp2 + 8 * i) = base + 4096 * i) →
  walk_bytes (prp_walk entry prp1 prp2 n) =
  zrange prp1 (prp1 + 4096) ++ zrange base (base + (n - 4096)).
Proof.
  intros Hp Hn He. unfold prp_walk. rewrite Hp, Z.sub_0_r.
  destruct (Z.leb_spec n 4096); [lia|]. destruct (Z.leb_spec n (4096 + 4096)); [lia|].
  unfold walk_bytes. cbn [mbind list_bind]. f_equal.
  rewrite <-(pages_contiguous base (n - 4096)) by lia.
  replace (n - 4096 + 4095) with (n - 1) by lia.
  rewrite list_fmap_bind. apply Forall_bind_ext, Forall_forall. intros i Hi.
  apply elem_of_zrange in Hi. simpl. by rewrite He by lia.
Qed.

Lemma zrange_lookup_head a b : a < b → head (zrange a b) = Some a.
Proof. intros. by rewrite zrange_cons by lia. Qed.

(** The stores that put [value i] into entry [i] of the list. *)
Definition list_stores {A} (d : NvmeDevice A) (value : Z → Z) (n : Z) : list Event :=
  (λ i, EvStore (virt (prp_list d) + 8 * i) (le_bytes 8 (value i))) <$> zrange 0 n.

Lemma replay_app t1 t2 m : replay (t1 ++ t2) m = replay t2 (replay t1 m).
Proof. apply foldl_app. Qed.

(** Entries written are read back; others are as before. *)
Lemma list_stores_entry {A} (d : NvmeDevice A) value n m i :
  0 ≤ n → (∀ j, 0 ≤ j < n → 0 ≤ value j < 2 ^ 64) → 0 ≤ i →
  list_entry d (replay (list_stores d value n) m) (phys (prp_list d) + 8 * i) =
  if i <? n then value i else list_entry d m (phys (prp_list d) + 8 * i).
Proof.
  intros Hn Hv Hi. unfold list_entry.
  replace (virt (prp_list d) + (phys (prp_list d) + 8 * i - phys (prp_list d)))
    with (virt (prp_list d) + 8 * i) by lia.
  remember (Z.to_nat n) as k eqn:Hk. revert n Hn Hv Hk. induction k as [|k IH]; intros n Hn Hv Hk.
  { assert (n = 0) as -> by lia. rewrite (proj2 (Z.ltb_ge _ _)) by lia. done. }
  replace n with (n - 1 + 1) by lia. unfold list_stores. rewrite zrange_snoc by lia.
  rewrite fmap_app, replay_app. cbn [fmap list_fmap replay foldl].
  destruct (decide (i = n - 1)) as [->|Hne].
  - rewrite (proj2 (Z.ltb_lt _ _)) by lia.
    rewrite <-(le_bytes_length 8 (value (n - 1))) at 2.
    rewrite load_store_same by apply le_bytes_is_byte.
    apply le_val_bytes_small. apply Hv. lia.
  - rewrite load_store_disjoint by (rewrite le_bytes_length; lia).
    fold (list_stores d value (n - 1)). rewrite IH by (lia || intros; apply Hv; lia).
    destruct (Z.ltb_spec i (n - 1)), (Z.ltb_spec i (n - 1 + 1)); done || lia.
Qed.

(** What [init] leaves in the list. *)
Lemma init_stores {A} (d : NvmeDevice A) :
  prp_stores d = list_stores d (λ i, phys (buffer d) + 4096 * (i + 1)) 511.
Proof.
  unfold prp_stores, list_stores.
  assert (zrange 1 512 = Z.succ <$> zrange 0 511) as -> by reflexivity.
  rewrite <-list_fmap_compose. apply list_fmap_ext. intros _ i _. unfold compose.
  replace (Z.succ i - 1) with i by lia. do 2 f_equal. lia.
Qed.

(** The PRP entries of [write] and [read]: for a page-aligned region, the
    commands for its chunks describe exactly the blocks that hold the bytes of
    the region, in order, whatever the PRP list holds. *)
Lemma two_page_walk {A} (d : NvmeDevice A) (entry : Z → Z)
    (k ns_id blocks lba addr : Z) (write : bool) :
  addr `mod` 4096 = 0 → 1 ≤ blocks ≤ 16 →
  let cmd := io_cmd d k write ns_id blocks lba addr in
  walk_bytes (prp_walk entry (d_ptr cmd).1 (d_ptr cmd).2 (blocks * 512)) =
  zrange addr (addr + blocks * 512).
Proof.
  intros Ha Hb cmd.
  assert (d_ptr cmd = (addr, io_ptr1 d blocks addr)) as -> by (unfold cmd, io_cmd; by destruct write).
  cbn [fst snd]. unfold prp_walk, io_ptr1. rewrite Ha, Z.sub_0_r.
  destruct (Z.leb_spec (blocks * 512) 4096).
  { unfold walk_bytes. simpl. by rewrite app_nil_r. }
  destruct (Z.leb_spec (blocks * 512) 8192), (Z.leb_spec (blocks * 512) (4096 + 4096)); try lia.
  unfold walk_bytes. simpl. rewrite app_nil_r, zrange_app by lia. f_equal. lia.
Qed.

(** ** Properties *)



(** ** Transfers with a list of their own *)

Definition PRP_CHUNK : Z := 128 * 4096.

(** The accesses for chunk [i] of [write_prp]. *)
Definition prp_chunk_cmd {A} (d : NvmeDevice A) (k : Z) (write : bool) (data : Dma) (lba i : Z) :
    NvmeCommand :=
  io_cmd d (k + i) write 1 (chunk_blocks (nth_chunk data PRP_CHUNK i)) (lba + 1024 * i)
    (phys data + PRP_CHUNK * i).

Definition prp_chunk_stores {A} (d : NvmeDevice A) (data : Dma) (i : Z) : list Event :=
  list_stores d (λ j, phys data + PRP_CHUNK * i + 4096 * j)
    (len (chunk_slice (nth_chunk data PRP_CHUNK i)) / 4096).

Definition prp_chunk_events {A} (d : NvmeDevice A) (k : Z) (write : bool) (data : Dma) (lba i : Z) :
    list Event :=
  prp_chunk_stores d data i ++ io_events d (k + i) (prp_chunk_cmd d k write data lba i).

(** The list and the slots of the completion queue do not overlap. *)
Definition list_apart {A} (d : NvmeDevice A) : Prop :=
  ∀ i, 0 ≤ i < 512 → cq_apart (io_cq d) (virt (prp_list d) + 8 * i) 8.

Section prp.
Context {A E : Type} `{BLD : Build} `{FUEL : Fuel} `{HW : Hardware E}.
Context (d : NvmeDevice A) (posted : Z → NvmeCompletion) (N : nat).
Context (serves : Z → Z → Z → World E → Prop) `{IS : !IoService d posted N serves}.
Context (Hapart : list_apart d).

Let SV : SyncService (io_cq d) posted (doorbell_at d 1 0) (sq_len (io_sq d)) N serves := io_service.
#[local] Existing Instance SV.

(** The loop that fills the list for a chunk at [a]. *)
Lemma wp_list_stores k h s a l w (Q : Res unit → NvmeDevice A → World E → Prop) :
  Forall (λ i, 0 ≤ i < 512) l → 0 ≤ a → a + 512 * 4096 < 2 ^ 64 → serves k k k w →
  (∀ w', serves k k k w' →
     trace w' = trace w ++ ((λ i, EvStore (virt (prp_list d) + 8 * i) (le_bytes 8 (a + 4096 * i))) <$> l) →
     Q (Ret tt) (io_pos d k h s) w') →
  wp (for_each l (λ i,
        self ← get;
        o ← ck64 (i * 4096);
        p ← ck64 (a + o);
        _ ← index i 512;
        store (virt (prp_list self) + 8 * i) (le_bytes 8 p))) Q (io_pos d k h s) w.
Proof.
  intros Hl Ha1 Ha2. revert w. induction Hl as [|i l Hi _ IH]; intros w Hw HQ.
  { apply (HQ w); [done|by rewrite app_nil_r]. }
  cbn [for_each fmap list_fmap]. do 3 wp_step.
  change (prp_list (io_pos d k h s)) with (prp_list d). do 7 (wp_step; try lia).
  set (bs := le_bytes 8 (a + i * 4096)). set (p := virt (prp_list d) + 8 * i).
  change (wp ?m Q ?s' (log _ _)) with (wp m Q s' (stored p bs (tick w))).
  apply IH.
  - apply service_store_idle; [by apply (service_idle_tick (io_cq d) posted _ _ N serves)|].
    unfold bs. rewrite le_bytes_length. by apply Hapart.
  - intros w' Hw' Ht. apply HQ; [done|]. rewrite Ht. access_trace. unfold bs.
    cbn [fmap list_fmap]. rewrite (Z.mul_comm i). by rewrite <-app_assoc.
Qed.

(** The body of the loop, on a chunk of whole pages. *)
Lemma wp_prp_chunk k h s lba n data (write : bool) w0 i l d' w :
  dma_ok data → size data `mod` 4096 = 0 → phys data + size data + 4096 + PRP_CHUNK * 4 < 2 ^ 64 →
  n = n_chunks data PRP_CHUNK →
  0 ≤ lba → lba + 1024 * n < 2 ^ 64 → stats_room s n → addrs_ok d →
  (∀ j, k ≤ j < k + n → sc_field (posted j) = 0) → 0 ≤ i < n →
  let I := transferred d posted serves k h s lba 1024 n (prp_chunk_events d k write data lba) w0 in
  I i l d' w →
  wp (Io.prp_chunk write l (nth_chunk data PRP_CHUNK i))
    (λ r d' w', ∃ l', r = Ret (Continue l') ∧ I (i + 1) l' d' w') d' w.
Proof.
  intros Hd Hmod Hend -> Hl0 Hl Hs Ha Hok Hi I (Hli & -> & Hw & Ht).
  specialize (Hli ltac:(lia)). subst l. destruct Hd as (? & ? & ? & ? & ?).
  set (c := nth_chunk data PRP_CHUNK i).
  destruct (nth_chunk_bounds data PRP_CHUNK i) as (? & Hlen & Hend' & Hfull); [unfold PRP_CHUNK; lia|lia|lia|].
  fold c in Hlen, Hend', Hfull.
  assert (phys_addr c = phys data + PRP_CHUNK * i ∧ phys_addr c + len (chunk_slice c) ≤ phys data + size data)
    as [Hpa Hpe] by (unfold c, nth_chunk in *; simpl in *; lia).
  assert (0 ≤ phys_addr c ∧ phys_addr c + 512 * 4096 < 2 ^ 64) as [Hpa1 Hpa2]
    by (unfold PRP_CHUNK in *; lia).
  assert (stats_room s (i + 1)) as Hsi by (destruct Hs as (? & ? & ? & ?); unfold stats_room; lia).
  assert (sc_field (posted (k + i)) = 0) as Hoki by (apply Hok; lia).
  change PRP_CHUNK with 524288 in Hlen, Hend', Hfull |- *.
  assert (len (chunk_slice c) `mod` 4096 = 0) as Hcm.
  { unfold c, nth_chunk, PRP_CHUNK. simpl. apply Z.mod_divide in Hmod as [q Hq]; [|lia].
    rewrite Hq. change (128 * 4096) with (128 * 4096). apply Z.mod_divide; [lia|].
    destruct (Z.min_spec (128 * 4096) (q * 4096 - i * (128 * 4096))) as [[_ ->]|[_ ->]];
      [by exists 128|exists (q - i * 128); lia]. }
  apply Z.mod_divide in Hcm as [pages Hpages]; [|lia].
  assert (chunk_blocks c = pages * 8) as Hblocks.
  { unfold chunk_blocks. rewrite Hpages. symmetry. apply Z.div_unique with 511; lia. }
  assert (len (chunk_slice c) / 4096 = pages) as Hdiv by (rewrite Hpages; by apply Z.div_mul).
  unfold Io.prp_chunk. change PAGESIZE_4KIB with 4096. rewrite Hdiv.
  wp_step. apply wp_list_stores; [|lia..|exact Hw|].
  { apply Forall_forall. intros j Hj. apply elem_of_zrange in Hj. lia. }
  intros w1 Hw1 Ht1. cbn [then_]. do 4 (wp_step; try lia).
  replace (len (chunk_slice c) + 512 - 1) with (len (chunk_slice c) + 511) by lia.
  fold (chunk_blocks c). wp_step.
  apply (wp_transfer_io d posted N serves k h s lba 1024 (n_chunks data 524288)
    (prp_chunk_events d k write data lba) w0 i _ _ _ _ _ (prp_chunk_stores d data i));
    try done; try lia.
  - apply io_rejected_small. lia.
  - rewrite Ht1, Ht, <-app_assoc. do 2 f_equal. unfold prp_chunk_stores, list_stores. fold c.
    rewrite Hdiv. apply list_fmap_ext. intros _ j _. by rewrite Hpa.
  - unfold prp_chunk_events, prp_chunk_cmd. fold c. by rewrite Hpa.
  - intros d'' w' HI. cbn [then_]. do 2 (wp_step; try lia). do 2 (wp_step; try lia). wp_step.
    eexists. split; [reflexivity|]. apply HI. intros. specialize (Hfull ltac:(lia)). lia.
Qed.

End prp.

(** C24: [write_prp] of a region of whole pages, against any controller that
    serves the I/O queue and completes the commands with success: for each chunk
    of 512 KiB, in order, it first stores the addresses of the chunk's pages in
    the PRP list and then makes one transfer of the chunk, to or from LBA
    [lba + 1024 i] of namespace 1.  The call returns, and counts these commands. *)
Theorem write_prp_commands `{BLD : Build} `{FUEL : Fuel} {A E} `{HW : Hardware E}
    (d : NvmeDevice A) (posted : Z → NvmeCompletion) (N : nat)
    (serves : Z → Z → Z → World E → Prop) (k h : Z) (s : NvmeStats)
    (data : Dma) (lba : Z) (write : bool) (w : World E) :
  IoService d posted N serves → list_apart d → serves k k k w → addrs_ok d → dma_ok data →
  size data `mod` 4096 = 0 → phys data + size data + 4096 + 2 ^ 21 < 2 ^ 64 →
  let n := n_chunks data PRP_CHUNK in
  0 ≤ lba → lba + 1024 * n < 2 ^ 64 → stats_room s n →
  (∀ j, k ≤ j < k + n → sc_field (posted j) = 0) →
  ∃ w', Io.write_prp data lba write (io_pos d k h s, w) =
      (Ret tt, (io_pos d (k + n) (io_head posted k h n) (stats_add s n), w')) ∧
    trace w' = trace w ++ (zrange 0 n ≫= prp_chunk_events d k write data lba).
Proof.
  intros HIS Hap Hw Ha Hd Hmod Hend n Hl0 Hl Hs Hok.
  assert (0 ≤ n) as Hn by (apply n_chunks_nonneg; [done|apply Hd]).
  set (I := transferred d posted serves k h s lba 1024 n (prp_chunk_events d k write data lba) w).
  assert (wp (for_flow (nth_chunk data PRP_CHUNK <$> zrange 0 n) (Io.prp_chunk write) (λ _, tt) lba)
    (λ r d' w', r = Ret tt ∧ ∃ l, I n l d' w') (io_pos d k h s) w) as Hwp.
  { apply (wp_for_flow (nth_chunk data PRP_CHUNK) n I); [|done| |].
    - intros j l d' w' Hj HI.
      by apply (wp_prp_chunk d posted N serves Hap).
    - split; [intros; lia|]. rewrite Z.add_0_r. split; [|split; [done|]].
      + unfold io_head, stats_add. simpl. rewrite !Z.add_0_r. by destruct s.
      + by rewrite app_nil_r.
    - intros l d' w' HI. split; [done|by exists l]. }
  apply wp_run in Hwp as (r & d' & w' & Hrun & -> & l & _ & -> & Hw' & Ht). exists w'.
  split; [|done]. unfold Io.write_prp. change (128 * 4096) with PRP_CHUNK.
  rewrite for_chunks_list by done. exact Hrun.
Qed.

Lemma demo_list_apart : list_apart (demo_device 0).
Proof. intros i Hi. right. simpl. rewrite size_of_completion. lia. Qed.

Lemma write_prp_commands_witness :
  ∃ w', Io.write_prp (BLD:=true) (FUEL:=10%nat) (HW:=demo_io_hw) (mkDma 0x4000000 0x4000000 1048576)
      100 false (io_pos (demo_device 0) 0 0 (mkNvmeStats 0 0), serving_world) =
    (Ret tt, (io_pos (demo_device 0) 2 2 (mkNvmeStats 2 2), w')).
Proof.
  destruct (write_prp_commands (BLD:=true) (FUEL:=10%nat) (HW:=demo_io_hw) (demo_device 0)
    (success 4) 1 demo_io_serves 0 0 (mkNvmeStats 0 0) (mkDma 0x4000000 0x4000000 1048576) 100 false
    serving_world demo_io_service demo_list_apart demo_io_init demo_addrs_ok) as (w' & Hrun & _);
    [unfold dma_ok; simpl; lia|reflexivity|simpl; lia|lia|vm_compute; congruence|
     apply demo_stats_room; vm_compute; congruence| |].
  { intros j Hj. unfold sc_field, success. simpl. by destruct (phase_at 4 j). }
  exists w'. exact Hrun.
Defined.

(** The two shapes of a transfer of [n] bytes at [a] whose list names the whole
    pages of the chunk. *)
Section walks.
Context {A : Type} (d : NvmeDevice A) (entry : Z → Z) (a n blocks : Z).
Context (Ha : a `mod` 4096 = 0) (Hn : 0 < n) (Hbl : n ≤ blocks * 512 < n + 512).
Context (Hentry : ∀ j, 0 ≤ j < n / 4096 → entry (phys (prp_list d) + 8 * j) = a + 4096 * j).

Lemma walk_whole_pages :
  n `mod` 4096 = 0 →
  walk_bytes (prp_walk entry a (io_ptr1 d blocks a) (blocks * 512)) = zrange a (a + n).
Proof.
  intros Hmod. apply Z.mod_divide in Hmod as [pages Hp]; [|lia].
  assert (blocks * 512 = n) as Hbn by lia. rewrite Hp, Z.div_mul in Hentry by lia.
  unfold io_ptr1. rewrite Hbn. destruct (Z.leb_spec n 4096); [|destruct (Z.leb_spec n 8192)].
  - unfold prp_walk. rewrite Ha, (proj2 (Z.leb_le _ _)) by lia.
    unfold walk_bytes. simpl. apply app_nil_r.
  - unfold prp_walk. rewrite Ha, (proj2 (Z.leb_gt _ _)), (proj2 (Z.leb_le _ _)) by lia.
    unfold walk_bytes. simpl. rewrite app_nil_r, zrange_app by lia. f_equal. lia.
  - rewrite (walk_list _ _ _ _ (a + 4096)); [|done|lia|].
    { rewrite zrange_app by lia. f_equal. lia. }
    intros j Hj. assert ((n - 1) / 4096 < pages) by (apply Z.div_lt_upper_bound; lia).
    replace (phys (prp_list d) + 8 + 8 * j) with (phys (prp_list d) + 8 * (j + 1)) by lia.
    rewrite Hentry by lia. lia.
Qed.

Lemma walk_partial_page :
  8192 < n → n `mod` 4096 ≠ 0 →
  ∃ l, last (prp_walk entry a (io_ptr1 d blocks a) (blocks * 512)) =
    Some (entry (phys (prp_list d) + 8 * (n / 4096)), l).
Proof.
  intros Hbig Hmod. pose proof (Z.div_mod n 4096 ltac:(lia)) as Hdm.
  pose proof (Z.mod_pos_bound n 4096 ltac:(lia)).
  set (q := n / 4096) in *. set (r := n `mod` 4096) in *. clearbody q r.
  assert (blocks * 512 ≤ (q + 1) * 4096) as Hup by lia.
  unfold io_ptr1, prp_walk. rewrite Ha, !(proj2 (Z.leb_gt _ _)) by lia.
  assert ((blocks * 512 - (4096 - 0) + 4095) / 4096 = q - 1 + 1) as ->
    by (symmetry; apply Z.div_unique with (blocks * 512 - 1 - q * 4096); lia).
  rewrite zrange_snoc, fmap_app by lia. cbn [fmap list_fmap].
  rewrite app_comm_cons, last_snoc.
  replace (phys (prp_list d) + 8 + 8 * (q - 1)) with (phys (prp_list d) + 8 * q) by lia. eauto.
Qed.

End walks.


