(* ===== verification/Lib.v ===== *)
(** [src/lib.rs]: the entry points of the library. *)

From stdpp Require Import gmap.
From S2P Require Import Prelude Bytes Machine Memory Cmd Mapping Queues Format Os Ioctl Pci Vfio Physical MemoryAccess QueuePair Device.
#[local] Open Scope Z_scope.

Section lib.
Context {E S : Type} `{BLD : Build} `{FUEL : Fuel} `{HW : Hardware E} `{OS : Os E} `{LC : Libc}.

(** Identify every namespace of a list. *)
Fixpoint identify_all (ns : list Z) : M E (NvmeDevice MemoryAccess) unit :=
  match ns with
  | [] => mret tt
  | n :: ns => _ ← NvmeDevice.identify_namespace n; identify_all ns
  end.

(** What [init] does with the device it has made. *)
Definition identify_device : M E (NvmeDevice MemoryAccess) unit :=
  _ ← NvmeDevice.identify_controller_print;
  ns ← NvmeDevice.identify_namespace_list 0;
  identify_all ns.

(** The class and subclass of the device, from its configuration space. *)
Definition check_class (pci_addr : string) : M E S unit :=
  vendor_file ← expect "wrong pci address" (pci_open_resource_ro pci_addr "vendor");
  device_file ← expect "wrong pci address" (pci_open_resource_ro pci_addr "device");
  config_file ← expect "wrong pci address" (pci_open_resource_ro pci_addr "config");
  _ ← read_hex vendor_file;
  _ ← read_hex device_file;
  v ← read_io32 config_file 8;
  if negb (Z.shiftr v 16 =? 0x0108)
  then throw (Vroom ("device " +:+ pci_addr +:+ " is not a block device"))
  else mret tt.

Definition init_with_page_size (pci_addr : string) (page_size : Pagesize.Pagesize) :
    M E S (NvmeDevice MemoryAccess) :=
  _ ← check_class pci_addr;
  allocator ← MemoryAccess.init_with_page_size pci_addr page_size;
  nvme ← NvmeDevice.init pci_addr allocator;
  r ← with_local nvme identify_device;
  mret r.2.

Definition init (pci_addr : string) : M E S (NvmeDevice MemoryAccess) :=
  init_with_page_size pci_addr DEFAULT_PAGE_SIZE.

End lib.
