(* ===== verification/Iommu.v ===== *)
(** Allocation through the IOMMU ([src/vfio.rs]): what the kernel is asked to
    map and to release.  The definitions are in [Vfio.v]. *)

From stdpp Require Import gmap.
From S2P Require Import Prelude Bytes Machine Memory Mapping Format Os Ioctl Pci Vfio Physical MemoryAccess.
#[local] Open Scope Z_scope.

(** ** Alignment inside a larger mapping *)

(** An address rounded up to 2 MiB. *)
Definition up_2mib (a : Z) : Z := (a + PAGESIZE_2MIB - 1) / PAGESIZE_2MIB * PAGESIZE_2MIB.

Lemma up_2mib_bounds a :
  a ≤ up_2mib a < a + PAGESIZE_2MIB ∧ up_2mib a `mod` PAGESIZE_2MIB = 0.
Proof.
  unfold up_2mib. split; [apply ceil_bounds; done|]. apply Z.mod_mul. done.
Qed.

Lemma up_2mib_aligned a : a `mod` PAGESIZE_2MIB = 0 → up_2mib a = a.
Proof. intros. by apply ceil_exact. Qed.

(** Masking with [!(2 MiB - 1)]. *)
Lemma land_mask a : 0 ≤ a → Z.land a (- PAGESIZE_2MIB) = a / PAGESIZE_2MIB * PAGESIZE_2MIB.
Proof.
  intros. change (- PAGESIZE_2MIB) with (Z.lnot (Z.ones 21)). rewrite <-Z.ldiff_land, Z.ldiff_ones_r by lia.
  rewrite Z.shiftl_mul_pow2, Z.shiftr_div_pow2 by lia. reflexivity.
Qed.

Section narrow.
Context {E S : Type} `{BLD : Build} `{HW : Hardware E} `{OS : Os E} `{LC : Libc} `{MK : !MmapKernel}.
Implicit Types (s : S) (w : World E).

Lemma wp_align_2mib a s w (Q : Res Z → S → World E → Prop) :
  0 ≤ a → a + PAGESIZE_2MIB < 2 ^ 63 → Q (Ret (up_2mib a)) s w → wp (Vfio.Vfio.align_2mib a) Q s w.
Proof.
  intros Ha1 Ha2 HQ. change PAGESIZE_2MIB with 2097152 in *.
  destruct (up_2mib_bounds a) as [Hb _]. change PAGESIZE_2MIB with 2097152 in *.
  unfold Vfio.Vfio.align_2mib, as_i64. rewrite (proj2 (Z.ltb_lt a _)) by lia.
  change PAGESIZE_2MIB with 2097152. rewrite (proj2 (Z.ltb_lt _ _)) by lia. cbn [orb].
  change (-(2097152)) with (- PAGESIZE_2MIB). rewrite land_mask by lia.
  change ((a + 2097152 - 1) / PAGESIZE_2MIB * PAGESIZE_2MIB) with (up_2mib a).
  rewrite wrap_small by lia. exact HQ.
Qed.

Definition prot_rw : Z := Z.lor PROT_READ PROT_WRITE.
Definition anonymous (flags : Z) : Z := Z.lor (Z.lor (Z.lor flags MAP_SHARED) MAP_ANONYMOUS) MAP_POPULATE.
Definition huge_fixed : Z :=
  Z.lor (Z.lor (Z.lor (Z.lor MAP_SHARED MAP_ANONYMOUS) MAP_HUGETLB) MAP_HUGE_2MB) MAP_FIXED.

Lemma huge_fixed_is_fixed : Z.land huge_fixed MAP_FIXED = MAP_FIXED.
Proof.
  unfold huge_fixed. rewrite Z.land_lor_distr_l, Z.land_diag. apply Z.bits_inj'. intros i _.
  rewrite Z.lor_spec, Z.land_spec. by destruct (Z.testbit MAP_FIXED i), (Z.testbit _ i).
Qed.

(** The calls of a successful allocation of [n] bytes at [p], in a first
    mapping at [a]. *)
Definition narrow_calls (n a p v1 v2 : Z) : list Event :=
  [EvOs (OsMmap 0 (n + PAGESIZE_2MIB) prot_rw (anonymous MAP_32BIT) (-1) 0) (inr a);
   EvOs (OsMunmap a (p - a)) (inr v1);
   EvOs (OsMunmap (p + n) (a + n + PAGESIZE_2MIB - (p + n))) (inr v2);
   EvOs (OsMmap p n prot_rw huge_fixed (-1) 0) (inr p)].

(** The error is the one the last call reported. *)
Definition mmap_failure (t : list Event) (e : Error) : Prop :=
  ∃ call io msg, last t = Some (EvOs call (inl io)) ∧ e = Mmap msg io.

Definition narrow_outcome (n : Z) (w : World E) (r : Res Z) (w' : World E) : Prop :=
  ∃ t, trace w' = trace w ++ t ∧
  match r with
  | Ret p => p `mod` PAGESIZE_2MIB = 0 ∧
      ∃ a v1 v2, t = narrow_calls n a p v1 v2 ∧ a ≤ p ∧ p + n ≤ a + (n + PAGESIZE_2MIB)
  | Err e => mmap_failure t e
  | _ => False
  end.

Lemma wp_allocate_narrow n s w :
  IOVA_WIDTH (statics w) < X86_VA_WIDTH → 0 ≤ n → n + PAGESIZE_2MIB < 2 ^ 64 →
  wp (Vfio.Vfio.allocate_2mib n) (λ r s' w', s' = s ∧ narrow_outcome n w r w') s w.
Proof.
  intros Hw Hn1 Hn2. change PAGESIZE_2MIB with 2097152 in *.
  unfold Vfio.Vfio.allocate_2mib. wp_step. apply wp_get_statics. cbn [then_].
  rewrite (proj2 (Z.ltb_lt _ _) Hw). change PAGESIZE_2MIB with 2097152. do 3 wp_step.
  apply wp_mmap_unsafe; [|intros e w1 H1%trace_mmap; split; [done|]; eexists; split; [done|];
    unfold mmap_failure; eauto].
  intros a w1 H1. destruct (mmap_sys_range _ _ _ _ _ _ _ _ _ H1) as (? & ? & _).
  apply trace_mmap in H1. cbn [then_]. wp_step. apply wp_align_2mib; [lia|change PAGESIZE_2MIB with 2097152; lia|]. cbn [then_].
  destruct (up_2mib_bounds a) as [Hup Hmod]. set (p := up_2mib a) in *.
  change PAGESIZE_2MIB with 2097152 in Hup, Hmod. do 2 wp_step. wp_step.
  apply wp_munmap_unsafe; [|intros e w2 H2%trace_munmap; split; [done|]; eexists;
    rewrite H2, H1, <-app_assoc; split; [done|]; unfold mmap_failure; eauto].
  intros v1 w2 H2%trace_munmap. cbn [then_]. do 3 wp_step.
  rewrite wrap_small by lia. replace (2097152 - (p - a)) with (a + n + 2097152 - (p + n)) by lia.
  apply wp_munmap_unsafe; [|intros e w3 H3%trace_munmap; split; [done|]; eexists;
    rewrite H3, H2, H1, <-!app_assoc; split; [done|]; unfold mmap_failure; eauto].
  intros v2 w3 H3%trace_munmap. cbn [then_].
  apply wp_mmap_unsafe; [|intros e w4 H4%trace_mmap; split; [done|]; eexists;
    rewrite H4, H3, H2, H1, <-!app_assoc; split; [done|]; unfold mmap_failure; eauto].
  intros p' w4 H4. destruct (mmap_sys_range _ _ _ _ _ _ _ _ _ H4) as (_ & _ & Hfix).
  specialize (Hfix huge_fixed_is_fixed) as ->. apply trace_mmap in H4.
  split; [done|]. eexists. rewrite H4, H3, H2, H1, <-!app_assoc. split; [done|]. split; [exact Hmod|].
  exists a, v1, v2. split; [reflexivity|]. change PAGESIZE_2MIB with 2097152. lia.
Qed.

(** An aligned first mapping: the piece before it is empty. *)
Lemma wp_allocate_aligned n s w a w1 e w2 :
  IOVA_WIDTH (statics w) < X86_VA_WIDTH → 0 ≤ n → n + PAGESIZE_2MIB < 2 ^ 64 →
  mmap_sys 0 (n + PAGESIZE_2MIB) prot_rw (anonymous MAP_32BIT) (-1) 0 w = (inr a, w1) →
  a `mod` PAGESIZE_2MIB = 0 → munmap_sys a 0 w1 = (inl e, w2) →
  wp (Vfio.Vfio.allocate_2mib n) (λ r s' w', r = Err (munmap_error 0 e) ∧ s' = s ∧ w' = w2) s w.
Proof.
  intros Hw Hn1 Hn2 H1 Ha H2. change PAGESIZE_2MIB with 2097152 in *.
  unfold Vfio.Vfio.allocate_2mib. wp_step. apply wp_get_statics. cbn [then_].
  rewrite (proj2 (Z.ltb_lt _ _) Hw). change PAGESIZE_2MIB with 2097152. do 3 wp_step.
  destruct (mmap_sys_range _ _ _ _ _ _ _ _ _ H1) as (? & ? & _).
  apply wp_mmap_unsafe; intros ? w1' H1'; unfold prot_rw, anonymous in H1; rewrite H1 in H1'; [|done].
  injection H1' as <- <-. cbn [then_]. wp_step. apply wp_align_2mib; [lia|change PAGESIZE_2MIB with 2097152; lia|]. cbn [then_].
  rewrite up_2mib_aligned by done. rewrite Z.sub_diag. do 2 wp_step. wp_step.
  apply wp_munmap_unsafe; intros ? w2' H2'; rewrite H2 in H2'; [done|]. by injection H2' as <- <-.
Qed.

End narrow.

(** C21: allocation under a narrow IOMMU.  When the IOMMU translates fewer than
    47 bits, huge pages are taken below 2 GiB by mapping 2 MiB too much and
    keeping an aligned part.  Whatever the kernel answers, a successful
    allocation of [n] bytes is aligned to 2 MiB, lies inside the first mapping,
    has released exactly the bytes of it before and after, and was mapped again
    at that address with huge pages; a failure is the one the last call reported.
    If the first mapping happens to be aligned already, the piece before it is
    empty, and a kernel that refuses to unmap nothing (as Linux does) makes the
    allocation fail, with the first mapping never released. *)
Theorem narrow_iova_allocation `{BLD : Build} {E S} `{HW : Hardware E} `{OS : Os E} `{LC : Libc}
    (n : Z) (s : S) (w : World E) :
  MmapKernel → IOVA_WIDTH (statics w) < X86_VA_WIDTH → 0 ≤ n → n + PAGESIZE_2MIB < 2 ^ 64 →
  (∃ r w', Vfio.Vfio.allocate_2mib n (s, w) = (r, (s, w')) ∧ narrow_outcome n w r w') ∧
  (∀ a w1 e w2,
     mmap_sys 0 (n + PAGESIZE_2MIB) prot_rw (anonymous MAP_32BIT) (-1) 0 w = (inr a, w1) →
     a `mod` PAGESIZE_2MIB = 0 → munmap_sys a 0 w1 = (inl e, w2) →
     Vfio.Vfio.allocate_2mib n (s, w) = (Err (munmap_error 0 e), (s, w2))).
Proof.
  intros HK Hw Hn1 Hn2. split.
  - pose proof (wp_allocate_narrow n s w Hw Hn1 Hn2) as Hwp.
    apply wp_run in Hwp as (r & s' & w' & Hrun & -> & Ho). by exists r, w'.
  - intros a w1 e w2 H1 Ha H2.
    pose proof (wp_allocate_aligned n s w a w1 e w2 Hw Hn1 Hn2 H1 Ha H2) as Hwp.
    apply wp_run in Hwp as (r & s' & w' & Hrun & -> & -> & ->). done.
Qed.

(** A world whose IOMMU translates 39 bits, with the next free address. *)
Definition narrow_world (next : Z) : World Z := mkWorld next (λ _, 0) [] (mkStatics 0 39 ∅).

Lemma narrow_iova_allocation_witness :
  (∃ r w', Vfio.Vfio.allocate_2mib (BLD:=true) (HW:=quiet_hw) (OS:=demo_os []) (LC:=linux_libc)
      PAGESIZE_2MIB (tt, narrow_world 0x40001000) = (r, (tt, w')) ∧ r = Ret 0x40200000) ∧
  (∃ w', Vfio.Vfio.allocate_2mib (BLD:=true) (HW:=quiet_hw) (OS:=demo_os []) (LC:=linux_libc)
      PAGESIZE_2MIB (tt, narrow_world 0x40000000) = (Err (munmap_error 0 (OsError 22)), (tt, w'))).
Proof.
  split.
  - destruct (narrow_iova_allocation (BLD:=true) (HW:=quiet_hw) (OS:=demo_os []) (LC:=linux_libc)
      PAGESIZE_2MIB tt (narrow_world 0x40001000) (demo_mmap_kernel []) ltac:(vm_compute; done)
      ltac:(vm_compute; congruence) ltac:(vm_compute; done)) as [(r & w' & Hrun & _) _].
    exists r, w'. split; [exact Hrun|]. vm_compute in Hrun. by injection Hrun as <- _.
  - destruct (narrow_iova_allocation (BLD:=true) (HW:=quiet_hw) (OS:=demo_os []) (LC:=linux_libc)
      PAGESIZE_2MIB tt (narrow_world 0x40000000) (demo_mmap_kernel []) ltac:(vm_compute; done)
      ltac:(vm_compute; congruence) ltac:(vm_compute; done)) as [_ Haligned].
    eexists. eapply Haligned; reflexivity.
Defined.

(** ** Mapping and releasing *)

(** The calls that map [n] bytes at [p] for the device, and that take a region
    out again. *)
Definition map_call (self : VfioBackend) (p n : Z) : Z * IoctlOp * list Z :=
  match self with
  | Legacy container_fd =>
    (container_fd, VFIO_IOMMU_MAP_DMA, struct_bytes vfio_iommu_type1_dma_map [32; 3; p; p; n])
  | IOMMUFD ioas_id iommufd =>
    (iommufd, IOMMU_IOAS_MAP, struct_bytes iommu_ioas_map [40; 2; ioas_id; 0; p; n; 0])
  end.

Definition unmap_call (self : VfioBackend) (dma : Dma) : Z * IoctlOp * list Z :=
  match self with
  | Legacy container_fd =>
    (container_fd, VFIO_IOMMU_UNMAP_DMA,
     struct_bytes vfio_iommu_type1_dma_unmap [32; 0; phys dma; size dma; 0])
  | IOMMUFD ioas_id iommufd =>
    (iommufd, IOMMU_IOAS_UNMAP, struct_bytes iommu_ioas_unmap [24; ioas_id; phys dma; size dma])
  end.

(** The bus address that the answer to a map call holds. *)
Definition mapped_iova (self : VfioBackend) (answer : list Z) : Z :=
  match self with
  | Legacy _ => struct_field vfio_iommu_type1_dma_map 3 answer
  | IOMMUFD _ _ => struct_field iommu_ioas_map 6 answer
  end.

Definition call_event (c : Z * IoctlOp * list Z) (ret : IoError + Z) : Event :=
  EvOs (OsIoctl c.1.1 (IoctlOp.op c.1.2) c.2) ret.

Section mapping.
Context {E S : Type} `{BLD : Build} `{HW : Hardware E} `{OS : Os E} `{LC : Libc} `{MK : !MmapKernel}.
Implicit Types (s : S) (w : World E) (self : Vfio.Vfio).

Lemma wp_map_dma (b : VfioBackend) p n s w (Q : Res Dma → S → World E → Prop) :
  let c := map_call b p n in
  (∀ v w', ioctl_sys c.1.1 c.1.2 c.2 w = (inr v, w') → Q (Ret (mkDma p (mapped_iova b v.2) n)) s w') →
  (∀ e w', ioctl_sys c.1.1 c.1.2 c.2 w = (inl e, w') → Q (Err (Ioctl (IoctlOp.fmt c.1.2) e)) s w') →
  wp (Vfio.Vfio.map_dma b p n) Q s w.
Proof.
  intros c Hr He. destruct b; unfold Vfio.Vfio.map_dma; wp_step; apply wp_ioctl_unsafe;
    intros; cbn [then_]; try (by apply He); wp_step; by apply (Hr v).
Qed.

Lemma wp_unmap_dma (b : VfioBackend) dma s w (Q : Res unit → S → World E → Prop) :
  let c := unmap_call b dma in
  (∀ v w', ioctl_sys c.1.1 c.1.2 c.2 w = (inr v, w') → Q (Ret tt) s w') →
  (∀ e w', ioctl_sys c.1.1 c.1.2 c.2 w = (inl e, w') → Q (Err (Ioctl (IoctlOp.fmt c.1.2) e)) s w') →
  wp (Vfio.Vfio.unmap_dma b dma) Q s w.
Proof.
  intros c Hr He. destruct b; unfold Vfio.Vfio.unmap_dma; wp_step; apply wp_ioctl_unsafe;
    intros; cbn [then_]; try (by apply He); wp_step; by eapply Hr.
Qed.

(** The memory of an allocation: the last call has mapped exactly it. *)
Definition memory_mapped (n : Z) (w : World E) (p : Z) (w' : World E) : Prop :=
  ∃ t addr flags, trace w' = trace w ++ t ++ [EvOs (OsMmap addr n prot_rw flags (-1) 0) (inr p)].

Definition allocate_pages (p : Pagesize.Pagesize) (n : Z) : M E S Z :=
  match p with
  | Pagesize.Page4K => Vfio.Vfio.allocate_4kib n
  | Pagesize.Page1G => Vfio.Vfio.allocate_1gib n
  | Pagesize.Page2M => Vfio.Vfio.allocate_2mib n
  end.

Lemma wp_mmap_anonymous n flags s w (Q : Res Z → S → World E → Prop) :
  (∀ p w', mmap_sys 0 n prot_rw (anonymous flags) (-1) 0 w = (inr p, w') → Q (Ret p) s w') →
  (∀ e w', mmap_sys 0 n prot_rw (anonymous flags) (-1) 0 w = (inl e, w') →
     Q (Err (mmap_error n e)) s w') →
  wp (mmap_anonymous_unsafe n flags) Q s w.
Proof. apply wp_mmap_unsafe. Qed.

Lemma wp_allocate_pages pg n s w :
  0 ≤ n → n + PAGESIZE_2MIB < 2 ^ 64 →
  wp (allocate_pages pg n) (λ r s' w', s' = s ∧
    match r with
    | Ret p => memory_mapped n w p w'
    | Err e => ∃ t, trace w' = trace w ++ t ∧ mmap_failure t e
    | _ => False
    end) s w.
Proof.
  intros Hn1 Hn2.
  assert (∀ flags, wp (mmap_anonymous_unsafe n flags) (λ r s' w', s' = s ∧
    match r with
    | Ret p => memory_mapped n w p w'
    | Err e => ∃ t, trace w' = trace w ++ t ∧ mmap_failure t e
    | _ => False
    end) s w) as Hanon.
  { intros flags. apply wp_mmap_anonymous.
    - intros p w' H%trace_mmap. split; [done|]. exists [], 0, (anonymous flags). exact H.
    - intros e w' H%trace_mmap. split; [done|]. eexists. split; [exact H|]. unfold mmap_failure. eauto. }
  destruct pg; unfold allocate_pages.
  - unfold Vfio.Vfio.allocate_4kib. wp_step. apply wp_get_statics. cbn [then_].
    destruct (_ <? _); apply Hanon.
  - destruct (Z.ltb_spec (IOVA_WIDTH (statics w)) X86_VA_WIDTH).
    + eapply wp_mono; [by apply wp_allocate_narrow|]. intros r s' w' [-> (t & Ht & Hr)].
      split; [done|]. destruct r; try done; [|by exists t].
      destruct Hr as (_ & a' & v1 & v2 & -> & _). unfold memory_mapped. rewrite Ht.
      by exists (take 3 (narrow_calls n a' a v1 v2)), a, huge_fixed.
    + unfold Vfio.Vfio.allocate_2mib. wp_step. apply wp_get_statics. cbn [then_].
      rewrite (proj2 (Z.ltb_ge _ _)) by done. apply Hanon.
  - apply Hanon.
Qed.

(** [allocate] of the rounded size [n]. *)
Definition allocated_outcome self (n : Z) (w : World E) (r : Res Dma) (w' : World E) : Prop :=
  match r with
  | Ret dma => size dma = n ∧ ∃ w1 answer, memory_mapped n w (virt dma) w1 ∧
      phys dma = mapped_iova (iommu self) answer.2 ∧
      trace w' = trace w1 ++ [call_event (map_call (iommu self) (virt dma) n) (inr answer.1)]
  | Err e => (∃ t, trace w' = trace w ++ t ∧ mmap_failure t e) ∨
      (∃ p w1 io, memory_mapped n w p w1 ∧
         trace w' = trace w1 ++ [call_event (map_call (iommu self) p n) (inl io)] ∧
         e = Ioctl (IoctlOp.fmt (map_call (iommu self) p n).1.2) io)
  | _ => False
  end.

Lemma wp_vfio_allocate self n s w :
  let len := Pagesize.shift_up (page_size self) n in
  0 ≤ len → len + PAGESIZE_2MIB < 2 ^ 64 →
  wp (Vfio.Vfio.allocate self n) (λ r s' w', s' = s ∧ allocated_outcome self len w r w') s w.
Proof.
  intros len Hl1 Hl2. unfold Vfio.Vfio.allocate. fold len. wp_step.
  eapply wp_mono; [by apply (wp_allocate_pages (page_size self) len)|].
  intros [p|e| |] s' w1 [-> Hr]; try done; cbn [then_].
  - apply wp_map_dma.
    + intros v w' H%trace_ioctl. split; [done|]. split; [done|]. by exists w1, v.
    + intros e w' H%trace_ioctl. split; [done|]. right. by exists p, w1, e.
  - split; [done|]. by left.
Qed.

(** [deallocate] of a region, unmapping [n] bytes. *)
Definition released_outcome self (dma : Dma) (n : Z) (w : World E) (r : Res unit) (w' : World E) : Prop :=
  let c := unmap_call (iommu self) dma in
  match r with
  | Ret _ => ∃ v1 v2, trace w' = trace w ++ [call_event c (inr v1); EvOs (OsMunmap (virt dma) n) (inr v2)]
  | Err e =>
    (∃ io, trace w' = trace w ++ [call_event c (inl io)] ∧ e = Ioctl (IoctlOp.fmt c.1.2) io) ∨
    (∃ v1 io, trace w' = trace w ++ [call_event c (inr v1); EvOs (OsMunmap (virt dma) n) (inl io)] ∧
       e = munmap_error n io)
  | _ => False
  end.

Lemma wp_vfio_deallocate self dma s w :
  wp (Vfio.Vfio.deallocate self dma) (λ r s' w', s' = s ∧
    released_outcome self dma (Pagesize.shift_up (page_size self) (size dma)) w r w') s w.
Proof.
  unfold Vfio.Vfio.deallocate. wp_step. apply wp_unmap_dma.
  - intros v w1 H1%trace_ioctl. cbn [then_]. wp_step. apply wp_munmap_unsafe.
    + intros v2 w2 H2%trace_munmap. cbn [then_]. wp_step. split; [done|].
      exists v.1, v2. by rewrite H2, H1, <-app_assoc.
    + intros e w2 H2%trace_munmap. split; [done|]. right. exists v.1, e. split; [|done].
      by rewrite H2, H1, <-app_assoc.
  - intros e w1 H1%trace_ioctl. split; [done|]. left. by exists e.
Qed.

End mapping.

(** C20: DMA memory through the IOMMU, whatever the kernel answers.  A successful
    [allocate] has mapped exactly the rounded size, then asked the IOMMU to map
    that memory at that size (for reading and writing; through IOMMUFD the one flag
    that both constants stand for); the region it returns has the address of the
    memory and the bus address of the answer.  When the IOMMU
    refuses, the call fails and the memory stays mapped.  [deallocate] takes the
    region out of the IOMMU and then releases the memory; the length it releases
    is rounded by the page size in force then, so that after [set_page_size] to
    larger pages it is more than the region. *)
Theorem vfio_memory `{BLD : Build} {E S} `{HW : Hardware E} `{OS : Os E} `{LC : Libc}
    (self : Vfio.Vfio) (n : Z) (dma : Dma) (pg : Pagesize.Pagesize) (s : S) (w : World E) :
  MmapKernel → 0 ≤ n ≤ 2 ^ 63 → 0 ≤ size dma ≤ 2 ^ 63 →
  let len := Pagesize.shift_up (page_size self) n in
  let freed := Pagesize.shift_up pg (size dma) in
  (∃ r w', Vfio.Vfio.allocate self n (s, w) = (r, (s, w')) ∧ allocated_outcome self len w r w') ∧
  (∃ r w', Vfio.Vfio.deallocate (Vfio.Vfio.set_page_size pg self) dma (s, w) = (r, (s, w')) ∧
     released_outcome self dma freed w r w') ∧
  (freed = size dma ↔ size dma `mod` Pagesize.size pg = 0) ∧
  size dma ≤ freed ∧ n ≤ len ∧ len `mod` Pagesize.size (page_size self) = 0.
Proof.
  intros HK Hn Hdma len freed.
  assert (∀ q, Pagesize.size q ≤ 2 ^ 30) as Hsz by (intros []; vm_compute; congruence).
  pose proof (size_pos pg). pose proof (size_pos (page_size self)).
  pose proof (Hsz pg). pose proof (Hsz (page_size self)).
  destruct (shift_up_fits (page_size self) n) as [? Hmod]; [lia|]. fold len in H3, Hmod.
  destruct (shift_up_fits pg (size dma)) as [? Hfree]; [lia|]. fold freed in H4, Hfree.
  split; [|split; [|split; [|split; [lia|split; [lia|]]]]].
  - assert (wp (Vfio.Vfio.allocate self n) (λ r s' w', s' = s ∧ allocated_outcome self len w r w') s w) as Hwp.
    { apply wp_vfio_allocate; fold len; [lia|]. change PAGESIZE_2MIB with 2097152. lia. }
    apply wp_run in Hwp as (r & s' & w' & Hrun & -> & Ho). by exists r, w'.
  - pose proof (wp_vfio_deallocate (Vfio.Vfio.set_page_size pg self) dma s w) as Hwp.
    apply wp_run in Hwp as (r & s' & w' & Hrun & -> & Ho). by exists r, w'.
  - split.
    + intros He. rewrite He in Hfree. apply Z.mod_divide; [lia|done].
    + intros Hz. unfold freed. rewrite shift_up_ceil by lia. by rewrite Hz.
  - apply Z.mod_divide; [lia|done].
Qed.

Lemma vfio_memory_witness :
  let self := mkVfio "0000:01:00.0" 5 Pagesize.Page4K (Legacy 4) in
  let dma := mkDma 0x7000 0x7000 4096 in
  ∃ w', Vfio.Vfio.deallocate (HW:=quiet_hw) (OS:=demo_os [])
      (Vfio.Vfio.set_page_size Pagesize.Page2M self) dma (tt, narrow_world 0) = (Ret tt, (tt, w')) ∧
    4096 < Pagesize.shift_up Pagesize.Page2M 4096.
Proof.
  intros self dma.
  destruct (vfio_memory (BLD:=true) (HW:=quiet_hw) (OS:=demo_os []) (LC:=linux_libc) self 4096 dma
    Pagesize.Page2M tt (narrow_world 0) (demo_mmap_kernel []) ltac:(lia) ltac:(simpl; lia))
    as (_ & (r & w' & Hrun & _) & _ & _).
  exists w'. split; [|vm_compute; done]. rewrite Hrun. f_equal. vm_compute in Hrun. by injection Hrun as <- _.
Defined.

(** ** The interface of the clients *)

(** A kernel that grants what it is asked for, in the worlds of [inv]. *)
Class KernelGrants {E} `{HW : Hardware E} `{OS : Os E} (inv : World E → Prop) : Prop := {
  grants_mmap : ∀ addr len prot flags fd offset w, inv w → 0 < len ≤ 2 ^ 31 →
    ∃ p w', mmap_sys addr len prot flags fd offset w = (inr p, w') ∧ inv w';
  grants_munmap : ∀ addr len w, inv w → 0 < len ≤ 2 ^ 31 →
    ∃ v w', munmap_sys addr len w = (inr v, w') ∧ inv w';
  grants_ioctl : ∀ fd o arg w, inv w → ∃ v w', ioctl_sys fd o arg w = (inr v, w') ∧ inv w';
}.

Section quiet.
Context {E : Type} `{BLD : Build} `{HW : Hardware E} `{OS : Os E} `{LC : Libc}.
Context (self : Vfio.Vfio) (inv : World E → Prop) `{KG : !KernelGrants inv}.
Context (Hwide : page_size self = Pagesize.Page2M → ∀ w, inv w → X86_VA_WIDTH ≤ IOVA_WIDTH (statics w)).

Definition quietly {S A} (s : S) (w : World E) (Q : A → Prop) (r : Res A) (s' : S) (w' : World E) : Prop :=
  ∃ a t, r = Ret a ∧ s' = s ∧ Q a ∧ inv w' ∧ trace w' = trace w ++ t ∧ accesses t = [].

Lemma shift_up_small p n :
  0 < n ≤ 2 ^ 31 → 0 < Pagesize.shift_up p n ≤ 2 ^ 31.
Proof.
  intros Hn. pose proof (size_pos p).
  assert (Pagesize.size p ≤ 2 ^ 30) by (destruct p; vm_compute; congruence).
  destruct (shift_up_fits p n) as [? [q Hq]]; [lia|].
  assert (∃ m, 2 ^ 31 = m * Pagesize.size p) as [m Hm].
  { rewrite size_shift. exists (2 ^ (31 - Pagesize.shift p)). rewrite <-Z.pow_add_r by (destruct p; done).
    f_equal. destruct p; done. }
  split; [lia|]. rewrite Hq, Hm in *. apply Z.mul_le_mono_nonneg_r; [lia|]. nia.
Qed.

Lemma wp_quiet_pages {S} n (s : S) w (Q : Res Z → S → World E → Prop) :
  inv w → 0 < n ≤ 2 ^ 31 →
  (∀ p w' t, inv w' → trace w' = trace w ++ t → accesses t = [] → Q (Ret p) s w') →
  wp (allocate_pages (page_size self) n) Q s w.
Proof.
  intros Hw Hn HQ.
  assert (∀ flags, wp (mmap_anonymous_unsafe n flags) Q s w) as Hanon.
  { intros flags. destruct (grants_mmap 0 n prot_rw (anonymous flags) (-1) 0 w Hw Hn) as (p & w' & H & Hw').
    apply wp_mmap_anonymous; intros ? w1 H1; rewrite H in H1; [|done]. injection H1 as <- <-.
    apply trace_mmap in H. by eapply HQ. }
  unfold allocate_pages. destruct (page_size self) eqn:Hpg.
  - unfold Vfio.Vfio.allocate_4kib. wp_step. apply wp_get_statics. cbn [then_]. destruct (_ <? _); apply Hanon.
  - unfold Vfio.Vfio.allocate_2mib. wp_step. apply wp_get_statics. cbn [then_].
    rewrite (proj2 (Z.ltb_ge _ _)) by (by apply Hwide). apply Hanon.
  - apply Hanon.
Qed.

Lemma wp_quiet_allocate {S} n (s : S) w :
  inv w → 0 < n ≤ PAGESIZE_2MIB →
  wp (Vfio.Vfio.allocate self n) (quietly s w allocated) s w.
Proof.
  intros Hw Hn. change PAGESIZE_2MIB with 2097152 in Hn.
  pose proof (shift_up_small (page_size self) n ltac:(lia)) as Hl.
  unfold Vfio.Vfio.allocate. wp_step. apply wp_quiet_pages; [done..|].
  intros p w1 t Hw1 Ht1 Ha1. cbn [then_].
  set (c := map_call (iommu self) p (Pagesize.shift_up (page_size self) n)).
  destruct (grants_ioctl c.1.1 c.1.2 c.2 w1 Hw1) as (v & w2 & H2 & Hw2).
  apply wp_map_dma; fold c; intros ? ? H; rewrite H2 in H; [|done]. injection H as <- <-.
  apply trace_ioctl in H2. rewrite Ht1, <-app_assoc in H2. eexists _, _. split; [done|]. split; [done|].
  split; [exact Hl|]. split; [done|]. split; [exact H2|]. by rewrite accesses_app, Ha1.
Qed.

Lemma wp_quiet_deallocate {S} dma (s : S) w :
  inv w → allocated dma → wp (Vfio.Vfio.deallocate self dma) (quietly s w (λ _, True)) s w.
Proof.
  intros Hw Hdma. pose proof (shift_up_small (page_size self) _ Hdma) as Hl.
  set (c := unmap_call (iommu self) dma).
  destruct (grants_ioctl c.1.1 c.1.2 c.2 w Hw) as (v & w1 & H1 & Hw1).
  destruct (grants_munmap (virt dma) _ w1 Hw1 Hl) as (v2 & w2 & H2 & Hw2).
  unfold Vfio.Vfio.deallocate. wp_step. apply wp_unmap_dma; fold c; intros ? ? H; rewrite H1 in H; [|done].
  injection H as <- <-. cbn [then_]. wp_step.
  apply wp_munmap_unsafe; intros ? ? H; rewrite H2 in H; [|done]. injection H as <- <-. cbn [then_]. wp_step.
  apply trace_ioctl in H1. apply trace_munmap in H2. rewrite H1, <-app_assoc in H2.
  eexists _, _. split; [done|]. split; [done|]. split; [done|]. split; [done|]. by split; [exact H2|].
Qed.

End quiet.


(** A kernel that grants everything, and does nothing to the environment. *)
Definition granting_os {E} : Os E := {|
  os_mmap _ _ _ _ _ _ e m := (inr 0x40000000, (e, m));
  os_munmap _ _ e m := (inr 0, (e, m));
  os_mlock _ _ e m := (inr 0, (e, m));
  os_munlock _ _ e m := (inr 0, (e, m));
  os_ioctl _ _ arg e m := (inr (0, arg), (e, m));
  os_pread _ _ _ e m := (inr [], (e, m));
  os_pwrite _ _ _ e m := (inr 0, (e, m));
  os_open _ _ _ e m := (inr 3, (e, m));
  os_create _ e m := (inr 4, (e, m));
  os_seek _ off e m := (inr off, (e, m));
  os_read_exact _ _ e m := (inr [], (e, m));
  os_write_all _ _ e m := (inr 0, (e, m));
  os_read_to_string _ e m := (inr EmptyString, (e, m));
  os_read_link _ e m := (inr EmptyString, (e, m));
  os_exists _ e m := (inr true, (e, m));
  os_read_dir _ e m := (inr [], (e, m));
  os_file_len _ e m := (inr 16384, (e, m));
  os_pagesize := 4096;
  os_pid := 1;
  io_display _ := EmptyString;
  io_kind _ := EmptyString;
|}.

Definition wide {E} (w : World E) : Prop := X86_VA_WIDTH ≤ IOVA_WIDTH (statics w).

Lemma granting_grants {E} `{HW : Hardware E} : KernelGrants (OS:=granting_os) wide.
Proof.
  assert (∀ A call (val : A → Z) f w a, wide w → (∀ e m, (f e m).1 = inr a) →
    ∃ w', after_sys call val f w = (inr a, w') ∧ wide w') as H.
  { intros A call val f w a Hw Hf. destruct (after_sys_run call val f w) as (r & w' & Hrun & Hst & _).
    exists w'. unfold wide. rewrite Hst. split; [|exact Hw]. rewrite Hrun. f_equal.
    apply (f_equal fst) in Hrun. cbn [fst after_sys] in Hrun. by rewrite <-Hrun, Hf. }
  split; intros; eexists; by apply H.
Qed.

