(* ===== verification/Hugepage.v ===== *)
(** The back end without an IOMMU ([src/physical.rs]): physical addresses, and
    the device's command register.  The definitions are in [Physical.v]. *)

From stdpp Require Import gmap.
From S2P Require Import Prelude Bytes Machine Memory Mapping Format Os Ioctl Pci Vfio Physical Iommu.
#[local] Open Scope Z_scope.

(** Every failure is the [io::Error] of the last call. *)
Definition io_failure (t : list Event) (e : Error) : Prop :=
  ∃ call io, last t = Some (EvOs call (inl io)) ∧ e = Io io.

Lemma io_failure_snoc t call io : io_failure (t ++ [EvOs call (inl io)]) (Io io).
Proof. exists call, io. split; [apply last_snoc|done]. Qed.

(** ** Physical addresses *)

(** What [read_exact] promises. *)
Class ReadKernel {E} `{OS : Os E} : Prop :=
  read_exact_bytes : ∀ fd n e m bs st, os_read_exact fd n e m = (inr bs, st) →
    length bs = Z.to_nat n ∧ Forall is_byte bs.

(** The physical address of the byte at [a] by the pagemap entry of its page. *)
Definition translate (pagesize entry a : Z) : Z := entry `mod` 2 ^ 55 * pagesize + a `mod` pagesize.

Definition pagemap_calls (pagesize a fd entry off : Z) : list Event :=
  [EvOs (OsOpen "/proc/self/pagemap" false false) (inr fd);
   EvOs (OsSeek fd (a / pagesize * 8)) (inr off);
   EvOs (OsRead fd 8) (inr entry)].

Section physical.
Context {E S : Type} `{BLD : Build} `{HW : Hardware E} `{OS : Os E} `{LC : Libc}.
Implicit Types (s : S) (w : World E).

Lemma wp_file_seek fd off s w (Q : Res Z → S → World E → Prop) :
  (∀ v w', trace w' = trace w ++ [EvOs (OsSeek fd off) (inr v)] → Q (Ret v) s w') →
  (∀ e w', trace w' = trace w ++ [EvOs (OsSeek fd off) (inl e)] → Q (Err (Io e)) s w') →
  wp (file_seek fd off) Q s w.
Proof. intros. apply wp_sys_try; auto. Qed.

Lemma wp_file_write_all fd bs s w (Q : Res Z → S → World E → Prop) :
  (∀ v w', trace w' = trace w ++ [EvOs (OsWrite fd bs) (inr v)] → Q (Ret v) s w') →
  (∀ e w', trace w' = trace w ++ [EvOs (OsWrite fd bs) (inl e)] → Q (Err (Io e)) s w') →
  wp (file_write_all fd bs) Q s w.
Proof. intros. apply wp_sys_try; auto. Qed.

Lemma wp_file_read_exact `{RK : !ReadKernel} fd n s w (Q : Res (list Z) → S → World E → Prop) :
  (∀ bs w', length bs = Z.to_nat n → Forall is_byte bs →
     trace w' = trace w ++ [EvOs (OsRead fd n) (inr (le_val bs))] → Q (Ret bs) s w') →
  (∀ e w', trace w' = trace w ++ [EvOs (OsRead fd n) (inl e)] → Q (Err (Io e)) s w') →
  wp (file_read_exact fd n) Q s w.
Proof.
  intros Hr He. apply wp_sys_try; [|intros e w' _; apply He].
  intros bs w' [= Hbs _]. destruct (os_read_exact _ _ _ _) as [r st] eqn:Hrun. simpl in Hbs. subst r.
  destruct (read_exact_bytes _ _ _ _ _ _ Hrun). by apply Hr.
Qed.

Lemma wp_open_try path (write create : bool) s w (Q : Res Z → S → World E → Prop) :
  (∀ fd w', trace w' = trace w ++ [EvOs (OsOpen path write create) (inr fd)] → Q (Ret fd) s w') →
  (∀ e w', trace w' = trace w ++ [EvOs (OsOpen path write create) (inl e)] → Q (Err (Io e)) s w') →
  wp (r ← file_open path write create; io_try r) Q s w.
Proof. intros. apply wp_sys_try; auto. Qed.

(** The first step of a chain that continues after the [?]. *)
Lemma wp_assoc {A B C} (m : M E S A) (f : A → M E S B) (g : B → M E S C)
    (Q : Res C → S → World E → Prop) s w :
  wp ((m ≫= f) ≫= g) Q s w → wp (m ≫= λ a, f a ≫= g) Q s w.
Proof.
  unfold wp, mbind, M_bind. by destruct (m (s, w)) as [[a|e|p|] st].
Qed.

Lemma pfn_mask e : 0 ≤ e → Z.land e Physical.Physical.PFN_MASK = e `mod` 2 ^ 55.
Proof.
  intros. change Physical.Physical.PFN_MASK with (Z.ones 55). by rewrite Z.land_ones.
Qed.

Definition translated (a : Z) (w : World E) (r : Res Z) (w' : World E) : Prop :=
  ∃ t, trace w' = trace w ++ t ∧
  match r with
  | Ret ph => ∃ fd off entry, t = pagemap_calls os_pagesize a fd entry off ∧
      ph = wrap 64 (translate os_pagesize entry a) ∧
      (overflow_checks = true → translate os_pagesize entry a < 2 ^ 64)
  | Err e => io_failure t e
  | Panicked p => p = Overflow ∧ overflow_checks = true ∧
      ∃ fd off entry, t = pagemap_calls os_pagesize a fd entry off ∧
        2 ^ 64 ≤ translate os_pagesize entry a
  | Diverged => False
  end.

(** The arithmetic at the end. *)
Lemma wp_frame_address entry a s w (Q : Res Z → S → World E → Prop) :
  0 < os_pagesize → 0 ≤ entry →
  ((overflow_checks = true → translate os_pagesize entry a < 2 ^ 64) →
     Q (Ret (wrap 64 (translate os_pagesize entry a))) s w) →
  (overflow_checks = true → 2 ^ 64 ≤ translate os_pagesize entry a → Q (Panicked Overflow) s w) →
  wp (frame ← ck64 (Z.land entry Physical.Physical.PFN_MASK * os_pagesize);
      offset ← umod a os_pagesize;
      ck64 (frame + offset)) Q s w.
Proof.
  intros HP He HQ HO. rewrite pfn_mask by done. unfold translate in *.
  pose proof (Z.mod_pos_bound entry (2 ^ 55) ltac:(lia)). pose proof (Z.mod_pos_bound a os_pagesize HP).
  set (f := entry `mod` 2 ^ 55 * os_pagesize) in *. assert (0 ≤ f) by (unfold f; nia).
  set (o := a `mod` os_pagesize) in *.
  assert (∀ z, wrap 64 z = f `mod` 2 ^ 64 → overflow_checks = false ∨ (z = f ∧ f < 2 ^ 64) →
    wp (offset ← umod a os_pagesize; ck64 (z + offset)) Q s w) as Hrest.
  { intros z Hz Hf. do 2 (wp_step; try lia). fold o.
    assert (wrap 64 (z + o) = wrap 64 (f + o)) as Hw.
    { unfold wrap in *. rewrite <-(Z.add_mod_idemp_l f) by lia. rewrite <-Hz. by rewrite Z.add_mod_idemp_l by lia. }
    destruct (decide (0 ≤ z + o < 2 ^ 64)).
    - apply (wp_ck 64); [done|]. rewrite <-(wrap_small 64 (z + o)), Hw by done. apply HQ.
      intros Hc. destruct Hf as [Hf|[-> _]]; [by rewrite Hf in Hc|lia].
    - apply (wp_ck_overflow 64); [done| |].
      + intros Hc. destruct Hf as [Hf|[-> _]]; [by rewrite Hf in Hc|]. apply HO; [done|lia].
      + intros Hc. rewrite Hw. apply HQ. by rewrite Hc. }
  apply wp_bind. destruct (decide (f < 2 ^ 64)).
  - apply (wp_ck 64); [lia|]. apply Hrest; [by unfold wrap|by right].
  - apply (wp_ck_overflow 64); [lia| |].
    + intros Hc. apply HO; [done|lia].
    + intros Hc. cbn [then_]. apply Hrest; [|by left]. unfold wrap. by rewrite Z.mod_mod by lia.
Qed.

Lemma wp_virt_to_phys `{RK : !ReadKernel} a s w :
  8 ≤ os_pagesize → 0 ≤ a < 2 ^ 64 →
  wp (Physical.Physical.virt_to_phys a) (λ r s' w', s' = s ∧ translated a w r w') s w.
Proof.
  intros HP Ha. unfold Physical.Physical.virt_to_phys. apply wp_assoc, wp_bind, wp_open_try.
  2:{ intros e w1 H1. split; [done|]. eexists. split; [exact H1|]. apply (io_failure_snoc []). }
  intros fd w1 H1. cbn [then_]. do 2 (wp_step; try lia).
  assert (0 ≤ a / os_pagesize * 8 < 2 ^ 64).
  { assert (0 ≤ a / os_pagesize) by (apply Z.div_pos; lia).
    assert (os_pagesize * (a / os_pagesize) ≤ a) by (apply Z.mul_div_le; lia). nia. }
  do 2 (wp_step; try lia). wp_step. apply wp_file_seek.
  2:{ intros e w2 H2. split; [done|]. eexists. rewrite H2, H1, <-app_assoc. split; [done|].
      by apply (io_failure_snoc [_]). }
  intros off w2 H2. cbn [then_]. wp_step. apply wp_file_read_exact.
  2:{ intros e w3 H3. split; [done|]. eexists. rewrite H3, H2, H1, <-!app_assoc. split; [done|].
      by apply (io_failure_snoc [_; _]). }
  intros bs w3 Hlen Hbs H3. cbn [then_].
  pose proof (le_val_bound _ Hbs) as [? _].
  assert (trace w3 = trace w ++ pagemap_calls os_pagesize a fd (le_val bs) off) as Ht
    by (by rewrite H3, H2, H1, <-!app_assoc).
  apply wp_frame_address; [lia|done|intros Hfit|intros Hc Hbig]; (split; [done|]); eexists;
    (split; [exact Ht|]).
  - by exists fd, off, (le_val bs).
  - split; [done|]. split; [done|]. by exists fd, off, (le_val bs).
Qed.

End physical.

(** C31: the physical address of a byte, whatever the kernel answers.  The entry
    of the page is read at its place in the pagemap; the address is the frame in
    the entry's low 55 bits, whatever the flags above say, followed by the offset
    in the page.  An address of more than 64 bits is an overflow, which a build
    without checks does not notice.  An entry of 0, which the kernel gives for an
    absent page or to a process without privileges, is not told apart from
    frame 0. *)
Theorem virt_to_phys_translates `{BLD : Build} {E S} `{HW : Hardware E} `{OS : Os E} `{LC : Libc}
    (a : Z) (s : S) (w : World E) :
  ReadKernel → 8 ≤ os_pagesize → 0 ≤ a < 2 ^ 64 →
  (∃ r w', Physical.Physical.virt_to_phys a (s, w) = (r, (s, w')) ∧ translated a w r w') ∧
  (∀ frame flags b, 0 ≤ frame < 2 ^ 55 → 0 ≤ b < os_pagesize →
     let entry := frame + 2 ^ 55 * flags in
     translate os_pagesize entry (a / os_pagesize * os_pagesize + b) = frame * os_pagesize + b) ∧
  translate os_pagesize 0 a = a `mod` os_pagesize.
Proof.
  intros HK HP Ha. split; [|split].
  - pose proof (wp_virt_to_phys a s w HP Ha) as Hwp.
    apply wp_run in Hwp as (r & s' & w' & Hrun & -> & Ho). by exists r, w'.
  - intros frame flags b Hf Hb entry. unfold translate, entry.
    rewrite (Z.mul_comm (2 ^ 55)), Z.mod_add, Z.mod_small by lia.
    rewrite Z.add_comm, (Z.add_comm _ b), Z.mod_add, Z.mod_small by lia. lia.
  - unfold translate. rewrite Z.mod_0_l by lia. lia.
Qed.

Lemma demo_read_kernel file : Forall is_byte file → ReadKernel (OS:=demo_os file).
Proof.
  intros Hf fd n e m bs st. simpl. destruct (Z.ltb_spec (Z.of_nat (length file)) n); [done|].
  intros [= <- _]. split; [rewrite length_take; lia|by apply Forall_take].
Qed.

(** The entry of a page in memory with its soft-dirty flag: frame 5. *)
Definition demo_pagemap : list Z := le_bytes 8 (5 + 2 ^ 55 + 2 ^ 63).

Lemma virt_to_phys_translates_witness :
  ∃ w', Physical.Physical.virt_to_phys (BLD:=true) (HW:=quiet_hw) (OS:=demo_os demo_pagemap) 8195
      (tt, narrow_world 0) = (Ret (5 * 4096 + 3), (tt, w')).
Proof.
  destruct (virt_to_phys_translates (BLD:=true) (HW:=quiet_hw) (OS:=demo_os demo_pagemap)
    (LC:=linux_libc) 8195 tt (narrow_world 0) (demo_read_kernel _ (le_bytes_is_byte _ _)))
    as ((r & w' & Hrun & _) & _); [simpl; lia|lia|].
  exists w'. rewrite Hrun. f_equal. vm_compute in Hrun. by injection Hrun as <- _.
Defined.

(** ** The command register and initialisation *)

Definition config_path (pci_addr : string) : string := pci_path pci_addr "config".

(** One read-modify-write of the command register. *)
Definition command_calls (pci_addr : string) (bit fd v o1 o2 k : Z) : list Event :=
  [EvOs (OsOpen (config_path pci_addr) true false) (inr fd);
   EvOs (OsSeek fd 4) (inr o1);
   EvOs (OsRead fd 2) (inr v);
   EvOs (OsSeek fd 4) (inr o2);
   EvOs (OsWrite fd (le_bytes 2 (Z.lor v (Z.shiftl 1 bit)))) (inr k)].

Section init.
Context {E S : Type} `{HW : Hardware E} `{OS : Os E} `{RK : !ReadKernel}.
Implicit Types (s : S) (w : World E).

Definition command_outcome (pci_addr : string) (bit : Z) (w : World E) (r : Res unit) (w' : World E) : Prop :=
  ∃ t, trace w' = trace w ++ t ∧
  match r with
  | Ret _ => ∃ fd v o1 o2 k, t = command_calls pci_addr bit fd v o1 o2 k ∧ 0 ≤ v < 2 ^ 16
  | Err e => io_failure t e
  | _ => False
  end.

Lemma wp_set_command_bit self bit s w :
  wp (Physical.Physical.set_command_bit self bit) (λ r s' w', s' = s ∧
    command_outcome (physical_pci_addr self) bit w r w') s w.
Proof.
  unfold Physical.Physical.set_command_bit, read_io16, write_io16, read_io, write_io.
  apply wp_assoc, wp_bind, wp_open_try.
  2:{ intros e w1 H1. split; [done|]. eexists. split; [exact H1|]. apply (io_failure_snoc []). }
  intros fd w1 H1. cbn [then_]. do 2 wp_step. apply wp_file_seek.
  2:{ intros e w2 H2. split; [done|]. eexists. rewrite H2, H1, <-app_assoc. split; [done|].
      by apply (io_failure_snoc [_]). }
  intros o1 w2 H2. cbn [then_]. wp_step. apply wp_file_read_exact.
  2:{ intros e w3 H3. split; [done|]. eexists. rewrite H3, H2, H1, <-!app_assoc. split; [done|].
      by apply (io_failure_snoc [_; _]). }
  intros bs w3 Hlen Hbs H3. cbn [then_]. do 2 wp_step. apply wp_file_seek.
  2:{ intros e w4 H4. split; [done|]. eexists. rewrite H4, H3, H2, H1, <-!app_assoc. split; [done|].
      by apply (io_failure_snoc [_; _; _]). }
  intros o2 w4 H4. cbn [then_]. wp_step. apply wp_file_write_all.
  2:{ intros e w5 H5. split; [done|]. eexists. rewrite H5, H4, H3, H2, H1, <-!app_assoc. split; [done|].
      by apply (io_failure_snoc [_; _; _; _]). }
  intros k w5 H5. cbn [then_]. wp_step. split; [done|]. eexists. split.
  { by rewrite H5, H4, H3, H2, H1, <-!app_assoc. }
  exists fd, (le_val bs), o1, o2, k. split; [done|].
  pose proof (le_val_bound _ Hbs) as Hb. rewrite Hlen in Hb. exact Hb.
Qed.

(** The search of the driver's directory. *)
Lemma wp_find_device pci_addr entries s w (Q : Res bool → S → World E → Prop) :
  (inr (pci_addr, true) ∈ entries → Q (Ret true) s w) → Q (Ret false) s w →
  (∀ e, inl e ∈ entries → Q (Err (Io e)) s w) →
  wp (Physical.Physical.find_device pci_addr entries) Q s w.
Proof.
  intros Ht Hf He. induction entries as [|[e|[name link]] entries IH].
  - exact Hf.
  - apply He. by left.
  - cbn [Physical.Physical.find_device io_try]. do 2 wp_step. unfold Physical.Physical.is_device. cbn [fst snd].
    destruct link, (bool_decide_reflect (name = pci_addr)) as [->|]; cbn [andb];
      try (wp_step; apply Ht; by left); apply IH; intros; (apply Ht || apply He); by right.
Qed.

Definition not_bound : Error := Mmio "The device is not bound to Pci-Stub!".

Definition stub_link (pci_addr : string) (w : World E) : Prop :=
  ∃ entries w', after_sys (OsReadDir Physical.Physical.pci_stub_dir) (λ l, Z.of_nat (length l))
    (os_read_dir Physical.Physical.pci_stub_dir) w = (inr entries, w') ∧ inr (pci_addr, true) ∈ entries.

Definition looked (b k : Z) : list Event :=
  [EvOs (OsExists Physical.Physical.pci_stub_dir) (inr b);
   EvOs (OsReadDir Physical.Physical.pci_stub_dir) (inr k)].

(** No call of [t] writes a file. *)
Definition no_write (t : list Event) : Prop :=
  Forall (λ ev, match ev with EvOs (OsWrite _ _) _ | EvOs (OsOpen _ _ _) _ | EvOs (OsCreate _) _ => False
    | _ => True end) t.

Definition bound_outcome (pci_addr : string) (w : World E) (r : Res bool) (w' : World E) : Prop :=
  ∃ t, trace w' = trace w ++ t ∧ no_write t ∧
  match r with
  | Ret true => ∃ k w1, t = looked 1 k ∧ stub_link pci_addr w1
  | Ret false => True
  | Err e => ∃ io, e = Io io
  | _ => False
  end.

Lemma wp_is_bound self s w :
  wp (Physical.Physical.is_bound_to_pci_stub self) (λ r s' w', s' = s ∧
    bound_outcome (physical_pci_addr self) w r w') s w.
Proof.
  unfold Physical.Physical.is_bound_to_pci_stub, path_exists. do 2 wp_step. apply wp_sys.
  intros r w1 Hw1. pose proof (trace_after_sys _ _ _ _ _ _ Hw1) as H1. cbn [then_]. wp_step.
  assert (∀ ret, no_write [EvOs (OsExists Physical.Physical.pci_stub_dir) ret]) as Hno
    by (intros; by repeat constructor).
  destruct r as [e|[]].
  - wp_step. split; [done|]. eexists. split; [exact H1|]. by split.
  - apply wp_assoc, wp_bind, wp_sys_try; intros x w2 Hw2 H2; rewrite H1, <-app_assoc in H2; cbn [then_].
    + assert (∀ P, P → P ∧ bound_outcome (physical_pci_addr self) w (Ret false) w2) as Hfalse.
      { intros P HP. split; [exact HP|]. eexists. split; [exact H2|]. split; [by repeat constructor|done]. }
      apply wp_find_device; [|by apply Hfalse|].
      * intros Hin. split; [done|]. eexists. split; [exact H2|]. split; [by repeat constructor|].
        exists (Z.of_nat (length x)), w1. split; [done|]. by exists x, w2.
      * intros e _. split; [done|]. eexists. split; [exact H2|]. split; [by repeat constructor|by exists e].
    + split; [done|]. eexists. split; [exact H2|]. split; [by repeat constructor|by exists x].
  - wp_step. split; [done|]. eexists. split; [exact H1|]. by split.
Qed.

Definition init_outcome (pci_addr : string) (pg : Pagesize.Pagesize) (w : World E)
    (r : Res Physical.Physical) (w' : World E) : Prop :=
  ∃ t, trace w' = trace w ++ t ∧
  match r with
  | Ret mmio => mmio = mkPhysical pci_addr pg ∧
      ∃ k w1 fd v a b c fd' v' a' b' c', stub_link pci_addr w1 ∧
        t = looked 1 k ++ command_calls pci_addr 2 fd v a b c ++ command_calls pci_addr 10 fd' v' a' b' c'
  | Err e => (∃ io, e = Io io) ∨ (e = not_bound ∧ no_write t)
  | _ => False
  end.

Lemma wp_physical_init pci_addr pg s w :
  pg ≠ Pagesize.Page4K →
  wp (Physical.Physical.init_with_args pci_addr pg) (λ r s' w', s' = s ∧ init_outcome pci_addr pg w r w') s w.
Proof.
  intros Hpg. unfold Physical.Physical.init_with_args. rewrite bool_decide_eq_false_2 by done.
  do 3 wp_step. eapply wp_mono; [apply wp_is_bound|].
  intros r s1 w1 [-> (t1 & H1 & Hno & Hr)]. destruct r as [[]|e| |]; try done; cbn [then_].
  2:{ do 2 wp_step. split; [done|]. exists t1. split; [done|]. right. by split. }
  2:{ split; [done|]. exists t1. split; [done|]. by left. }
  destruct Hr as (k & wl & -> & Hlink). do 2 wp_step. unfold Physical.Physical.enable_dma. wp_step.
  eapply wp_mono; [apply wp_set_command_bit|]. intros r s2 w2 [-> (t2 & H2 & Hr2)].
  rewrite H1, <-app_assoc in H2. destruct r as [[]|e| |]; try done; cbn [then_].
  2:{ split; [done|]. eexists. split; [exact H2|]. left. destruct Hr2 as (call & io & _ & ->). by exists io. }
  destruct Hr2 as (fd & v & o1 & o2 & n & -> & _). unfold Physical.Physical.disable_interrupts. wp_step.
  eapply wp_mono; [apply wp_set_command_bit|]. intros r s3 w3 [-> (t3 & H3 & Hr3)].
  rewrite H2, <-!app_assoc in H3. destruct r as [[]|e| |]; try done; cbn [then_].
  2:{ split; [done|]. eexists. split; [exact H3|]. left. destruct Hr3 as (call & io & _ & ->). by exists io. }
  destruct Hr3 as (fd' & v' & o1' & o2' & n' & -> & _). wp_step. split; [done|].
  eexists. split; [exact H3|]. split; [done|].
  by exists k, wl, fd, v, o1, o2, n, fd', v', o1', o2', n'.
Qed.

End init.

(** C32: initialisation without an IOMMU, whatever the kernel answers.  4 KiB
    pages are refused before anything is touched.  Otherwise the call succeeds
    only if the directory of the pci-stub driver has a link with the device's
    address, and then it has made two read-modify-writes of the 16-bit command
    register: one that sets bit 2 (bus master), one that sets bit 10 (interrupts
    off), each leaving the other bits as they were read.  If the device is not
    bound to the driver, nothing has been written. *)
Theorem physical_init {E S} `{HW : Hardware E} `{OS : Os E}
    (pci_addr : string) (pg : Pagesize.Pagesize) (s : S) (w : World E) :
  ReadKernel →
  (pg = Pagesize.Page4K → Physical.Physical.init_with_args pci_addr pg (s, w) =
     (Err (Mmio "Pagesize 4K not supported for non-Vfio!"), (s, w))) ∧
  (pg ≠ Pagesize.Page4K → ∃ r w',
     Physical.Physical.init_with_args pci_addr pg (s, w) = (r, (s, w')) ∧
     init_outcome pci_addr pg w r w') ∧
  (∀ v bit i, 0 ≤ bit → 0 ≤ i → Z.testbit (Z.lor v (Z.shiftl 1 bit)) i = (i =? bit) || Z.testbit v i).
Proof.
  intros HK. split; [|split].
  - by intros ->.
  - intros Hpg. pose proof (wp_physical_init pci_addr pg s w Hpg) as Hwp.
    apply wp_run in Hwp as (r & s' & w' & Hrun & -> & Ho). by exists r, w'.
  - intros v bit i Hb Hi. rewrite Z.lor_spec, Z.shiftl_1_l, Z.pow2_bits_eqb, Z.eqb_sym by done.
    by rewrite orb_comm.
Qed.

Lemma physical_init_witness :
  ∃ w', Physical.Physical.init_with_args (HW:=quiet_hw) (OS:=demo_os [7; 1]) "0000:01:00.0"
      Pagesize.Page2M (tt, narrow_world 0) = (Ret (mkPhysical "0000:01:00.0" Pagesize.Page2M), (tt, w')).
Proof.
  assert (Forall is_byte [7; 1]) as Hb by (repeat constructor; done).
  destruct (physical_init (HW:=quiet_hw) (OS:=demo_os [7; 1]) "0000:01:00.0" Pagesize.Page2M tt
    (narrow_world 0) (demo_read_kernel _ Hb)) as (_ & H & _).
  destruct H as (r & w' & Hrun & _); [done|]. exists w'. rewrite Hrun. f_equal.
  vm_compute in Hrun. by injection Hrun as <- _.
Defined.
