(* ===== verification/Entry.v ===== *)
(** The entry points of [src/lib.rs]: what the driver looks at before it touches
    a device, and which devices it refuses.  The definitions are in [Lib.v]. *)

From stdpp Require Import gmap.
From S2P Require Import Prelude Bytes Machine Memory Cmd Mapping Queues Format Os Ioctl Pci Vfio Physical MemoryAccess QueuePair Device Lib Iommu Hugepage.
#[local] Open Scope Z_scope.

(** Calls that change nothing: opening for reading, seeking, reading. *)
Definition looks (ev : Event) : bool :=
  match ev with
  | EvOs (OsOpen _ false false) _ | EvOs (OsSeek _ _) _ | EvOs (OsRead _ _) _
  | EvOs (OsReadAll _) _ => true
  | _ => false
  end.

Definition only_looks (t : list Event) : Prop := Forall (λ ev, looks ev = true) t.

Lemma only_looks_snoc t ev : only_looks t → looks ev = true → only_looks (t ++ [ev]).
Proof. intros ? ?. apply Forall_app. by rewrite Forall_singleton. Qed.

(** The class and subclass: the upper half of the double word at offset 8. *)
Definition class_read (t : list Event) (class : Z) : Prop :=
  ∃ fd v, last t = Some (EvOs (OsRead fd 4) (inr v)) ∧ class = Z.shiftr v 16.

(** Why a device is refused, by the last call. *)
Definition refusal (pci_addr : string) (t : list Event) (e : Error) : Prop :=
  io_failure t e ∨
  (∃ fd n text, last t = Some (EvOs (OsReadAll fd) (inr n)) ∧
     ∃ msg, parse_hex text = inl msg ∧ e = Vroom msg) ∨
  (∃ class, class_read t class ∧ class ≠ 0x0108 ∧
     e = Vroom ("device " +:+ pci_addr +:+ " is not a block device")).

Definition class_outcome {E} (pci_addr : string) (w : World E) (r : Res unit) (w' : World E) : Prop :=
  ∃ t, trace w' = trace w ++ t ∧ only_looks t ∧
  match r with
  | Ret _ => class_read t 0x0108
  | Err e => refusal pci_addr t e
  | Panicked p => p = ExpectErr "wrong pci address" ∧
      ∃ path e, last t = Some (EvOs (OsOpen path false false) (inl e))
  | Diverged => False
  end.

Section entry.
Context {E S : Type} `{HW : Hardware E} `{OS : Os E}.
Implicit Types (s : S) (w : World E).

(** One of the three files opened; [t0] is what was done before. *)
Lemma wp_open_file {A} pci_addr resource (k : Z → M E S A) (Q : Res A → S → World E → Prop) s w w0 t0 :
  trace w = trace w0 ++ t0 → only_looks t0 →
  (∀ e w' t, trace w' = trace w0 ++ t → only_looks t →
     last t = Some (EvOs (OsOpen (pci_path pci_addr resource) false false) (inl e)) →
     Q (Panicked (ExpectErr "wrong pci address")) s w') →
  (∀ fd w' t, trace w' = trace w0 ++ t → only_looks t → wp (k fd) Q s w') →
  wp (fd ← expect "wrong pci address" (pci_open_resource_ro pci_addr resource); k fd) Q s w.
Proof.
  intros Ht Hl Hp Hk. wp_step. apply wp_expect, wp_open_try.
  - intros fd w' Hw'. rewrite Ht, <-app_assoc in Hw'. eapply Hk; [exact Hw'|]. by apply only_looks_snoc.
  - intros e w' Hw'. rewrite Ht, <-app_assoc in Hw'. eapply Hp; [exact Hw'| |apply last_snoc].
    by apply only_looks_snoc.
Qed.

(** A number read from such a file. *)
Lemma wp_read_hex {A} pci_addr fd (k : M E S A) (Q : Res A → S → World E → Prop) s w w0 t0 :
  trace w = trace w0 ++ t0 → only_looks t0 →
  (∀ e w' t, trace w' = trace w0 ++ t → only_looks t → refusal pci_addr t e → Q (Err e) s w') →
  (∀ w' t, trace w' = trace w0 ++ t → only_looks t → wp k Q s w') →
  wp (_ ← read_hex fd; k) Q s w.
Proof.
  intros Ht Hl He Hk. wp_step. unfold read_hex, file_read_to_string. wp_step.
  apply wp_sys_try.
  - intros text w' _ Hw'. rewrite Ht, <-app_assoc in Hw'. cbn [then_].
    destruct (parse_hex text) as [msg|v] eqn:Hp; wp_step.
    + eapply He; [exact Hw'|by apply only_looks_snoc|]. right. left.
      eexists _, _, text. split; [apply last_snoc|]. by exists msg.
    + eapply Hk; [exact Hw'|]. by apply only_looks_snoc.
  - intros e w' _ Hw'. rewrite Ht, <-app_assoc in Hw'. cbn [then_].
    eapply He; [exact Hw'|by apply only_looks_snoc|]. left. apply io_failure_snoc.
Qed.

Lemma wp_check_class pci_addr s w :
  wp (check_class pci_addr) (λ r s' w', s' = s ∧ class_outcome pci_addr w r w') s w.
Proof.
  assert (trace w = trace w ++ []) as H0 by by rewrite app_nil_r.
  unfold check_class.
  apply (wp_open_file _ _ _ _ _ _ w []); [done|constructor| |].
  { intros e w' t Ht Hl He. split; [done|]. exists t. split_and!; eauto. }
  intros f1 w1 t1 Ht1 Hl1. apply (wp_open_file _ _ _ _ _ _ w t1); [done|done| |].
  { intros e w' t Ht Hl He. split; [done|]. exists t. split_and!; eauto. }
  intros f2 w2 t2 Ht2 Hl2. apply (wp_open_file _ _ _ _ _ _ w t2); [done|done| |].
  { intros e w' t Ht Hl He. split; [done|]. exists t. split_and!; eauto. }
  intros f3 w3 t3 Ht3 Hl3. apply (wp_read_hex pci_addr _ _ _ _ _ w t3); [done|done| |].
  { intros e w' t Ht Hl He. split; [done|]. by exists t. }
  intros w4 t4 Ht4 Hl4. apply (wp_read_hex pci_addr _ _ _ _ _ w t4); [done|done| |].
  { intros e w' t Ht Hl He. split; [done|]. by exists t. }
  intros w5 t5 Ht5 Hl5. unfold read_io32, read_io. do 2 wp_step. apply wp_file_seek.
  2:{ intros e w' Hw'. rewrite Ht5, <-app_assoc in Hw'. cbn [then_]. split; [done|]. eexists.
      split; [exact Hw'|]. split; [by apply only_looks_snoc|]. left. apply io_failure_snoc. }
  intros off w6 Ht6. rewrite Ht5, <-app_assoc in Ht6. cbn [then_]. wp_step. apply wp_sys_try.
  2:{ intros e w' _ Hw'. rewrite Ht6, <-app_assoc in Hw'. cbn [then_]. split; [done|]. eexists.
      split; [exact Hw'|]. split; [apply only_looks_snoc; [by apply only_looks_snoc|done]|]. left. apply io_failure_snoc. }
  intros bs w7 _ Ht7. rewrite Ht6, <-app_assoc in Ht7. cbn [then_]. wp_step.
  assert (only_looks (t5 ++ [EvOs (OsSeek f3 8) (inr off)] ++ [EvOs (OsRead f3 4) (inr (le_val bs))]))
    as Hl7
    by (rewrite app_assoc; apply only_looks_snoc; [by apply only_looks_snoc|done]).
  assert (class_read (t5 ++ [EvOs (OsSeek f3 8) (inr off)] ++ [EvOs (OsRead f3 4) (inr (le_val bs))])
    (Z.shiftr (le_val bs) 16)) as Hc.
  { exists f3, (le_val bs). split; [|done]. rewrite app_assoc. apply last_snoc. }
  rewrite <-app_assoc in Ht7.
  destruct (Z.eqb_spec (Z.shiftr (le_val bs) 16) 0x0108) as [Hv|Hv]; cbn [negb]; wp_step;
    (split; [done|]); eexists; (split; [exact Ht7|]); (split; [exact Hl7|]).
  - by rewrite Hv in Hc.
  - right. right. by exists (Z.shiftr (le_val bs) 16).
Qed.

(** C26: before it changes anything, the driver looks at what the device is.  For
    every kernel, hardware and starting state, [init_with_page_size] first does
    nothing but open the three files of the device for reading, read them and
    seek in them.  It goes on to the allocator and the device, from the world
    this left, exactly when the double word read last has 0x0108 in its upper
    half.  Otherwise that is all it does: it panics when a file cannot be
    opened, and returns the error of the call that failed, of the text that is
    not a number, or the error that the device is not a block device. *)
Theorem init_checks_class `{BLD : Build} `{FUEL : Fuel} `{LC : Libc} (pci_addr : string)
    (page_size : Pagesize.Pagesize) (s : S) (w : World E) :
  ∃ t w1, trace w1 = trace w ++ t ∧ only_looks t ∧
  let run := Lib.init_with_page_size pci_addr page_size (s, w) in
  (class_read t 0x0108 ∧
   run = (allocator ← MemoryAccess.init_with_page_size pci_addr page_size;
          nvme ← NvmeDevice.init pci_addr allocator;
          r ← with_local nvme identify_device;
          mret r.2) (s, w1)) ∨
  (∃ e, refusal pci_addr t e ∧ run = (Err e, (s, w1))) ∨
  (∃ path e, last t = Some (EvOs (OsOpen path false false) (inl e)) ∧
   run = (Panicked (ExpectErr "wrong pci address"), (s, w1))).
Proof.
  destruct (wp_run _ _ _ _ (wp_check_class pci_addr s w)) as (r&s'&w1&Hr&->&t&Ht&Hl&Hc).
  exists t, w1. split_and!; [done|done|]. unfold Lib.init_with_page_size.
  destruct r as [[]|e|p|]; [left|right; left|right; right|done].
  - split; [exact Hc|]. unfold mbind at 1, M_bind. by rewrite Hr.
  - exists e. split; [exact Hc|]. unfold mbind at 1, M_bind. by rewrite Hr.
  - destruct Hc as (->&path&e&Hc). exists path, e. split; [exact Hc|].
    unfold mbind at 1, M_bind. by rewrite Hr.
Qed.

End entry.
