(* ===== verification/Batch.v ===== *)
(** [batched_write] and [batched_read] of [src/nvme.rs]: many requests in
    flight at once, awaited together.  The definitions are in [Io.v]; here are
    the commands of a whole transfer and the bytes that they describe. *)

From stdpp Require Import gmap.
From S2P Require Import Prelude Bytes Machine Memory Cmd Mapping Queues Service QueuePair Device Setup Startup Io Prp.
#[local] Open Scope Z_scope.

(** ** The requests of one chunk *)

(** How a chunk of [n] bytes is cut: the number of requests, their bytes and
    their blocks. *)
Definition batch_count (b n : Z) : Z := Z.min b (n / 512).
Definition request_size (b n : Z) : Z := n / batch_count b n.
Definition request_blocks (ns : NvmeNamespace) (b n : Z) : Z := request_size b n / block_size ns.

Section requests.
Context {A : Type} (d : NvmeDevice A) (ns : NvmeNamespace) (write : bool) (b : Z).

Definition batch_ptr1 (blocks addr : Z) : Z :=
  if blocks * block_size ns <=? 4096 then 0
  else if blocks * block_size ns <=? 8192 then addr + 4096
  else phys (prp_list d) + (addr - phys (buffer d)) / 8.

Definition request_cmd (k lba n i : Z) : NvmeCommand :=
  let blocks := request_blocks ns b n in
  let addr := phys (buffer d) + request_size b n * i in
  (if write then NvmeCommand.io_write else NvmeCommand.io_read)
    ((k + i) `mod` sq_len (io_sq d)) (nsp_id ns) (lba + blocks * i) (blocks - 1) addr
    (batch_ptr1 blocks addr).

(** One request is a store and a ring, the whole batch ends with one
    acknowledgement. *)
Definition request_events (k lba n i : Z) : list Event :=
  [EvStore (sq_slot (io_sq d) ((k + i) `mod` sq_len (io_sq d)))
     (NvmeCommand.encode (request_cmd k lba n i));
   EvWrite 4 (doorbell_at d 1 0) ((k + i + 1) `mod` sq_len (io_sq d))].

Definition batch_events (k lba n : Z) : list Event :=
  (zrange 0 (batch_count b n) ≫= request_events k lba n) ++
  [EvWrite 4 (doorbell_at d 1 1) ((k + batch_count b n) `mod` cq_len (io_cq d))].

(** A chunk that can be cut, for the rings of the device. *)
Definition batch_ok (n : Z) : Prop :=
  0 ≤ n ≤ PAGESIZE_2MIB ∧ 1 ≤ batch_count b n ≤ cq_len (io_cq d) ∧
  batch_count b n < sq_len (io_sq d) ∧ 1 ≤ request_blocks ns b n.

(** The buffer and the list at addresses a device can have. *)
Definition buffer_ok : Prop :=
  0 ≤ phys (buffer d) ∧ phys (buffer d) + PAGESIZE_2MIB + 4096 < 2 ^ 64 ∧
  0 ≤ phys (prp_list d) ∧ phys (prp_list d) + PAGESIZE_2MIB < 2 ^ 64.

(** The namespace as identify can give it. *)
Definition namespace_ok : Prop := 512 ≤ block_size ns < 2 ^ 32.

Lemma request_bounds n :
  batch_ok n → namespace_ok →
  512 ≤ request_size b n ≤ PAGESIZE_2MIB ∧ batch_count b n * request_size b n ≤ n ∧
  request_blocks ns b n * block_size ns ≤ request_size b n ∧ request_blocks ns b n ≤ 4096.
Proof.
  intros (Hn & Hc & _ & Hb) Hns. unfold namespace_ok in Hns. change PAGESIZE_2MIB with 2097152 in *.
  unfold request_blocks in *. set (c := batch_count b n) in *.
  assert (c ≤ n / 512) as Hcn by (unfold c, batch_count; lia).
  assert (c * 512 ≤ n) as Hc512 by (pose proof (Z.mul_div_le n 512 ltac:(lia)); lia).
  assert (c * request_size b n ≤ n) as Hcs by (apply Z.mul_div_le; lia).
  assert (512 ≤ request_size b n) by (unfold request_size; fold c; apply Z.div_le_lower_bound; lia).
  assert (request_size b n ≤ n) by nia.
  pose proof (Z.mul_div_le (request_size b n) (block_size ns) ltac:(lia)) as Hbs.
  rewrite (Z.mul_comm (block_size ns)) in Hbs.
  repeat split; try lia; nia.
Qed.

End requests.

(** ** The run of one batch *)

(** The device with [i] requests of a batch submitted. *)
Definition batch_pos {A} (d : NvmeDevice A) (k i h : Z) (s : NvmeStats) : NvmeDevice A :=
  io_dev d (k + i) k h (mkNvmeStats (completions s) (submissions s + i)).

(** Requests of a batch are in flight together. *)
Class BatchService {A E} `{FUEL : Fuel} `{HW : Hardware E} (d : NvmeDevice A)
    (posted : Z → NvmeCompletion) (N : nat) (serves : Z → Z → Z → World E → Prop) : Prop := {
  batch_io :: IoService d posted N serves;
  batch_service : CqService (io_cq d) posted (doorbell_at d 1 0) (sq_len (io_sq d)) N serves;
}.

Section batch.
Context {A E : Type} `{BLD : Build} `{FUEL : Fuel} `{HW : Hardware E}.
Context (d : NvmeDevice A) (posted : Z → NvmeCompletion) (N : nat).
Context (serves : Z → Z → Z → World E → Prop) `{IS : !BatchService d posted N serves}.
Context (ns : NvmeNamespace) (write : bool) (b : Z).
Context (Hns : namespace_ok ns) (Hbuf : buffer_ok d).

Let SV : CqService (io_cq d) posted (doorbell_at d 1 0) (sq_len (io_sq d)) N serves := batch_service.
Let Hd : dev_ok d := io_dev_ok.
#[local] Existing Instance SV.

(** [submit_io] with room in the ring: the request is stored, and its new tail
    returned. *)
Lemma wp_submit_io k lba n i s w (Q : Res (option Z) → NvmeDevice A → World E → Prop) :
  batch_ok d ns b n → 0 ≤ i < batch_count b n → 0 ≤ k →
  let t := (k + i) `mod` sq_len (io_sq d) in
  let t' := (k + i + 1) `mod` sq_len (io_sq d) in
  Q (Ret (Some t'))
    (io_dev d (k + i + 1) k (k `mod` sq_len (io_sq d)) s)
    (stored (sq_slot (io_sq d) t) (NvmeCommand.encode (request_cmd d ns write b k lba n i)) (tick w)) →
  wp (Io.submit_io ns (phys (buffer d) + request_size b n * i) (request_blocks ns b n)
        (lba + request_blocks ns b n * i) write) Q
    (io_dev d (k + i) k (k `mod` sq_len (io_sq d)) s) w.
Proof.
  intros Hok Hi Hk t t' HQ. pose proof Hok as (Hn & Hc & Hsl & Hbl).
  destruct (request_bounds d ns b n Hok Hns) as (Hs1 & Hs2 & Hs3 & Hs4).
  destruct io_rings as (Hlen & _). pose proof Hlen as Hlen'. rewrite QUEUE_LENGTH_value in Hlen'.
  destruct Hbuf as (? & ? & ? & ?). unfold namespace_ok in Hns. change PAGESIZE_2MIB with 2097152 in *.
  pose proof (Z.mod_pos_bound k (sq_len (io_sq d)) ltac:(lia)).
  pose proof (Z.mod_pos_bound (k + i) (sq_len (io_sq d)) ltac:(lia)).
  assert (0 ≤ request_size b n * i ≤ 2097152) by nia.
  set (o := request_size b n * i) in *. set (addr := phys (buffer d) + o).
  set (bl := request_blocks ns b n) in *.
  assert (0 ≤ bl * block_size ns) by (apply Z.mul_nonneg_nonneg; lia).
  unfold Io.submit_io, assert.
  rewrite (proj2 (Z.ltb_lt 0 bl)), (proj2 (Z.leb_le bl 0x10000)) by lia.
  do 4 wp_step. do 2 (wp_step; try lia). do 2 wp_step. wp_step.
  change (prp_list (io_dev _ _ _ _ _)) with (prp_list d).
  change (buffer (io_dev _ _ _ _ _)) with (buffer d).
  apply wp_mono with (λ r d' w', r = Ret (batch_ptr1 d ns bl addr) ∧
    d' = io_dev d (k + i) k (k `mod` sq_len (io_sq d)) s ∧ w' = w).
  { unfold batch_ptr1, addr. destruct (_ <=? 4096); [by wp_step|].
    destruct (_ <=? 8192); [by wp_step; try lia|].
    do 2 (wp_step; try lia). replace (phys (buffer d) + o - phys (buffer d)) with o by lia.
    assert (0 ≤ o / 8 ≤ 2097152) by (split; [apply Z.div_pos|apply Z.div_le_upper_bound]; lia).
    by wp_step; try lia. }
  intros ? ? ? (-> & -> & ->). cbn [then_]. wp_step. apply (wp_io_entry d posted N serves).
  { apply io_rejected_small. lia. }
  cbn [then_]. wp_step. apply wp_submit_checked.
  - unfold sq_ok. simpl. lia.
  - simpl. rewrite mod_succ_mod by lia. intros He. apply mod_eq_near in He; lia.
  - change (sq_tail (io_sq (io_dev d (k + i) k (k `mod` sq_len (io_sq d)) s))) with t.
    change (sq_len (io_sq (io_dev d (k + i) k (k `mod` sq_len (io_sq d)) s))) with (sq_len (io_sq d)).
    unfold t in *. rewrite mod_succ_mod by lia. exact HQ.
Qed.

Lemma batch_room n : batch_ok d ns b n → 0 ≤ batch_count b n.
Proof. intros (_ & ? & _). lia. Qed.

(** The loop that submits a batch into an empty ring. *)
Lemma wp_submit_batch k lba n s w (Q : Res Z → NvmeDevice A → World E → Prop) :
  batch_ok d ns b n → stats_room s (batch_count b n) → serves k k k w →
  0 ≤ lba → lba + batch_count b n * request_blocks ns b n < 2 ^ 64 →
  (∀ P w', serves (k + batch_count b n) k P w' →
     trace w' = trace w ++ (zrange 0 (batch_count b n) ≫= request_events d ns write b k lba n) →
     Q (Ret (lba + batch_count b n * request_blocks ns b n))
       (batch_pos d k (batch_count b n) (k `mod` sq_len (io_sq d)) s) w') →
  wp (Io.submit_batch ns write (batch_count b n) (request_size b n) (request_blocks ns b n) lba) Q
    (io_pos d k (k `mod` sq_len (io_sq d)) s) w.
Proof.
  intros Hok (? & ? & ? & ?) Hw Hl0 Hl HQ. pose proof Hok as (Hn & Hc & Hsl & Hbl).
  destruct (request_bounds d ns b n Hok Hns) as (Hs1 & Hs2 & Hs3 & Hs4).
  pose proof Hbuf as (? & ? & ? & ?). change PAGESIZE_2MIB with 2097152 in *.
  destruct io_rings as (Hlen & _ & _ & Hap). rewrite QUEUE_LENGTH_value in Hlen. pose proof io_stride.
  destruct (service_view _ _ _ _ Hw) as (_ & (? & ?) & _).
  set (h := k `mod` sq_len (io_sq d)) in *. set (c := batch_count b n) in *.
  set (bl := request_blocks ns b n) in *.
  set (I := λ i l d' w', l = lba + bl * i ∧ d' = batch_pos d k i h s ∧
    ∃ P, serves (k + i) k P w' ∧
      trace w' = trace w ++ (zrange 0 i ≫= request_events d ns write b k lba n)).
  unfold Io.submit_batch. rewrite <-(list_fmap_id (zrange 0 c)).
  apply (wp_for_fold id c I); [|lia| |].
  - intros i l d' w1 Hi (-> & -> & P & HP & Ht). unfold id.
    assert (0 ≤ request_size b n * i ≤ 2097152) by nia. assert (0 ≤ bl * (i + 1) ≤ c * bl) by nia.
    pose proof (Z.mod_pos_bound (k + i) (sq_len (io_sq d)) ltac:(lia)).
    pose proof (Z.mod_pos_bound (k + i + 1) (sq_len (io_sq d)) ltac:(lia)).
    do 3 wp_step. change (buffer (batch_pos d k i h s)) with (buffer d). rewrite (Z.mul_comm i).
    do 4 (wp_step; try lia). apply (wp_submit_io k lba n i); [done..|]. cbn [then_].
    unfold Io.count_submission. do 5 wp_step. wp_step; [simpl; lia|]. wp_step.
    apply (wp_write_reg_idx d SQyTDBL); try done; try (simpl; lia);
      [by apply (io_doorbell_offset d posted N serves 0)|].
    unfold as_u32. rewrite wrap_small by lia. cbn [then_ doorbell_kind]. wp_step.
    eexists. split; [reflexivity|]. split; [lia|]. split.
    { unfold batch_pos. by rewrite !Z.add_assoc. }
    destruct (service_submit_more (io_cq d) posted (doorbell_at d 1 0) (sq_len (io_sq d)) N serves
      _ _ _ _ (sq_slot (io_sq d) ((k + i) `mod` sq_len (io_sq d)))
      (NvmeCommand.encode (request_cmd d ns write b k lba n i)) HP) as (P' & HP');
      [lia|rewrite encode_length; auto|].
    exists P'. rewrite Z.add_assoc. split; [exact HP'|].
    rewrite zrange_bind_snoc by lia. access_trace. rewrite Ht, <-!app_assoc. done.
  - split; [lia|]. split.
    + unfold batch_pos, io_pos. rewrite !Z.add_0_r. by destruct s.
    + exists k. rewrite Z.add_0_r. split; [done|by rewrite app_nil_r].
  - intros l d' w1 (-> & -> & P & HP & Ht). rewrite (Z.mul_comm bl). by apply (HQ P).
Qed.

(** [batch] from an empty ring: the last completion of the batch decides. *)
Lemma wp_batch k lba n s w (Q : Res Z → NvmeDevice A → World E → Prop) :
  batch_ok d ns b n → stats_room s (batch_count b n) → serves k k k w →
  0 ≤ lba → lba + batch_count b n * request_blocks ns b n < 2 ^ 64 →
  (Z.to_nat (batch_count b n) * N < spin_fuel)%nat →
  let k' := k + batch_count b n in
  let last := posted (k' - 1) in
  (∀ w', serves k' k' k' w' → trace w' = trace w ++ batch_events d ns write b k lba n →
     let s' := mkNvmeStats (completions s) (submissions s + batch_count b n) in
     if sc_field last =? 0
     then Q (Ret (lba + batch_count b n * request_blocks ns b n))
            (io_pos d k' (cpl_sq_head last) (mkNvmeStats (completions s + 1) (submissions s'))) w'
     else Q (Panicked UnwrapNone) (io_pos d k' (k `mod` sq_len (io_sq d)) s') w') →
  wp (Io.batch ns write b lba n) Q (io_pos d k (k `mod` sq_len (io_sq d)) s) w.
Proof.
  intros Hok Hs Hw Hl0 Hl Hfuel k' last HQ. pose proof Hok as (Hn & Hc & _). pose proof Hns.
  unfold namespace_ok in *. pose proof Hs as (? & ? & ? & ?).
  unfold Io.batch. change (Z.min b (n / 512)) with (batch_count b n).
  do 2 wp_step. fold (request_size b n). do 2 wp_step. fold (request_blocks ns b n). wp_step.
  apply wp_submit_batch; [done..|]. intros P w1 HP Ht. cbn [then_]. wp_step.
  apply (wp_complete_io_n d posted N serves (batch_count b n) k P); [done|lia|done|simpl; lia..|].
  intros w2 Hw2 Ht2. cbn zeta. fold k' last in Hw2, Ht2 |- *.
  apply HQ in Hw2; [|by rewrite Ht2, Ht, <-app_assoc]. cbn zeta in Hw2.
  destruct (sc_field last =? 0); cbn [then_]; wp_step; apply wp_unwrap; cbn [then_]; [|exact Hw2].
  do 3 wp_step. exact Hw2.
Qed.

End batch.

(** ** A whole transfer *)

Section transfer.
Context {A : Type} (d : NvmeDevice A) (ns : NvmeNamespace) (write : bool) (b : Z).

Definition bytes_of (c : list Z) : Z := Z.of_nat (length c).

(** The data of a write is copied to the buffer first. *)
Definition copied (c : list Z) : list Event := if write then [EvStore (virt (buffer d)) c] else [].

Fixpoint batched_events (k lba : Z) (cs : list (list Z)) : list Event :=
  match cs with
  | [] => []
  | c :: cs =>
    let n := bytes_of c in
    copied c ++ batch_events d ns write b k lba n ++
    batched_events (k + batch_count b n) (lba + batch_count b n * request_blocks ns b n) cs
  end.

Fixpoint total_count (cs : list (list Z)) : Z :=
  match cs with [] => 0 | c :: cs => batch_count b (bytes_of c) + total_count cs end.

Fixpoint total_blocks (cs : list (list Z)) : Z :=
  match cs with
  | [] => 0
  | c :: cs => batch_count b (bytes_of c) * request_blocks ns b (bytes_of c) + total_blocks cs
  end.

(** The last completion of each batch is a success and reports that every
    command has been fetched; nothing is asked of the others. *)
Fixpoint ends_ok (posted : Z → NvmeCompletion) (k : Z) (cs : list (list Z)) : Prop :=
  match cs with
  | [] => True
  | c :: cs =>
    let k' := k + batch_count b (bytes_of c) in
    sc_field (posted (k' - 1)) = 0 ∧ cpl_sq_head (posted (k' - 1)) = k' `mod` sq_len (io_sq d) ∧
    ends_ok posted k' cs
  end.

(** A chunk of the data that the buffer can hold. *)
Definition chunk_ok (c : list Z) : Prop :=
  batch_ok d ns b (bytes_of c) ∧ bytes_of c ≤ size (buffer d) ∧
  cq_apart (io_cq d) (virt (buffer d)) (length c).

Lemma totals_nonneg cs :
  Forall chunk_ok cs → 0 ≤ total_count cs ∧ 0 ≤ total_blocks cs ∧ Z.of_nat (length cs) ≤ total_count cs.
Proof.
  induction 1 as [|c cs ((_ & ? & _ & ?) & _) _ IH]; [simpl; lia|]. cbn [total_count total_blocks length].
  assert (0 ≤ batch_count b (bytes_of c) * request_blocks ns b (bytes_of c)) by nia. lia.
Qed.

End transfer.

Section transfers.
Context {A E : Type} `{BLD : Build} `{FUEL : Fuel} `{HW : Hardware E}.
Context (d : NvmeDevice A) (posted : Z → NvmeCompletion) (N : nat).
Context (serves : Z → Z → Z → World E → Prop) `{IS : !BatchService d posted N serves}.
Context (ns : NvmeNamespace) (b : Z) (Hns : namespace_ok ns) (Hbuf : buffer_ok d).
Context (Hfuel : (Z.to_nat (Z.min b 4096) * N < spin_fuel)%nat).

Let SV : CqService (io_cq d) posted (doorbell_at d 1 0) (sq_len (io_sq d)) N serves := batch_service.
#[local] Existing Instance SV.

(** The device between two batches. *)
Definition between (k : Z) (s : NvmeStats) : NvmeDevice A := io_pos d k (k `mod` sq_len (io_sq d)) s.

Lemma wp_copy_to_buffer k s c w (Q : Res unit → NvmeDevice A → World E → Prop) :
  chunk_ok d ns b c → serves k k k w →
  (∀ w', serves k k k w' → trace w' = trace w ++ copied d true c → Q (Ret tt) (between k s) w') →
  wp (Io.copy_to_buffer c) Q (between k s) w.
Proof.
  intros (((? & ?) & _) & ? & ?) Hw HQ. unfold bytes_of in *. change PAGESIZE_2MIB with 2097152 in *.
  unfold Io.copy_to_buffer, Dma.index_to, Dma.index_range, assert. do 2 wp_step.
  change (buffer (between k s)) with (buffer d). rewrite (proj2 (Z.leb_le _ _)) by done.
  do 5 wp_step. wp_step. simpl. rewrite Z.add_0_r. apply HQ; [|unfold copied; by world].
  apply (service_store _ _ _ _ (virt (buffer d)) c);
    [by apply (service_idle_tick (io_cq d) posted (doorbell_at d 1 0) (sq_len (io_sq d)) N serves)|done].
Qed.

Lemma wp_copy_from_buffer k s c w (Q : Res (list Z) → NvmeDevice A → World E → Prop) :
  chunk_ok d ns b c → serves k k k w →
  (∀ bs w', length bs = length c → serves k k k w' → trace w' = trace w →
     Q (Ret bs) (between k s) w') →
  wp (Io.copy_from_buffer (bytes_of c)) Q (between k s) w.
Proof.
  intros (((? & ?) & _) & ? & ?) Hw HQ. unfold bytes_of in *. change PAGESIZE_2MIB with 2097152 in *.
  unfold Io.copy_from_buffer, Dma.index_to, Dma.index_range, assert. do 2 wp_step.
  change (buffer (between k s)) with (buffer d). rewrite (proj2 (Z.leb_le _ _)) by done.
  do 6 wp_step. apply wp_load, HQ; [rewrite load_bytes_length; simpl; lia| |by rewrite trace_tick].
  by apply (service_idle_tick (io_cq d) posted (doorbell_at d 1 0) (sq_len (io_sq d)) N serves).
Qed.

(** One batch of the loop whose last completion is as it should be. *)
Lemma wp_good_batch (write : bool) k lba c s w (Q : Res Z → NvmeDevice A → World E → Prop) :
  let n := bytes_of c in let k' := k + batch_count b n in
  chunk_ok d ns b c → stats_room s (batch_count b n) → serves k k k w →
  0 ≤ lba → lba + batch_count b n * request_blocks ns b n < 2 ^ 64 →
  sc_field (posted (k' - 1)) = 0 → cpl_sq_head (posted (k' - 1)) = k' `mod` sq_len (io_sq d) →
  (∀ w', serves k' k' k' w' → trace w' = trace w ++ batch_events d ns write b k lba n →
     Q (Ret (lba + batch_count b n * request_blocks ns b n))
       (between k' (mkNvmeStats (completions s + 1) (submissions s + batch_count b n))) w') →
  wp (Io.batch ns write b lba n) Q (between k s) w.
Proof.
  intros n k' ((Hn & Hc & ?) & _ & _) Hs Hw Hl0 Hl Hsc Hsh HQ.
  change PAGESIZE_2MIB with 2097152 in *.
  assert (batch_count b n ≤ Z.min b 4096).
  { unfold batch_count. assert (n / 512 ≤ 4096) by (apply Z.div_le_upper_bound; lia). lia. }
  apply (wp_batch d posted N serves ns write b Hns Hbuf); try done.
  { eapply Nat.le_lt_trans; [apply Nat.mul_le_mono_r|exact Hfuel]. lia. }
  cbn zeta. intros w' Hw' Ht. fold n k' in Hw' |- *. rewrite Hsc, Hsh. simpl. by apply HQ.
Qed.

(** The loops of [batched_write] and [batched_read]. *)
Definition batches_done (write : bool) k lba s cs (w : World E) (lba' : Z) (d' : NvmeDevice A)
    (w' : World E) : Prop :=
  let k' := k + total_count b cs in
  lba' = lba + total_blocks ns b cs ∧
  d' = between k' (mkNvmeStats (completions s + Z.of_nat (length cs)) (submissions s + total_count b cs)) ∧
  serves k' k' k' w' ∧ trace w' = trace w ++ batched_events d ns write b k lba cs.

Definition batches_pre k lba s cs : Prop :=
  Forall (chunk_ok d ns b) cs ∧ stats_room s (total_count b cs) ∧
  0 ≤ lba ∧ lba + total_blocks ns b cs < 2 ^ 64 ∧ ends_ok d b posted k cs.

Lemma batches_nil write k lba s w :
  serves k k k w → batches_done write k lba s [] w lba (between k s) w.
Proof.
  intros Hw. unfold batches_done. simpl. rewrite !Z.add_0_r, app_nil_r. by destruct s.
Qed.

(** One batch, then the rest. *)
Lemma wp_batches_cons (write : bool) k lba s c cs w w0 (Q : Res Z → NvmeDevice A → World E → Prop) :
  let n := bytes_of c in let k' := k + batch_count b n in
  let s' := mkNvmeStats (completions s + 1) (submissions s + batch_count b n) in
  let lba' := lba + batch_count b n * request_blocks ns b n in
  batches_pre k lba s (c :: cs) → serves k k k w → trace w = trace w0 ++ copied d write c →
  (∀ w', serves k' k' k' w' → batches_pre k' lba' s' cs →
     (∀ l d' w'', batches_done write k' lba' s' cs w' l d' w'' →
                  batches_done write k lba s (c :: cs) w0 l d' w'') →
     Q (Ret lba') (between k' s') w') →
  wp (Io.batch ns write b lba n) Q (between k s) w.
Proof.
  intros n k' s' lba' (Hcs & Hs & Hl0 & Hl & Hsc & Hsh & Hends) Hw Ht HQ.
  apply Forall_cons in Hcs as [Hc Hcs]. destruct (totals_nonneg d ns b cs Hcs) as (? & ? & ?).
  pose proof Hc as ((_ & Hcount & _ & Hblocks) & _). cbn [total_count total_blocks] in Hs, Hl.
  fold n in Hs, Hl, Hcount, Hblocks. destruct Hs as (? & ? & ? & ?).
  assert (0 ≤ batch_count b n * request_blocks ns b n) by nia.
  apply wp_good_batch; try done; [unfold stats_room; fold n; lia|fold n; lia|].
  fold n k'. intros w' Hw' Ht'. apply HQ; [done| |].
  - split; [done|]. split; [unfold stats_room, s'; simpl; lia|]. split; [lia|]. split; [unfold lba'; lia|done].
  - intros l d' w'' (-> & -> & Hw'' & Ht''). unfold batches_done.
    cbn [total_count total_blocks batched_events length]. fold n. unfold lba', k', s' in *.
    rewrite <-!Z.add_assoc in *. cbn [completions submissions] in *. split; [lia|].
    split; [by rewrite Nat2Z.inj_succ, <-Z.add_1_l, <-!Z.add_assoc|].
    split; [done|]. by rewrite Ht'', Ht', Ht, <-!app_assoc.
Qed.

Lemma wp_batched_write_loop k lba s cs w (Q : Res Z → NvmeDevice A → World E → Prop) :
  batches_pre k lba s cs → serves k k k w →
  (∀ l d' w', batches_done true k lba s cs w l d' w' → Q (Ret l) d' w') →
  wp (for_fold cs (λ lba chunk,
        _ ← Io.copy_to_buffer chunk; Io.batch ns true b lba (bytes_of chunk)) lba) Q (between k s) w.
Proof.
  revert k lba s w. induction cs as [|c cs IH]; intros k lba s w Hpre Hw HQ.
  { apply wp_ret, HQ. by apply batches_nil. }
  cbn [for_fold]. do 2 wp_step. pose proof Hpre as (Hc%Forall_cons & _).
  apply wp_copy_to_buffer; [apply Hc|done|]. intros w1 Hw1 Ht1. cbn [then_].
  apply (wp_batches_cons true k lba s c cs w1 w); [done..|].
  intros w2 Hw2 Hpre2 Hdone. cbn [then_]. apply IH; [done..|]. intros. by apply HQ, Hdone.
Qed.

Lemma wp_batched_read_loop k lba s cs acc w (Q : Res (Z * list Z) → NvmeDevice A → World E → Prop) :
  batches_pre k lba s cs → serves k k k w →
  (∀ l bs d' w', length bs = length (concat cs) → batches_done false k lba s cs w l d' w' →
     Q (Ret (l, acc ++ bs)) d' w') →
  wp (for_fold cs (λ '(lba, acc) chunk,
        lba ← Io.batch ns false b lba (bytes_of chunk);
        bytes ← Io.copy_from_buffer (bytes_of chunk);
        mret (lba, acc ++ bytes)) (lba, acc)) Q (between k s) w.
Proof.
  revert k lba s acc w. induction cs as [|c cs IH]; intros k lba s acc w Hpre Hw HQ.
  { apply wp_ret. rewrite <-(app_nil_r acc). apply HQ; [done|]. by apply batches_nil. }
  cbn [for_fold]. do 2 wp_step. pose proof Hpre as (Hc%Forall_cons & _).
  apply (wp_batches_cons false k lba s c cs w w); [done..|by rewrite app_nil_r|].
  intros w2 Hw2 Hpre2 Hdone. cbn [then_]. wp_step. apply (wp_copy_from_buffer _ _ c); [apply Hc|done|].
  intros bs w3 Hbs Hw3 Ht3. cbn [then_]. wp_step. apply IH; [done..|].
  intros l bs' d' w4 Hbs' Hd'. rewrite <-app_assoc. apply HQ.
  - cbn [concat]. rewrite !length_app. lia.
  - apply Hdone. unfold batches_done in *. by rewrite Ht3 in Hd'.
Qed.

End transfers.

(** C14: [batched_write] and [batched_read], against any controller that serves
    the I/O queue.  The data goes through the buffer in chunks of 2 MiB.  Each
    chunk is cut into [min(batch_len, len / 512)] requests of equal size, all of
    which are stored and announced one after the other, request [i] of a chunk
    at the LBA after those before it; then the call waits for all of them and
    acknowledges them with one doorbell write.  The calls return if the last
    completion of each batch is a success, whatever the other completions say,
    and count one completion for a batch.  The data of a write is copied to the
    buffer before the first request of its chunk. *)
Theorem batched_commands `{BLD : Build} `{FUEL : Fuel} {A E} `{HW : Hardware E}
    (d : NvmeDevice A) (posted : Z → NvmeCompletion) (N : nat)
    (serves : Z → Z → Z → World E → Prop) (k : Z) (s : NvmeStats)
    (ns_id : Z) (ns : NvmeNamespace) (data : list Z) (lba b : Z) (w : World E) :
  BatchService d posted N serves → serves k k k w → namespaces d !! ns_id = Some ns →
  namespace_ok ns → buffer_ok d → (Z.to_nat (Z.min b 4096) * N < spin_fuel)%nat →
  let cs := chunks (Z.to_nat PAGESIZE_2MIB) data in
  batches_pre d posted ns b k lba s cs →
  (∃ d' w', Io.batched_write ns_id data lba b (between d k s, w) = (Ret tt, (d', w')) ∧
     batches_done d serves ns b true k lba s cs w (lba + total_blocks ns b cs) d' w') ∧
  (∃ d' w' bytes, Io.batched_read ns_id data lba b (between d k s, w) = (Ret bytes, (d', w')) ∧
     length bytes = length data ∧
     batches_done d serves ns b false k lba s cs w (lba + total_blocks ns b cs) d' w').
Proof.
  intros HIS Hw Hid Hns Hbuf Hfuel cs Hpre. split.
  - assert (wp (Io.batched_write ns_id data lba b) (λ r d' w', r = Ret tt ∧
      batches_done d serves ns b true k lba s cs w (lba + total_blocks ns b cs) d' w') (between d k s) w) as Hwp.
    { unfold Io.batched_write. do 3 wp_step. apply wp_unwrap.
      change (namespaces (between d k s)) with (namespaces d). rewrite Hid. cbn [then_]. wp_step.
      apply (wp_batched_write_loop d posted N serves ns b Hns Hbuf Hfuel); [done..|].
      intros l d' w' (-> & Hd'). cbn [then_]. by wp_step. }
    apply wp_run in Hwp as (r & d' & w' & Hrun & -> & Hdone). by exists d', w'.
  - assert (wp (Io.batched_read ns_id data lba b) (λ r d' w', ∃ bytes, r = Ret bytes ∧
      length bytes = length data ∧
      batches_done d serves ns b false k lba s cs w (lba + total_blocks ns b cs) d' w') (between d k s) w) as Hwp.
    { unfold Io.batched_read. do 3 wp_step. apply wp_unwrap.
      change (namespaces (between d k s)) with (namespaces d). rewrite Hid. cbn [then_]. wp_step.
      apply (wp_batched_read_loop d posted N serves ns b Hns Hbuf Hfuel); [done..|].
      intros l bytes d' w' Hlen (-> & Hd'). cbn [then_]. wp_step. exists bytes.
      unfold cs in Hlen. rewrite concat_chunks in Hlen by (change PAGESIZE_2MIB with 2097152; lia). done. }
    apply wp_run in Hwp as (r & d' & w' & Hrun & bytes & -> & Hdone). by exists d', w', bytes.
Qed.

Definition demo_namespace : NvmeNamespace := mkNvmeNamespace 1 1000 512.

Definition demo_batch_device : NvmeDevice unit :=
  NvmeDevice.set_namespaces {[1 := demo_namespace]} (demo_device 0).

Lemma demo_batch_service :
  BatchService (FUEL:=10%nat) (HW:=demo_io_hw) demo_batch_device (success 4) 1 demo_io_serves.
Proof. split; [|apply demo_io_cq]. destruct demo_io_service as [H1 H2 H3 H4 H5]. by split. Qed.

Lemma demo_batch_pre :
  batches_pre demo_batch_device (success 4) demo_namespace 3 0 100 (mkNvmeStats 0 0)
    [replicate 3072 7].
Proof.
  assert (bytes_of (replicate 3072 7) = 3072) as Hn by (unfold bytes_of; by rewrite length_replicate).
  unfold batches_pre. split.
  - apply Forall_singleton. unfold chunk_ok. rewrite Hn, length_replicate.
    split; [|split; [simpl; lia|right; vm_compute; congruence]].
    unfold batch_ok. change (batch_count 3 3072) with 3. simpl.
    split; [vm_compute; split; congruence|]. split; [lia|]. split; [lia|vm_compute; congruence].
  - cbn [total_count total_blocks ends_ok]. rewrite Hn. change (batch_count 3 3072) with 3.
    change (request_blocks demo_namespace 3 3072) with 2. unfold stats_room.
    split; [simpl; lia|]. split; [lia|]. split; [simpl; lia|]. by vm_compute.
Qed.

Lemma batched_commands_witness :
  ∃ d' w', Io.batched_write (BLD:=true) (FUEL:=10%nat) (HW:=demo_io_hw) 1 (replicate 3072 7) 100 3
      (between demo_batch_device 0 (mkNvmeStats 0 0), serving_world) = (Ret tt, (d', w')).
Proof.
  assert (chunks (Z.to_nat PAGESIZE_2MIB) (replicate 3072 7) = [replicate 3072 7]) as Hc
    by (vm_compute; reflexivity).
  destruct (batched_commands (BLD:=true) (FUEL:=10%nat) (HW:=demo_io_hw) demo_batch_device
    (success 4) 1 demo_io_serves 0 (mkNvmeStats 0 0) 1 demo_namespace (replicate 3072 7) 100 3
    serving_world demo_batch_service demo_io_init) as [(d' & w' & Hrun & _) _];
    [reflexivity|unfold namespace_ok; simpl; lia|unfold buffer_ok; vm_compute; repeat split; congruence|
     vm_compute; lia|rewrite Hc; exact demo_batch_pre|].
  exists d', w'. exact Hrun.
Defined.

(** C34: when a batch is refused, and what a failure costs.  A chunk of fewer
    than 512 bytes or a batch length of 0 divides by zero, and so does a
    namespace whose block size identify could not tell; requests that come out
    smaller than a block of the namespace fail the assertion of [submit_io].  In
    these cases nothing has been stored or announced.  If the last completion of
    a batch is a failure the call panics after all requests have been sent and
    acknowledged. *)
Theorem batch_errors `{BLD : Build} `{FUEL : Fuel} {A E} `{HW : Hardware E}
    (d : NvmeDevice A) (posted : Z → NvmeCompletion) (N : nat)
    (serves : Z → Z → Z → World E → Prop) (k : Z) (s : NvmeStats)
    (ns : NvmeNamespace) (write : bool) (lba b n : Z) (w : World E) :
  BatchService d posted N serves → serves k k k w → buffer_ok d → 0 ≤ n → 0 ≤ b →
  let run := Io.batch ns write b lba n (between d k s, w) in
  (n < 512 ∨ b = 0 → run = (Panicked DivisionByZero, (between d k s, w))) ∧
  (512 ≤ n → 0 < b → block_size ns = 0 → run = (Panicked DivisionByZero, (between d k s, w))) ∧
  (512 ≤ n → 0 < b → request_size b n < block_size ns →
     run = (Panicked AssertFailed, (between d k s, w))) ∧
  (batch_ok d ns b n → namespace_ok ns → stats_room s (batch_count b n) → 0 ≤ lba →
   lba + batch_count b n * request_blocks ns b n < 2 ^ 64 →
   (Z.to_nat (batch_count b n) * N < spin_fuel)%nat →
   sc_field (posted (k + batch_count b n - 1)) ≠ 0 →
   ∃ d' w', run = (Panicked UnwrapNone, (d', w')) ∧ completions (stats d') = completions s ∧
     trace w' = trace w ++ batch_events d ns write b k lba n).
Proof.
  intros HIS Hw (? & ? & ? & ?) Hn Hb run. change PAGESIZE_2MIB with 2097152 in *.
  assert (512 ≤ n → 0 < b → 1 ≤ batch_count b n) as Hc.
  { intros. assert (1 ≤ n / 512) by (apply Z.div_le_lower_bound; lia). unfold batch_count. lia. }
  assert (512 ≤ n → 0 < b → 0 ≤ request_size b n) as Hsz.
  { intros. apply Z.div_pos; [lia|]. specialize (Hc ltac:(done) ltac:(done)). lia. }
  unfold run, Io.batch. fold (batch_count b n). unfold mbind, M_bind, udiv.
  split; [|split; [|split]].
  - intros Hz. assert (batch_count b n = 0) as ->; [|done].
    unfold batch_count. assert (0 ≤ n / 512) by (apply Z.div_pos; lia).
    destruct Hz as [?| ->]; [|lia]. rewrite (Z.div_small n 512) by lia. lia.
  - intros Hn1 Hb1 ->. by rewrite (proj2 (Z.eqb_neq _ 0)) by (specialize (Hc Hn1 Hb1); lia).
  - intros Hn1 Hb1 Hsmall. specialize (Hc Hn1 Hb1). specialize (Hsz Hn1 Hb1).
    rewrite (proj2 (Z.eqb_neq _ 0)) by lia. cbn [mret M_ret]. fold (request_size b n).
    rewrite (proj2 (Z.eqb_neq _ 0)) by lia. cbn [mret M_ret].
    rewrite (Z.div_small (request_size b n)) by lia.
    unfold Io.submit_batch. rewrite zrange_cons by lia. cbn [for_fold].
    unfold mbind, M_bind, get, ck64. cbn [fst]. rewrite ck_fits by lia.
    change (buffer (between d k s)) with (buffer d). by rewrite ck_fits by lia.
  - intros Hok Hns Hs Hl0 Hl Hfuel Hsc.
    assert (wp (Io.batch ns write b lba n) (λ r d' w', r = Panicked UnwrapNone ∧
      completions (stats d') = completions s ∧
      trace w' = trace w ++ batch_events d ns write b k lba n) (between d k s) w) as Hwp.
    { apply (wp_batch d posted N serves ns write b Hns); try done.
      intros w' Hw' Ht. by rewrite (proj2 (Z.eqb_neq _ _) Hsc). }
    apply wp_run in Hwp as (r & d' & w' & Hrun & -> & ? & ?). by exists d', w'.
Qed.

Lemma batch_errors_witness :
  Io.batch (BLD:=true) (FUEL:=10%nat) (HW:=demo_io_hw) (mkNvmeNamespace 1 1000 4096) true 8 100 4096
    (between demo_batch_device 0 (mkNvmeStats 0 0), serving_world) =
  (Panicked AssertFailed, (between demo_batch_device 0 (mkNvmeStats 0 0), serving_world)).
Proof.
  apply (batch_errors (BLD:=true) (FUEL:=10%nat) (HW:=demo_io_hw) demo_batch_device
    (success 4) 1 demo_io_serves 0 (mkNvmeStats 0 0) (mkNvmeNamespace 1 1000 4096) true 100 8 4096
    serving_world demo_batch_service demo_io_init); [|lia|lia|lia|lia|reflexivity].
  unfold buffer_ok. vm_compute. repeat split; congruence.
Defined.

(** ** The bytes of the requests *)

(** What the controller transfers for request [i] of a chunk, with the list
    that [init] has stored. *)
Definition request_segs {A} (d : NvmeDevice A) (ns : NvmeNamespace) (write : bool) (m : Mem)
    (k lba b n i : Z) : list (Z * Z) :=
  let cmd := request_cmd d ns write b k lba n i in
  prp_walk (list_entry d (replay (prp_stores d) m)) (d_ptr cmd).1 (d_ptr cmd).2
    (request_blocks ns b n * block_size ns).

Lemma request_ptr {A} (d : NvmeDevice A) ns write b k lba n i :
  d_ptr (request_cmd d ns write b k lba n i) =
  (phys (buffer d) + request_size b n * i,
   batch_ptr1 d ns (request_blocks ns b n) (phys (buffer d) + request_size b n * i)).
Proof. unfold request_cmd. by destruct write. Qed.

(** The entries that [init] stores, read from any even offset of the buffer. *)
Lemma init_entry {A} (d : NvmeDevice A) m j :
  0 ≤ phys (buffer d) → phys (buffer d) + PAGESIZE_2MIB + 4096 < 2 ^ 64 → 0 ≤ j < 511 →
  list_entry d (replay (prp_stores d) m) (phys (prp_list d) + 8 * j) =
  phys (buffer d) + 4096 * (j + 1).
Proof.
  intros ? ? ?. change PAGESIZE_2MIB with 2097152 in *. rewrite init_stores.
  rewrite list_stores_entry by (intros; lia). by rewrite (proj2 (Z.ltb_lt _ _)) by lia.
Qed.

(** A request of whole pages and whole blocks: [p] pages from page [p i] of the
    buffer on. *)
Section request.
Context {A : Type} (d : NvmeDevice A) (ns : NvmeNamespace) (write : bool) (m : Mem) (k lba b n i : Z).
Context (Hok : batch_ok d ns b n) (Hns : namespace_ok ns) (Hbuf : buffer_ok d).
Context (Hal : phys (buffer d) `mod` 4096 = 0) (Hmod : request_size b n `mod` 4096 = 0).
Context (Hexact : request_blocks ns b n * block_size ns = request_size b n).
Context (Hi : 0 ≤ i < batch_count b n).

Let a := phys (buffer d) + request_size b n * i.
Let p := request_size b n / 4096.

Lemma request_pages :
  request_size b n = p * 4096 ∧ a = phys (buffer d) + p * i * 4096 ∧ a `mod` 4096 = 0 ∧
  0 < p ∧ 0 ≤ p * i ∧ p * i + p ≤ 512.
Proof.
  destruct (request_bounds d ns b n Hok Hns) as (Hs & Hcs & _). destruct Hok as ((? & ?) & Hc & _).
  assert (request_size b n = p * 4096) as Hp.
  { unfold p. apply Z.mod_divide in Hmod as [q Hq]; [|lia]. rewrite Hq, Z.div_mul; lia. }
  unfold a. rewrite Hp in *. change PAGESIZE_2MIB with 2097152 in *.
  split; [done|]. split; [lia|]. split; [|repeat split; nia].
  replace (p * 4096 * i) with (p * i * 4096) by lia. by rewrite Z.mod_add.
Qed.

Lemma small_request_bytes :
  request_size b n ≤ 8192 ∨ i = 0 →
  walk_bytes (request_segs d ns write m k lba b n i) = zrange a (a + request_size b n).
Proof.
  intros Hsmall. destruct request_pages as (Hp & Ha & Ham & ? & ? & ?). destruct Hbuf as (? & ? & ? & ?).
  unfold request_segs. rewrite request_ptr. cbn [fst snd]. fold a. rewrite Hexact.
  unfold batch_ptr1. rewrite Hexact. set (r := request_size b n) in *.
  destruct (Z.leb_spec r 4096); [|destruct (Z.leb_spec r 8192)].
  - unfold prp_walk. rewrite Ham, (proj2 (Z.leb_le _ _)) by lia. unfold walk_bytes. simpl. apply app_nil_r.
  - unfold prp_walk. rewrite Ham, (proj2 (Z.leb_gt _ _)), (proj2 (Z.leb_le _ _)) by lia.
    unfold walk_bytes. simpl. rewrite app_nil_r, zrange_app by lia. f_equal. lia.
  - assert (i = 0) as -> by lia. rewrite Ha, Z.mul_0_r, Z.add_0_r, Z.sub_diag in *. rewrite Z.div_0_l by lia.
    rewrite (walk_list _ _ _ _ (phys (buffer d) + 4096)); [|done|lia|].
    { rewrite zrange_app by lia. f_equal. lia. }
    intros j Hj. assert ((r - 1) / 4096 < p) by (apply Z.div_lt_upper_bound; lia).
    rewrite Z.add_0_r, init_entry by lia. lia.
Qed.

Lemma large_request_entry :
  8192 < request_size b n →
  ∃ l, request_segs d ns write m k lba b n i =
    (a, 4096) ::
    (list_entry d (replay (prp_stores d) m) (phys (prp_list d) + 8 * (64 * (p * i))), 4096) :: l.
Proof.
  intros Hlarge. destruct request_pages as (Hp & Ha & Ham & ? & ? & ?).
  unfold request_segs. rewrite request_ptr. cbn [fst snd]. fold a. rewrite Hexact.
  unfold batch_ptr1. rewrite Hexact. set (r := request_size b n) in *.
  rewrite !(proj2 (Z.leb_gt _ _)) by lia.
  assert ((a - phys (buffer d)) / 8 = 8 * (64 * (p * i))) as ->
    by (symmetry; apply Z.div_unique with 0; lia).
  unfold prp_walk. rewrite Ham, !(proj2 (Z.leb_gt _ _)) by lia.
  assert (0 < (r - (4096 - 0) + 4095) / 4096) by (apply Z.div_str_pos; lia).
  rewrite zrange_cons by done. cbn [fmap list_fmap]. rewrite Z.min_l by lia.
  rewrite Z.mul_0_r, Z.add_0_r. by eexists.
Qed.

End request.


