(* ===== verification/Protocol.v ===== *)
(** A thread and its queue pair ([src/nvme.rs], [NvmeQueuePair]) as a state
    machine: [submit_io], the polling functions and [complete_io] in any order,
    with anything that leaves this pair alone in between, the work of other
    threads on other pairs included.  The invariant of every state that can be
    reached is at the end. *)

From stdpp Require Import relations.
From S2P Require Import Prelude Bytes Machine Memory Cmd Mapping Queues Service QueuePair Device.
#[local] Open Scope Z_scope.

(** ** The commands are well formed *)

Lemma lor_16 a b : 0 ≤ a < 2 ^ 16 → 0 ≤ b < 2 ^ 16 → 0 ≤ Z.lor a b < 2 ^ 16.
Proof.
  intros Ha Hb. assert (Z.lor a b = Z.lor a b `mod` 2 ^ 16) as ->.
  { rewrite <-Z.land_ones, Z.land_lor_distr_l, !Z.land_ones by done.
    by rewrite !Z.mod_small. }
  by apply Z.mod_pos_bound.
Qed.

Lemma command_id_16 id t : 0 ≤ NvmeQueuePair.command_id id t < 2 ^ 16.
Proof. apply lor_16; by apply wrap_bound. Qed.

(** A chunk and an LBA as the loops of the data paths make them. *)
Definition chunk_ok (lba : Z) (c : DmaChunk) : Prop :=
  0 < len (chunk_slice c) ≤ 8192 ∧ 0 ≤ phys_addr c ∧ phys_addr c + 4096 < 2 ^ 64 ∧
  0 ≤ lba ∧ lba + 16 < 2 ^ 64.

Lemma chunk_cmd_wf (write : bool) cid lba c :
  0 ≤ cid < 2 ^ 16 → chunk_ok lba c → NvmeCommand.wf (chunk_cmd write cid 1 lba c).
Proof.
  intros Hc (Hl & ? & ? & ?). pose proof (chunk_blocks_bounds c Hl). unfold chunk_cmd.
  destruct write; [apply io_write_wf|apply io_read_wf]; try lia; destruct (_ <=? _); lia.
Qed.

(** ** A served queue pair *)

(** The queue pair [p] when the commands numbered below [G] have been submitted
    and the completions below [C] taken, the last of which reported [F] commands
    fetched; [p] itself is the pair as it was created. *)
Definition pair_at (p : NvmeQueuePair) (F G C : Z) : NvmeQueuePair :=
  let q := sub_queue p in
  mkNvmeQueuePair (qp_id p)
    (SubmissionQueue.set_head (F `mod` sq_len q) (SubmissionQueue.set_tail (G `mod` sq_len q) q))
    (cq_pos (comp_queue p) C).

(** The controller serves the pair [p], and the submission heads it reports are
    honest: completion [k - 1] carries the number [fetched k] of commands fetched
    so far, which counts at least those it has completed, never more than those
    announced, and runs ahead of the completions by no more than the completion
    queue has room for.  The submission ring is the driver's alone to write. *)
Class PairService {E} `{FUEL : Fuel} `{HW : Hardware E} (p : NvmeQueuePair)
    (posted : Z → NvmeCompletion) (fetched : Z → Z) (N : nat)
    (serves : Z → Z → Z → World E → Prop) : Prop := {
  pair_service : CqService (comp_queue p) posted (sq_doorbell (sub_queue p))
    (sq_len (sub_queue p)) N serves;
  pair_rings : rings_ok (sub_queue p) (comp_queue p);
  pair_doorbells : cq_doorbell (comp_queue p) ≠ sq_doorbell (sub_queue p);
  pair_fuel : (0 < N ∧ Z.to_nat (cq_len (comp_queue p)) * N < spin_fuel)%nat;
  fetched_0 : fetched 0 = 0;
  fetched_mono : ∀ k, 0 ≤ k → fetched k ≤ fetched (k + 1);
  fetched_completed : ∀ k, 0 ≤ k → k ≤ fetched k;
  fetched_announced : ∀ G C P w, serves G C P w → fetched P ≤ G;
  fetched_room : ∀ k, 0 ≤ k →
    fetched k + sq_len (sub_queue p) ≤ k + cq_len (comp_queue p) + 1;
  fetched_head : ∀ k, 0 ≤ k →
    cpl_sq_head (posted k) = fetched (k + 1) `mod` sq_len (sub_queue p);
  ring_kept : ∀ G C P w i, serves G C P w → 0 ≤ i < sq_len (sub_queue p) →
    sq_entry (mem (tick w)) (sub_queue p) i = sq_entry (mem w) (sub_queue p) i;
}.

(** The memory of a submission queue: the slots in use. *)
Definition sq_apart (q : SubmissionQueue) (a : Z) (n : nat) : Prop :=
  a + Z.of_nat n ≤ virt (sq_commands q) ∨
  virt (sq_commands q) + NvmeCommand.size_of * sq_len q ≤ a.

(** The commands from number [F] on stand in their slots. *)
Definition entries_from (q : SubmissionQueue) (F : Z) (cs : list NvmeCommand) (m : Mem) : Prop :=
  ∀ k c, F ≤ k → 0 ≤ k → cs !! Z.to_nat k = Some c → sq_entry m q (k `mod` sq_len q) = c.

Section protocol.
Context {E : Type} `{BLD : Build} `{FUEL : Fuel} `{HW : Hardware E}.
Context (p0 : NvmeQueuePair) (posted : Z → NvmeCompletion) (fetched : Z → Z) (N : nat).
Context (serves : Z → Z → Z → World E → Prop) `{PS : !PairService p0 posted fetched N serves}.
Implicit Types (w : World E) (p : NvmeQueuePair) (cs : list NvmeCommand) (C G P : Z).

#[local] Existing Instance pair_service.

#[local] Abbreviation sq := (sub_queue p0).
#[local] Abbreviation cq := (comp_queue p0).

(** What holds between two calls: [cs] are the commands submitted so far and [C]
    is the number of completions taken. *)
Definition pair_inv (cs : list NvmeCommand) (C : Z) (p : NvmeQueuePair) (w : World E) : Prop :=
  let G := Z.of_nat (length cs) in
  p = pair_at p0 (fetched C) G C ∧ G - fetched C < sq_len sq ∧
  (∃ P, serves G C P w) ∧ entries_from sq (fetched C) cs (mem w).

Lemma served_bounds G C P w : serves G C P w → 0 ≤ C ≤ P ∧ P ≤ G ∧ fetched P ≤ G.
Proof.
  intros HP. pose proof (fetched_announced _ _ _ _ HP).
  by destruct (service_view _ _ _ _ HP) as (? & ? & _).
Qed.

Lemma fetched_le j k : 0 ≤ j ≤ k → fetched j ≤ fetched k.
Proof.
  intros Hjk. remember (Z.to_nat (k - j)) as n eqn:Hn. revert k Hjk Hn.
  induction n as [|n IH]; intros k Hjk Hn.
  { by assert (k = j) as -> by lia. }
  transitivity (fetched (k - 1)); [apply IH; lia|].
  pose proof (fetched_mono (k - 1) ltac:(lia)). by replace (k - 1 + 1) with k in * by lia.
Qed.

Lemma inv_bounds cs C p w :
  pair_inv cs C p w →
  let G := Z.of_nat (length cs) in
  0 ≤ C ≤ fetched C ∧ fetched C ≤ G ∧ G - C ≤ cq_len cq.
Proof.
  intros (_ & HF & (P & HP) & _) G. apply served_bounds in HP as (? & ? & ?).
  pose proof (fetched_le C P ltac:(lia)). pose proof (fetched_completed C ltac:(lia)).
  pose proof (fetched_room C ltac:(lia)). lia.
Qed.

(** The pair as it was created. *)
Lemma fresh_inv w : p0 = pair_at p0 0 0 0 → serves 0 0 0 w → pair_inv [] 0 p0 w.
Proof.
  intros Hp0 Hw. destruct (pair_rings (p:=p0)) as ([? _] & _). unfold pair_inv. simpl.
  rewrite fetched_0. split; [done|]. split; [lia|]. split; [by exists 0|].
  intros k c _ _ Hk. by rewrite lookup_nil in Hk.
Qed.

(** Slots of commands in the ring are distinct. *)
Lemma slot_distinct F G k :
  F ≤ k < G → G - F < sq_len sq → k `mod` sq_len sq ≠ G `mod` sq_len sq.
Proof. intros ? ? Hm. apply mod_eq_near in Hm; lia. Qed.

Lemma entries_ext F cs m m' :
  (∀ i, 0 ≤ i < sq_len sq → sq_entry m' sq i = sq_entry m sq i) →
  entries_from sq F cs m → entries_from sq F cs m'.
Proof.
  intros Hm Hcs k c ? ? Hk. rewrite Hm; [by eapply Hcs|].
  apply Z.mod_pos_bound. by destruct (pair_rings (p:=p0)) as ([? ?] & _).
Qed.

Lemma entries_weaken F F' cs m : F ≤ F' → entries_from sq F cs m → entries_from sq F' cs m.
Proof. intros ? Hcs k c ? ?. apply Hcs; lia. Qed.

Lemma entries_push F cs m c :
  let G := Z.of_nat (length cs) in
  0 ≤ F → G - F < sq_len sq → NvmeCommand.wf c → entries_from sq F cs m →
  entries_from sq F (cs ++ [c])
    (store_bytes m (sq_slot sq (G `mod` sq_len sq)) (NvmeCommand.encode c)).
Proof.
  intros G ? ? Hwf Hcs k c' ? ? Hk. rewrite sq_entry_store by done.
  apply lookup_snoc_Some in Hk as [[Hlt Hk]|[Heq <-]].
  - rewrite (proj2 (Z.eqb_neq _ _)); [by eapply Hcs|].
    apply not_eq_sym, (slot_distinct F); lia.
  - replace k with G by lia. by rewrite Z.eqb_refl.
Qed.

(** *** What leaves the pair alone *)

Lemma inv_tick cs C p w : pair_inv cs C p w → pair_inv cs C p (tick w).
Proof.
  intros (? & ? & (P & HP) & Hcs). split; [done|]. split; [done|].
  destruct (service_tick _ _ _ _ HP) as (P' & _ & HP'). split; [by exists P'|].
  eapply entries_ext; [|exact Hcs]. intros i Hi. by eapply ring_kept.
Qed.

Lemma inv_written cs C p w m a v :
  a ≠ sq_doorbell sq → pair_inv cs C p w → pair_inv cs C p (written m a v w).
Proof.
  intros Ha (? & ? & (P & HP) & Hcs). split; [done|]. split; [done|].
  split; [|done]. exists P. by apply service_write.
Qed.

Lemma inv_reading cs C p w m a : pair_inv cs C p w → pair_inv cs C p (reading m a w).
Proof.
  intros (? & ? & (P & HP) & Hcs). split; [done|]. split; [done|].
  split; [|done]. exists P. by apply service_read.
Qed.

Lemma inv_stored cs C p w a bs :
  cq_apart cq a (length bs) → sq_apart sq a (length bs) →
  pair_inv cs C p w → pair_inv cs C p (stored a bs w).
Proof.
  intros Hca Hsa (? & ? & (P & HP) & Hcs). split; [done|]. split; [done|].
  split; [exists P; by apply service_store|]. eapply entries_ext; [|exact Hcs]. intros i Hi.
  unfold sq_entry, stored. simpl. f_equal. apply load_store_disjoint.
  unfold sq_apart, sq_slot in *. rewrite size_of_command in *.
  change (Z.to_nat 64) with 64%nat. lia.
Qed.

(** *** Submission *)

Lemma pair_at_ok F G C : sq_ok (sub_queue (pair_at p0 F G C)).
Proof.
  destruct (pair_rings (p:=p0)) as ([? ?] & _).
  unfold sq_ok. simpl. split; [done|]. split; by apply Z.mod_pos_bound.
Qed.

Lemma pair_at_count F G C :
  0 ≤ G - F < sq_len sq → sq_count (sub_queue (pair_at p0 F G C)) = G - F.
Proof. intros. unfold sq_count. simpl. by rewrite <-Zminus_mod, Z.mod_small. Qed.

(** The command number [length cs], for one chunk. *)
Definition next_cmd (cs : list NvmeCommand) (write : bool) (lba : Z) (c : DmaChunk) : NvmeCommand :=
  chunk_cmd write (NvmeQueuePair.command_id (qp_id p0) (Z.of_nat (length cs) `mod` sq_len sq))
    1 lba c.

(** Storing an entry and ringing for it keeps the invariant. *)
Lemma inv_submit cs C p w c :
  pair_inv cs C p w → NvmeCommand.wf c →
  let G := Z.of_nat (length cs) in
  G - fetched C < sq_len sq - 1 →
  pair_inv (cs ++ [c]) C (pair_at p0 (fetched C) (G + 1) C)
    (written 4 (sq_doorbell sq) ((G + 1) `mod` sq_len sq)
       (tick (stored (sq_slot sq (G `mod` sq_len sq)) (NvmeCommand.encode c) (tick w)))).
Proof.
  intros Hinv Hwf G HG. pose proof (inv_bounds _ _ _ _ Hinv) as (? & ? & _).
  pose proof (fetched_room C ltac:(lia)).
  destruct (pair_rings (p:=p0)) as ([? _] & _ & _ & Hap).
  pose proof (Z.mod_pos_bound G (sq_len sq) ltac:(lia)) as Hi.
  apply inv_tick in Hinv as (_ & _ & (P & HP) & Hcs).
  unfold pair_inv. rewrite length_app. simpl length. replace (Z.of_nat _) with (G + 1) by lia.
  split; [done|]. split; [lia|].
  eapply (service_store _ _ _ _ (sq_slot sq (G `mod` sq_len sq)) (NvmeCommand.encode c)) in HP;
    [|rewrite encode_length; by apply Hap].
  destruct (service_tick _ _ _ _ HP) as (P' & _ & HP').
  split.
  - exists P'. apply service_ring; [done|]. lia.
  - apply entries_ext with (m := mem (stored (sq_slot sq (G `mod` sq_len sq))
      (NvmeCommand.encode c) (tick w))).
    + intros i ?. by eapply ring_kept.
    + apply entries_push; [lia|lia|done|exact Hcs].
Qed.

Lemma wp_pair_chunk cs C p w (write : bool) lba reqs c
    (Q : Res (Flow (Z * Z) Z) → NvmeQueuePair → World E → Prop) :
  pair_inv cs C p w → chunk_ok lba c → 0 ≤ reqs → reqs + 1 < 2 ^ 64 →
  (Z.of_nat (length cs) - fetched C = sq_len sq - 1 → Q (Ret (Break reqs)) p w) →
  (∀ p' w', pair_inv (cs ++ [next_cmd cs write lba c]) C p' w' →
     Q (Ret (Continue (lba + chunk_blocks c, reqs + 1))) p' w') →
  wp (NvmeQueuePair.submit_chunk write (lba, reqs) c) Q p w.
Proof.
  intros Hinv Hc Hr1 Hr2 Hfull HQ. pose proof (inv_bounds _ _ _ _ Hinv) as (? & ? & _).
  pose proof Hc as (Hlen & ? & ? & ? & ?). pose proof (chunk_blocks_bounds c Hlen) as Hb.
  pose proof Hinv as (Hp & HF & _). set (G := Z.of_nat (length cs)) in *.
  destruct (pair_rings (p:=p0)) as ([? Hsl] & _). rewrite QUEUE_LENGTH_value in Hsl.
  pose proof (Z.mod_pos_bound (G + 1) (sq_len sq) ltac:(lia)) as Hm.
  pose proof (pair_at_ok (fetched C) G C) as Hok.
  pose proof (pair_at_count (fetched C) G C ltac:(lia)) as Hcount.
  unfold NvmeQueuePair.submit_chunk. do 4 (wp_step; try lia).
  replace (len (chunk_slice c) + 512 - 1) with (len (chunk_slice c) + 511) by lia.
  fold (chunk_blocks c). do 2 (wp_step; try lia). wp_step.
  apply wp_mono with (λ r p' w', r = Ret (if chunk_blocks c * 512 <=? 4096 then 0
    else phys_addr c + 4096) ∧ p' = p ∧ w' = w).
  { destruct (_ <=? _); repeat (wp_step; try lia); done. }
  intros ? ? ? (-> & -> & ->). cbn [then_]. do 3 wp_step.
  unfold as_u16 at 1. rewrite (wrap_small 16 (chunk_blocks c)) by lia.
  do 3 wp_step. subst p.
  change (sq_tail (sub_queue (pair_at p0 (fetched C) G C))) with (G `mod` sq_len sq).
  change (qp_id (pair_at p0 (fetched C) G C)) with (qp_id p0).
  destruct (decide (G - fetched C = sq_len sq - 1)) as [Hf|Hf].
  - unfold wp at 1. rewrite submit_checked_run, full_count, Hcount by done.
    change (sq_len (sub_queue (pair_at p0 (fetched C) G C))) with (sq_len sq).
    rewrite (proj2 (Z.eqb_eq _ _) Hf). cbn [fst snd then_]. wp_step. by apply Hfull.
  - apply wp_submit_checked; [done| |].
    { apply Z.eqb_neq. rewrite full_count, Hcount by done. by apply Z.eqb_neq. }
    cbn [then_]. simpl sq_tail. simpl sq_len. rewrite mod_succ_mod by lia.
    do 2 wp_step. unfold as_u32. rewrite wrap_small by lia. do 5 (wp_step; try lia).
    apply HQ.
    assert (next_cmd cs write lba c = (if write
      then NvmeCommand.io_write (NvmeQueuePair.command_id (qp_id p0) (G `mod` sq_len sq)) 1 lba
             (chunk_blocks c - 1) (phys_addr c)
             (if chunk_blocks c * 512 <=? 4096 then 0 else phys_addr c + 4096)
      else NvmeCommand.io_read (NvmeQueuePair.command_id (qp_id p0) (G `mod` sq_len sq)) 1 lba
             (chunk_blocks c - 1) (phys_addr c)
             (if chunk_blocks c * 512 <=? 4096 then 0 else phys_addr c + 4096))) as <-
      by (unfold next_cmd, chunk_cmd; by destruct write).
    apply (inv_submit _ _ _ _ _ Hinv); [|lia].
    by apply chunk_cmd_wf; [apply command_id_16|].
Qed.

(** Command [k] of a call of [submit_io] that follows [G] other commands. *)
Definition sent_cmd (G : Z) (write : bool) (data : Dma) (lba k : Z) : NvmeCommand :=
  chunk_cmd write (NvmeQueuePair.command_id (qp_id p0) ((G + k) `mod` sq_len sq))
    1 (lba + 16 * k) (nth_chunk data 8192 k).

(** A region and an LBA that [submit_io] can be called with. *)
Definition request_ok (data : Dma) (lba : Z) : Prop :=
  dma_ok data ∧ phys data + size data + 4096 < 2 ^ 64 ∧
  0 ≤ lba ∧ lba + 16 * n_chunks data 8192 < 2 ^ 64.

Lemma request_chunk data lba i :
  request_ok data lba → 0 ≤ i < n_chunks data 8192 → chunk_ok (lba + 16 * i) (nth_chunk data 8192 i).
Proof.
  intros ((? & ? & ? & ? & ?) & ? & ? & ?) Hi.
  destruct (nth_chunk_bounds data 8192 i) as (? & Hlen & Hend & _); [lia..|].
  split; [done|]. simpl in *. lia.
Qed.

Lemma full_chunk_blocks data i :
  0 ≤ size data → 0 ≤ i < n_chunks data 8192 - 1 → chunk_blocks (nth_chunk data 8192 i) = 16.
Proof.
  intros ? Hi. destruct (nth_chunk_bounds data 8192 i) as (_ & _ & _ & Hfull); [lia..|].
  unfold chunk_blocks. by rewrite Hfull by lia.
Qed.

Lemma wp_pair_loop cs C write data lba (Q : Res Z → NvmeQueuePair → World E → Prop) :
  request_ok data lba →
  let n := n_chunks data 8192 in
  let G := Z.of_nat (length cs) in
  let total := Z.min n (sq_len sq - 1 - (G - fetched C)) in
  let sent m := cs ++ (sent_cmd G write data lba <$> zrange 0 m) in
  (∀ p' w', pair_inv (sent total) C p' w' → Q (Ret total) p' w') →
  ∀ k i l p w, k = Z.to_nat (n - i) → 0 ≤ i ≤ total → (i < n → l = lba + 16 * i) →
  pair_inv (sent i) C p w →
  wp (for_flow (nth_chunk data 8192 <$> zrange i n) (NvmeQueuePair.submit_chunk write) snd (l, i)) Q p w.
Proof.
  intros Hreq n G total sent HQ k. pose proof Hreq as ((_ & _ & ? & _) & _ & ? & ?). fold n in H0.
  assert (∀ m, 0 ≤ m → Z.of_nat (length (sent m)) = G + m) as Hlen.
  { intros. unfold sent. rewrite length_app, length_fmap, zrange_length. lia. }
  induction k as [|k IH]; intros i l p w Hk Hi Hl Hinv.
  { rewrite zrange_nil by lia. cbn [fmap list_fmap for_flow]. wp_step.
    assert (i = total) as -> by lia. by apply HQ. }
  rewrite zrange_cons by lia. cbn [fmap list_fmap for_flow]. wp_step. rewrite Hl by lia.
  apply (wp_pair_chunk (sent i) C); [done|apply request_chunk; [done|lia]|lia|lia|..].
  - rewrite Hlen by lia. intros. cbn [then_]. wp_step.
    assert (i = total) as -> by lia. by apply HQ.
  - intros p' w' Hinv'. cbn [then_].
    assert (sent i ++ [next_cmd (sent i) write (lba + 16 * i) (nth_chunk data 8192 i)] = sent (i + 1))
      as Hs.
    { unfold next_cmd. rewrite Hlen by lia. unfold sent. rewrite zrange_snoc by lia.
      rewrite fmap_app, <-app_assoc. done. }
    rewrite Hs in Hinv'. pose proof (inv_bounds _ _ _ _ Hinv') as (? & ? & _).
    pose proof Hinv' as (_ & Hfree & _). rewrite Hlen in Hfree by lia.
    apply IH; [lia|lia| |done].
    intros. rewrite full_chunk_blocks by lia. lia.
Qed.

(** [submit_io] sends as many chunks as there are free entries. *)
Lemma wp_pair_submit cs C p w data lba (write : bool)
    (Q : Res Z → NvmeQueuePair → World E → Prop) :
  pair_inv cs C p w → request_ok data lba →
  let G := Z.of_nat (length cs) in
  let total := Z.min (n_chunks data 8192) (sq_len sq - 1 - (G - fetched C)) in
  (∀ p' w', pair_inv (cs ++ (sent_cmd G write data lba <$> zrange 0 total)) C p' w' →
     Q (Ret total) p' w') →
  wp (NvmeQueuePair.submit_io data lba write) Q p w.
Proof.
  intros Hinv Hreq G total HQ. pose proof Hreq as (Hd & _).
  pose proof (inv_bounds _ _ _ _ Hinv) as (? & ? & _). pose proof Hinv as (_ & ? & _).
  pose proof (n_chunks_nonneg data 8192 ltac:(lia) ltac:(apply Hd)).
  unfold NvmeQueuePair.submit_io, wp. change (2 * 4096) with 8192.
  rewrite for_chunks_list by (done || lia).
  apply (wp_pair_loop cs C write data lba Q Hreq HQ (Z.to_nat (n_chunks data 8192 - 0)) 0);
    [done|lia|lia|].
  rewrite zrange_nil by done. by rewrite app_nil_r.
Qed.

(** *** Completion *)

Lemma taken_at F G C n :
  1 ≤ n → 0 ≤ C →
  pair_taken (pair_at p0 F G C) posted (C + n) = pair_at p0 (fetched (C + n)) G (C + n).
Proof.
  intros. unfold pair_taken. rewrite fetched_head by lia.
  by replace (C + n - 1 + 1) with (C + n) by lia.
Qed.

(** The interface does not depend on where the queue stands. *)
Lemma producer_pos (produces : Z → Z → World E → Prop) k :
  CqProducer cq posted produces → CqProducer (cq_pos cq k) posted produces.
Proof. intros [H1 H2 H3]. split; [exact H1|exact H2|exact H3]. Qed.

(** Completions taken and acknowledged. *)
Lemma inv_take cs C p w P n :
  pair_inv cs C p w → 1 ≤ n → C + n ≤ P → serves (Z.of_nat (length cs)) C P w → ∀ v,
  pair_inv cs (C + n) (pair_taken p posted (C + n)) (written 4 (cq_doorbell cq) v w).
Proof.
  intros Hinv Hn HP HPw v. pose proof (inv_bounds _ _ _ _ Hinv) as (? & _).
  destruct Hinv as (-> & HF & _ & Hcs). rewrite taken_at by lia.
  pose proof (fetched_le C (C + n) ltac:(lia)).
  apply inv_written; [exact pair_doorbells|].
  split; [done|]. split; [lia|]. split; [|by eapply entries_weaken].
  exists P. eapply (service_take_n cq posted (sq_doorbell sq) (sq_len sq) N); [apply pair_service|done|lia..].
Qed.

Lemma wp_pair_poll {A} cs C p w (k : NvmeCompletion → M E NvmeQueuePair (option A))
    (Q : Res (option A) → NvmeQueuePair → World E → Prop) :
  pair_inv cs C p w →
  (pair_inv cs C p (tick w) → Q (Ret None) p (tick w)) →
  (∀ w', C < Z.of_nat (length cs) → pair_inv cs (C + 1) (pair_taken p posted (C + 1)) w' →
     wp (k (posted C)) Q (pair_taken p posted (C + 1)) w') →
  wp (o ← zoom comp_queue NvmeQueuePair.set_comp CompletionQueue.complete;
      match o with
      | Some (tail, c_entry, _) =>
        self ← get;
        _ ← write_volatile 4 (cq_doorbell (comp_queue self)) (as_u32 tail);
        _ ← modify (NvmeQueuePair.set_sub_head (cpl_sq_head c_entry));
        k c_entry
      | None => mret None
      end) Q p w.
Proof.
  intros Hinv Hnone Hsome. pose proof (inv_bounds _ _ _ _ Hinv) as (? & _).
  pose proof (inv_tick _ _ _ _ Hinv) as Hinv1. destruct (pair_rings (p:=p0)) as (_ & _ & Hl & _).
  pose proof (service_producer cq posted (sq_doorbell sq) (sq_len sq) N serves
    (Z.of_nat (length cs))) as Hprod.
  pose proof Hinv as (Hp & _ & (P & HP) & _).
  assert (comp_queue p = cq_pos cq C) as Hcq by by rewrite Hp.
  apply (wp_poll p posted (serves (Z.of_nat (length cs))) C P); rewrite ?Hcq.
  - by apply producer_pos.
  - exact Hl.
  - by apply cq_pos_at; [|lia].
  - exact HP.
  - intros _. by apply Hnone.
  - intros P1 HC HP1.
    destruct (service_tick _ _ _ _ HP1) as (P2 & ? & HP2).
    destruct (service_tick _ _ _ _ HP2) as (P3 & ? & HP3).
    pose proof (served_bounds _ _ _ _ HP3) as (? & ? & _).
    apply Hsome; [lia|]. apply (inv_take cs C p _ P3); [|lia|lia|done].
    by do 2 apply inv_tick.
Qed.

(** The ring entries stay in place while the driver waits. *)
Definition watched (cs : list NvmeCommand) (F C P : Z) (w : World E) : Prop :=
  serves (Z.of_nat (length cs)) C P w ∧ entries_from sq F cs (mem w).

Lemma watched_tick cs F C P w :
  watched cs F C P w → ∃ P', P ≤ P' ∧ watched cs F C P' (tick w).
Proof.
  intros [HP Hcs]. destruct (service_tick _ _ _ _ HP) as (P' & ? & HP'). exists P'.
  split; [done|]. split; [done|]. eapply entries_ext; [|exact Hcs]. intros i Hi. by eapply ring_kept.
Qed.

Lemma watched_ticks cs F C P w i :
  watched cs F C P w → entries_from sq F cs (mem (Nat.iter i tick w)).
Proof.
  intros HP. assert (∃ P', watched cs F C P' (Nat.iter i tick w)) as (? & _ & ?); [|done].
  induction i as [|i (P' & IH)]; [by exists P|].
  destruct (watched_tick _ _ _ _ _ IH) as (P'' & _ & ?). by exists P''.
Qed.

Lemma watched_producer cs F : CqProducer cq posted (watched cs F).
Proof.
  split.
  - intros C P w [HP _]. by apply service_view in HP as [_ ?].
  - intros C P w HP. by apply watched_tick.
  - intros C P w [HP ?] ?. split; [by apply service_take|done].
Qed.

Lemma watched_live cs F : CqLive (watched cs F) (Z.of_nat (length cs)) N.
Proof.
  intros C P w HP HG. pose proof HP as [HP' _].
  destruct (service_live _ _ _ _ HP' HG) as (i & P' & ? & ? & ?).
  exists i, P'. split; [done|]. split; [done|]. split; [done|].
  exact (watched_ticks _ _ _ _ _ (S i) HP).
Qed.

Lemma wp_pair_complete_io cs C p w n (Q : Res (option Z) → NvmeQueuePair → World E → Prop) :
  pair_inv cs C p w → 1 ≤ n ≤ Z.of_nat (length cs) - C →
  (∀ w', pair_inv cs (C + n) (pair_taken p posted (C + n)) w' →
     Q (Ret (if sc_field (posted (C + n - 1)) =? 0
             then Some (cpl_sq_head (posted (C + n - 1))) else None))
       (pair_taken p posted (C + n)) w') →
  wp (NvmeQueuePair.complete_io n) Q p w.
Proof.
  intros Hinv Hn HQ. pose proof (inv_bounds _ _ _ _ Hinv) as (? & ? & ?).
  destruct (pair_rings (p:=p0)) as (_ & _ & Hl & _). pose proof (pair_fuel (p:=p0)) as [? ?].
  pose proof Hinv as (Hp & HF & (P & HP) & Hcs).
  assert (comp_queue p = cq_pos cq C) as Hcq by by rewrite Hp.
  apply (wp_pair_complete p posted (watched cs (fetched C)) (Z.of_nat (length cs)) N C P);
    rewrite ?Hcq.
  - apply producer_pos, watched_producer.
  - exact (watched_live cs (fetched C)).
  - exact Hl.
  - by apply cq_pos_at; [|lia].
  - by split.
  - simpl. lia.
  - lia.
  - lia.
  - nia.
  - intros P' w' ? [HP' Hcs'] _. apply HQ.
    assert (pair_inv cs C p w') as Hinv' by (split_and!; eauto).
    apply inv_tick in Hinv'. destruct (service_tick _ _ _ _ HP') as (P2 & ? & HP2).
    by apply (inv_take cs C p _ P2); [|lia..|].
Qed.

(** ** The state machine *)

(** The pair and the world, with the history: commands submitted, completions
    taken. *)
Record PairState := mkPairState {
  st_pair : NvmeQueuePair;
  st_world : World E;
  st_sent : list NvmeCommand;
  st_taken : Z;
}.

(** A call by the thread that owns the pair. *)
Inductive pair_call : PairState → PairState → Prop :=
| call_submit p w cs C data lba (write : bool) n p' w' :
    request_ok data lba →
    NvmeQueuePair.submit_io data lba write (p, w) = (Ret n, (p', w')) →
    pair_call (mkPairState p w cs C)
      (mkPairState p' w' (cs ++ (sent_cmd (Z.of_nat (length cs)) write data lba <$> zrange 0 n)) C)
| call_poll p w cs C o p' w' :
    NvmeQueuePair.quick_poll (p, w) = (Ret o, (p', w')) →
    pair_call (mkPairState p w cs C) (mkPairState p' w' cs (match o with Some _ => C + 1 | None => C end))
| call_poll_result p w cs C r p' w' :
    NvmeQueuePair.quick_poll_result (p, w) = (r, (p', w')) →
    pair_call (mkPairState p w cs C)
      (mkPairState p' w' cs (match r with Ret None => C | _ => C + 1 end))
| call_complete p w cs C n r p' w' :
    1 ≤ n ≤ Z.of_nat (length cs) - C →
    NvmeQueuePair.complete_io n (p, w) = (r, (p', w')) →
    pair_call (mkPairState p w cs C) (mkPairState p' w' cs (C + n)).

(** A call, or a step of anything else: the environment runs, or a register or
    memory that is not this pair's is accessed. *)
Inductive pair_step : PairState → PairState → Prop :=
| step_call s s' : pair_call s s' → pair_step s s'
| step_run p w cs C :
    pair_step (mkPairState p w cs C) (mkPairState p (tick w) cs C)
| step_write p w cs C m a v :
    a ≠ sq_doorbell sq →
    pair_step (mkPairState p w cs C) (mkPairState p (written m a v w) cs C)
| step_read p w cs C m a :
    pair_step (mkPairState p w cs C) (mkPairState p (reading m a w) cs C)
| step_store p w cs C a bs :
    cq_apart cq a (length bs) → sq_apart sq a (length bs) →
    pair_step (mkPairState p w cs C) (mkPairState p (stored a bs w) cs C).

Definition state_inv (s : PairState) : Prop :=
  pair_inv (st_sent s) (st_taken s) (st_pair s) (st_world s).

Lemma poll_inv cs C p w :
  pair_inv cs C p w →
  wp NvmeQueuePair.quick_poll (λ r p' w', ∃ o, r = Ret o ∧
    pair_inv cs (match o with Some _ => C + 1 | None => C end) p' w') p w ∧
  wp NvmeQueuePair.quick_poll_result (λ r p' w',
    pair_inv cs (match r with Ret None => C | _ => C + 1 end) p' w') p w.
Proof.
  intros Hinv. split.
  - apply (wp_pair_poll cs C p w (λ _, mret (Some tt)) _ Hinv).
    + by exists None.
    + intros w' _ ?. wp_step. by exists (Some tt).
  - apply (wp_pair_poll cs C p w (λ c_entry,
      if negb (Z.shiftr (cpl_status c_entry) 1 =? 0)
      then throw (Vroom ("Error: " +:+
             NvmeQueuePair.poll_error (Z.shiftr (cpl_status c_entry) 1) c_entry))
      else mret (Some tt)) _ Hinv); [done|].
    intros w' _ ?. by destruct (negb _).
Qed.

Lemma pair_call_inv s s' : state_inv s → pair_call s s' → state_inv s'.
Proof.
  unfold state_inv. intros Hinv Hstep.
  destruct Hstep as [p w cs C data lba write n p' w' Hr Hrun|p w cs C o p' w' Hrun
    |p w cs C r p' w' Hrun|p w cs C n r p' w' Hn Hrun]; simpl in *.
  - assert (wp (NvmeQueuePair.submit_io data lba write) (λ r p' w', ∃ m, r = Ret m ∧
      pair_inv (cs ++ (sent_cmd (Z.of_nat (length cs)) write data lba <$> zrange 0 m)) C p' w') p w)
      as Hwp by (apply (wp_pair_submit cs C); eauto).
    unfold wp in Hwp. rewrite Hrun in Hwp. destruct Hwp as (m & [= ->] & ?). done.
  - apply poll_inv in Hinv as [Hwp _]. unfold wp in Hwp. rewrite Hrun in Hwp.
    by destruct Hwp as (? & [= <-] & ?).
  - apply poll_inv in Hinv as [_ Hwp]. unfold wp in Hwp. by rewrite Hrun in Hwp.
  - assert (wp (NvmeQueuePair.complete_io n) (λ _ p' w', pair_inv cs (C + n) p' w') p w) as Hwp
      by (by apply (wp_pair_complete_io cs C)).
    unfold wp in Hwp. by rewrite Hrun in Hwp.
Qed.

Lemma pair_step_inv s s' : state_inv s → pair_step s s' → state_inv s'.
Proof.
  intros Hinv Hstep. destruct Hstep.
  - by eapply pair_call_inv.
  - exact (inv_tick _ _ _ _ Hinv).
  - by apply (inv_written _ _ _ _ _ _ _ H).
  - exact (inv_reading _ _ _ _ _ _ Hinv).
  - by apply (inv_stored _ _ _ _ _ _ H H0).
Qed.

Lemma reachable_inv s s' : rtc pair_step s s' → state_inv s → state_inv s'.
Proof. induction 1; eauto using pair_step_inv. Qed.

(** The entries of the ring, as a list. *)
Lemma inv_entries cs C p w :
  pair_inv cs C p w → sq_entries (mem w) (sub_queue p) = drop (Z.to_nat (fetched C)) cs.
Proof.
  intros Hinv. pose proof (inv_bounds _ _ _ _ Hinv) as (? & ? & _).
  destruct Hinv as (-> & ? & _ & Hcs). unfold sq_entries. rewrite pair_at_count by lia.
  apply list_eq. intros i. rewrite list_lookup_fmap, lookup_drop. unfold zrange.
  rewrite list_lookup_fmap. destruct (decide (i < length cs - Z.to_nat (fetched C))%nat) as [Hi|Hi].
  - rewrite lookup_seq_lt by lia. simpl.
    destruct (lookup_lt_is_Some_2 cs (Z.to_nat (fetched C) + i)) as [c Hc]; [lia|]. rewrite Hc.
    f_equal. rewrite Z.add_mod_idemp_l by (destruct (pair_rings (p:=p0)); lia).
    apply (Hcs (fetched C + Z.of_nat i) c); [lia|lia|].
    by replace (Z.to_nat (fetched C + Z.of_nat i)) with (Z.to_nat (fetched C) + i)%nat by lia.
  - rewrite lookup_seq_ge by lia. simpl. symmetry. apply lookup_ge_None. lia.
Qed.

End protocol.

(** ** A controller that serves a pair *)

Section serving_pair.
Context `{FUEL : Fuel} (p : NvmeQueuePair) (cc : Z).
Context (Hrings : rings_ok (sub_queue p) (comp_queue p)).
Context (Hdb : cq_doorbell (comp_queue p) ≠ sq_doorbell (sub_queue p)).
Context (Hlen : cq_len (comp_queue p) = sq_len (sub_queue p)).

(** It reports a command as fetched when it completes it. *)
Lemma serving_pair :
  (Z.to_nat (cq_len (comp_queue p)) < spin_fuel)%nat →
  let posted := success (cq_len (comp_queue p)) in
  PairService (HW:=serving_hw (comp_queue p) posted (sq_doorbell (sub_queue p)) cc)
    p posted (λ k, k) 1 (serving (comp_queue p) posted).
Proof.
  intros Hfuel posted. destruct Hrings as (? & ? & Hc & Hap). split.
  - apply serving_service; [done| |].
    + intros. by apply success_wf.
    + intros. apply success_phase.
  - exact Hrings.
  - exact Hdb.
  - lia.
  - done.
  - lia.
  - intros k ?. lia.
  - by intros G C P w (_ & [? _] & _).
  - intros. lia.
  - intros k ?. simpl. by rewrite Hlen.
  - intros G C P w i (He & (? & ?) & (? & ? & _)) Hi. unfold sq_entry, tick. simpl.
    destruct (env w) as [v [? ?]]. simpl in He. injection He as -> ->.
    destruct (P <? G); simpl; [|done]. f_equal. apply load_store_disjoint.
    rewrite completion_encode_length. specialize (Hap i Hi). unfold cq_apart in Hap.
    pose proof (Z.mod_pos_bound P (cq_len (comp_queue p)) ltac:(lia)).
    unfold CompletionQueue.slot. rewrite size_of_completion, size_of_command in *. lia.
Qed.

End serving_pair.

(** ** Properties *)


(** A pair of four entries; 12288 bytes make two commands. *)
Definition demo_new_pair : NvmeQueuePair :=
  mkNvmeQueuePair 2 (mkSubmissionQueue (mkDma 0x800000 0x800000 2097152) 0 0 4 4112)
    (mkCompletionQueue (mkDma 0xA00000 0xA00000 2097152) 0 true 4 4116).

Definition demo_pair_hw : Hardware (Z * (Z * Z)) :=
  serving_hw (comp_queue demo_new_pair) (success 4) 4112 0.

Definition demo_pair_serves : Z → Z → Z → World (Z * (Z * Z)) → Prop :=
  serving (comp_queue demo_new_pair) (success 4).

Lemma demo_pair_service :
  PairService (FUEL:=10%nat) (HW:=demo_pair_hw) demo_new_pair (success 4) (λ k, k) 1 demo_pair_serves.
Proof.
  apply (serving_pair (FUEL:=10%nat) demo_new_pair 0).
  - unfold rings_ok. rewrite QUEUE_LENGTH_value. simpl. repeat split; try lia.
    intros i Hi. left. unfold sq_slot. rewrite size_of_command. simpl. lia.
  - done.
  - done.
  - unfold spin_fuel. simpl. lia.
Qed.

Lemma demo_pair_init : demo_pair_serves 0 0 0 serving_world.
Proof. apply serving_init. rewrite QUEUE_LENGTH_value. simpl. lia. Qed.

Lemma demo_submit_run :
  (NvmeQueuePair.submit_io (BLD:=true) (HW:=demo_pair_hw) (mkDma 0x4000000 0x4000000 12288) 100 true
    (demo_new_pair, serving_world)).1 = Ret 2.
Proof. by vm_compute. Qed.

