(* ===== verification/Frame.v ===== *)
(** What a call on a queue pair can touch: its own ring, its own two doorbells,
    and nothing else.  This is a frame rule: every property of the world that
    these accesses keep is kept by the call, whatever its arguments and however
    it ends. *)

From stdpp Require Import relations.
From S2P Require Import Prelude Bytes Machine Memory Cmd Mapping Queues Service QueuePair Device Protocol.
#[local] Open Scope Z_scope.

(** ** Computations that touch nothing *)

Definition still {E S A} (m : M E S A) : Prop := ∀ st, (m st).2 = st.

Section still.
Context {E S : Type}.

Lemma still_ret {A} (a : A) : still (E:=E) (S:=S) (mret a).
Proof. done. Qed.

Lemma still_panic {A} p : still (E:=E) (S:=S) (A:=A) (panic p).
Proof. done. Qed.

Lemma still_throw {A} e : still (E:=E) (S:=S) (A:=A) (throw e).
Proof. done. Qed.

Lemma still_bind {A B} (m : M E S A) (f : A → M E S B) :
  still m → (∀ a, still (f a)) → still (m ≫= f).
Proof.
  intros Hm Hf st. unfold mbind, M_bind. specialize (Hm st).
  destruct (m st) as [[a|e|p|] st']; simpl in *; [by rewrite Hf|done..].
Qed.

Lemma still_ck `{BLD : Build} n z : still (E:=E) (S:=S) (ck n z).
Proof. intros st. unfold ck. destruct (fits n z); [done|]. by destruct overflow_checks. Qed.

Lemma still_udiv a b : still (E:=E) (S:=S) (udiv a b).
Proof. intros st. unfold udiv. by destruct (b =? 0). Qed.

Lemma still_umod a b : still (E:=E) (S:=S) (umod a b).
Proof. intros st. unfold umod. by destruct (b =? 0). Qed.

Lemma still_index i n : still (E:=E) (S:=S) (index i n).
Proof. intros st. unfold index. by destruct (_ && _). Qed.

Lemma still_assert b : still (E:=E) (S:=S) (assert b).
Proof. intros st. by destruct b. Qed.

Lemma still_unwrap {A} (o : option A) : still (E:=E) (S:=S) (unwrap o).
Proof. intros st. by destruct o. Qed.

Lemma still_next `{BLD : Build} elt it : still (E:=E) (S:=S) (DmaChunks.next elt it).
Proof.
  unfold DmaChunks.next. destruct (_ <=? _); [apply still_ret|].
  repeat (apply still_bind; [apply still_ck || apply still_udiv|intros ?]). apply still_ret.
Qed.

End still.

Ltac solve_still :=
  first [ apply still_ret | apply still_panic | apply still_throw | apply still_ck | apply still_udiv
        | apply still_umod | apply still_index | apply still_assert | apply still_unwrap | apply still_next ].

(** ** Framed computations *)

(** [J] for the receiver, [I] for the world. *)
Definition framed {E S A} (J : S → Prop) (I : World E → Prop) (m : M E S A) : Prop :=
  ∀ s w, J s → I w → J (m (s, w)).2.1 ∧ I (m (s, w)).2.2.

Section framed.
Context {E S : Type} (J : S → Prop) (I : World E → Prop).

Lemma framed_still {A} (m : M E S A) : still m → framed J I m.
Proof. intros Hm s w ? ?. by rewrite Hm. Qed.

Lemma framed_bind {A B} (m : M E S A) (f : A → M E S B) :
  framed J I m → (∀ a, framed J I (f a)) → framed J I (m ≫= f).
Proof.
  intros Hm Hf s w Hs Hw. unfold mbind, M_bind. destruct (Hm s w Hs Hw) as [? ?].
  destruct (m (s, w)) as [[a|e|p|] [s' w']]; simpl in *; auto. by apply Hf.
Qed.

(** The same, with what is known of the value. *)
Lemma framed_bind_returns {A B} (m : M E S A) (f : A → M E S B) :
  framed J I m → (∀ a, (∃ st st', m st = (Ret a, st')) → framed J I (f a)) → framed J I (m ≫= f).
Proof.
  intros Hm Hf s w Hs Hw. unfold mbind, M_bind. destruct (Hm s w Hs Hw) as [? ?].
  destruct (m (s, w)) as [[a|e|p|] [s' w']] eqn:He; simpl in *; auto.
  apply (Hf a); [by eexists _, _|done..].
Qed.

(** The receiver read is one with [J]. *)
Lemma framed_get {B} (f : S → M E S B) :
  (∀ s, J s → framed J I (f s)) → framed J I (get ≫= f).
Proof. intros Hf s w Hs Hw. by apply (Hf s). Qed.

Lemma framed_modify (f : S → S) : (∀ s, J s → J (f s)) → framed J I (modify f).
Proof. intros Hf s w Hs Hw. split; [by apply Hf|done]. Qed.

Lemma framed_loop {A B} n (body : A → M E S (Flow A B)) a :
  (∀ a, framed J I (body a)) → framed J I (loop n body a).
Proof.
  intros Hb. revert a. induction n as [|n IH]; intros a; [by intros s w ? ?|].
  cbn [loop]. apply framed_bind; [apply Hb|]. intros [a'|b]; [apply IH|by apply framed_still].
Qed.

Lemma framed_zoom {T A} (g : T → S) (put : S → T → T) (K : T → Prop) (m : M E S A) :
  framed J I m → (∀ t, K t → J (g t)) → (∀ t s, K t → J s → K (put s t)) →
  framed K I (zoom g put m).
Proof.
  intros Hm Hg Hp t w Ht Hw. unfold zoom. cbn [fst snd].
  destruct (Hm (g t) w (Hg t Ht) Hw) as [? ?]. destruct (m (g t, w)) as [r [s' w']].
  simpl in *. auto.
Qed.

Context `{HW : Hardware E}.

Lemma framed_load a n : (∀ w, I w → I (tick w)) → framed J I (load a n).
Proof. intros Ht s w ? ?. split; [done|by apply Ht]. Qed.

Lemma framed_store a bs :
  (∀ w, I w → I (tick w)) → (∀ w, I w → I (stored a bs w)) → framed J I (store a bs).
Proof. intros Ht Hs s w ? ?. split; [done|by apply Hs, Ht]. Qed.

Lemma framed_write m a v :
  (∀ w, I w → I (tick w)) → (∀ w, I w → I (written m a v w)) → framed J I (write_volatile m a v).
Proof. intros Ht Hs s w ? ?. split; [done|by apply Hs, Ht]. Qed.

End framed.

(** Descends into a computation. *)
Ltac frame_step :=
  lazymatch goal with
  | |- framed _ _ (mbind _ get) => apply framed_get; intros ? ?
  | |- framed _ _ (mbind _ _) => apply framed_bind; [|intros ?]
  | |- framed _ _ (loop _ _ _) => apply framed_loop; intros ?
  | |- framed _ _ (if ?b then _ else _) => destruct b
  | |- framed _ _ (let '(_, _) := ?x in _) => destruct x
  | |- framed _ _ (match ?x with _ => _ end) => destruct x
  | |- framed _ _ _ => first [apply framed_still; solve_still
                            | apply framed_load | apply framed_modify]
  end.

(** ** The calls on a queue pair *)

(** What never changes of the queues of a pair, and a tail inside the ring. *)
Definition sq_shape (q0 q : SubmissionQueue) : Prop :=
  sq_commands q = sq_commands q0 ∧ sq_len q = sq_len q0 ∧ sq_doorbell q = sq_doorbell q0 ∧
  0 ≤ sq_tail q < sq_len q0.

Definition cq_shape (q0 q : CompletionQueue) : Prop :=
  cq_commands q = cq_commands q0 ∧ cq_len q = cq_len q0 ∧ cq_doorbell q = cq_doorbell q0.

Definition pair_shape (p0 p : NvmeQueuePair) : Prop :=
  qp_id p = qp_id p0 ∧ sq_shape (sub_queue p0) (sub_queue p) ∧
  cq_shape (comp_queue p0) (comp_queue p).

(** A property of the world that the accesses of the pair [p0] keep. *)
Record Kept {E} `{HW : Hardware E} (p0 : NvmeQueuePair) (I : World E → Prop) : Prop := {
  kept_tick : ∀ w, I w → I (tick w);
  kept_entry : ∀ w i bs, 0 ≤ i < sq_len (sub_queue p0) → length bs = 64%nat →
    I w → I (stored (sq_slot (sub_queue p0) i) bs w);
  kept_sq_doorbell : ∀ w v, I w → I (written 4 (sq_doorbell (sub_queue p0)) v w);
  kept_cq_doorbell : ∀ w v, I w → I (written 4 (cq_doorbell (comp_queue p0)) v w);
}.

Section calls.
Context {E : Type} `{BLD : Build} `{FUEL : Fuel} `{HW : Hardware E}.
Context (p0 : NvmeQueuePair) (I : World E → Prop) (K : Kept p0 I).

#[local] Abbreviation sframed := (framed (sq_shape (sub_queue p0)) I).
#[local] Abbreviation cframed := (framed (cq_shape (comp_queue p0)) I).
#[local] Abbreviation pframed := (framed (pair_shape p0) I).

Lemma submit_framed entry : sframed (SubmissionQueue.submit entry).
Proof.
  unfold SubmissionQueue.submit. apply framed_get. intros q (Hc & Hl & Hd & Ht).
  frame_step; [by frame_step|]. frame_step.
  { apply framed_store; [apply K|]. intros w Hw. rewrite Hc.
    apply (kept_entry _ _ K w (sq_tail q)); [done|apply encode_length|done]. }
  frame_step; [by frame_step|].
  apply framed_bind_returns; [by frame_step|]. intros t (st & st' & Hr).
  assert (t = a1 `mod` sq_len q ∧ sq_len q ≠ 0) as [-> ?].
  { unfold umod in Hr. destruct (Z.eqb_spec (sq_len q) 0); [done|].
    injection Hr as <- _. done. }
  frame_step; [|by frame_step]. apply framed_modify. intros q' (? & ? & ? & ?).
  unfold sq_shape. simpl. rewrite Hl. split_and!; [done..| |];
    pose proof (Z.mod_pos_bound a1 (sq_len (sub_queue p0)) ltac:(lia)); lia.
Qed.

Lemma submit_checked_framed entry : sframed (SubmissionQueue.submit_checked entry).
Proof.
  unfold SubmissionQueue.submit_checked. frame_step.
  - unfold SubmissionQueue.is_full. apply framed_get. intros q Hq. by repeat frame_step.
  - destruct a; [by frame_step|]. frame_step; [apply submit_framed|by frame_step].
Qed.

Lemma complete_framed : cframed CompletionQueue.complete.
Proof.
  unfold CompletionQueue.complete. apply framed_get. intros q Hq.
  repeat (frame_step; try apply K); intros q' Hq'; exact Hq'.
Qed.

Lemma complete_spin_framed : cframed CompletionQueue.complete_spin.
Proof.
  unfold CompletionQueue.complete_spin. generalize spin_fuel. intros n. induction n as [|n IH].
  { by intros q w ? ?. }
  cbn [CompletionQueue.complete_spin_fuel]. frame_step; [apply complete_framed|].
  destruct a; [by frame_step|exact IH].
Qed.

Lemma complete_n_framed n : cframed (CompletionQueue.complete_n n).
Proof.
  unfold CompletionQueue.complete_n. apply framed_get. intros q Hq.
  repeat first [apply complete_spin_framed | frame_step]; intros q' Hq'; exact Hq'.
Qed.

(** The queues inside the pair. *)
Lemma framed_sub {A} (m : M E SubmissionQueue A) :
  sframed m → pframed (zoom sub_queue NvmeQueuePair.set_sub m).
Proof.
  intros Hm. eapply framed_zoom; [exact Hm|by intros p (_ & ? & _)|].
  intros p q (? & ? & ?) Hq. by split_and!.
Qed.

Lemma framed_comp {A} (m : M E CompletionQueue A) :
  cframed m → pframed (zoom comp_queue NvmeQueuePair.set_comp m).
Proof.
  intros Hm. eapply framed_zoom; [exact Hm|by intros p (_ & _ & ?)|].
  intros p q (? & ? & ?) Hq. by split_and!.
Qed.

(** The completion doorbell, and the head of the submission queue. *)
Lemma acknowledge_framed {A} (tail head : Z) (m : M E NvmeQueuePair A) :
  pframed m →
  pframed (self ← get;
           _ ← write_volatile 4 (cq_doorbell (comp_queue self)) (as_u32 tail);
           _ ← modify (NvmeQueuePair.set_sub_head head); m).
Proof.
  intros Hm. apply framed_get. intros p (_ & _ & (_ & _ & ->)). frame_step.
  { apply framed_write; [apply K|]. intros w Hw. by apply (kept_cq_doorbell _ _ K). }
  frame_step; [|done]. apply framed_modify. intros q (? & (? & ? & ? & ?) & ?). by split_and!.
Qed.

Lemma submit_chunk_framed write st c : pframed (NvmeQueuePair.submit_chunk write st c).
Proof.
  destruct st as [lba reqs]. unfold NvmeQueuePair.submit_chunk.
  do 4 (frame_step; [repeat frame_step|]). apply framed_get. intros p (_ & (_ & _ & -> & _) & _).
  frame_step; [by frame_step|]. frame_step; [apply framed_sub, submit_checked_framed|].
  destruct a4; [|by frame_step]. frame_step; [|by repeat frame_step].
  apply framed_write; [apply K|]. intros w Hw. by apply (kept_sq_doorbell _ _ K).
Qed.

Lemma submit_io_framed data lba write : pframed (NvmeQueuePair.submit_io data lba write).
Proof.
  unfold NvmeQueuePair.submit_io, DmaChunks.for_chunks. apply framed_loop. intros [it st].
  frame_step; [by frame_step|]. destruct a as [[c|] it']; [|by frame_step].
  frame_step; [apply submit_chunk_framed|]. by repeat frame_step.
Qed.

Lemma complete_io_framed n : pframed (NvmeQueuePair.complete_io n).
Proof.
  unfold NvmeQueuePair.complete_io. frame_step; [by frame_step|].
  frame_step; [apply framed_comp, complete_n_framed|]. destruct a0 as [[tail c] prev].
  apply acknowledge_framed. by repeat frame_step.
Qed.

Lemma quick_poll_framed : pframed NvmeQueuePair.quick_poll.
Proof.
  unfold NvmeQueuePair.quick_poll. frame_step; [apply framed_comp, complete_framed|].
  destruct a as [[[tail c] prev]|]; [|by frame_step]. apply acknowledge_framed. by frame_step.
Qed.

Lemma quick_poll_result_framed : pframed NvmeQueuePair.quick_poll_result.
Proof.
  unfold NvmeQueuePair.quick_poll_result. frame_step; [apply framed_comp, complete_framed|].
  destruct a as [[[tail c] prev]|]; [|by frame_step]. apply acknowledge_framed.
  frame_step; by frame_step.
Qed.

(** A call as a whole. *)
Lemma pair_call_framed (s s' : PairState) :
  pair_call p0 s s' → pair_shape p0 (st_pair s) → I (st_world s) →
  pair_shape p0 (st_pair s') ∧ I (st_world s').
Proof.
  intros Hcall Hp Hw.
  destruct Hcall as [p w cs C data lba write n p' w' _ Hrun|p w cs C o p' w' Hrun
    |p w cs C r p' w' Hrun|p w cs C n r p' w' _ Hrun]; simpl in *.
  - pose proof (submit_io_framed data lba write p w Hp Hw) as Hf. by rewrite Hrun in Hf.
  - pose proof (quick_poll_framed p w Hp Hw) as Hf. by rewrite Hrun in Hf.
  - pose proof (quick_poll_result_framed p w Hp Hw) as Hf. by rewrite Hrun in Hf.
  - pose proof (complete_io_framed n p w Hp Hw) as Hf. by rewrite Hrun in Hf.
Qed.

End calls.
