(* ===== verification/Threads.v ===== *)
(** The threads of a program, each with a queue pair of its own, as one system:
    calls of the threads in any order, and anything else that leaves their pairs
    alone (the controller, the admin queue, other memory) in between.  A thread
    runs in it as if it were alone with the controller. *)

From stdpp Require Import relations.
From S2P Require Import Prelude Bytes Machine Memory Cmd Mapping Queues Service QueuePair Device Protocol Frame.
#[local] Open Scope Z_scope.

(** The pairs of different threads share neither doorbells nor memory. *)
Record Separate (ps : list NvmeQueuePair) : Prop := {
  separate_doorbells : ∀ i j p q, ps !! i = Some p → ps !! j = Some q → i ≠ j →
    sq_doorbell (sub_queue q) ≠ sq_doorbell (sub_queue p) ∧
    cq_doorbell (comp_queue q) ≠ sq_doorbell (sub_queue p);
  separate_rings : ∀ i j p q k, ps !! i = Some p → ps !! j = Some q → i ≠ j →
    0 ≤ k < sq_len (sub_queue q) →
    cq_apart (comp_queue p) (sq_slot (sub_queue q) k) 64 ∧
    sq_apart (sub_queue p) (sq_slot (sub_queue q) k) 64;
}.

(** A thread: its pair, the commands it has sent and the completions it has
    taken. *)
Record Thread := mkThread {
  th_pair : NvmeQueuePair;
  th_sent : list NvmeCommand;
  th_taken : Z;
}.

Section threads.
Context {E : Type} `{BLD : Build} `{FUEL : Fuel} `{HW : Hardware E}.
Context (ps : list NvmeQueuePair).
Implicit Types (w : World E) (t : Thread) (ts : list Thread).

Record System := mkSystem { sys_world : World E; sys_threads : list Thread }.

(** A thread as the state of its pair. *)
Definition in_world t w : PairState := mkPairState (th_pair t) w (th_sent t) (th_taken t).

Definition new_thread (p : NvmeQueuePair) : Thread := mkThread p [] 0.

Inductive sys_step : System → System → Prop :=
| sys_call i p t t' w w' ts :
    ps !! i = Some p → ts !! i = Some t → pair_call p (in_world t w) (in_world t' w') →
    sys_step (mkSystem w ts) (mkSystem w' (<[i := t']> ts))
| sys_run w ts : sys_step (mkSystem w ts) (mkSystem (tick w) ts)
| sys_write w ts m a v :
    (∀ i p, ps !! i = Some p → a ≠ sq_doorbell (sub_queue p)) →
    sys_step (mkSystem w ts) (mkSystem (written m a v w) ts)
| sys_read w ts m a : sys_step (mkSystem w ts) (mkSystem (reading m a w) ts)
| sys_store w ts a bs :
    (∀ i p, ps !! i = Some p →
       cq_apart (comp_queue p) a (length bs) ∧ sq_apart (sub_queue p) a (length bs)) →
    sys_step (mkSystem w ts) (mkSystem (stored a bs w) ts).

(** ** A thread seen alone *)

Context (SP : Separate ps) (Hps : Forall (λ p, sq_ok (sub_queue p)) ps) (w0 : World E).

(** The run of thread [i] alone. *)
Definition alone (p : NvmeQueuePair) t w : Prop :=
  pair_shape p (th_pair t) ∧
  rtc (pair_step p) (mkPairState p w0 [] 0) (in_world t w).

Definition each_alone (s : System) : Prop :=
  ∀ i p, ps !! i = Some p → ∃ t, sys_threads s !! i = Some t ∧ alone p t (sys_world s).

Lemma each_alone_init : each_alone (mkSystem w0 (new_thread <$> ps)).
Proof.
  intros i p Hp. exists (new_thread p). simpl. rewrite list_lookup_fmap, Hp. split; [done|].
  split; [|apply rtc_refl]. rewrite Forall_lookup in Hps. destruct (Hps i p Hp) as (_ & _ & ?).
  by split_and!.
Qed.

(** What the pair [q] does is for the pair [p] a number of steps of something
    else. *)
Lemma others_kept i j p q t :
  ps !! i = Some p → ps !! j = Some q → i ≠ j →
  Kept q (λ w, rtc (pair_step p) (mkPairState p w0 [] 0) (in_world t w)).
Proof.
  intros Hp Hq Hij. destruct (separate_doorbells _ SP _ _ _ _ Hp Hq Hij). split.
  - intros w Hw. eapply rtc_r; [exact Hw|apply step_run].
  - intros w k bs Hk Hbs Hw. destruct (separate_rings _ SP _ _ _ _ k Hp Hq Hij Hk).
    eapply rtc_r; [exact Hw|]. by apply step_store; rewrite Hbs.
  - intros w v Hw. eapply rtc_r; [exact Hw|by apply step_write].
  - intros w v Hw. eapply rtc_r; [exact Hw|by apply step_write].
Qed.

Lemma true_kept p : Kept p (λ _ : World E, True).
Proof. done. Qed.

(** A step that is nobody's call. *)
Lemma each_alone_other w w' ts :
  (∀ i p t, ps !! i = Some p → pair_step p (in_world t w) (in_world t w')) →
  each_alone (mkSystem w ts) → each_alone (mkSystem w' ts).
Proof.
  intros Hstep Hall i p Hp. destruct (Hall i p Hp) as (t & Ht & Hs & Hrun). exists t.
  split; [done|]. split; [done|]. eapply rtc_r; [exact Hrun|]. by eapply Hstep.
Qed.

Lemma each_alone_step s s' : each_alone s → sys_step s s' → each_alone s'.
Proof.
  intros Hall Hstep. destruct Hstep as [j q t t' w w' ts Hq Ht Hcall|w ts|w ts m a v Ha|w ts m a
    |w ts a bs Ha].
  - intros i p Hp. simpl. destruct (Hall j q Hq) as (tj & Htj & Hsj & Hrunj). simpl in *.
    rewrite Ht in Htj. injection Htj as <-. destruct (decide (i = j)) as [->|Hij].
    + rewrite Hq in Hp. injection Hp as <-. exists t'.
      rewrite list_lookup_insert_eq by by eapply lookup_lt_Some. split; [done|].
      destruct (pair_call_framed q _ (true_kept q) _ _ Hcall Hsj I) as [? _]. split; [done|].
      eapply rtc_r; [exact Hrunj|by apply step_call].
    + rewrite list_lookup_insert_ne by done. destruct (Hall i p Hp) as (ti & Hti & Hsi & Hruni).
      exists ti. split; [done|]. split; [done|].
      by destruct (pair_call_framed q _ (others_kept i j p q ti Hp Hq Hij) _ _ Hcall Hsj Hruni).
  - apply (each_alone_other w); [|done]. intros i p t _. apply step_run.
  - apply (each_alone_other w); [|done]. intros i p t Hp. by eapply step_write, Ha.
  - apply (each_alone_other w); [|done]. intros i p t _. apply step_read.
  - apply (each_alone_other w); [|done]. intros i p t Hp. destruct (Ha i p Hp).
    by apply step_store.
Qed.

Lemma reachable_alone s :
  rtc sys_step (mkSystem w0 (new_thread <$> ps)) s → each_alone s.
Proof.
  intros Hsteps. pose proof each_alone_init as Hinit.
  induction Hsteps; eauto using each_alone_step.
Qed.

End threads.

(** ** A controller for two pairs *)

(** A controller in which the one of [serving_pair] is a part: [sel] is its part
    of the state, and before and after its part the others change the memory. *)
Section part.
Context {E' : Type} (p : NvmeQueuePair) (cc : Z) `{HW' : Hardware E'} (sel : E' → Z * (Z * Z)).
Context `{FUEL : Fuel}.

#[local] Abbreviation posted := (success (cq_len (comp_queue p))).
#[local] Abbreviation hw := (serving_hw (comp_queue p) posted (sq_doorbell (sub_queue p)) cc).

(** A change of the memory elsewhere. *)
Definition harmless (f : Mem → Mem) : Prop :=
  (∀ C P m, cq_view (comp_queue p) posted C P m → cq_view (comp_queue p) posted C P (f m)) ∧
  (∀ m i, 0 ≤ i < sq_len (sub_queue p) → sq_entry (f m) (sub_queue p) i = sq_entry m (sub_queue p) i).

Context (before after : E' → Mem → Mem).
Context (Hbefore : ∀ e, harmless (before e)) (Hafter : ∀ e, harmless (after e)).
Context (Hrun : ∀ e m, let r := hw_run (Hardware:=hw) (sel e) (before e m) in
  sel (hw_run e m).1 = r.1 ∧ (hw_run e m).2 = after e r.2).
Context (Hwrite : ∀ n a v e, sel (hw_write n a v e) = hw_write (Hardware:=hw) n a v (sel e)).
Context (Hread : ∀ n a e, sel (hw_read n a e).2 = sel e).

Definition part (w : World E') : World (Z * (Z * Z)) :=
  mkWorld (sel (env w)) (mem w) (trace w) (statics w).

Definition serving_part (G C P : Z) (w : World E') : Prop :=
  serving (comp_queue p) posted G C P (part w).

(** One run, seen from the part. *)
Lemma part_tick w :
  let w1 := mkWorld (sel (env w)) (before (env w) (mem w)) (trace w) (statics w) in
  (∀ G C P, serving_part G C P w → serving (comp_queue p) posted G C P w1) ∧
  (∀ G C P, serving (comp_queue p) posted G C P (tick (HW:=hw) w1) → serving_part G C P (tick w)).
Proof.
  intros w1. split.
  - intros G C P (? & ? & Hv). split; [done|]. split; [done|]. by apply Hbefore.
  - intros G C P (He & ? & Hv). destruct (Hrun (env w) (mem w)) as [Hr1 Hr2].
    unfold serving_part, part, serving. unfold tick in *. unfold w1 in *. simpl in *.
    destruct (hw_run (env w) (mem w)) as [e' m']. simpl in *. rewrite Hr1, Hr2.
    destruct (sel (env w)) as [v [g q]]. destruct (q <? g); simpl in *;
      (split; [done|]); (split; [done|]); by apply Hafter.
Qed.

Context (Hrings : rings_ok (sub_queue p) (comp_queue p)).
Context (Hdb : cq_doorbell (comp_queue p) ≠ sq_doorbell (sub_queue p)).
Context (Hlen : cq_len (comp_queue p) = sq_len (sub_queue p)).
Context (Hfuel : (Z.to_nat (cq_len (comp_queue p)) < spin_fuel)%nat).

Lemma part_service :
  CqService (comp_queue p) posted (sq_doorbell (sub_queue p)) (sq_len (sub_queue p)) 1 serving_part.
Proof.
  pose proof (serving_pair p cc Hrings Hdb Hlen Hfuel) as PS.
  pose proof (pair_service (HW:=hw) (p:=p)) as SV.
  assert (∀ G C P w, serving_part G C P w →
    serving_part G C (if P <? G then P + 1 else P) (tick w)) as Htick.
  { intros G C P w HP. destruct (part_tick w) as [H1 H2]. apply H2.
    destruct Hrings as (? & ? & ? & ?). apply serving_tick; [done| | |by apply H1].
    - intros. by apply success_wf.
    - intros. apply success_phase. }
  apply cq_service_intro.
  - intros G C P w HP. exact (service_view (HW:=hw) _ _ _ _ HP).
  - intros G C P w HP%Htick. eexists; split; [|done]. destruct (_ <? _); lia.
  - intros G C P w HP. exact (service_take (HW:=hw) _ _ _ _ HP).
  - intros G C P w a bs HP. exact (service_store (HW:=hw) _ _ _ _ _ _ HP).
  - intros G C P w HP HG. pose proof (service_ring (HW:=hw) _ _ _ _ HP HG) as Hr.
    unfold serving_part, serving in *. simpl in *. by rewrite Hwrite.
  - intros G C P w n a v HP Ha. pose proof (service_write (HW:=hw) _ _ _ _ n a v HP Ha) as Hr.
    unfold serving_part, serving in *. simpl in *. by rewrite Hwrite.
  - intros G C P w n a HP. unfold serving_part, serving in *. simpl in *. by rewrite Hread.
  - intros G C P w HP%Htick HPg. exists 0%nat, (P + 1).
    rewrite (proj2 (Z.ltb_lt _ _) HPg) in HP. split; [lia|]. split; [lia|done].
Qed.

Lemma part_pair : PairService p posted (λ k, k) 1 serving_part.
Proof.
  pose proof (serving_pair p cc Hrings Hdb Hlen Hfuel) as PS. destruct Hrings as (? & ? & ? & ?).
  split; [apply part_service|done|done|lia|done|lia|lia| |lia| |].
  - intros G C P w HP. exact (fetched_announced (HW:=hw) _ _ _ _ HP).
  - intros k Hk. exact (fetched_head (HW:=hw) (PairService:=PS) k Hk).
  - intros G C P w i HP Hi. destruct (part_tick w) as [Hb _].
    pose proof (ring_kept (HW:=hw) _ _ _ _ i (Hb G C P HP) Hi) as Hk.
    destruct (Hrun (env w) (mem w)) as [_ Hr]. unfold tick in *. simpl in *.
    destruct (hw_run (env w) (mem w)) as [e' m']. simpl in *. rewrite Hr.
    rewrite (proj2 (Hafter (env w))), <-(proj2 (Hbefore (env w)) (mem w) i), <-Hk by done. destruct (sel (env w)) as [v [g q]]. by destruct (q <? g).
Qed.

End part.

(** What a controller for the pair [q] does to the memory is harmless to [p]. *)
Lemma serving_harmless (p q : NvmeQueuePair) cc e :
  0 < cq_len (comp_queue p) ≤ QUEUE_LENGTH → 0 < cq_len (comp_queue q) →
  (∀ k, 0 ≤ k < cq_len (comp_queue q) →
     cq_apart (comp_queue p) (CompletionQueue.slot (comp_queue q) k) 16 ∧
     sq_apart (sub_queue p) (CompletionQueue.slot (comp_queue q) k) 16) →
  harmless p (λ m, (hw_run (Hardware := serving_hw (comp_queue q) (success (cq_len (comp_queue q)))
    (sq_doorbell (sub_queue q)) cc) e m).2).
Proof.
  intros Hlp Hl Hap. destruct e as [v [G P]]. simpl.
  destruct (P <? G); [|by split]. destruct (Hap (P `mod` cq_len (comp_queue q))) as [Hc Hs].
  { by apply Z.mod_pos_bound. }
  split; cbn [snd].
  - intros C P' m Hv.     apply cq_view_store; [done|by rewrite completion_encode_length|done].
  - intros m i Hi. unfold sq_entry. f_equal. apply load_store_disjoint.
    rewrite completion_encode_length. unfold sq_apart, sq_slot in *. rewrite size_of_command in *. lia.
Qed.

(** Two pairs: the controllers run one after the other. *)
Section two.
Context (p q : NvmeQueuePair).

#[local] Abbreviation hw1 := (serving_hw (comp_queue p) (success (cq_len (comp_queue p)))
  (sq_doorbell (sub_queue p)) 0).
#[local] Abbreviation hw2 := (serving_hw (comp_queue q) (success (cq_len (comp_queue q)))
  (sq_doorbell (sub_queue q)) 0).

Definition two_hw : Hardware ((Z * (Z * Z)) * (Z * (Z * Z))) := {|
  hw_run e m :=
    let r1 := hw_run (Hardware:=hw1) e.1 m in
    let r2 := hw_run (Hardware:=hw2) e.2 r1.2 in
    ((r1.1, r2.1), r2.2);
  hw_read n a e := (0, e);
  hw_write n a v e := (hw_write (Hardware:=hw1) n a v e.1, hw_write (Hardware:=hw2) n a v e.2);
|}.

Definition two_world : World ((Z * (Z * Z)) * (Z * (Z * Z))) :=
  initial ((0, (0, 0)), (0, (0, 0))) (λ _, 0).

Context `{FUEL : Fuel}.

Definition pair_servable (p : NvmeQueuePair) : Prop :=
  rings_ok (sub_queue p) (comp_queue p) ∧ cq_doorbell (comp_queue p) ≠ sq_doorbell (sub_queue p) ∧
  cq_len (comp_queue p) = sq_len (sub_queue p) ∧
  (Z.to_nat (cq_len (comp_queue p)) < spin_fuel)%nat.

(** The completion rings are apart from the rings of the other pair. *)
Definition rings_apart (p q : NvmeQueuePair) : Prop :=
  ∀ k, 0 ≤ k < cq_len (comp_queue q) →
    cq_apart (comp_queue p) (CompletionQueue.slot (comp_queue q) k) 16 ∧
    sq_apart (sub_queue p) (CompletionQueue.slot (comp_queue q) k) 16.

Lemma harmless_id (r : NvmeQueuePair) : harmless r (λ m, m).
Proof. by split. Qed.

Lemma two_service :
  pair_servable p → pair_servable q → rings_apart p q → rings_apart q p →
  PairService (HW:=two_hw) p (success (cq_len (comp_queue p))) (λ k, k) 1 (serving_part p fst) ∧
  PairService (HW:=two_hw) q (success (cq_len (comp_queue q))) (λ k, k) 1 (serving_part q snd).
Proof.
  intros (Hr1 & Hd1 & Hl1 & Hf1) (Hr2 & Hd2 & Hl2 & Hf2) H12 H21.
  pose proof Hr1 as (_ & _ & Hlp & _). pose proof Hr2 as (_ & _ & Hlq & _). split.
  - apply (part_pair p 0 (HW':=two_hw) fst (λ _ m, m) (λ e m, (hw_run (Hardware:=hw2) e.2 m).2)); try done.
    intros e. apply serving_harmless; [done|lia|done].
  - apply (part_pair q 0 (HW':=two_hw) snd (λ e m, (hw_run (Hardware:=hw1) e.1 m).2) (λ _ m, m)); try done.
    intros e. apply serving_harmless; [done|lia|done].
Qed.

End two.

(** ** Properties *)


(** A submission, as a step of the system. *)
Lemma sys_submitted `{BLD : Build} `{FUEL : Fuel} {E} `{HW : Hardware E} ps i p t (w : World E) ts
    data lba (write : bool) n :
  let st := (NvmeQueuePair.submit_io data lba write (th_pair t, w)).2 in
  ps !! i = Some p → ts !! i = Some t → request_ok data lba →
  (NvmeQueuePair.submit_io data lba write (th_pair t, w)).1 = Ret n →
  sys_step ps (mkSystem w ts)
    (mkSystem st.2 (<[i := mkThread st.1 (th_sent t ++
       (sent_cmd p (Z.of_nat (length (th_sent t))) write data lba <$> zrange 0 n)) (th_taken t)]> ts)).
Proof.
  intros st Hp Ht Hr Hrun. subst st.
  destruct (NvmeQueuePair.submit_io data lba write (th_pair t, w)) as [r [p' w']] eqn:He.
  cbn [fst snd] in *. subst r. eapply sys_call; [exact Hp|exact Ht|]. by eapply call_submit.
Qed.

Definition demo_pair_2 : NvmeQueuePair :=
  mkNvmeQueuePair 3 (mkSubmissionQueue (mkDma 0xC00000 0xC00000 2097152) 0 0 4 4120)
    (mkCompletionQueue (mkDma 0xE00000 0xE00000 2097152) 0 true 4 4124).

#[local] Abbreviation demo_ps := [demo_new_pair; demo_pair_2].
#[local] Abbreviation demo_two_hw := (two_hw demo_new_pair demo_pair_2).
#[local] Abbreviation demo_submit p lba :=
  (NvmeQueuePair.submit_io (BLD:=true) (HW:=demo_two_hw) (mkDma 0x4000000 0x4000000 12288) lba true p).

Definition demo_serves_2 (i : nat) : Z → Z → Z → World ((Z * (Z * Z)) * (Z * (Z * Z))) → Prop :=
  match i with O => serving_part demo_new_pair fst | _ => serving_part demo_pair_2 snd end.

Lemma demo_pair_lookup i p : demo_ps !! i = Some p → (i = 0%nat ∧ p = demo_new_pair) ∨ (i = 1%nat ∧ p = demo_pair_2).
Proof. destruct i as [|[|i]]; simpl; intros Hi; [injection Hi as <-|injection Hi as <-|]; auto; done. Qed.

Lemma demo_separate : Separate demo_ps.
Proof.
  split.
  - intros i j p q [[-> ->]|[-> ->]]%demo_pair_lookup [[-> ->]|[-> ->]]%demo_pair_lookup Hij;
      first [by destruct Hij|by simpl].
  - unfold cq_apart, sq_apart, sq_slot. rewrite size_of_command, size_of_completion.
    intros i j p q k [[-> ->]|[-> ->]]%demo_pair_lookup [[-> ->]|[-> ->]]%demo_pair_lookup Hij Hk;
      simpl in *; first [by destruct Hij|lia].
Qed.

Lemma demo_services :
  PairService (FUEL:=10%nat) (HW:=demo_two_hw) demo_new_pair (success 4) (λ k, k) 1 (demo_serves_2 0) ∧
  PairService (FUEL:=10%nat) (HW:=demo_two_hw) demo_pair_2 (success 4) (λ k, k) 1 (demo_serves_2 1).
Proof.
  apply (two_service (FUEL:=10%nat) demo_new_pair demo_pair_2).
  - unfold pair_servable, rings_ok, cq_apart, sq_slot, spin_fuel.
    rewrite QUEUE_LENGTH_value, size_of_command, size_of_completion. simpl. repeat split; lia.
  - unfold pair_servable, rings_ok, cq_apart, sq_slot, spin_fuel.
    rewrite QUEUE_LENGTH_value, size_of_command, size_of_completion. simpl. repeat split; lia.
  - unfold rings_apart, cq_apart, sq_apart, CompletionQueue.slot.
    rewrite size_of_command, size_of_completion. simpl. lia.
  - unfold rings_apart, cq_apart, sq_apart, CompletionQueue.slot.
    rewrite size_of_command, size_of_completion. simpl. lia.
Qed.

Lemma demo_serves_init i p :
  demo_ps !! i = Some p → p = pair_at p 0 0 0 ∧ demo_serves_2 i 0 0 0 (two_world).
Proof.
  intros [[-> ->]|[-> ->]]%demo_pair_lookup; (split; [done|]); simpl;
    apply serving_init; rewrite QUEUE_LENGTH_value; simpl; lia.
Qed.

Lemma demo_submit_1 : (demo_submit (demo_new_pair, two_world) 100).1 = Ret 2.
Proof. by vm_compute. Qed.

Lemma demo_submit_2 :
  (demo_submit (demo_pair_2, (demo_submit (demo_new_pair, two_world) 100).2.2) 200).1 = Ret 2.
Proof. by vm_compute. Qed.

