(* ===== verification/Pairs.v ===== *)
(** The queue pairs of a device ([src/nvme.rs], [create_io_queue_pair] and
    [delete_io_queue_pair]) as a state machine: creations and deletions in any
    order, successful or not, and the invariant of the pairs that are alive. *)

From stdpp Require Import gmap relations.
From S2P Require Import Prelude Bytes Machine Memory Cmd Mapping Queues Service QueuePair Device Setup.
#[local] Open Scope Z_scope.

(** ** Doorbells *)

(** Queues have doorbells of their own. *)
Lemma doorbell_at_inj {A} (d : NvmeDevice A) i j a b :
  dev_ok d → 0 ≤ a ≤ 1 → 0 ≤ b ≤ 1 → doorbell_at d i a = doorbell_at d j b → i = j ∧ a = b.
Proof.
  intros (_ & _ & _ & _ & ?) ? ? Hab. unfold doorbell_at, doorbell_offset in Hab.
  assert (0 < 2 ^ (2 + dstrd d)) by lia.
  assert (2 * i + a = 2 * j + b) by (apply (Z.mul_reg_r _ _ (2 ^ (2 + dstrd d))); lia). lia.
Qed.

Lemma NoDup_fmap_filter {X Y} (f : X → Y) (P : X → Prop) `{!∀ x, Decision (P x)} (l : list X) :
  NoDup (f <$> l) → NoDup (f <$> filter P l).
Proof.
  induction l as [|x l IH]; [done|]. rewrite fmap_cons. intros [Hx Hl]%NoDup_cons.
  rewrite filter_cons. destruct (decide (P x)); [|auto]. rewrite fmap_cons.
  apply NoDup_cons. split; [|auto]. intros (y & Hy & [_ Hin]%list_elem_of_filter)%list_elem_of_fmap.
  apply Hx, list_elem_of_fmap. eauto.
Qed.

Section pairs.
Context {A E : Type} `{BLD : Build} `{FUEL : Fuel} `{HW : Hardware E} `{MAP : Mapping A E}.
Context (d0 : NvmeDevice A) (posted : Z → NvmeCompletion) (N : nat).
Context (serves : Z → Z → Z → World E → Prop) `{AS : !AdminService d0 posted N serves}.
Context `{QA : ∀ G, QuietAllocator (allocator d0) (serves G G G)}.
Implicit Types (w : World E) (ps : list NvmeQueuePair) (p : NvmeQueuePair).

(** The device, the world, and the pairs created and not yet deleted. *)
Record DevState := mkDevState {
  ds_dev : NvmeDevice A;
  ds_world : World E;
  ds_pairs : list NvmeQueuePair;
}.

(** A creation within the doorbells that are mapped, with any outcome; the
    deletion of a pair; a run of the environment. *)
Inductive dev_step : DevState → DevState → Prop :=
| step_create d w ps len r d' w' :
    1 ≤ len ≤ 2 ^ 16 → q_id d < 2 ^ 15 - 1 →
    0x1000 + doorbell_offset (dstrd d) (q_id d) 1 + 4 ≤ dev_len d →
    NvmeDevice.create_io_queue_pair len (d, w) = (r, (d', w')) →
    dev_step (mkDevState d w ps)
      (mkDevState d' w' (match r with Ret p => p :: ps | _ => ps end))
| step_delete d w ps p r d' w' :
    p ∈ ps → NvmeDevice.delete_io_queue_pair p (d, w) = (r, (d', w')) →
    dev_step (mkDevState d w ps)
      (mkDevState d' w' (match r with Ret _ => filter (λ p', qp_id p' ≠ qp_id p) ps | _ => ps end))
| step_idle d w ps :
    dev_step (mkDevState d w ps) (mkDevState d (tick w) ps).

(** A pair under the id [i], as the device hands it out. *)
Definition pair_of (p : NvmeQueuePair) : Prop :=
  pair_allocated p ∧
  sq_doorbell (sub_queue p) = doorbell_at d0 (qp_id p) 0 ∧
  cq_doorbell (comp_queue p) = doorbell_at d0 (qp_id p) 1 ∧
  sq_len (sub_queue p) = cq_len (comp_queue p).

Definition pairs_inv (s : DevState) : Prop :=
  (∃ k, ds_dev s = NvmeDevice.set_q_id (q_id (ds_dev s)) (admin_pos d0 k) ∧
     serves k k k (ds_world s)) ∧
  q_id d0 ≤ q_id (ds_dev s) ∧
  NoDup (qp_id <$> ds_pairs s) ∧
  Forall (λ p, q_id d0 ≤ qp_id p < q_id (ds_dev s) ∧ pair_of p) (ds_pairs s).

Lemma set_q_id_pos q k :
  NvmeDevice.set_q_id q (admin_pos d0 k) = admin_pos (NvmeDevice.set_q_id q d0) k.
Proof. done. Qed.

(** A creation: a fresh pair, or none. *)
Lemma create_pair q k len w :
  serves k k k w → 1 ≤ len ≤ 2 ^ 16 → 0 ≤ q < 2 ^ 15 - 1 →
  0x1000 + doorbell_offset (dstrd d0) q 1 + 4 ≤ dev_len d0 →
  wp (NvmeDevice.create_io_queue_pair len) (λ r d' w', ∃ k' q',
    serves k' k' k' w' ∧ d' = NvmeDevice.set_q_id q' (admin_pos d0 k') ∧
    match r with
    | Ret p => q' = q + 1 ∧ qp_id p = q ∧ pair_of p
    | _ => q' = q
    end) (NvmeDevice.set_q_id q (admin_pos d0 k)) w.
Proof.
  intros Hw Hlen Hq Hdb. pose proof (admin_service_q_id d0 q posted N serves AS) as AS'. rewrite set_q_id_pos.
  apply (wp_new_pair (NvmeDevice.set_q_id q d0) posted N serves); [done..|].
  intros dma_cq dma_sq w' n ? ? Hw'. unfold pair_created. unfold n, commands_run in Hw'.
  destruct (sc_field (posted k) =? 0); cbn [negb] in *; [|by exists (k + 1), q].
  destruct (sc_field (posted (k + 1)) =? 0); cbn [negb]; [|by exists (k + 2), q].
  intros _. exists (k + 2), (q + 1). done.
Qed.

(** A deletion leaves the device as it was, but for the admin queue. *)
Lemma delete_pair q k p w :
  serves k k k w → pair_allocated p →
  wp (NvmeDevice.delete_io_queue_pair p) (λ r d' w', ∃ k',
    serves k' k' k' w' ∧ d' = NvmeDevice.set_q_id q (admin_pos d0 k'))
    (NvmeDevice.set_q_id q (admin_pos d0 k)) w.
Proof.
  intros Hw Hp. pose proof (admin_service_q_id d0 q posted N serves AS) as AS'. rewrite set_q_id_pos.
  apply (wp_delete_pair (NvmeDevice.set_q_id q d0) posted N serves); [done..|].
  intros w' n Hw'. unfold n, commands_run in Hw'.
  destruct (sc_field (posted k) =? 0); cbn [negb] in *; [|by exists (k + 1)].
  destruct (sc_field (posted (k + 1)) =? 0); cbn [negb]; by exists (k + 2).
Qed.

Lemma dev_step_inv s s' : 0 ≤ q_id d0 → pairs_inv s → dev_step s s' → pairs_inv s'.
Proof.
  intros Hq0 Hinv Hstep. destruct Hstep as [d w ps len r d' w' Hlen Hq Hdb Hrun
    |d w ps p r d' w' Hp Hrun|d w ps]; destruct Hinv as ((k & Hd & Hw) & Hge & Hnd & Hps); simpl in *.
  - rewrite Hd in Hrun, Hdb.
    pose proof (create_pair (q_id d) k len w Hw Hlen ltac:(lia) Hdb) as Hwp.
    unfold wp in Hwp. rewrite Hrun in Hwp. cbn [fst snd] in Hwp. destruct Hwp as (k' & q' & Hw' & -> & Hr).
    split; [by exists k'|]. simpl. destruct r as [p|e|pk|]; simpl.
    2,3,4: by subst q'.
    destruct Hr as (-> & Hid & Hp). split; [lia|]. split.
    + apply NoDup_cons. split; [|done]. intros (p' & Hid' & Hp')%list_elem_of_fmap.
      rewrite Forall_forall in Hps. apply Hps in Hp' as [? _]. lia.
    + apply Forall_cons. split; [split; [lia|done]|].
      eapply Forall_impl; [exact Hps|]. intros p' [? ?]. split; [lia|done].
  - rewrite Forall_forall in Hps. pose proof (Hps p Hp) as (_ & Hal & _). rewrite Hd in Hrun.
    pose proof (delete_pair (q_id d) k p w Hw Hal) as Hwp.
    unfold wp in Hwp. rewrite Hrun in Hwp. cbn [fst snd] in Hwp. destruct Hwp as (k' & Hw' & ->).
    split; [by exists k'|]. simpl. split; [done|].
    destruct r; [|by split; [|apply Forall_forall]..].
    split; [by apply NoDup_fmap_filter|]. apply Forall_forall.
    intros p' [_ ?]%list_elem_of_filter. by apply Hps.
  - split; [|done]. exists k. split; [done|]. pose proof admin_service as SV.
    by apply (service_idle_tick (admin_cq d0) posted (doorbell_at d0 0 0) (sq_len (admin_sq d0)) N serves).
Qed.

End pairs.

(** A creation that succeeds, as a step. *)
Lemma step_created `{BLD : Build} `{FUEL : Fuel} {A E} `{HW : Hardware E} `{MAP : Mapping A E}
    len (st : NvmeDevice A * World E) ps p :
  let st' := (NvmeDevice.create_io_queue_pair len st).2 in
  1 ≤ len ≤ 2 ^ 16 → q_id st.1 < 2 ^ 15 - 1 →
  0x1000 + doorbell_offset (dstrd st.1) (q_id st.1) 1 + 4 ≤ dev_len st.1 →
  (NvmeDevice.create_io_queue_pair len st).1 = Ret p →
  dev_step (mkDevState st.1 st.2 ps) (mkDevState st'.1 st'.2 (p :: ps)).
Proof.
  intros st' ? ? ? Hp. subst st'. destruct st as [d w]. cbn [fst snd] in *.
  destruct (NvmeDevice.create_io_queue_pair len (d, w)) as [r [d' w']] eqn:He.
  cbn [fst snd] in *. subst r. by apply (step_create d w ps len (Ret p) d' w').
Qed.

(** The doorbells of a list of pairs. *)
Definition doorbells (ps : list NvmeQueuePair) : list Z :=
  ps ≫= λ p, [sq_doorbell (sub_queue p); cq_doorbell (comp_queue p)].

Lemma elem_of_doorbells x ps :
  x ∈ doorbells ps ↔
  ∃ p, p ∈ ps ∧ (x = sq_doorbell (sub_queue p) ∨ x = cq_doorbell (comp_queue p)).
Proof.
  unfold doorbells. rewrite list_elem_of_bind. split.
  - intros (p & [->|[->|[]%elem_of_nil]%elem_of_cons]%elem_of_cons & Hp); exists p; auto.
  - intros (p & Hp & [->| ->]); exists p; (split; [|done]); [left|right; left].
Qed.

(** The doorbells NVMe assigns to the id. *)
Definition own_doorbells {A} (d : NvmeDevice A) p : Prop :=
  sq_doorbell (sub_queue p) = doorbell_at d (qp_id p) 0 ∧
  cq_doorbell (comp_queue p) = doorbell_at d (qp_id p) 1.

Lemma doorbells_NoDup {A} (d : NvmeDevice A) ps :
  dev_ok d → NoDup (qp_id <$> ps) → Forall (own_doorbells d) ps → NoDup (doorbells ps).
Proof.
  intros Hd. induction ps as [|p ps IH]; [constructor|]. rewrite fmap_cons.
  intros [Hid Hnd]%NoDup_cons [[Hs Hc] Hps]%Forall_cons.
  assert (∀ a, 0 ≤ a ≤ 1 → doorbell_at d (qp_id p) a ∉ doorbells ps) as Hfresh.
  { intros a Ha (p' & Hp' & Hx)%elem_of_doorbells. rewrite Forall_forall in Hps.
    destruct (Hps p' Hp') as [Hs' Hc']. apply Hid, list_elem_of_fmap. exists p'.
    split; [|done]. rewrite Hs', Hc' in Hx.
    destruct Hx as [Hx|Hx]; apply (doorbell_at_inj d) in Hx; try lia; tauto. }
  cbn [doorbells mbind list_bind app]. fold (doorbells ps). rewrite Hs, Hc.
  apply NoDup_cons. split.
  - rewrite elem_of_cons. intros [Hx|Hx]; [|by apply (Hfresh 0)].
    apply (doorbell_at_inj d) in Hx; [lia|done|lia..].
  - apply NoDup_cons. split; [by apply Hfresh|]. by apply IH.
Qed.

(** ** Properties *)

(** C12: the pairs handed out never collide.  Against any controller that serves
    the admin queue, with any statuses, and whatever creations and deletions have
    been made: the pairs alive have distinct ids, none of them the device's own or
    one still to be given; their rings are regions of the allocator, of equal
    lengths; the two doorbells of each are those NVMe assigns to its id, and all
    of these are distinct, from each other and from those of the admin queue and
    the device's own queue. *)
Theorem live_pairs `{BLD : Build} `{FUEL : Fuel} {A E} `{HW : Hardware E} `{MAP : Mapping A E}
    (d0 : NvmeDevice A) (posted : Z → NvmeCompletion) (N : nat)
    (serves : Z → Z → Z → World E → Prop) (k : Z) (w : World E) (s : DevState (A:=A) (E:=E)) :
  AdminService d0 posted N serves → (∀ G, QuietAllocator (allocator d0) (serves G G G)) →
  0 ≤ q_id d0 → serves k k k w →
  rtc dev_step (mkDevState (admin_pos d0 k) w []) s →
  let ps := ds_pairs s in
  NoDup (qp_id <$> ps) ∧
  Forall (λ p, q_id d0 ≤ qp_id p < q_id (ds_dev s) ∧ pair_of d0 p) ps ∧
  NoDup (doorbells ps) ∧
  (∀ i a, i < q_id d0 → 0 ≤ a ≤ 1 → doorbell_at d0 i a ∉ doorbells ps).
Proof.
  intros HAS HQA Hq Hw Hsteps ps.
  assert (pairs_inv d0 serves (mkDevState (admin_pos d0 k) w [])) as Hinit.
  { split; [exists k; split; [by destruct d0|done]|]. split; [simpl; lia|]. by split; constructor. }
  assert (pairs_inv d0 serves s) as (_ & _ & Hnd & Hps).
  { remember (mkDevState (admin_pos d0 k) w []) as s0 eqn:Hs0. clear Hs0.
    induction Hsteps as [|? ? ? Hstep _ IH]; [done|].
    apply IH. by eapply (dev_step_inv d0 posted N serves). }
  pose proof (admin_dev_ok (d:=d0)) as Hok. fold ps in Hnd, Hps.
  split; [done|]. split; [done|]. split.
  - eapply doorbells_NoDup; [done|done|]. eapply Forall_impl; [exact Hps|]. by intros p (_ & _ & ? & ? & _).
  - intros i a Hi Ha (p & Hp & Hx)%elem_of_doorbells. rewrite Forall_forall in Hps.
    destruct (Hps p Hp) as (? & _ & Hs & Hc & _). rewrite Hs, Hc in Hx.
    destruct Hx as [Hx|Hx]; apply (doorbell_at_inj d0) in Hx; lia || done.
Qed.

(** Two pairs on a device whose next id is 1. *)
#[local] Abbreviation demo_creation :=
  (NvmeDevice.create_io_queue_pair (BLD:=true) (FUEL:=10%nat) (HW:=demo_serving (success 4))
    (MAP:=demo_mapping) 32).

Definition demo_start : NvmeDevice unit * World (Z * (Z * Z)) :=
  (admin_pos (demo_device 0) 0, serving_world).

Definition demo_made (n s c : Z) : NvmeQueuePair :=
  mkNvmeQueuePair n (mkSubmissionQueue (mkDma 51380224 51380224 1048576) 0 0 32 s)
    (mkCompletionQueue (mkDma 50593792 50593792 262144) 0 true 32 c).

Lemma demo_creation_1 : (demo_creation demo_start).1 = Ret (demo_made 1 69640 69644).
Proof. by vm_compute. Qed.

Lemma demo_creation_2 :
  (demo_creation (demo_creation demo_start).2).1 = Ret (demo_made 2 69648 69652).
Proof. by vm_compute. Qed.

Lemma demo_creation_dev :
  q_id (demo_creation demo_start).2.1 = 2 ∧ dstrd (demo_creation demo_start).2.1 = 0 ∧
  dev_len (demo_creation demo_start).2.1 = 16384.
Proof. by vm_compute. Qed.

Lemma live_pairs_witness :
  ∃ d w, rtc (dev_step (BLD:=true) (FUEL:=10%nat) (HW:=demo_serving (success 4)) (MAP:=demo_mapping))
    (mkDevState (admin_pos (demo_device 0) 0) serving_world [])
    (mkDevState d w [demo_made 2 69648 69652; demo_made 1 69640 69644]) ∧
  NoDup (doorbells [demo_made 2 69648 69652; demo_made 1 69640 69644]).
Proof.
  pose proof demo_creation_dev as (Hq & Hs & Hl).
  assert (0x1000 + doorbell_offset 0 1 1 + 4 ≤ 16384) as Hdb1 by (unfold doorbell_offset; simpl; lia).
  assert (0x1000 + doorbell_offset (dstrd (demo_creation demo_start).2.1)
    (q_id (demo_creation demo_start).2.1) 1 + 4 ≤ dev_len (demo_creation demo_start).2.1) as Hdb2
    by (rewrite Hq, Hs, Hl; unfold doorbell_offset; simpl; lia).
  assert (q_id (demo_creation demo_start).2.1 < 2 ^ 15 - 1) as Hq' by (rewrite Hq; lia).
  pose proof (step_created (BLD:=true) (FUEL:=10%nat) (HW:=demo_serving (success 4)) (MAP:=demo_mapping)
    32 demo_start [] _ ltac:(lia) ltac:(simpl; lia) Hdb1 demo_creation_1) as Hstep1.
  pose proof (step_created (BLD:=true) (FUEL:=10%nat) (HW:=demo_serving (success 4)) (MAP:=demo_mapping)
    32 (demo_creation demo_start).2 [demo_made 1 69640 69644] _ ltac:(lia) Hq' Hdb2 demo_creation_2)
    as Hstep2.
  pose proof (rtc_l _ _ _ _ Hstep1 (rtc_once _ _ Hstep2)) as Hsteps.
  eexists _, _.
  split; [exact Hsteps|].
  apply (live_pairs (BLD:=true) (FUEL:=10%nat) (HW:=demo_serving (success 4)) (MAP:=demo_mapping)
    (demo_device 0) (success 4) 1 (serving (admin_cq (demo_device 0)) (success 4)) 0 serving_world _
    demo_success_service (λ G, demo_quiet _) ltac:(simpl; lia) (demo_serving_init _) Hsteps).
Defined.
