(* ===== verification/Examples.v ===== *)
(** [examples/fill_namespace.rs], [examples/simple_io.rs] and
    [examples/hello_world.rs]: small programs on the library.  They start
    with the PCI address in hand, their command line is in [Programs]; what they
    print is left out. *)

From stdpp Require Import gmap.
From Stdlib Require Import Ascii.
From S2P Require Import Prelude Bytes Machine Memory Cmd Mapping Queues Service Os Ioctl Pci Vfio Physical MemoryAccess QueuePair Device Io Lib.
#[local] Open Scope Z_scope.

Definition unwrap_err : string := "called `Result::unwrap()` on an `Err` value".

(** [str::as_bytes]. *)
Definition as_bytes (s : string) : list Z :=
  (λ c, Z.of_nat (nat_of_ascii c)) <$> String.list_ascii_of_string s.

(** ** fill_namespace.rs *)

Module Fill.
Section fill.
Context {A E : Type} `{BLD : Build} `{FUEL : Fuel} `{HW : Hardware E} `{MAP : Mapping A E}.

(** One iteration more than there are writes. *)
Definition fill_fuel (max_lba blocks : Z) : nat :=
  Z.to_nat ((max_lba - 512 + blocks - 1) / blocks + 1).

(** [while lba < max_lba - 512 { nvme.write(&buffer, lba).unwrap(); lba += blocks; }]. *)
Definition fill_loop (fuel : nat) (buffer : Dma) (max_lba blocks lba : Z) : M E (NvmeDevice A) unit :=
  loop fuel (λ lba,
    limit ← ck64 (max_lba - 512);
    if lba <? limit then
      _ ← expect unwrap_err (Io.write buffer lba);
      lba ← ck64 (lba + blocks);
      mret (Continue lba)
    else mret (Break tt)) lba.

Definition fill_ns : M E (NvmeDevice A) unit :=
  self ← get;
  buffer ← expect unwrap_err (allocate self PAGESIZE_2MIB);
  ns ← unwrap (namespaces self !! 1);
  m ← ck64 (Device.blocks ns - size buffer / 512);
  max_lba ← ck64 (m - 1);
  let blocks := size buffer / 512 in
  fill_loop (fill_fuel max_lba blocks) buffer max_lba blocks 0.

End fill.
End Fill.

(** ** simple_io.rs and hello_world.rs *)

Section device.
Context {A E : Type} `{BLD : Build} `{FUEL : Fuel} `{HW : Hardware E} `{MAP : Mapping A E}.

(** From the allocation of the buffer to its release: the bytes read back. *)
Definition simple_io : M E (NvmeDevice A) (list Z) :=
  let lba := 0 in
  let bytes := as_bytes "hello world! vroom test bytes" in
  let n := Z.of_nat (length bytes) in
  self ← get;
  buffer ← allocate self PAGESIZE_4KIB;
  s ← Dma.index_to buffer n;
  _ ← store (ptr s) bytes;
  _ ← Io.write buffer lba;
  s ← Dma.index_to buffer n;
  _ ← store (ptr s) (repeat 0 (length bytes));
  _ ← Io.read buffer lba;
  s ← Dma.index_range buffer 0 n;
  read_buf ← load (ptr s) (Z.to_nat (len s));
  _ ← deallocate self buffer;
  mret read_buf.

(** The twelve bytes read back after the eleven written. *)
Definition hello_world : M E (NvmeDevice A) (list Z) :=
  _ ← Io.write_copied (as_bytes "hello world") 0;
  Io.read_copied (repeat 0 12) 0.

End device.

Section programs.
Context {E S : Type} `{BLD : Build} `{FUEL : Fuel} `{HW : Hardware E} `{OS : Os E} `{LC : Libc}.

Definition fill_namespace_main (pci_addr : string) : M E S unit :=
  nvme ← init pci_addr;
  _ ← with_local nvme Fill.fill_ns;
  mret tt.

Definition simple_io_main (pci_addr : string) : M E S (list Z) :=
  nvme ← init_with_page_size pci_addr Pagesize.Page4K;
  r ← with_local nvme simple_io;
  mret r.1.

Definition hello_world_main (pci_addr : string) : M E S (list Z) :=
  nvme ← init pci_addr;
  r ← with_local nvme hello_world;
  mret r.1.

End programs.

(** ** Filling a namespace *)

(** The number of writes for a namespace of [b] blocks: one for every 2 MiB that
    end more than 513 blocks before its end. *)
Definition fills (b : Z) : Z := (b - 4609 + 4095) / 4096.

Section fill.
Context {A E : Type} `{BLD : Build} `{FUEL : Fuel} `{HW : Hardware E}.
Context (d : NvmeDevice A) (posted : Z → NvmeCompletion) (N : nat).
Context (serves : Z → Z → Z → World E → Prop) `{IS : !IoService d posted N serves}.
Context (buf : Dma) (k h : Z) (s : NvmeStats).
Implicit Types w : World E.

(** The accesses of write number [i]: 256 commands, for 4096 blocks. *)
Definition fill_events (i : Z) : list Event :=
  zrange 0 256 ≫= transfer_events d (k + 256 * i) true buf (4096 * i).

(** The region that [allocate] gives for 2 MiB. *)
Definition fill_buffer_ok : Prop :=
  dma_ok buf ∧ phys buf + size buf + 4096 < 2 ^ 64 ∧ size buf = PAGESIZE_2MIB.

Definition filled (i : Z) : NvmeDevice A :=
  io_pos d (k + 256 * i) (io_head posted k h (256 * i)) (stats_add s (256 * i)).

Lemma io_head_add i n :
  0 ≤ i → 0 < n → io_head posted (k + i) (io_head posted k h i) n = io_head posted k h (i + n).
Proof.
  intros. unfold io_head. rewrite (proj2 (Z.eqb_neq n 0)), (proj2 (Z.eqb_neq (i + n) 0)) by lia.
  do 2 f_equal. lia.
Qed.

(** One write of the buffer. *)
Lemma wp_fill_write i w (Q : Res unit → NvmeDevice A → World E → Prop) :
  fill_buffer_ok → addrs_ok d → stats_room s (256 * (i + 1)) → 0 ≤ i → 4096 * (i + 1) < 2 ^ 64 →
  (∀ j, k ≤ j < k + 256 * (i + 1) → sc_field (posted j) = 0) →
  serves (k + 256 * i) (k + 256 * i) (k + 256 * i) w →
  (∀ w', serves (k + 256 * (i + 1)) (k + 256 * (i + 1)) (k + 256 * (i + 1)) w' →
     trace w' = trace w ++ fill_events i → Q (Ret tt) (filled (i + 1)) w') →
  wp (Io.write buf (4096 * i)) Q (filled i) w.
Proof.
  intros (Hd & Hend & Hsz) Ha (? & ? & ? & ?) Hi Hl Hok Hw HQ.
  assert (n_chunks buf 8192 = 256) as Hn by (unfold n_chunks; by rewrite Hsz).
  destruct (transfer_run d posted N serves (k + 256 * i) (io_head posted k h (256 * i))
    (stats_add s (256 * i)) buf (4096 * i) true w) as (w' & Hrun & Hw' & Ht);
    rewrite ?Hn; [done..|lia|lia| | |].
  { unfold stats_room, stats_add. simpl. lia. }
  { intros j Hj. apply Hok. lia. }
  rewrite Hn in *. unfold wp, filled. rewrite Hrun. cbn [fst snd].
  replace (k + 256 * i + 256) with (k + 256 * (i + 1)) in * by lia.
  replace (stats_add (stats_add s (256 * i)) 256) with (stats_add s (256 * (i + 1)))
    by (unfold stats_add; simpl; f_equal; lia).
  rewrite io_head_add by lia. replace (256 * i + 256) with (256 * (i + 1)) by lia.
  by apply HQ.
Qed.

(** The loop, when no subtraction underflows. *)
Lemma wp_fill_loop fuel b i w (Q : Res unit → NvmeDevice A → World E → Prop) :
  fill_buffer_ok → addrs_ok d → 4609 ≤ b < 2 ^ 64 → stats_room s (256 * fills b) →
  (∀ j, k ≤ j < k + 256 * fills b → sc_field (posted j) = 0) →
  0 ≤ i ≤ fills b → (Z.to_nat (fills b - i) < fuel)%nat →
  serves (k + 256 * i) (k + 256 * i) (k + 256 * i) w →
  (∀ w', trace w' = trace w ++ (zrange i (fills b) ≫= fill_events) →
     Q (Ret tt) (filled (fills b)) w') →
  wp (Fill.fill_loop fuel buf (b - 4097) 4096 (4096 * i)) Q (filled i) w.
Proof.
  intros Hbuf Ha Hb (? & ? & ? & ?) Hok. unfold Fill.fill_loop.
  assert (4096 * (fills b - 1) < b - 4609 ≤ 4096 * fills b) as Hf.
  { unfold fills. pose proof (Z.div_mod (b - 4609 + 4095) 4096).
    pose proof (Z.mod_pos_bound (b - 4609 + 4095) 4096). lia. }
  replace (b - 4097 - 512) with (b - 4609) by lia.
  revert i w. induction fuel as [|fuel IH]; intros i w Hi Hfuel Hw HQ; [lia|].
  cbn [loop]. do 3 (wp_step; try lia).
  destruct (Z.ltb_spec (4096 * i) (b - 4609)); cycle 1.
  { assert (i = fills b) as -> by lia. do 2 wp_step. apply HQ.
    rewrite zrange_nil by lia. by rewrite app_nil_r. }
  wp_step. apply wp_expect. apply (wp_fill_write i); [done|done| |lia|lia| |done|].
  { unfold stats_room. lia. }
  { intros j Hj. apply Hok. lia. }
  intros w' Hw' Ht. cbn [then_]. do 3 (wp_step; try lia).
  replace (4096 * i + 4096) with (4096 * (i + 1)) by lia.
  apply IH; [lia|lia|done|]. intros w'' Ht''. apply HQ.
  rewrite Ht'', Ht, (zrange_cons i) by lia. cbn [mbind list_bind]. by rewrite app_assoc.
Qed.

End fill.

(** ** Properties *)

(** C35: [fill_ns] of [examples/fill_namespace.rs], against any controller that
    serves the I/O queue and completes the commands with success.  On a namespace
    of at least 4609 blocks it terminates: it writes the 2 MiB buffer at the LBAs
    0, 4096, 8192, .. by 256 commands each, every command once and in order, all
    of them inside the namespace; the last 513 to 4608 blocks are not filled.  On
    a smaller namespace the subtractions underflow, and in a build with overflow
    checks it panics before it has written anything. *)
Theorem fill_namespace {A E} `{BLD : Build} `{FUEL : Fuel} `{HW : Hardware E} `{MAP : Mapping A E}
    (d : NvmeDevice A) (posted : Z → NvmeCompletion) (N : nat)
    (serves : Z → Z → Z → World E → Prop) (buf : Dma) (k h : Z) (s : NvmeStats)
    (ns : NvmeNamespace) (w w1 : World E) :
  IoService d posted N serves → fill_buffer_ok buf → addrs_ok d →
  namespaces d !! 1 = Some ns → 0 ≤ blocks ns < 2 ^ 64 →
  allocate (allocator d) PAGESIZE_2MIB (io_pos d k h s, w) = (Ret buf, (io_pos d k h s, w1)) →
  serves k k k w1 →
  let run := Fill.fill_ns (io_pos d k h s, w) in
  let n := fills (blocks ns) in
  (4609 ≤ blocks ns → stats_room s (256 * n) →
   (∀ j, k ≤ j < k + 256 * n → sc_field (posted j) = 0) →
   ∃ w', run = (Ret tt, (filled d posted k h s n, w')) ∧
     trace w' = trace w1 ++ (zrange 0 n ≫= fill_events d buf k) ∧
     blocks ns - 4608 ≤ 4096 * n + 1 ∧ 4096 * n < blocks ns - 513) ∧
  (blocks ns < 4609 → overflow_checks = true →
   run = (Panicked Overflow, (io_pos d k h s, w1))).
Proof.
  intros HIS Hbuf Ha Hns Hb Halloc Hw run n.
  assert (io_pos d k h s = filled d posted k h s 0) as Hpos.
  { unfold filled, io_head, stats_add. simpl. rewrite !Z.add_0_r. by destruct s. }
  assert (∀ Q, wp (m ← ck64 (blocks ns - 4096);
      max_lba ← ck64 (m - 1);
      Fill.fill_loop (Fill.fill_fuel max_lba 4096) buf max_lba 4096 0) Q (io_pos d k h s) w1 →
    wp Fill.fill_ns Q (io_pos d k h s) w) as Hstart.
  { intros Q HQ. unfold Fill.fill_ns. do 3 wp_step. apply wp_expect. unfold wp at 1.
    change (allocate (io_pos d k h s) PAGESIZE_2MIB) with
      (allocate (S := NvmeDevice A) (allocator d) PAGESIZE_2MIB).
    rewrite Halloc. cbn [fst snd then_]. wp_step. apply wp_unwrap.
    change (namespaces (io_pos d k h s)) with (namespaces d). rewrite Hns. cbn [then_].
    destruct Hbuf as (_ & _ & ->). exact HQ. }
  split.
  - intros Hlarge Hs Hok.
    assert (4096 * (n - 1) < blocks ns - 4609 ≤ 4096 * n ∧ 0 ≤ n) as Hn.
    { unfold n, fills. pose proof (Z.div_mod (blocks ns - 4609 + 4095) 4096).
      pose proof (Z.mod_pos_bound (blocks ns - 4609 + 4095) 4096).
      pose proof (Z.div_pos (blocks ns - 4609 + 4095) 4096). lia. }
    assert (wp Fill.fill_ns (λ r d' w', r = Ret tt ∧ d' = filled d posted k h s n ∧
      trace w' = trace w1 ++ (zrange 0 n ≫= fill_events d buf k)) (io_pos d k h s) w) as Hwp.
    { apply Hstart. do 4 (wp_step; try lia). rewrite Hpos.
      replace (blocks ns - 4096 - 1) with (blocks ns - 4097) by lia.
      apply (wp_fill_loop d posted N serves buf k h s _ (blocks ns) 0); try done; try lia.
      - unfold Fill.fill_fuel, fills. fold n. replace (blocks ns - 4097 - 512 + 4096 - 1) with
          (blocks ns - 4609 + 4095) by lia. fold (fills (blocks ns)). fold n. lia.
      - by rewrite Z.add_0_r. }
    apply wp_run in Hwp as (r & d' & w' & Hrun & -> & -> & Ht). exists w'. split; [done|].
    split; [done|]. lia.
  - intros Hsmall Hc.
    assert (wp Fill.fill_ns (λ r d' w', r = Panicked Overflow ∧ d' = io_pos d k h s ∧ w' = w1)
      (io_pos d k h s) w) as Hwp.
    { apply Hstart. wp_step. destruct (decide (4096 ≤ blocks ns)); cycle 1.
      { apply wp_ck_panic; [done|lia|done]. }
      do 2 (wp_step; try lia). destruct (decide (4097 ≤ blocks ns)); cycle 1.
      { apply wp_ck_panic; [done|lia|done]. }
      wp_step; try lia.
      assert (Fill.fill_fuel (blocks ns - 4096 - 1) 4096 = 1%nat) as ->.
      { unfold Fill.fill_fuel. rewrite (Z.div_small (_ - 1)) by lia. done. }
      unfold Fill.fill_loop. cbn [loop]. do 2 wp_step. apply wp_ck_panic; [done|lia|done]. }
    apply wp_run in Hwp as (r & d' & w' & Hrun & -> & -> & ->). exact Hrun.
Qed.

Definition demo_fill_device : NvmeDevice unit :=
  NvmeDevice.set_namespaces {[ 1 := mkNvmeNamespace 1 9000 512 ]} (demo_device 0).

Definition demo_fill_buffer : Dma := mkDma 0x4000000 0x4000000 PAGESIZE_2MIB.

(** An allocator that has one region to give. *)
Definition one_region : Mapping unit (Z * (Z * Z)) := {|
  allocate S _ _ := mret demo_fill_buffer;
  deallocate S _ _ := mret tt;
  map_resource S _ := mret (0, 0);
|}.

Lemma fill_namespace_witness :
  ∃ w', Fill.fill_ns (BLD:=true) (FUEL:=10%nat) (HW:=demo_io_hw) (MAP:=one_region)
      (io_pos demo_fill_device 0 0 (mkNvmeStats 0 0), serving_world) =
    (Ret tt, (filled demo_fill_device (success 4) 0 0 (mkNvmeStats 0 0) 2, w')).
Proof.
  destruct (fill_namespace (BLD:=true) (FUEL:=10%nat) (HW:=demo_io_hw) (MAP:=one_region)
    demo_fill_device (success 4) 1 demo_io_serves demo_fill_buffer 0 0 (mkNvmeStats 0 0)
    (mkNvmeNamespace 1 9000 512) serving_world serving_world) as [Hrun _].
  - destruct demo_io_service as [Hs Hd ? ? ?]. split; [exact Hs|exact Hd|done..].
  - unfold fill_buffer_ok, dma_ok, demo_fill_buffer. change PAGESIZE_2MIB with 2097152. simpl. lia.
  - exact demo_addrs_ok.
  - done.
  - simpl. lia.
  - done.
  - exact demo_io_init.
  - destruct Hrun as (w' & Hrun & _); [simpl; lia| | |].
    + apply demo_stats_room. by vm_compute.
    + intros j Hj. unfold sc_field, success. simpl. by destruct (phase_at 4 j).
    + exists w'. exact Hrun.
Defined.
