(* ===== verification/Bench.v ===== *)
(** [examples/throughput.rs] and [examples/latency.rs]: the benchmarks.

    The clock of the operating system and the generator of the [rand] crate are
    parameters.  A thread of a benchmark is a function of the device, which it
    locks for each call on it, and of the queue pair it owns; here they
    are functions one by one, in [Workers] they take turns. *)

From stdpp Require Import gmap.
From S2P Require Import Prelude Bytes Machine Memory Cmd Mapping Queues Os QueuePair Device Io.
#[local] Open Scope Z_scope.

(** ** Time and randomness *)

(** The monotonic clock behind [Instant], in nanoseconds. *)
Class Clock (E : Type) := clock : E → Z.

(** The generator behind [thread_rng] and [rand::random]: [gen_range lo hi] and
    [random::<u8>()], with the state of the generator. *)
Class Rng (R : Type) := {
  range_sample : Z → Z → R → Z * R;
  random_u8 : R → Z * R;
}.

Section runtime.
Context {E S R : Type} `{BLD : Build} `{HW : Hardware E} `{CK : Clock E} `{RN : Rng R}.

(** [Instant::now()]. *)
Definition now : M E S Z := λ st,
  let w := tick st.2 in (Ret (clock (env w)), (st.1, w)).

(** [before.elapsed()]: zero when the clock is behind. *)
Definition elapsed (before : Z) : M E S Z := t ← now; mret (Z.max 0 (t - before)).

(** [Duration::MAX] in nanoseconds, and [+=] on durations. *)
Definition MAX_DURATION : Z := 2 ^ 64 * 10 ^ 9.

Definition add_duration (a b : Z) : M E S Z :=
  if a + b <? MAX_DURATION then mret (a + b)
  else panic (ExpectErr "overflow when adding durations").

(** [rng.gen_range(lo..hi)] panics on an empty range. *)
Definition gen_range (lo hi : Z) (rng : R) : M E S (Z * R) :=
  _ ← assert (lo <? hi);
  mret (range_sample lo hi rng).

(** [(0..n).map(|_| rand::random::<u8>()).collect()]. *)
Fixpoint random_bytes (n : nat) (rng : R) : list Z * R :=
  match n with
  | O => ([], rng)
  | Datatypes.S n =>
    let '(b, rng) := random_u8 rng in
    let '(bs, rng) := random_bytes n rng in
    (b :: bs, rng)
  end.

(** [buffer[..block.len()].copy_from_slice(block)]. *)
Definition fill_buffer (buffer : Dma) (block : list Z) : M E S unit :=
  s ← Dma.index_to buffer (Z.of_nat (length block));
  store (ptr s) block.

(** An [i32] counter. *)
Definition ck_i32 (z : Z) : M E S Z :=
  if (- 2 ^ 31 <=? z) && (z <? 2 ^ 31) then mret z
  else if overflow_checks then panic Overflow
  else mret ((z + 2 ^ 31) `mod` 2 ^ 32 - 2 ^ 31).

End runtime.

(** ** throughput.rs *)

Module Throughput.

(** Blocks and bytes of one operation. *)
Definition blocks_per_io : Z := 8.
Definition bytes_per_io : Z := 512 * blocks_per_io.

Section thread.
Context {E R : Type} `{BLD : Build} `{FUEL : Fuel} `{HW : Hardware E} `{CK : Clock E} `{RN : Rng R}.

(** The LBA of the next operation, in units of eight blocks.  In the sequential
    mode the inner [lba] shadows the outer one, which stays zero. *)
Definition next_lba {S} (random : bool) (ns_blocks : Z) (rng : R) : M E S (Z * R) :=
  if random then gen_range 0 ns_blocks rng
  else
    l ← ck64 (0 + 1);
    l ← umod l ns_blocks;
    mret (l, rng).

(** [while qpair.quick_poll().is_some() { outstanding_ops -= 1; total_io_ops += 1 }]. *)
Definition drain (outstanding ops : Z) : M E NvmeQueuePair (Z * Z) :=
  loop spin_fuel (λ '(outstanding, ops),
    o ← NvmeQueuePair.quick_poll;
    match o with
    | Some _ =>
      outstanding ← ck64 (outstanding - 1);
      ops ← ck64 (ops + 1);
      mret (Continue (outstanding, ops))
    | None => mret (Break (outstanding, ops))
    end) (outstanding, ops).

(** The drained queue, and one completion waited for when it is still full. *)
Definition make_room (queue_depth outstanding ops : Z) : M E NvmeQueuePair (Z * Z) :=
  r ← drain outstanding ops;
  let '(outstanding, ops) := r in
  if outstanding =? queue_depth then
    _ ← NvmeQueuePair.complete_io 1;
    outstanding ← ck64 (outstanding - 1);
    ops ← ck64 (ops + 1);
    mret (outstanding, ops)
  else mret (outstanding, ops).

(** [qpair.submit_io(&buffer.slice(..), lba * blocks, write)] on the slice that
    belongs to the number of operations outstanding. *)
Definition submit_slice (buffer : Dma) (write : bool) (outstanding lba : Z) :
    M E NvmeQueuePair unit :=
  a ← ck64 (outstanding * bytes_per_io);
  b ← ck64 (outstanding + 1);
  b ← ck64 (b * bytes_per_io);
  s ← Dma.slice buffer a b;
  l ← ck64 (lba * blocks_per_io);
  _ ← NvmeQueuePair.submit_io s l write;
  mret tt.

(** One iteration of the measuring loop. *)
Definition bench_step (queue_depth ns_blocks : Z) (buffer : Dma) (random write : bool)
    (st : Z * Z * Z * R) : M E NvmeQueuePair (Z * Z * Z * R) :=
  let '(total, outstanding, ops, rng) := st in
  r ← next_lba random ns_blocks rng;
  let '(lba, rng) := r in
  before ← now;
  r ← make_room queue_depth outstanding ops;
  let '(outstanding, ops) := r in
  _ ← submit_slice buffer write outstanding lba;
  e ← elapsed before;
  total ← add_duration total e;
  outstanding ← ck64 (outstanding + 1);
  mret (total, outstanding, ops, rng).

(** [while total < duration { .. }]. *)
Definition bench_loop (queue_depth ns_blocks duration : Z) (buffer : Dma) (random write : bool)
    (st : Z * Z * Z * R) : M E NvmeQueuePair (Z * Z * Z * R) :=
  loop spin_fuel (λ st : Z * Z * Z * R,
    if st.1.1.1 <? duration then
      st ← bench_step queue_depth ns_blocks buffer random write st;
      mret (Continue st)
    else mret (Break st)) st.

(** What follows the loop, up to the deletion of the pair: the number of
    operations. *)
Definition finish (total outstanding ops : Z) : M E NvmeQueuePair Z :=
  _ ← (if negb (outstanding =? 0) then
         before ← now;
         _ ← NvmeQueuePair.complete_io outstanding;
         e ← elapsed before;
         _ ← add_duration total e;
         mret tt
       else mret tt);
  ops ← ck64 (ops + outstanding);
  self ← get;
  _ ← assert (SubmissionQueue.is_empty (sub_queue self));
  mret ops.

Definition measure (queue_depth ns_blocks duration : Z) (buffer : Dma) (random write : bool)
    (rng : R) : M E NvmeQueuePair Z :=
  r ← bench_loop queue_depth ns_blocks duration buffer random write (0, 0, 0, rng);
  let '(total, outstanding, ops, rng) := r in
  finish total outstanding ops.

(** The closure run by each thread. *)
Definition thread {A} `{MAP : Mapping A E} (queue_depth ns_blocks duration : Z)
    (random write : bool) (rng : R) : M E (NvmeDevice A) Z :=
  self ← get;
  n ← ck64 (PAGESIZE_4KIB * queue_depth);
  buffer ← expect "called `Result::unwrap()` on an `Err` value" (allocate self n);
  qpair ← expect "called `Result::unwrap()` on an `Err` value"
    (NvmeDevice.create_io_queue_pair QUEUE_LENGTH);
  buffer_size ← ck64 (queue_depth * bytes_per_io);
  let '(block, rng) := random_bytes (Z.to_nat buffer_size) rng in
  _ ← fill_buffer buffer block;
  r ← with_local qpair (measure queue_depth ns_blocks duration buffer random write rng);
  let '(ops, qpair) := r in
  _ ← expect "called `Result::unwrap()` on an `Err` value" (NvmeDevice.delete_io_queue_pair qpair);
  mret ops.

(** [qd_1_singlethread]: through the device's own queue, one operation at a
    time. *)
Definition single_step {A} (ns_blocks : Z) (buffer : Dma) (random write : bool)
    (st : Z * Z * R) : M E (NvmeDevice A) (Z * Z * R) :=
  let '(total, ios, rng) := st in
  r ← next_lba random ns_blocks rng;
  let '(lba, rng) := r in
  before ← now;
  s ← Dma.slice buffer 0 bytes_per_io;
  l ← ck64 (lba * blocks_per_io);
  _ ← (if write then Io.write s l else Io.read s l);
  e ← elapsed before;
  total ← add_duration total e;
  ios ← ck_i32 (ios + 1);
  mret (total, ios, rng).

Definition qd_1_singlethread {A} `{MAP : Mapping A E} (write random : bool) (duration : Z) (rng : R) :
    M E (NvmeDevice A) Z :=
  self ← get;
  ns ← unwrap (namespaces self !! 1);
  ns_blocks ← ck64 (blocks ns / blocks_per_io - 1);
  buffer ← allocate self PAGESIZE_4KIB;
  let '(block, rng) := random_bytes (Z.to_nat bytes_per_io) rng in
  _ ← fill_buffer buffer block;
  r ← loop spin_fuel (λ st : Z * Z * R,
        if st.1.1 <? duration then
          st ← single_step ns_blocks buffer random write st;
          mret (Continue st)
        else mret (Break st)) (0, 0, rng);
  mret r.1.2.

End thread.
End Throughput.

(** ** latency.rs *)

Module Latency.

Section thread.
Context {E R : Type} `{BLD : Build} `{FUEL : Fuel} `{HW : Hardware E} `{CK : Clock E} `{RN : Rng R}.

(** The measured latencies, shared under a mutex in the code, are what a thread
    adds to them. *)

(** [qd_n_multithread], one iteration of the loop; the clock is read twice. *)
Definition bench_step (queue_depth ns_blocks : Z) (buffer : Dma) (write : bool)
    (st : Z * Z * Z * list Z * R) : M E NvmeQueuePair (Z * Z * Z * list Z * R) :=
  let '(total, outstanding, ops, latencies, rng) := st in
  r ← gen_range 0 ns_blocks rng;
  let '(lba, rng) := r in
  before ← now;
  r ← Throughput.make_room queue_depth outstanding ops;
  let '(outstanding, ops) := r in
  _ ← Throughput.submit_slice buffer write outstanding lba;
  l ← elapsed before;
  e ← elapsed before;
  total ← add_duration total e;
  outstanding ← ck64 (outstanding + 1);
  mret (total, outstanding, ops, latencies ++ [l], rng).

Definition bench_loop (queue_depth ns_blocks duration : Z) (buffer : Dma) (write : bool)
    (st : Z * Z * Z * list Z * R) : M E NvmeQueuePair (Z * Z * Z * list Z * R) :=
  loop spin_fuel (λ st : Z * Z * Z * list Z * R,
    if st.1.1.1.1 <? duration then
      st ← bench_step queue_depth ns_blocks buffer write st;
      mret (Continue st)
    else mret (Break st)) st.

(** What follows the loop. *)
Definition finish (total outstanding ops : Z) (latencies : list Z) :
    M E NvmeQueuePair (Z * list Z) :=
  latencies ← (if negb (outstanding =? 0) then
                 before ← now;
                 _ ← NvmeQueuePair.complete_io outstanding;
                 l ← elapsed before;
                 e ← elapsed before;
                 _ ← add_duration total e;
                 mret (latencies ++ [l])
               else mret latencies);
  ops ← ck64 (ops + outstanding);
  self ← get;
  _ ← assert (SubmissionQueue.is_empty (sub_queue self));
  mret (ops, latencies).

Definition measure (queue_depth ns_blocks duration : Z) (buffer : Dma) (write : bool) (rng : R) :
    M E NvmeQueuePair (Z * list Z) :=
  r ← bench_loop queue_depth ns_blocks duration buffer write (0, 0, 0, [], rng);
  let '(total, outstanding, ops, latencies, rng) := r in
  finish total outstanding ops latencies.

(** The closure run by each thread: its buffer has one page whatever the depth. *)
Definition thread {A} `{MAP : Mapping A E} (queue_depth ns_blocks duration : Z) (write : bool)
    (rng : R) : M E (NvmeDevice A) (Z * list Z) :=
  self ← get;
  buffer ← expect "called `Result::unwrap()` on an `Err` value" (allocate self PAGESIZE_4KIB);
  qpair ← expect "called `Result::unwrap()` on an `Err` value"
    (NvmeDevice.create_io_queue_pair QUEUE_LENGTH);
  buffer_size ← ck64 (queue_depth * Throughput.bytes_per_io);
  let '(block, rng) := random_bytes (Z.to_nat buffer_size) rng in
  _ ← fill_buffer buffer block;
  r ← with_local qpair (measure queue_depth ns_blocks duration buffer write rng);
  let '(res, qpair) := r in
  _ ← expect "called `Result::unwrap()` on an `Err` value" (NvmeDevice.delete_io_queue_pair qpair);
  mret res.

(** [qd_n_multithread_latency_nanos]: the latencies come from the polls. *)
Definition poll_all (before outstanding : Z) (latencies : list Z) :
    M E NvmeQueuePair (Z * list Z) :=
  loop spin_fuel (λ '(outstanding, latencies),
    o ← NvmeQueuePair.quick_poll;
    match o with
    | Some _ =>
      outstanding ← ck64 (outstanding - 1);
      l ← elapsed before;
      mret (Continue (outstanding, latencies ++ [l]))
    | None => mret (Break (outstanding, latencies))
    end) (outstanding, latencies).

Definition nanos_step (queue_depth ns_blocks : Z) (buffer : Dma) (random write : bool)
    (st : Z * list Z * R) : M E NvmeQueuePair (Z * list Z * R) :=
  let '(outstanding, latencies, rng) := st in
  r ← (if random then gen_range 0 ns_blocks rng
       else l ← umod outstanding ns_blocks; mret (l, rng));
  let '(lba, rng) := r in
  before ← now;
  _ ← Throughput.submit_slice buffer write outstanding lba;
  outstanding ← ck64 (outstanding + 1);
  r ← (if outstanding =? queue_depth then poll_all before outstanding latencies
       else mret (outstanding, latencies));
  let '(outstanding, latencies) := r in
  mret (outstanding, latencies, rng).

(** [while start_time.elapsed() < duration { .. }]. *)
Definition nanos_loop (queue_depth ns_blocks start duration : Z) (buffer : Dma)
    (random write : bool) (st : Z * list Z * R) : M E NvmeQueuePair (Z * list Z * R) :=
  loop spin_fuel (λ st : Z * list Z * R,
    e ← elapsed start;
    if e <? duration then
      st ← nanos_step queue_depth ns_blocks buffer random write st;
      mret (Continue st)
    else mret (Break st)) st.

(** [while outstanding_ops > 0 { .. }]: a poll, and a wait when it finds
    nothing.  The latency recorded here is that of [Instant::now().elapsed()]. *)
Definition collect_step (st : Z * list Z) : M E NvmeQueuePair (Flow (Z * list Z) (list Z)) :=
  let '(outstanding, latencies) := st in
  if 0 <? outstanding then
    o ← NvmeQueuePair.quick_poll;
    _ ← (match o with
         | Some _ => mret tt
         | None => r ← NvmeQueuePair.complete_io 1; _ ← unwrap r; mret tt
         end);
    outstanding ← ck64 (outstanding - 1);
    t ← now;
    l ← elapsed t;
    mret (Continue (outstanding, latencies ++ [l]))
  else mret (Break latencies).

Definition collect_rest (outstanding : Z) (latencies : list Z) : M E NvmeQueuePair (list Z) :=
  loop spin_fuel collect_step (outstanding, latencies).

Definition nanos_measure (queue_depth ns_blocks duration : Z) (buffer : Dma)
    (random write : bool) (rng : R) : M E NvmeQueuePair (list Z) :=
  start ← now;
  r ← nanos_loop queue_depth ns_blocks start duration buffer random write (0, [], rng);
  let '(outstanding, latencies, rng) := r in
  collect_rest outstanding latencies.

(** Its ring has as many entries as the depth. *)
Definition nanos_thread {A} `{MAP : Mapping A E} (queue_depth ns_blocks duration : Z)
    (random write : bool) (rng : R) : M E (NvmeDevice A) (list Z) :=
  self ← get;
  buffer ← expect "called `Result::unwrap()` on an `Err` value" (allocate self PAGESIZE_2MIB);
  qpair ← expect "called `Result::unwrap()` on an `Err` value"
    (NvmeDevice.create_io_queue_pair queue_depth);
  buffer_size ← ck64 (queue_depth * Throughput.bytes_per_io);
  let '(block, rng) := random_bytes (Z.to_nat buffer_size) rng in
  n ← ck64 (queue_depth * Throughput.bytes_per_io);
  s ← Dma.index_range buffer 0 n;
  _ ← store (ptr s) block;
  r ← with_local qpair (nanos_measure queue_depth ns_blocks duration buffer random write rng);
  let '(latencies, qpair) := r in
  _ ← expect "called `Result::unwrap()` on an `Err` value" (NvmeDevice.delete_io_queue_pair qpair);
  mret latencies.

(** [qd_1_singlethread_latency]: the LBA is carried from one iteration to the
    next. *)
Definition single_step {A} (ns_blocks : Z) (buffer : Dma) (random write : bool)
    (st : Z * Z * Z * list Z * R) : M E (NvmeDevice A) (Z * Z * Z * list Z * R) :=
  let '(total, ios, lba, latencies, rng) := st in
  r ← (if random then gen_range 0 ns_blocks rng
       else
         l ← ck64 (lba + 1);
         l ← umod l ns_blocks;
         mret (l, rng));
  let '(lba, rng) := r in
  before ← now;
  s ← Dma.slice buffer 0 Throughput.bytes_per_io;
  l ← ck64 (lba * Throughput.blocks_per_io);
  _ ← (if write then Io.write s l else Io.read s l);
  e ← elapsed before;
  total ← add_duration total e;
  ios ← ck_i32 (ios + 1);
  mret (total, ios, lba, latencies ++ [e], rng).

Definition qd_1_singlethread_latency {A} `{MAP : Mapping A E} (write random : bool) (duration : Z)
    (rng : R) : M E (NvmeDevice A) (list Z) :=
  self ← get;
  buffer ← allocate self PAGESIZE_2MIB;
  ns ← unwrap (namespaces self !! 1);
  ns_blocks ← ck64 (blocks ns / Throughput.blocks_per_io - 1);
  let '(block, rng) := random_bytes (Z.to_nat Throughput.bytes_per_io) rng in
  _ ← fill_buffer buffer block;
  r ← loop spin_fuel (λ st : Z * Z * Z * list Z * R,
        if st.1.1.1.1 <? duration then
          st ← single_step ns_blocks buffer random write st;
          mret (Continue st)
        else mret (Break st)) (0, 0, 0, [], rng);
  mret r.1.2.

End thread.
End Latency.
