(* ===== verification/Measure.v ===== *)
(** What a benchmark thread does with its queue pair ([examples/throughput.rs],
    [examples/latency.rs]): the theorems on the loops of [Bench]. *)

From stdpp Require Import gmap relations.
From S2P Require Import Prelude Bytes Machine Memory Cmd Mapping Queues Service Os QueuePair Device Io Protocol Bench.
#[local] Open Scope Z_scope.

(** ** Time passes *)

(** The clock starts at zero or later, moves on whenever the environment runs,
    and no access turns it back. *)
Class ClockLaws {E} `{HW : Hardware E} `{CK : Clock E} : Prop := {
  clock_tick : ∀ w : World E, clock (env w) < clock (env (tick w));
  clock_read : ∀ (w : World E) n a, clock (env w) ≤ clock (env (reading n a w));
  clock_write : ∀ (w : World E) n a v, clock (env w) ≤ clock (env (written n a v w));
  clock_nonneg : ∀ w : World E, 0 ≤ clock (env w);
}.

(** Samples are in the range asked for. *)
Class RngLaws {R} `{RN : Rng R} : Prop :=
  sample_range : ∀ lo hi (rng : R), lo < hi → lo ≤ (range_sample lo hi rng).1 < hi.

Section timed.
Context {E : Type} `{FUEL : Fuel} `{HW : Hardware E} `{CK : Clock E} `{CL : !ClockLaws}.
Context (p0 : NvmeQueuePair) (posted : Z → NvmeCompletion) (fetched : Z → Z) (N : nat).
Context (serves : Z → Z → Z → World E → Prop) `{PS : !PairService p0 posted fetched N serves}.

(** The service, not before the time [t]. *)
Definition timed (t : Z) (G C P : Z) (w : World E) : Prop := serves G C P w ∧ t ≤ clock (env w).

Lemma clock_ticks n (w : World E) : clock (env w) ≤ clock (env (Nat.iter n tick w)).
Proof.
  induction n as [|n IH]; [done|]. cbn [Nat.iter nat_rect].
  pose proof (clock_tick (Nat.iter n tick w)). unfold Nat.iter in *. lia.
Qed.

#[export] Instance timed_service t : PairService p0 posted fetched N (timed t).
Proof.
  destruct PS as [[[]]]. split; try done.
  - apply cq_service_intro.
    + intros G C P w [HP _]. eauto.
    + intros G C P w [HP ?]. destruct (service_tick _ _ _ _ HP) as (P' & ? & ?).
      pose proof (clock_tick w). exists P'. split; [done|]. split; [done|lia].
    + intros G C P w [HP ?] ?. split; eauto.
    + intros G C P w a bs [HP ?] ?. split; [by apply service_store|done].
    + intros G C P w [HP ?] ?. split; [by apply service_ring|]. etrans; [done|apply clock_write].
    + intros G C P w n a v [HP ?] ?. split; [by apply service_write|]. etrans; [done|apply clock_write].
    + intros G C P w n a [HP ?]. split; [by apply service_read|]. etrans; [done|apply clock_read].
    + intros G C P w [HP ?] ?. destruct (service_live _ _ _ _ HP) as (i & P' & ? & ? & ?); [done|].
      exists i, P'. split; [done|]. split; [done|]. split; [done|].
      etrans; [done|apply clock_ticks].
  - intros G C P w [HP _]. eauto.
  - intros G C P w i [HP _]. eauto.
Qed.

Lemma inv_timed t cs C p (w : World E) :
  pair_inv p0 fetched (timed t) cs C p w ↔ pair_inv p0 fetched serves cs C p w ∧ t ≤ clock (env w).
Proof.
  split.
  - intros (? & ? & (P & HP & ?) & ?). split; [|done]. split_and!; eauto.
  - intros [(? & ? & (P & HP) & ?) ?]. split_and!; [done..| |done]. exists P. by split.
Qed.

End timed.

(** ** The parts of an iteration *)

(** The [i]-th command of a benchmark: eight blocks of the namespace, from or to
    one of the slices of the buffer. *)
Definition bench_cmd (buffer : Dma) (depth ns_blocks : Z) (random write : bool) (c : NvmeCommand) :
    Prop :=
  opcode c = (if write then 1 else 2) ∧ NvmeCommand.nblocks c = 8 ∧
  (∃ j, NvmeCommand.slba c = 8 * j ∧ 0 ≤ j < ns_blocks ∧ (random = false → j = 1 `mod` ns_blocks)) ∧
  (∃ i, d_ptr c = (phys buffer + 4096 * i, 0) ∧ 0 ≤ i < depth).

(** A buffer with a slice for every operation in flight. *)
Definition bench_buffer (buffer : Dma) (depth : Z) : Prop :=
  dma_ok buffer ∧ phys buffer + size buffer + 4096 < 2 ^ 64 ∧ depth * 4096 ≤ size buffer.

Section parts.
Context {E : Type} `{BLD : Build} `{FUEL : Fuel} `{HW : Hardware E}.
Context (p0 : NvmeQueuePair) (posted : Z → NvmeCompletion) (fetched : Z → Z) (N : nat).
Context (serves : Z → Z → Z → World E → Prop) `{PS : !PairService p0 posted fetched N serves}.
Implicit Types (w : World E) (p : NvmeQueuePair) (cs : list NvmeCommand) (C : Z).

#[local] Abbreviation sq := (sub_queue p0).
#[local] Abbreviation inv := (pair_inv p0 fetched serves).
#[local] Abbreviation count cs := (Z.of_nat (length cs)).

Lemma wp_drain fuel cs C p w ops (Q : Res (Z * Z) → NvmeQueuePair → World E → Prop) :
  inv cs C p w → (Z.to_nat (count cs - C) < fuel)%nat → 0 ≤ ops → ops + (count cs - C) < 2 ^ 64 →
  (∀ C' p' w', C ≤ C' → inv cs C' p' w' → Q (Ret (count cs - C', ops + (C' - C))) p' w') →
  wp (loop fuel (λ '(outstanding, ops),
    o ← NvmeQueuePair.quick_poll;
    match o with
    | Some _ =>
      outstanding ← ck64 (outstanding - 1);
      ops ← ck64 (ops + 1);
      mret (Continue (outstanding, ops))
    | None => mret (Break (outstanding, ops))
    end) (count cs - C, ops)) Q p w.
Proof.
  revert C p w ops. induction fuel as [|fuel IH]; intros C p w ops Hinv Hf Ho Hops HQ; [lia|].
  pose proof (inv_bounds _ _ _ _ _ _ _ _ _ Hinv) as (? & ? & _).
  cbn [loop]. do 2 wp_step.
  apply (wp_pair_poll p0 posted fetched N serves cs C p w (λ _, mret (Some tt)) _ Hinv).
  - intros Hinv'. cbn [then_]. do 2 wp_step.
    replace ops with (ops + (C - C)) by lia. by apply HQ.
  - intros w' HC Hinv'. wp_step. do 5 (wp_step; try lia).
    replace (count cs - C - 1) with (count cs - (C + 1)) by lia.
    apply IH; [done|lia..|]. intros C' p' w'' ? ?.
    replace (ops + 1 + (C' - (C + 1))) with (ops + (C' - C)) by lia. apply HQ; [lia|done].
Qed.

(** Afterwards fewer than [depth] operations are in flight. *)
Lemma wp_make_room depth cs C p w ops (Q : Res (Z * Z) → NvmeQueuePair → World E → Prop) :
  inv cs C p w → 1 ≤ depth → count cs - C ≤ depth → (Z.to_nat depth < spin_fuel)%nat →
  0 ≤ ops → ops + (count cs - C) < 2 ^ 64 →
  (∀ C' p' w', C ≤ C' → count cs - C' < depth → inv cs C' p' w' →
     Q (Ret (count cs - C', ops + (C' - C))) p' w') →
  wp (Throughput.make_room depth (count cs - C) ops) Q p w.
Proof.
  intros Hinv ? Hd Hf ? ? HQ. unfold Throughput.make_room, Throughput.drain. wp_step.
  apply (wp_drain _ cs C); [done|lia..|]. intros C' p' w' ? Hinv'. cbn [then_].
  pose proof (inv_bounds _ _ _ _ _ _ _ _ _ Hinv') as (? & ? & _).
  destruct (Z.eqb_spec (count cs - C') depth) as [He|He]; cycle 1.
  { wp_step. apply HQ; [done|lia|done]. }
  wp_step. apply (wp_pair_complete_io p0 posted fetched N serves cs C'); [done|lia|].
  intros w'' Hinv''. cbn [then_]. do 5 (wp_step; try lia).
  replace (count cs - C' - 1) with (count cs - (C' + 1)) by lia.
  replace (ops + (C' - C) + 1) with (ops + (C' + 1 - C)) by lia. apply HQ; [lia|lia|done].
Qed.

(** The command of a slice. *)
Lemma slice_cmd G (write random : bool) buffer i j depth ns_blocks :
  bench_buffer buffer depth → 0 ≤ i < depth → 0 ≤ j < ns_blocks → 8 * ns_blocks + 16 < 2 ^ 64 →
  (random = false → j = 1 `mod` ns_blocks) →
  bench_cmd buffer depth ns_blocks random write
    (sent_cmd p0 G write (mkDma (virt buffer + 4096 * i) (phys buffer + 4096 * i) 4096) (8 * j) 0).
Proof.
  intros (_ & ? & ?) Hi Hj ? Hr. unfold bench_cmd, sent_cmd, chunk_cmd.
  assert (NvmeCommand.slba (NvmeCommand.io_write 0 0 (8 * j) 0 0 0) = 8 * j) as Hs
    by (apply split_u64; lia).
  assert (chunk_blocks (nth_chunk (mkDma (virt buffer + 4096 * i) (phys buffer + 4096 * i) 4096)
    8192 0) = 8) as -> by done.
  rewrite !Z.add_0_r. simpl phys_addr. rewrite !Z.add_0_r.
  split_and!; try by destruct write.
  - exists j. split; [|done]. destruct write; exact Hs.
  - exists i. by destruct write.
Qed.

(** The call of [submit_io] for one slice, room or not. *)
Lemma wp_slice_request buffer (write : bool) depth cs C p w j
    (Q : Res unit → NvmeQueuePair → World E → Prop) :
  inv cs C p w → bench_buffer buffer depth → 0 ≤ count cs - C < depth →
  0 ≤ j → 8 * j + 16 < 2 ^ 64 →
  let i := count cs - C in
  let d := mkDma (virt buffer + 4096 * i) (phys buffer + 4096 * i) 4096 in
  (∀ p' w', inv (cs ++ (sent_cmd p0 (count cs) write d (8 * j) <$>
       zrange 0 (Z.min 1 (sq_len sq - 1 - (count cs - fetched C))))) C p' w' →
     Q (Ret tt) p' w') →
  wp (Throughput.submit_slice buffer write i j) Q p w.
Proof.
  intros Hinv (Hd & ? & ?) Hout Hj Hj2 i d HQ. pose proof Hd as (? & ? & ? & ? & ?).
  assert (0 ≤ i < depth) as Hi by done.
  assert (n_chunks d 8192 = 1) as Hn by done.
  unfold Throughput.submit_slice, Throughput.bytes_per_io, Throughput.blocks_per_io.
  do 7 (wp_step; try lia). change (512 * 8) with 4096 in *.
  unfold wp at 1. rewrite slice_ok by (done || lia). cbn [fst snd then_]. do 3 (wp_step; try lia).
  replace (mkDma _ _ _) with d by (unfold d; f_equal; lia). replace (j * 8) with (8 * j) by lia.
  apply (wp_pair_submit p0 posted fetched N serves cs C); [done| |].
  { unfold request_ok. rewrite Hn. unfold dma_ok, d. simpl. lia. }
  rewrite Hn. intros p' w' Hinv'. cbn [then_]. wp_step. by apply HQ.
Qed.

Lemma wp_submit_slice buffer (write random : bool) depth ns_blocks cs C p w j
    (Q : Res unit → NvmeQueuePair → World E → Prop) :
  inv cs C p w → bench_buffer buffer depth → 0 ≤ count cs - C < depth → depth < sq_len sq →
  0 ≤ j < ns_blocks → 8 * ns_blocks + 16 < 2 ^ 64 → (random = false → j = 1 `mod` ns_blocks) →
  (∀ c p' w', bench_cmd buffer depth ns_blocks random write c → inv (cs ++ [c]) C p' w' →
     Q (Ret tt) p' w') →
  wp (Throughput.submit_slice buffer write (count cs - C) j) Q p w.
Proof.
  intros Hinv Hbuf Hout Hdepth Hj Hns Hr HQ.
  pose proof (inv_bounds _ _ _ _ _ _ _ _ _ Hinv) as (? & ? & _).
  apply (wp_slice_request buffer write depth cs C); [done|done|done|lia|lia|].
  rewrite Z.min_l by lia. intros p' w' Hinv'. eapply HQ; [|exact Hinv'].
  by apply slice_cmd.
Qed.

End parts.

(** ** The loop *)

Section bench.
Context {E R : Type} `{BLD : Build} `{FUEL : Fuel} `{HW : Hardware E} `{CK : Clock E} `{RN : Rng R}.
Context `{CL : !ClockLaws} `{RL : !RngLaws}.
Context (p0 : NvmeQueuePair) (posted : Z → NvmeCompletion) (fetched : Z → Z) (N : nat).
Context (serves : Z → Z → Z → World E → Prop) `{PS : !PairService p0 posted fetched N serves}.
Context (depth ns_blocks duration : Z) (buffer : Dma) (random write : bool).
Implicit Types (w : World E) (p : NvmeQueuePair) (cs : list NvmeCommand) (C : Z) (rng : R).

#[local] Abbreviation sq := (sub_queue p0).
#[local] Abbreviation inv := (pair_inv p0 fetched serves).
#[local] Abbreviation count cs := (Z.of_nat (length cs)).

(** The parameters of a run. *)
Definition bench_ok : Prop :=
  1 ≤ depth < sq_len sq ∧ (Z.to_nat depth < spin_fuel)%nat ∧ bench_buffer buffer depth ∧
  0 < ns_blocks ∧ 8 * ns_blocks + 16 < 2 ^ 64 ∧
  0 ≤ duration < 2 ^ 63 ∧ (Z.to_nat duration < spin_fuel)%nat.

Lemma wp_now {S} (s : S) w (Q : Res Z → S → World E → Prop) :
  Q (Ret (clock (env (tick w)))) s (tick w) → wp now Q s w.
Proof. done. Qed.

Lemma wp_elapsed {S} t (s : S) w (Q : Res Z → S → World E → Prop) :
  t ≤ clock (env w) →
  (∀ e, e = clock (env (tick w)) - t → 1 ≤ e → Q (Ret e) s (tick w)) → wp (elapsed t) Q s w.
Proof.
  intros Ht HQ. unfold elapsed. wp_step. apply wp_now. cbn [then_]. wp_step.
  pose proof (clock_tick w). rewrite Z.max_r by lia. apply HQ; lia.
Qed.

(** The sum of the measured times overflows only when the clock is that late. *)
Definition too_late : PanicKind := ExpectErr "overflow when adding durations".

Definition unless_late {A} (Q : Res A → NvmeQueuePair → World E → Prop) : Prop :=
  ∀ p w, MAX_DURATION ≤ clock (env w) → Q (Panicked too_late) p w.

Lemma wp_add_duration a b p w (Q : Res Z → NvmeQueuePair → World E → Prop) :
  a + b ≤ clock (env w) → unless_late Q → Q (Ret (a + b)) p w → wp (add_duration a b) Q p w.
Proof.
  intros ? Hlate ?. unfold add_duration. destruct (Z.ltb_spec (a + b) MAX_DURATION); [done|].
  apply wp_panic. apply Hlate. lia.
Qed.

Lemma wp_next_lba {S} rng (s : S) w (Q : Res (Z * R) → S → World E → Prop) :
  0 < ns_blocks →
  (∀ j rng', 0 ≤ j < ns_blocks → (random = false → j = 1 `mod` ns_blocks) → Q (Ret (j, rng')) s w) →
  wp (Throughput.next_lba random ns_blocks rng) Q s w.
Proof.
  intros Hns HQ. unfold Throughput.next_lba. destruct random.
  - unfold gen_range. wp_step. apply wp_assert; [intros _|by rewrite Z.ltb_ge; lia].
    cbn [then_]. wp_step. pose proof (sample_range 0 ns_blocks rng Hns).
    destruct (range_sample 0 ns_blocks rng) as [j rng']. by apply HQ.
  - do 5 (wp_step; try lia). apply HQ; [by apply Z.mod_pos_bound|done].
Qed.

(** The state of the loop: [C] of the commands [cs] have been completed and
    counted, the others are outstanding; each took some time. *)
Definition bench_inv (total : Z) cs C p w : Prop :=
  pair_inv p0 fetched (timed serves total) cs C p w ∧ count cs - C ≤ depth ∧
  count cs ≤ total ∧ Forall (bench_cmd buffer depth ns_blocks random write) cs.

Lemma wp_bench_step total cs C p w rng
    (Q : Res (Z * Z * Z * R) → NvmeQueuePair → World E → Prop) :
  bench_ok → bench_inv total cs C p w → total < duration → unless_late Q →
  (∀ e c C' rng' p' w', 1 ≤ e → bench_inv (total + e) (cs ++ [c]) C' p' w' →
     Q (Ret (total + e, count (cs ++ [c]) - C', C', rng')) p' w') →
  wp (Throughput.bench_step depth ns_blocks buffer random write (total, count cs - C, C, rng)) Q p w.
Proof.
  intros (Hd & Hf & Hbuf & Hns & Hns2 & Hdur & _) (Hinv & Hout & Hcs & Hcmds) Ht Hlate HQ.
  unfold Throughput.bench_step. wp_step. apply wp_next_lba; [done|].
  intros j rng' Hj Hr. cbn [then_]. wp_step. apply wp_now. cbn [then_].
  apply (inv_timed p0 fetched serves) in Hinv as [Hinv Hclk].
  pose proof (clock_tick w). set (t := clock (env (tick w))) in *.
  apply (inv_tick p0 posted fetched N serves) in Hinv.
  pose proof (proj2 (inv_timed p0 fetched serves t cs C p (tick w)) (conj Hinv (Z.le_refl t))) as Hinv'.
  pose proof (inv_bounds _ _ _ _ _ _ _ _ _ Hinv) as (? & ? & _).
  wp_step. apply (wp_make_room p0 posted fetched N (timed serves t)); [done|lia..|].
  intros C' p' w' ? ? Hinv1. cbn [then_]. wp_step.
  pose proof (inv_bounds _ _ _ _ _ _ _ _ _ Hinv1) as (? & ? & _).
  apply (wp_submit_slice p0 posted fetched N (timed serves t) buffer write random depth ns_blocks
    cs C'); [done|done| |lia|done|done|done|].
  { lia. }
  intros c p2 w2 Hc Hinv2. cbn [then_]. wp_step.
  apply (inv_timed p0 fetched serves) in Hinv2 as [Hinv2 Hclk2].
  apply wp_elapsed; [done|]. intros e He He1. cbn [then_]. wp_step.
  apply wp_add_duration; [lia|done|]. cbn [then_]. do 3 (wp_step; try lia). replace (C + (C' - C)) with C' by lia.
  assert (count (cs ++ [c]) = count cs + 1) as Hl by (rewrite length_app; simpl; lia).
  replace (count cs - C' + 1) with (count (cs ++ [c]) - C') by lia.
  apply (HQ e c C'); [done|]. split; [|split; [lia|split; [lia|]]].
  - apply (inv_timed p0 fetched serves). split; [|lia]. by apply (inv_tick p0 posted fetched N serves).
  - apply Forall_app. by rewrite Forall_singleton.
Qed.

Lemma wp_bench_loop fuel total cs C p w rng
    (Q : Res (Z * Z * Z * R) → NvmeQueuePair → World E → Prop) :
  bench_ok → bench_inv total cs C p w → (Z.to_nat (duration - total) < fuel)%nat →
  count cs ≤ duration → unless_late Q →
  (∀ total' cs' C' rng' p' w', bench_inv total' cs' C' p' w' → duration ≤ total' →
     count cs ≤ count cs' ≤ duration → (total < duration → count cs < count cs') →
     Q (Ret (total', count cs' - C', C', rng')) p' w') →
  wp (loop fuel (λ st : Z * Z * Z * R,
    if st.1.1.1 <? duration then
      st ← Throughput.bench_step depth ns_blocks buffer random write st;
      mret (Continue st)
    else mret (Break st)) (total, count cs - C, C, rng)) Q p w.
Proof.
  intros Hok. revert total cs C p w rng. induction fuel as [|fuel IH];
    intros total cs C p w rng Hinv Hf Hcs Hlate HQ; [lia|].
  cbn [loop]. wp_step. cbn [fst]. destruct (Z.ltb_spec total duration); cycle 1.
  { do 2 wp_step. apply HQ; [done|lia..]. }
  wp_step. apply wp_bench_step; [done..| |].
  { intros ? ? ?. by apply Hlate. }
  intros e c C' rng' p' w' He Hinv'.
  cbn [then_]. wp_step. pose proof Hinv as (_ & _ & ? & _).
  assert (count (cs ++ [c]) = count cs + 1) as Hl by (rewrite length_app; simpl; lia).
  apply IH; [done|lia|lia|done|].
  intros total' cs' C'' rng'' p'' w'' Hinv'' ? ? Hne. apply HQ; [done|lia..].
Qed.

(** With everything taken the ring is empty. *)
Lemma inv_empty cs p w :
  inv cs (count cs) p w → p = pair_at p0 (count cs) (count cs) (count cs) ∧
  SubmissionQueue.is_empty (sub_queue p) = true.
Proof.
  intros Hinv. pose proof (inv_bounds _ _ _ _ _ _ _ _ _ Hinv) as (? & ? & _).
  destruct Hinv as (-> & _). replace (fetched (count cs)) with (count cs) by lia.
  split; [done|]. apply Z.eqb_refl.
Qed.

Lemma wp_finish total cs C p w (Q : Res Z → NvmeQueuePair → World E → Prop) :
  bench_inv total cs C p w → 0 ≤ total → count cs ≤ duration → duration < 2 ^ 63 →
  unless_late Q →
  (∀ p' w', inv cs (count cs) p' w' → Q (Ret (count cs)) p' w') →
  wp (Throughput.finish total (count cs - C) C) Q p w.
Proof.
  intros (Hinv & _ & _ & _) ? ? ? Hlate HQ. apply (inv_timed p0 fetched serves) in Hinv as [Hinv Hclk].
  pose proof (inv_bounds _ _ _ _ _ _ _ _ _ Hinv) as (? & ? & _).
  unfold Throughput.finish. wp_step.
  apply wp_mono with (λ r p' w', (r = Ret tt ∧ inv cs (count cs) p' w') ∨
    (r = Panicked too_late ∧ MAX_DURATION ≤ clock (env w'))).
  - destruct (Z.eqb_spec (count cs - C) 0) as [He|He]; cbn [negb].
    { wp_step. left. split; [done|]. by replace (count cs) with C by lia. }
    wp_step. apply wp_now. cbn [then_]. pose proof (clock_tick w).
    set (t := clock (env (tick w))) in *.
    apply (inv_tick p0 posted fetched N serves) in Hinv.
    pose proof (proj2 (inv_timed p0 fetched serves t cs C p (tick w)) (conj Hinv (Z.le_refl t))) as Hinv'.
    wp_step. apply (wp_pair_complete_io p0 posted fetched N (timed serves t) cs C); [done|lia|].
    replace (C + (count cs - C)) with (count cs) by lia.
    intros w' Hinv1. cbn [then_]. wp_step.
    apply (inv_timed p0 fetched serves) in Hinv1 as [Hinv1 Hclk1].
    apply wp_elapsed; [done|]. intros e He' ?. cbn [then_]. wp_step.
    apply wp_add_duration; [lia|intros ? ? ?; by right|]. cbn [then_]. wp_step.
    left. split; [done|]. by apply (inv_tick p0 posted fetched N serves).
  - intros ? p' w' [[-> Hinv']|[-> ?]]; [|by apply Hlate]. cbn [then_]. do 5 (wp_step; try lia).
    destruct (inv_empty _ _ _ Hinv') as [_ Hempty]. rewrite Hempty.
    unfold assert. do 2 wp_step. replace (C + (count cs - C)) with (count cs) by lia. by apply HQ.
Qed.

End bench.

(** ** Waiting for more than is in flight *)

Section overcount.
Context {E : Type} `{BLD : Build} `{FUEL : Fuel} `{HW : Hardware E} `{CK : Clock E}.
Context (p0 : NvmeQueuePair) (posted : Z → NvmeCompletion) (fetched : Z → Z) (N : nat).
Context (serves : Z → Z → Z → World E → Prop) `{PS : !PairService p0 posted fetched N serves}.
Implicit Types (w : World E) (p : NvmeQueuePair) (cs : list NvmeCommand) (C : Z).

#[local] Abbreviation inv := (pair_inv p0 fetched serves).
#[local] Abbreviation count cs := (Z.of_nat (length cs)).

(** Nothing in flight: the spinning loop uses up any fuel. *)
Lemma wp_spin_idle n G P w :
  serves G G P w →
  wp (CompletionQueue.complete_spin_fuel n) (λ r _ _, r = Diverged) (cq_pos (comp_queue p0) G) w.
Proof.
  destruct (pair_rings (p:=p0)) as (_ & _ & Hl & _).
  pose proof (pair_service (p:=p0)) as SV.
  pose proof (service_producer (comp_queue p0) posted _ _ N serves G) as Hprod.
  revert P w. induction n as [|n IH]; intros P w HP; [done|].
  cbn [CompletionQueue.complete_spin_fuel]. wp_step.
  apply (wp_complete (comp_queue p0) posted (serves G) Hl G P G); [done|lia|..]; cbn [then_].
  - intros P1 _ HP1. by apply (IH P1).
  - intros P1 P2 ? HP1 _. destruct (service_view _ _ _ _ HP1). lia.
Qed.

Lemma wp_complete_idle cs p w :
  inv cs (count cs) p w → wp (NvmeQueuePair.complete_io 1) (λ r _ _, r = Diverged) p w.
Proof.
  intros (-> & _ & (P & HP) & _). destruct (pair_rings (p:=p0)) as (_ & _ & Hl & _).
  pose proof Hl as Hl'. rewrite QUEUE_LENGTH_value in Hl'.
  unfold NvmeQueuePair.complete_io, assert. change (0 <? 1) with true. do 4 wp_step.
  unfold CompletionQueue.complete_n. do 2 wp_step. cbn [pair_at comp_queue cq_pos cq_head cq_len cq_phase].
  set (len := cq_len (comp_queue p0)) in *.
  pose proof (Z.mod_pos_bound (count cs) len ltac:(lia)).
  do 6 (wp_step; try lia). simpl (1 - 1). rewrite Z.add_0_r.
  rewrite (proj2 (Z.leb_gt len (count cs `mod` len))) by lia.
  do 7 (wp_step; try lia). rewrite Z.mod_mod by lia.
  unfold CompletionQueue.complete_spin.
  eapply wp_mono; [by apply (wp_spin_idle spin_fuel (count cs) P)|].
  by intros ? ? ? ->.
Qed.

(** The body of [collect_rest]. *)
Definition rest_body : Z * list Z → M E NvmeQueuePair (Flow (Z * list Z) (list Z)) :=
  λ '(outstanding, latencies),
    if 0 <? outstanding then
      o ← NvmeQueuePair.quick_poll;
      _ ← (match o with
           | Some _ => mret tt
           | None => r ← NvmeQueuePair.complete_io 1; _ ← unwrap r; mret tt
           end);
      outstanding ← ck64 (outstanding - 1);
      t ← now;
      l ← elapsed t;
      mret (Continue (outstanding, latencies ++ [l]))
    else mret (Break latencies).

Lemma wp_collect_rest fuel cs C p w outstanding latencies :
  inv cs C p w → count cs - C < outstanding < 2 ^ 64 →
  (∀ k, C ≤ k < count cs → sc_field (posted k) = 0) →
  wp (loop fuel rest_body (outstanding, latencies)) (λ r _ _, r = Diverged) p w.
Proof.
  revert C p w outstanding latencies. induction fuel as [|fuel IH];
    intros C p w outstanding latencies Hinv Hout Hok; [done|].
  pose proof (inv_bounds _ _ _ _ _ _ _ _ _ Hinv) as (? & ? & _).
  assert (∀ p' w', inv cs (C + 1) p' w' → C < count cs →
    wp (outstanding ← ck64 (outstanding - 1);
        t ← now;
        l ← elapsed t;
        mret (Continue (outstanding, latencies ++ [l])))
      (then_ (λ f, wp (match f with Continue a => loop fuel rest_body a | Break b => mret b end)
        (λ r _ _, r = Diverged)) (λ (r : Res (list Z)) _ _, r = Diverged)) p' w') as Hnext.
  { intros p' w' Hinv' ?. do 3 (wp_step; try lia). apply wp_now. cbn [then_].
    unfold elapsed. do 2 wp_step. apply wp_now. cbn [then_]. do 2 wp_step.
    apply (IH (C + 1)); [|lia|intros; apply Hok; lia].
    by do 2 apply (inv_tick p0 posted fetched N serves). }
  cbn [loop]. wp_step. unfold rest_body at 1. cbv beta iota.
  rewrite (proj2 (Z.ltb_lt 0 outstanding)) by lia. wp_step.
  apply (wp_pair_poll p0 posted fetched N serves cs C p w (λ _, mret (Some tt)) _ Hinv).
  - intros Hinv'. cbn [then_]. do 2 wp_step. destruct (decide (C = count cs)) as [->|].
    { eapply wp_mono; [by apply (wp_complete_idle cs)|]. by intros ? ? ? ->. }
    apply (wp_pair_complete_io p0 posted fetched N serves cs C); [done|lia|].
    intros w' Hinv1. cbn [then_]. replace (C + 1 - 1) with C by lia.
    rewrite Hok by lia. change (0 =? 0) with true.
    wp_step. apply wp_unwrap. cbn [then_]. wp_step. apply Hnext; [done|lia].
  - intros w' ? Hinv'. do 3 wp_step. by apply Hnext.
Qed.

End overcount.

(** ** Properties *)


(** *** A controller and a clock *)

Section clocked.
Context {E : Type} `{FUEL : Fuel} (HW : Hardware E).

(** The hardware with a counter that goes up at every run. *)
Definition clocked_hw : Hardware (E * nat) := {|
  hw_run e m := let '(e1, m1) := hw_run e.1 m in ((e1, S e.2), m1);
  hw_read n a e := let '(v, e1) := hw_read n a e.1 in (v, (e1, e.2));
  hw_write n a v e := (hw_write n a v e.1, e.2);
|}.

Definition counter : Clock (E * nat) := λ e, Z.of_nat e.2.

Definition unclocked (w : World (E * nat)) : World E :=
  mkWorld (env w).1 (mem w) (trace w) (statics w).

Lemma unclocked_tick w : unclocked (tick (HW:=clocked_hw) w) = tick (unclocked w).
Proof. unfold tick, unclocked. simpl. by destruct (hw_run _ _). Qed.

Lemma unclocked_ticks n w :
  unclocked (Nat.iter n (tick (HW:=clocked_hw)) w) = Nat.iter n tick (unclocked w).
Proof.
  induction n as [|n IH]; [done|]. cbn [Nat.iter nat_rect]. rewrite unclocked_tick. by f_equal.
Qed.

Lemma unclocked_reading w n a : unclocked (reading (HW:=clocked_hw) n a w) = reading n a (unclocked w).
Proof. unfold reading, unclocked. simpl. by destruct (hw_read _ _ _). Qed.

Lemma clocked_laws : ClockLaws (HW:=clocked_hw) (CK:=counter).
Proof.
  split; unfold clock, counter.
  - intros w. unfold tick. simpl. destruct (hw_run _ _). simpl. lia.
  - intros w n a. unfold reading. simpl. by destruct (hw_read _ _ _).
  - by intros.
  - intros. lia.
Qed.

Lemma clocked_service p posted fetched N serves :
  PairService p posted fetched N serves →
  PairService (HW:=clocked_hw) p posted fetched N (λ G C P w, serves G C P (unclocked w)).
Proof.
  intros [[[]] ? ? ? ? ? ? Hann ? ? Hkept]. split; try done.
  - apply cq_service_intro.
    + intros G C P w HP. exact (service_view _ _ _ (unclocked w) HP).
    + intros G C P w ?. setoid_rewrite unclocked_tick. eauto.
    + intros G C P w ? ?. eauto.
    + intros G C P w a bs HP ?. by apply (service_store _ _ _ (unclocked w)).
    + intros G C P w HP ?. by apply (service_ring _ _ _ (unclocked w)).
    + intros G C P w n a v HP ?. by apply (service_write _ _ _ (unclocked w)).
    + intros G C P w n a ?. rewrite unclocked_reading. eauto.
    + intros G C P w ? ?. setoid_rewrite unclocked_ticks. eauto.
  - intros G C P w. apply Hann.
  - intros G C P w i HP ?. specialize (Hkept _ _ _ _ i HP). rewrite <-unclocked_tick in Hkept.
    by apply Hkept.
Qed.

End clocked.

(** A generator without surprises. *)
Definition lowest : Rng unit := {| range_sample lo _ _ := (lo, tt); random_u8 _ := (0, tt) |}.

Definition demo_buffer : Dma := mkDma 0x4000000 0x4000000 8192.

Definition demo_clocked_world : World (Z * (Z * Z) * nat) :=
  mkWorld (env serving_world, 0%nat) (mem serving_world) [] (statics serving_world).

Lemma demo_measure_run :
  (Throughput.measure (BLD:=true) (FUEL:=10%nat) (HW:=clocked_hw demo_pair_hw) (CK:=counter)
    (RN:=lowest) 2 10 9 demo_buffer true false tt (demo_new_pair, demo_clocked_world)).1 = Ret 2.
Proof. by vm_compute. Qed.




(** The whole of [qd_n_multithread_latency_nanos] on a ring of two entries: the
    controller completes every command, the measurement does not end. *)
Example nanos_measure_run :
  let p := mkNvmeQueuePair 2 (mkSubmissionQueue (mkDma 0x800000 0x800000 2097152) 0 0 2 4112)
    (mkCompletionQueue (mkDma 0xA00000 0xA00000 2097152) 0 true 2 4116) in
  (Latency.nanos_measure (BLD:=true) (FUEL:=60%nat)
    (HW:=clocked_hw (serving_hw (comp_queue p) (success 2) 4112 0)) (CK:=counter) (RN:=lowest)
    2 10 40 demo_buffer true false tt (p, demo_clocked_world)).1 = Diverged.
Proof. by vm_compute. Qed.
