(* ===== verification/Disk.v ===== *)
(** What the commands of [write] and [read] do on a controller that obeys NVMe:
    data written and read back is the data.  The controller is specified here by
    its effect on the disk and on the memory, command by command. *)

From stdpp Require Import gmap.
From S2P Require Import Prelude Bytes Machine Memory Cmd Mapping Queues Service QueuePair Device Setup Startup Io Prp.
#[local] Open Scope Z_scope.

(** ** The specification of a controller *)

(** Copy bytes from [src] to [dst], each from its address to its address. *)
Definition move (src dst : Mem) (pairs : list (Z * Z)) : Mem :=
  foldl (λ dst '(from, to), λ y, if y =? to then src from else dst y) dst pairs.

(** A disk with blocks of 512 bytes, and the memory by bus address. *)
Definition Storage : Type := Mem * Mem.

Definition list_in (m : Mem) (a : Z) : Z := le_val (load_bytes m a 8).

(** One command of the I/O command set, for namespace 1: a write moves the bytes
    that the PRP entries name to consecutive bytes of the disk, a read the other
    way.  The memory [m] is that of the host, where the bus address [a] is the
    address [bus a]. *)
Definition perform (bus : Z → Z) (st : Storage) (cmd : NvmeCommand) : Storage :=
  let '(disk, m) := st in
  let n := NvmeCommand.nblocks cmd * 512 in
  let addrs := bus <$> walk_bytes
    (prp_walk (list_in (λ a, m (bus a))) (d_ptr cmd).1 (d_ptr cmd).2 n) in
  let blocks := zrange (NvmeCommand.slba cmd * 512) (NvmeCommand.slba cmd * 512 + n) in
  if negb (ns_id cmd =? 1) then st
  else if opcode cmd =? 1 then (move m disk (zip addrs blocks), m)
  else if opcode cmd =? 2 then (disk, move disk m (zip blocks addrs))
  else st.

(** With the memory by bus address. *)
Definition execute : Storage → NvmeCommand → Storage := perform id.

(** [n] bytes from the bus address [a] on are those from the host address [h] on. *)
Definition mapped (bus : Z → Z) (a h n : Z) : Prop := ∀ j, 0 ≤ j < n → bus (a + j) = h + j.

(** The commands that a trace of [write] or [read] puts into the ring, which
    makes no other stores. *)
Definition commands_of (t : list Event) : list NvmeCommand :=
  t ≫= λ ev, match ev with EvStore _ bs => [NvmeCommand.decode bs] | _ => [] end.

Definition run_trace (t : list Event) (st : Storage) : Storage := foldl execute st (commands_of t).

(** ** Lemmas *)

Lemma run_trace_app t1 t2 st : run_trace (t1 ++ t2) st = run_trace t2 (run_trace t1 st).
Proof. unfold run_trace, commands_of. by rewrite bind_app, foldl_app. Qed.

Lemma move_snoc src dst pairs from to :
  move src dst (pairs ++ [(from, to)]) = λ y, if y =? to then src from else move src dst pairs y.
Proof. unfold move. by rewrite foldl_app. Qed.

(** A range moved to a range. *)
Lemma move_range src dst f t n y :
  0 ≤ n → move src dst (zip (zrange f (f + n)) (zrange t (t + n))) y =
  if (t <=? y) && (y <? t + n) then src (f + (y - t)) else dst y.
Proof.
  intros Hn. remember (Z.to_nat n) as k eqn:Hk. revert n Hn Hk.
  induction k as [|k IH]; intros n Hn Hk.
  { assert (n = 0) as -> by lia. rewrite !Z.add_0_r, !(zrange_nil) by lia. simpl.
    destruct (Z.leb_spec t y), (Z.ltb_spec y t); done || lia. }
  replace n with (n - 1 + 1) by lia. rewrite !Z.add_assoc, !zrange_snoc by lia.
  rewrite zip_with_app by (rewrite !zrange_length; lia). cbn [zip_with]. rewrite move_snoc, IH by lia.
  destruct (Z.eqb_spec y (t + (n - 1))) as [->|].
  - rewrite (proj2 (Z.leb_le _ _)), (proj2 (Z.ltb_lt _ _)) by lia. cbn [andb]. f_equal. lia.
  - destruct (Z.leb_spec t y), (Z.ltb_spec y (t + (n - 1))), (Z.ltb_spec y (t + (n - 1) + 1)); done || lia.
Qed.

Lemma mapped_range bus a h n :
  mapped bus a h n → bus <$> zrange a (a + n) = zrange h (h + n).
Proof.
  intros Hm. unfold zrange. rewrite <-list_fmap_compose. replace (a + n - a) with n by lia.
  replace (h + n - h) with n by lia. apply list_fmap_ext. intros i x Hx%list_elem_of_lookup_2.
  apply elem_of_seq in Hx. apply Hm. lia.
Qed.

(** A part of a region, replaced by bytes from somewhere else. *)
Definition patched (old : Mem) (at_ n : Z) (new : Z → Z) (x : Z) : Z :=
  if (at_ <=? x) && (x <? at_ + n) then new (x - at_) else old x.

Lemma patched_snoc old a n c new x :
  0 ≤ n → 0 ≤ c →
  patched (patched old a n new) (a + n) c (λ j, new (n + j)) x = patched old a (n + c) new x.
Proof.
  intros. unfold patched.
  destruct (Z.leb_spec (a + n) x), (Z.ltb_spec x (a + n + c)), (Z.leb_spec a x), (Z.ltb_spec x (a + n)),
    (Z.ltb_spec x (a + (n + c))); cbn [andb]; try lia; try done. f_equal. lia.
Qed.

Section commands.
Context {A : Type} (d : NvmeDevice A) (Ha : addrs_ok d) (Hq : 0 < sq_len (io_sq d) ≤ QUEUE_LENGTH).

(** The image of a command in the ring is the command. *)
Lemma io_cmd_image k (write : bool) blocks lba addr :
  1 ≤ blocks ≤ 16 → 0 ≤ addr → addr + 4096 < 2 ^ 64 →
  NvmeCommand.decode (NvmeCommand.encode (io_cmd d k write 1 blocks lba addr)) =
  io_cmd d k write 1 blocks lba addr.
Proof.
  intros Hb Ha1 Ha2. apply decode_encode. pose proof Hq as Hq'. rewrite QUEUE_LENGTH_value in Hq'.
  pose proof (Z.mod_pos_bound k (sq_len (io_sq d)) ltac:(lia)). destruct Ha as [? ?].
  assert (0 ≤ io_ptr1 d blocks addr < 2 ^ 64)
    by (unfold io_ptr1; destruct (_ <=? _); [lia|]; destruct (_ <=? _); lia).
  unfold io_cmd. destruct write; [apply io_write_wf|apply io_read_wf]; lia.
Qed.

(** One chunk of a transfer. *)
Lemma perform_chunk bus h k (write : bool) blocks lba addr disk m :
  1 ≤ blocks ≤ 16 → addr `mod` 4096 = 0 → 0 ≤ lba < 2 ^ 64 → mapped bus addr h (blocks * 512) →
  let n := blocks * 512 in
  let st' := perform bus (disk, m) (io_cmd d k write 1 blocks lba addr) in
  if write
  then (∀ x, st'.1 x = patched disk (lba * 512) n (λ j, m (h + j)) x) ∧ st'.2 = m
  else st'.1 = disk ∧ (∀ y, st'.2 y = patched m h n (λ j, disk (lba * 512 + j)) y).
Proof.
  intros Hb Hal Hlba Hbus n st'.
  set (cmd := io_cmd d k write 1 blocks lba addr) in *.
  assert (NvmeCommand.nblocks cmd = blocks) as Hn.
  { unfold NvmeCommand.nblocks, cmd, io_cmd. destruct write; simpl; rewrite Z.mod_small; lia. }
  assert (NvmeCommand.slba cmd = lba) as Hs.
  { unfold NvmeCommand.slba, cmd, io_cmd. destruct write; by apply split_u64. }
  pose proof (two_page_walk d (list_in (λ a, m (bus a))) k 1 blocks lba addr write Hal Hb) as Hwalk.
  fold cmd in Hwalk. cbn zeta in Hwalk.
  unfold st', perform. rewrite Hn, Hs, Hwalk, (mapped_range bus addr h) by done. fold n. unfold patched.
  destruct write; simpl; split; try done; intros; by rewrite move_range by (unfold n; lia).
Qed.

Lemma execute_chunk k (write : bool) blocks lba addr disk m :
  1 ≤ blocks ≤ 16 → addr `mod` 4096 = 0 → 0 ≤ lba < 2 ^ 64 →
  let n := blocks * 512 in
  let st' := execute (disk, m) (io_cmd d k write 1 blocks lba addr) in
  if write
  then (∀ x, st'.1 x = patched disk (lba * 512) n (λ j, m (addr + j)) x) ∧ st'.2 = m
  else st'.1 = disk ∧ (∀ y, st'.2 y = patched m addr n (λ j, disk (lba * 512 + j)) y).
Proof. intros. by apply perform_chunk. Qed.

End commands.

(** ** A whole region *)

Lemma patched_ext old old' a n new new' x :
  old x = old' x → (∀ j, new j = new' j) → patched old a n new x = patched old' a n new' x.
Proof. intros Ho Hn. unfold patched. by rewrite Ho, Hn. Qed.

Lemma patched_empty old a n new x : n ≤ 0 → patched old a n new x = old x.
Proof.
  intros. unfold patched. destruct (Z.leb_spec a x), (Z.ltb_spec x (a + n)); cbn [andb]; done || lia.
Qed.

(** A region of whole pages' alignment and whole blocks. *)
Definition block_region (data : Dma) : Prop :=
  dma_ok data ∧ phys data `mod` 4096 = 0 ∧ size data `mod` 512 = 0 ∧ phys data + size data + 4096 < 2 ^ 64.

(** The bytes of the first [i] chunks. *)
Definition sent (data : Dma) (i : Z) : Z := Z.min (8192 * i) (size data).

Lemma chunk_sent data i :
  block_region data → 0 ≤ i < n_chunks data 8192 →
  let b := chunk_blocks (nth_chunk data 8192 i) in
  1 ≤ b ≤ 16 ∧ sent data i = 8192 * i ∧ sent data (i + 1) = 8192 * i + b * 512 ∧
  8192 * i + b * 512 ≤ size data.
Proof.
  intros (Hd & _ & Hm & _) Hi b. destruct Hd as (? & ? & ? & _).
  destruct (nth_chunk_bounds data 8192 i) as (_ & Hl & He & _); [lia..|].
  pose proof (chunk_blocks_bounds _ Hl) as Hb. fold b in Hb. split; [done|].
  assert (b * 512 = Z.min 8192 (size data - i * 8192)) as Hbl.
  { unfold b, chunk_blocks, nth_chunk in *. simpl in *.
    set (l := Z.min 8192 (size data - i * 8192)) in *.
    assert (l `mod` 512 = 0) as [q Hq]%Z.mod_divide.
    { apply Z.mod_divide in Hm as [p Hp]; [|lia]. apply Z.mod_divide; [lia|]. unfold l. rewrite Hp.
      destruct (Z.min_spec 8192 (p * 512 - i * 8192)) as [[_ ->]|[_ ->]];
        [by exists 16|exists (p - i * 16); lia]. }
    - rewrite Hq. symmetry. replace (q * 512 + 511) with (511 + q * 512) by lia.
      by rewrite Z.div_add by lia.
    - lia. }
  simpl in Hl, He. unfold sent. lia.
Qed.

Section region.
Context {A : Type} (d : NvmeDevice A) (Ha : addrs_ok d) (Hq : 0 < sq_len (io_sq d) ≤ QUEUE_LENGTH).
Context (data : Dma) (Hdata : block_region data) (k lba : Z) (disk m : Mem).
Context (Hl0 : 0 ≤ lba) (Hl1 : lba + 16 * n_chunks data 8192 < 2 ^ 64).

(** The commands of one chunk are the one command. *)
Lemma run_chunk (write : bool) i st :
  0 ≤ i < n_chunks data 8192 →
  run_trace (transfer_events d k write data lba i) st =
  execute st (io_cmd d (k + i) write 1 (chunk_blocks (nth_chunk data 8192 i)) (lba + 16 * i)
    (phys data + 8192 * i)).
Proof.
  intros Hi. destruct (chunk_sent data i Hdata Hi) as (Hb & _ & _ & He).
  destruct Hdata as ((? & ? & ? & _) & _ & _ & ?).
  unfold run_trace, transfer_events, io_events, commands_of. cbn [mbind list_bind foldl app].
  rewrite io_cmd_image; [done|done..|lia|lia].
Qed.

Lemma chunk_address i : (phys data + 8192 * i) `mod` 4096 = 0.
Proof.
  destruct Hdata as (_ & Hal & _). replace (8192 * i) with (2 * i * 4096) by lia. by rewrite Z.mod_add.
Qed.

Lemma run_write i :
  0 ≤ i ≤ n_chunks data 8192 →
  let st := run_trace (zrange 0 i ≫= transfer_events d k true data lba) (disk, m) in
  st.2 = m ∧ ∀ x, st.1 x = patched disk (lba * 512) (sent data i) (λ j, m (phys data + j)) x.
Proof.
  intros Hi. remember (Z.to_nat i) as c eqn:Hc. revert i Hi Hc. induction c as [|c IH]; intros i Hi Hc.
  { assert (i = 0) as -> by lia. rewrite zrange_nil by lia. split; [done|]. intros x.
    symmetry. apply patched_empty. unfold sent. lia. }
  replace i with (i - 1 + 1) by lia. rewrite zrange_bind_snoc, run_trace_app by lia.
  destruct (IH (i - 1)) as [Hm Hdisk]; [lia..|].
  destruct (chunk_sent data (i - 1) Hdata) as (Hb & Hs & Hs' & _); [lia|].
  rewrite run_chunk by lia. set (st := run_trace _ (disk, m)) in *. destruct st as [disk' m'].
  cbn [fst snd] in Hm, Hdisk. subst m'.
  destruct (execute_chunk d (k + (i - 1)) true (chunk_blocks (nth_chunk data 8192 (i - 1)))
    (lba + 16 * (i - 1)) (phys data + 8192 * (i - 1)) disk' m Hb (chunk_address _) ltac:(lia)) as [H1 H2].
  split; [exact H2|]. intros x. rewrite H1, Hs'.
  rewrite <-patched_snoc by lia. rewrite <-Hs. replace ((lba + 16 * (i - 1)) * 512) with (lba * 512 + sent data (i - 1)) by lia.
  apply patched_ext; [apply Hdisk|]. intros j. f_equal. lia.
Qed.

Lemma run_read i :
  0 ≤ i ≤ n_chunks data 8192 →
  let st := run_trace (zrange 0 i ≫= transfer_events d k false data lba) (disk, m) in
  st.1 = disk ∧ ∀ y, st.2 y = patched m (phys data) (sent data i) (λ j, disk (lba * 512 + j)) y.
Proof.
  intros Hi. remember (Z.to_nat i) as c eqn:Hc. revert i Hi Hc. induction c as [|c IH]; intros i Hi Hc.
  { assert (i = 0) as -> by lia. rewrite zrange_nil by lia. split; [done|]. intros y.
    symmetry. apply patched_empty. unfold sent. lia. }
  replace i with (i - 1 + 1) by lia. rewrite zrange_bind_snoc, run_trace_app by lia.
  destruct (IH (i - 1)) as [Hdisk Hm]; [lia..|].
  destruct (chunk_sent data (i - 1) Hdata) as (Hb & Hs & Hs' & _); [lia|].
  rewrite run_chunk by lia. set (st := run_trace _ (disk, m)) in *. destruct st as [disk' m'].
  cbn [fst snd] in Hm, Hdisk. subst disk'.
  destruct (execute_chunk d (k + (i - 1)) false (chunk_blocks (nth_chunk data 8192 (i - 1)))
    (lba + 16 * (i - 1)) (phys data + 8192 * (i - 1)) disk m' Hb (chunk_address _) ltac:(lia)) as [H1 H2].
  split; [exact H1|]. intros y. rewrite H2, Hs'.
  rewrite <-patched_snoc by lia. rewrite <-Hs.
  apply patched_ext; [apply Hm|]. intros j. f_equal. lia.
Qed.

Lemma sent_all : sent data (n_chunks data 8192) = size data.
Proof.
  destruct Hdata as ((_ & _ & ? & _) & _). pose proof (n_chunks_bounds data 8192 ltac:(lia)).
  unfold sent. lia.
Qed.

End region.

(** C1: what is written is what is read.  Against any controller that serves the
    I/O queue with success, [write] of a region followed by [read] into a region
    of the same size (both aligned to pages and a whole number of blocks) return,
    and if the controller executes the commands in the ring as NVMe says, then
    the write puts exactly the bytes of the region on the disk, from block [lba]
    on, leaving the rest of the disk and the memory alone; and the read, from
    whatever memory has become by then, puts exactly those bytes into the second
    region, leaving the disk and the rest of the memory alone. *)
Theorem disk_roundtrip `{BLD : Build} `{FUEL : Fuel} {A E} `{HW : Hardware E}
    (d : NvmeDevice A) (posted : Z → NvmeCompletion) (N : nat)
    (serves : Z → Z → Z → World E → Prop) (k h : Z) (s : NvmeStats)
    (data dest : Dma) (lba : Z) (w : World E) :
  IoService d posted N serves → serves k k k w → addrs_ok d →
  block_region data → block_region dest → size dest = size data →
  let n := n_chunks data 8192 in
  0 ≤ lba → lba + 16 * n < 2 ^ 64 → stats_room s (2 * n) →
  (∀ j, k ≤ j < k + 2 * n → sc_field (posted j) = 0) →
  ∃ d1 w1 t1 d2 w2 t2,
    Io.write data lba (io_pos d k h s, w) = (Ret tt, (d1, w1)) ∧ trace w1 = trace w ++ t1 ∧
    Io.read dest lba (d1, w1) = (Ret tt, (d2, w2)) ∧ trace w2 = trace w1 ++ t2 ∧
    ∀ disk m m',
      let st1 := run_trace t1 (disk, m) in
      let st2 := run_trace t2 (st1.1, m') in
      (∀ x, st1.1 x = patched disk (lba * 512) (size data) (λ j, m (phys data + j)) x) ∧ st1.2 = m ∧
      (∀ y, st2.2 y = patched m' (phys dest) (size data) (λ j, m (phys data + j)) y) ∧
      st2.1 = st1.1.
Proof.
  intros HIS Hw Ha Hdata Hdest Hsize n Hl0 Hl (? & ? & ? & ?) Hok.
  assert (n_chunks dest 8192 = n) as Hn by (unfold n, n_chunks; by rewrite Hsize).
  pose proof Hdata as (Hd & _ & _ & Hend). pose proof Hdest as (Hd' & _ & _ & Hend').
  assert (0 ≤ n) as Hn0 by (apply n_chunks_nonneg; [lia|apply Hd]).
  destruct io_rings as (Hq & _).
  destruct (transfer_run d posted N serves k h s data lba true w Hw Ha Hd Hend Hl0 Hl)
    as (w1 & Hrun1 & Hw1 & Ht1); [unfold stats_room; fold n; lia|intros j Hj; fold n in Hj; apply Hok; lia|].
  fold n in Hrun1, Hw1, Ht1.
  destruct (transfer_run d posted N serves (k + n) (io_head posted k h n) (stats_add s n) dest lba false
    w1 Hw1 Ha Hd' Hend' Hl0) as (w2 & Hrun2 & _ & Ht2);
    [rewrite Hn; lia|rewrite Hn; unfold stats_room, stats_add; simpl; lia|intros j Hj; rewrite Hn in Hj; apply Hok; lia|].
  rewrite Hn in Hrun2, Ht2. eexists _, w1, _, _, w2, _.
  split; [exact Hrun1|]. split; [exact Ht1|]. split; [exact Hrun2|]. split; [exact Ht2|].
  intros disk m m' st1 st2.
  destruct (run_write d Ha Hq data Hdata k lba disk m Hl0 Hl n) as [Hm Hdisk]; [unfold n; lia|].
  destruct (run_read d Ha Hq dest Hdest (k + n) lba st1.1 m' Hl0 ltac:(rewrite Hn; lia) n)
    as [Hdisk2 Hm2]; [rewrite Hn; lia|].
  fold st1 in Hm, Hdisk. fold st2 in Hdisk2, Hm2.
  pose proof (sent_all data Hdata) as Hsa. fold n in Hsa. rewrite Hsa in Hdisk.
  pose proof (sent_all dest Hdest) as Hsb. rewrite Hn, Hsize in Hsb. rewrite Hsb in Hm2.
  split; [exact Hdisk|]. split; [exact Hm|]. split; [|exact Hdisk2].
  intros y. rewrite Hm2. unfold patched.
  destruct (Z.leb_spec (phys dest) y), (Z.ltb_spec y (phys dest + size data)); cbn [andb]; try done.
  rewrite Hdisk. unfold patched. rewrite (proj2 (Z.leb_le _ _)), (proj2 (Z.ltb_lt _ _)) by lia.
  cbn [andb]. f_equal. lia.
Qed.

Lemma disk_roundtrip_witness :
  ∃ d1 w1 d2 w2,
    Io.write (BLD:=true) (FUEL:=10%nat) (HW:=demo_io_hw) (mkDma 0x4000000 0x4000000 12288) 100
      (io_pos (demo_device 0) 0 0 (mkNvmeStats 0 0), serving_world) = (Ret tt, (d1, w1)) ∧
    Io.read (BLD:=true) (FUEL:=10%nat) (HW:=demo_io_hw) (mkDma 0x5000000 0x5000000 12288) 100
      (d1, w1) = (Ret tt, (d2, w2)).
Proof.
  destruct (disk_roundtrip (BLD:=true) (FUEL:=10%nat) (HW:=demo_io_hw) (demo_device 0)
    (success 4) 1 demo_io_serves 0 0 (mkNvmeStats 0 0) (mkDma 0x4000000 0x4000000 12288)
    (mkDma 0x5000000 0x5000000 12288) 100 serving_world demo_io_service demo_io_init demo_addrs_ok)
    as (d1 & w1 & t1 & d2 & w2 & t2 & Hrun1 & _ & Hrun2 & _);
    [unfold block_region, dma_ok; simpl; repeat split; lia|unfold block_region, dma_ok; simpl; repeat split; lia|
     done|lia|vm_compute; congruence|apply demo_stats_room; vm_compute; congruence| |].
  { intros j Hj. unfold sc_field, success. simpl. by destruct (phase_at 4 j). }
  exists d1, w1, d2, w2. by split.
Defined.
