(* ===== verification/Programs.v ===== *)
(** The command lines of the programs under [examples/], the program of
    [examples/latency.rs] and the file it writes.  An exit of the process is a
    result; the usage messages and the printing are left out. *)

From stdpp Require Import gmap.
From Stdlib Require Import Ascii.
From S2P Require Import Prelude Bytes Machine Memory Cmd Mapping Queues Os Ioctl Format Pci Vfio Physical MemoryAccess QueuePair Device Io Lib Examples Bench.
#[local] Open Scope Z_scope.

(** ** The programs *)

Section programs.
Context {E S R : Type} `{BLD : Build} `{FUEL : Fuel} `{HW : Hardware E} `{OS : Os E} `{LC : Libc}.

(** A program of the PCI address: the code of the exit without one. *)
Definition with_pci_addr {B} (args : list string) (main : string → M E S B) : M E S (Z + B) :=
  match tail args with
  | [] => mret (inl 1)
  | pci_addr :: _ => b ← main pci_addr; mret (inr b)
  end.

Definition fill_namespace_program (args : list string) : M E S (Z + unit) :=
  with_pci_addr args fill_namespace_main.

Definition simple_io_program (args : list string) : M E S (Z + list Z) :=
  with_pci_addr args simple_io_main.

Definition hello_world_program (args : list string) : M E S (Z + list Z) :=
  with_pci_addr args hello_world_main.

(** [Duration::from_secs(secs.parse().expect(..))] in nanoseconds, when the
    argument is there, and the arguments after it. *)
Definition duration_arg (args : list string) : M E S (option Z * list string) :=
  match args with
  | [] => mret (None, [])
  | secs :: args =>
    match uint_from_str (2 ^ 64) secs with
    | Some n => mret (Some (n * 10 ^ 9), args)
    | None => panic (ExpectErr
        "Usage: cargo run --example init <pci bus id> <duration in seconds>")
    end
  end.

(** The address, the duration and the page size of the throughput benchmark. *)
Definition throughput_args (args : list string) : M E S (Z + string * Z * Pagesize.Pagesize) :=
  match tail args with
  | [] => mret (inl 1)
  | pci_addr :: args =>
    '(duration, args) ← duration_arg args;
    match args with
    | [] => mret (inl 1)
    | arg :: _ =>
      let page_size := Pagesize.from_str arg in
      duration ← unwrap duration;
      mret (inr (pci_addr, duration, page_size))
    end
  end.

Definition latency_args (args : list string) : M E S (Z + string * Z * Pagesize.Pagesize) :=
  match tail args with
  | [] => mret (inl 1)
  | pci_addr :: args =>
    '(duration, args) ← duration_arg args;
    let page_size := match args with arg :: _ => Pagesize.from_str arg | [] => Pagesize.Page2M end in
    duration ← unwrap duration;
    mret (inr (pci_addr, duration, page_size))
  end.

Definition latency_file (write : bool) : string :=
  "vroom_qd1_" +:+ (if write then "write" else "read") +:+ "_latencies.txt".

(** [writeln!] on a file writes the pieces of the line one after the other. *)
Definition write_nanos_to_file (latencies : list Z) (write : bool) : M E S unit :=
  file ← file_create (latency_file write);
  for_each latencies (λ lat,
    _ ← file_write_all file (as_bytes (dec lat));
    _ ← file_write_all file (as_bytes newline);
    mret tt).

Context `{CK : Clock E} `{RN : Rng R}.

Definition latency_program (args : list string) (rng : R) : M E S (Z + unit) :=
  a ← latency_args args;
  match a with
  | inl code => mret (inl code)
  | inr (pci_addr, duration, page_size) =>
    nvme ← init_with_page_size pci_addr page_size;
    r ← with_local nvme (Latency.qd_1_singlethread_latency false true duration rng);
    _ ← write_nanos_to_file r.1 false;
    mret (inr tt)
  end.

End programs.

(** ** The command line of the latency benchmark *)

(** It exits without an address, and panics without a duration: the usage message
    of that argument is only for one that is not a number. *)
Lemma latency_arguments {E S R} `{BLD : Build} `{FUEL : Fuel} `{HW : Hardware E} `{OS : Os E} `{LC : Libc}
    `{CK : Clock E} `{RN : Rng R} name pci_addr secs rest (rng : R) (st : S * World E) :
  latency_program [name] rng st = (Ret (inl 1), st) ∧
  latency_program [name; pci_addr] rng st = (Panicked UnwrapNone, st) ∧
  (uint_from_str (2 ^ 64) secs = None →
     ∃ usage, latency_program (name :: pci_addr :: secs :: rest) rng st = (Panicked (ExpectErr usage), st)).
Proof.
  split; [done|]. split; [done|]. intros Hs. eexists.
  unfold latency_program, latency_args, duration_arg, mbind, M_bind. cbn [tail fst snd].
  by rewrite Hs.
Qed.

(** ** The file of latencies *)

Fixpoint nanos_text (latencies : list Z) : string :=
  match latencies with
  | [] => EmptyString
  | l :: ls => dec l +:+ newline +:+ nanos_text ls
  end.

(** The lines of a text, of which [cur] has been read already. *)
Fixpoint lines (cur s : string) : list string :=
  match s with
  | EmptyString => if bool_decide (cur = EmptyString) then [] else [cur]
  | String c s =>
    if bool_decide (c = ascii_of_nat 10) then cur :: lines EmptyString s
    else lines (cur +:+ String c EmptyString) s
  end.

Lemma string_app_assoc (a b c : string) : (a +:+ b) +:+ c = a +:+ b +:+ c.
Proof. induction a as [|x a IH]; [done|]. exact (f_equal (String x) IH). Qed.

Lemma string_app_nil (a : string) : a +:+ EmptyString = a.
Proof. induction a as [|x a IH]; [done|]. exact (f_equal (String x) IH). Qed.

Lemma lines_numeral cur d s :
  all_dec d → lines cur (d +:+ newline +:+ s) = (cur +:+ d) :: lines EmptyString s.
Proof.
  revert cur. induction d as [|c d IH]; intros cur Hd.
  - change (cur :: lines EmptyString s = (cur +:+ EmptyString) :: lines EmptyString s).
    by rewrite string_app_nil.
  - change (String c d +:+ newline +:+ s) with (String c (d +:+ newline +:+ s)). cbn [lines].
    destruct Hd as [[v Hv] Hd]. rewrite bool_decide_eq_false_2.
    + rewrite IH, string_app_assoc by done. done.
    + intros ->. by vm_compute in Hv.
Qed.

Lemma nanos_text_lines ls : Forall (λ l, 0 ≤ l) ls → lines EmptyString (nanos_text ls) = dec <$> ls.
Proof.
  induction 1 as [|l ls Hl _ IH]; [done|]. cbn [nanos_text].
  rewrite lines_numeral by by apply all_dec_dec. by rewrite IH.
Qed.

(** What the successful calls of [t] write to [fd]. *)
Definition written_to (fd : Z) (t : list Event) : list Z :=
  t ≫= λ ev, match ev with
             | EvOs (OsWrite fd' bs) (inr _) => if fd' =? fd then bs else []
             | _ => []
             end.

(** Every access of [t] is a call that writes to [fd]. *)
Definition only_writes (fd : Z) (t : list Event) : Prop :=
  Forall (λ ev, ∃ bs v, ev = EvOs (OsWrite fd bs) v) t.

Lemma as_bytes_app a b : as_bytes (a +:+ b) = as_bytes a ++ as_bytes b.
Proof.
  unfold as_bytes. rewrite <-fmap_app. f_equal.
  induction a as [|c a IH]; [done|]. exact (f_equal (cons c) IH).
Qed.

Lemma written_to_one fd bs v : written_to fd [EvOs (OsWrite fd bs) (inr v)] = bs.
Proof. unfold written_to. cbn. by rewrite Z.eqb_refl, app_nil_r. Qed.

Section file.
Context {E S : Type} `{HW : Hardware E} `{OS : Os E}.

(** What the loop has done when it ends in [r], for the text [bytes]. *)
Definition file_outcome (fd : Z) (bytes : list Z) (r : Res unit) (t : list Event) : Prop :=
  only_writes fd t ∧
  match r with
  | Ret _ => written_to fd t = bytes
  | Err (Io e) => written_to fd t `prefix_of` bytes ∧ ∃ bs, last t = Some (EvOs (OsWrite fd bs) (inl e))
  | _ => False
  end.

Lemma file_outcome_cons fd bs v bytes r t :
  file_outcome fd bytes r t → file_outcome fd (bs ++ bytes) r (EvOs (OsWrite fd bs) (inr v) :: t).
Proof.
  intros [Ho Hr]. split; [constructor; [by do 2 eexists|done]|].
  change (EvOs (OsWrite fd bs) (inr v) :: t) with ([EvOs (OsWrite fd bs) (inr v)] ++ t).
  unfold written_to in *. rewrite bind_app. fold (written_to fd [EvOs (OsWrite fd bs) (inr v)]).
  rewrite written_to_one. destruct r as [|[]| |]; try done; [by rewrite Hr|].
  destruct Hr as [Hp [bs' Hl]]. split; [by apply prefix_app|]. exists bs'. by rewrite last_app, Hl.
Qed.

Lemma file_outcome_error fd bs e bytes :
  file_outcome fd bytes (Err (Io e)) [EvOs (OsWrite fd bs) (inl e)].
Proof.
  split; [constructor; [by do 2 eexists|done]|]. split; [apply prefix_nil|by exists bs].
Qed.

Lemma wp_file_write fd bs (s : S) w (Q : Res Z → S → World E → Prop) :
  (∀ v w', trace w' = trace w ++ [EvOs (OsWrite fd bs) (inr v)] → Q (Ret v) s w') →
  (∀ e w', trace w' = trace w ++ [EvOs (OsWrite fd bs) (inl e)] → Q (Err (Io e)) s w') →
  wp (file_write_all fd bs) Q s w.
Proof. intros. apply wp_sys_try; auto. Qed.

(** A loop that goes on from [w'], where the accesses of [t] have been made. *)
Definition file_post (fd : Z) (bytes : list Z) (s : S) (w : World E) (r : Res unit) (s' : S)
    (w' : World E) : Prop :=
  s' = s ∧ ∃ t, trace w' = trace w ++ t ∧ file_outcome fd bytes r t.

Lemma file_post_cons fd bs v bytes s w w1 r s' w' :
  trace w1 = trace w ++ [EvOs (OsWrite fd bs) (inr v)] →
  file_post fd bytes s w1 r s' w' → file_post fd (bs ++ bytes) s w r s' w'.
Proof.
  intros Ht (-> & t & Ht' & Ho). split; [done|]. eexists. rewrite Ht', Ht, <-app_assoc.
  split; [done|]. by apply file_outcome_cons.
Qed.

Lemma file_post_error fd bs e bytes s w w' :
  trace w' = trace w ++ [EvOs (OsWrite fd bs) (inl e)] →
  file_post fd bytes s w (Err (Io e)) s w'.
Proof. intros Ht. split; [done|]. eexists. split; [done|]. apply file_outcome_error. Qed.

Lemma wp_write_lines fd ls (s : S) w :
  wp (for_each ls (λ lat,
        _ ← file_write_all fd (as_bytes (dec lat));
        _ ← file_write_all fd (as_bytes newline);
        mret tt)) (file_post fd (as_bytes (nanos_text ls)) s w) s w.
Proof.
  revert w. induction ls as [|l ls IH]; intros w; cbn [for_each nanos_text].
  { wp_step. split; [done|]. exists []. rewrite app_nil_r. split; [done|]. by split; [constructor|]. }
  rewrite !as_bytes_app. do 2 wp_step. apply wp_file_write; intros v w1 Ht1; cbn [then_];
    [|by eapply file_post_error].
  wp_step. apply wp_file_write; intros v2 w2 Ht2; cbn [then_].
  - wp_step. eapply wp_mono; [apply IH|]. intros r s' w' Hp.
    eapply file_post_cons; [done|]. by eapply file_post_cons.
  - eapply file_post_cons; [done|]. by eapply file_post_error.
Qed.

End file.

(** The file of latencies.  [write_nanos_to_file] creates the file of the kind
    of access and writes one decimal line for every latency, in order, to that
    file only; on the first call that fails it stops with its error, having
    written a part of the text from the beginning.  The lines of the text are read
    back as the latencies. *)
Lemma latency_file_roundtrip {E S} `{HW : Hardware E} `{OS : Os E} (ls : list Z) (write : bool)
    (s : S) (w : World E) :
  Forall (λ l, 0 ≤ l < 2 ^ 128) ls →
  let text := nanos_text ls in
  uint_from_str (2 ^ 128) <$> lines EmptyString text = Some <$> ls ∧
  ∃ r w' t, write_nanos_to_file ls write (s, w) = (r, (s, w')) ∧ trace w' = trace w ++ t ∧
    ((∃ e, r = Err (Io e) ∧ t = [EvOs (OsCreate (latency_file write)) (inl e)]) ∨
     ∃ fd t', t = EvOs (OsCreate (latency_file write)) (inr fd) :: t' ∧
       file_outcome fd (as_bytes text) r t').
Proof.
  intros Hls text. split.
  { unfold text. rewrite nanos_text_lines by (eapply Forall_impl; [done|]; simpl; lia).
    rewrite <-list_fmap_compose. apply list_fmap_ext. intros i l Hl. simpl.
    apply uint_from_str_dec. by apply (Forall_lookup_1 _ _ _ _ Hls Hl). }
  assert (wp (write_nanos_to_file ls write) (λ r s' w', s' = s ∧ ∃ t, trace w' = trace w ++ t ∧
    ((∃ e, r = Err (Io e) ∧ t = [EvOs (OsCreate (latency_file write)) (inl e)]) ∨
     ∃ fd t', t = EvOs (OsCreate (latency_file write)) (inr fd) :: t' ∧
       file_outcome fd (as_bytes text) r t')) s w) as Hwp.
  2:{ apply wp_run in Hwp as (r & s' & w' & Hrun & -> & t & Ht & Ho). by exists r, w', t. }
  unfold write_nanos_to_file, file_create. wp_step.
  apply wp_sys_try; intros fd w1 _ Ht1; cbn [then_].
  - eapply wp_mono; [apply wp_write_lines|]. intros r s' w' (-> & t' & Ht' & Ho).
    split; [done|]. eexists. rewrite Ht', Ht1, <-app_assoc. split; [done|]. right. by exists fd, t'.
  - split; [done|]. eexists. split; [done|]. left. by exists fd.
Qed.

Lemma latency_file_demo :
  uint_from_str (2 ^ 128) <$> lines EmptyString (nanos_text [1024; 7]) = [Some 1024; Some 7] ∧
  ∃ w', write_nanos_to_file (HW:=quiet_hw) (OS:=demo_os []) [1024; 7] false (tt, initial 0 (λ _, 0)) =
    (Ret tt, (tt, w')).
Proof.
  destruct (latency_file_roundtrip (HW:=quiet_hw) (OS:=demo_os []) [1024; 7] false tt (initial 0 (λ _, 0)))
    as [Hl _]; [repeat constructor; lia|].
  split; [exact Hl|]. eexists. reflexivity.
Defined.
