(* ===== verification/Workers.v ===== *)
(** The threads of the benchmarks ([examples/throughput.rs],
    [examples/latency.rs]): spawned, run in any order and joined.

    A thread is a state machine whose steps are its statements under the lock
    around the device, and the iterations of its loop on the queue pair it owns.
    A schedule lists whose turn it is; what is left out of it at the end makes the
    caller wait for ever. *)

From stdpp Require Import gmap.
From S2P Require Import Prelude Bytes Machine Memory Cmd Mapping Queues Format Os Ioctl Pci Vfio Physical MemoryAccess QueuePair Device Io Lib Examples Bench Programs.
#[local] Open Scope Z_scope.

(** ** Threads, the lock and the schedule *)

(** A [Mutex]: a panic of the thread that holds it poisons it; a thread that
    never returns holds it for ever. *)
Inductive Lock := Free | Poisoned | Held.

(** The closure of a thread: allocate its buffer, create its pair, fill the
    buffer, an iteration of its loop or what follows it, delete the pair.  The
    latencies measured so far, which the threads share. *)
Record Job {A E St V : Type} := mkJob {
  job_buffer : M E (NvmeDevice A) Dma;
  job_pair : M E (NvmeDevice A) NvmeQueuePair;
  job_start : Dma → M E NvmeQueuePair St;
  job_step : Dma → St → M E NvmeQueuePair (Flow St V);
  job_end : NvmeQueuePair → M E (NvmeDevice A) unit;
  job_latencies : Flow St V → list Z;
}.
Arguments Job : clear implicits.
Arguments mkJob {_ _ _ _} _ _ _ _ _ _.

Inductive Worker {St V : Type} :=
| Started
| Buffered (buffer : Dma)
| Created (buffer : Dma) (qpair : NvmeQueuePair)
| Looping (buffer : Dma) (qpair : NvmeQueuePair) (st : St)
| Ended (qpair : NvmeQueuePair) (v : V)
| Finished (v : V)
| Dead
| Stuck.
Arguments Worker : clear implicits.

(** What the threads share. *)
Record Shared {A : Type} := mkShared {
  sh_device : NvmeDevice A;
  sh_lock : Lock;
  sh_latencies : list Z;
}.
Arguments Shared : clear implicits.
Arguments mkShared {_} _ _ _.

Section engine.
Context {A E St V : Type}.
Implicit Types (job : Job A E St V) (wk : Worker St V) (sh : Shared A) (w : World E).

(** [nvme.lock().unwrap()] and what is done with the device: a failure is
    unwrapped while the lock is held. *)
Definition locked {B} (m : M E (NvmeDevice A) B) (next : B → Worker St V) sh w :
    Worker St V * (Shared A * World E) :=
  match sh_lock sh with
  | Poisoned => (Dead, (sh, w))
  | Held => (Stuck, (sh, w))
  | Free =>
    let '(r, (d, w)) := m (sh_device sh, w) in
    match r with
    | Ret b => (next b, (mkShared d Free (sh_latencies sh), w))
    | Err _ | Panicked _ => (Dead, (mkShared d Poisoned (sh_latencies sh), w))
    | Diverged => (Stuck, (mkShared d Held (sh_latencies sh), w))
    end
  end.

(** What a thread does with its pair, without the lock. *)
Definition unlocked {B} (m : M E NvmeQueuePair B) (qpair : NvmeQueuePair)
    (next : B → NvmeQueuePair → Worker St V) sh w : Worker St V * (Shared A * World E) :=
  let '(r, (qpair, w)) := m (qpair, w) in
  match r with
  | Ret b => (next b qpair, (sh, w))
  | Err _ | Panicked _ => (Dead, (sh, w))
  | Diverged => (Stuck, (sh, w))
  end.

(** [latencies.lock().unwrap().push(..)] for what has been measured since [old]. *)
Definition push_latencies (old new : list Z) sh : Shared A :=
  mkShared (sh_device sh) (sh_lock sh) (sh_latencies sh ++ drop (length old) new).

(** The next step of a thread. *)
Definition advance job wk sh w : Worker St V * (Shared A * World E) :=
  match wk with
  | Started => locked (job_buffer job) Buffered sh w
  | Buffered buffer => locked (job_pair job) (Created buffer) sh w
  | Created buffer qpair => unlocked (job_start job buffer) qpair (λ st qpair, Looping buffer qpair st) sh w
  | Looping buffer qpair st =>
    let '(r, (qpair, w)) := job_step job buffer st (qpair, w) in
    match r with
    | Ret f =>
      (match f with Continue st => Looping buffer qpair st | Break v => Ended qpair v end,
       (push_latencies (job_latencies job (Continue st)) (job_latencies job f) sh, w))
    | Err _ | Panicked _ => (Dead, (sh, w))
    | Diverged => (Stuck, (sh, w))
    end
  | Ended qpair v => locked (job_end job qpair) (λ _, Finished v) sh w
  | Finished _ | Dead | Stuck => (wk, (sh, w))
  end.

Record Pool := mkPool {
  pool_shared : Shared A;
  pool_workers : list (Worker St V);
  pool_world : World E;
}.

(** The turn of thread [i]. *)
Definition turn (jobs : list (Job A E St V)) (p : Pool) (i : nat) : Pool :=
  match jobs !! i, pool_workers p !! i with
  | Some job, Some wk =>
    let '(wk, (sh, w)) := advance job wk (pool_shared p) (pool_world p) in
    mkPool sh (<[i := wk]> (pool_workers p)) w
  | _, _ => p
  end.

Definition turns (jobs : list (Job A E St V)) (p : Pool) (sched : list nat) : Pool :=
  foldl (turn jobs) p sched.

(** [thread::spawn] for every job. *)
Definition spawn (jobs : list (Job A E St V)) (d : NvmeDevice A) (w : World E) : Pool :=
  mkPool (mkShared d Free []) ((λ _, Started) <$> jobs) w.

(** [join] and [expect] on one thread after the other: the results, the panic of
    the first that has panicked, or waiting for the first that has not ended. *)
Fixpoint join (ws : list (Worker St V)) : Res (list V) :=
  match ws with
  | [] => Ret []
  | Finished v :: ws =>
    match join ws with
    | Ret vs => Ret (v :: vs)
    | r => r
    end
  | Dead :: _ => Panicked (ExpectErr "The thread creation or execution failed!")
  | _ :: _ => Diverged
  end.

(** From the first [spawn] to the device taken out of the lock again: the results
    and the shared latencies. *)
Definition work (jobs : list (Job A E St V)) (sched : list nat) : M E (NvmeDevice A) (list V * list Z) :=
  λ st,
    let p := turns jobs (spawn jobs st.1 st.2) sched in
    let sh := pool_shared p in
    let r := match join (pool_workers p) with
             | Ret vs =>
               match sh_lock sh with
               | Free => Ret (vs, sh_latencies sh)
               | _ => Err (Vroom "poisoned lock: another task failed inside")
               end
             | Err e => Err e
             | Panicked k => Panicked k
             | Diverged => Diverged
             end in
    (r, (sh_device sh, pool_world p)).

End engine.
Arguments Pool : clear implicits.

(** ** throughput.rs *)

Module Throughput.
Section program.
Context {A E R : Type} `{BLD : Build} `{FUEL : Fuel} `{HW : Hardware E} `{CK : Clock E} `{RN : Rng R}.
Context `{MAP : Mapping A E}.

(** The closure of a thread with its generator. *)
Definition job (queue_depth ns_blocks duration : Z) (random write : bool) (rng : R) :
    Job A E (Z * Z * Z * R) Z := {|
  job_buffer :=
    self ← get;
    n ← ck64 (PAGESIZE_4KIB * queue_depth);
    allocate self n;
  job_pair := NvmeDevice.create_io_queue_pair QUEUE_LENGTH;
  job_start buffer :=
    buffer_size ← ck64 (queue_depth * Bench.Throughput.bytes_per_io);
    let '(block, rng) := random_bytes (Z.to_nat buffer_size) rng in
    _ ← fill_buffer buffer block;
    mret (0, 0, 0, rng);
  job_step buffer st :=
    let '(total, outstanding, ops, _) := st in
    if total <? duration then
      st ← Bench.Throughput.bench_step queue_depth ns_blocks buffer random write st;
      mret (Continue st)
    else
      ops ← Bench.Throughput.finish total outstanding ops;
      mret (Break ops);
  job_end qpair := NvmeDevice.delete_io_queue_pair qpair;
  job_latencies _ := [];
|}.

(** The schedule and the generators of the threads are given; there is one thread
    for each generator. *)
Definition qd_n_multithread (sched : list nat) (queue_depth duration : Z) (random write : bool)
    (rngs : list R) : M E (NvmeDevice A) Z :=
  self ← get;
  ns ← unwrap (namespaces self !! 1);
  let ns_blocks := blocks ns / Bench.Throughput.blocks_per_io in
  r ← work (job queue_depth ns_blocks duration random write <$> rngs) sched;
  for_fold r.1 (λ total ops, ck64 (total + ops)) 0.

(** The printing is left out; the single thread has the first generator. *)
Definition test_throughput_random (sched : list nat) (queue_depth duration : Z) (random write : bool)
    (rng : R) (rngs : list R) : M E (NvmeDevice A) Z :=
  let thread_count := Z.of_nat (length rngs) in
  if (queue_depth =? 1) && (thread_count =? 1)
  then Bench.Throughput.qd_1_singlethread write random duration rng
  else qd_n_multithread sched queue_depth duration random write rngs.

End program.
End Throughput.

(** ** latency.rs *)

Module Latency.
Section program.
Context {A E R : Type} `{BLD : Build} `{FUEL : Fuel} `{HW : Hardware E} `{CK : Clock E} `{RN : Rng R}.
Context `{MAP : Mapping A E}.

Definition job (queue_depth ns_blocks duration : Z) (write : bool) (rng : R) :
    Job A E (Z * Z * Z * list Z * R) (Z * list Z) := {|
  job_buffer := self ← get; allocate self PAGESIZE_4KIB;
  job_pair := NvmeDevice.create_io_queue_pair QUEUE_LENGTH;
  job_start buffer :=
    buffer_size ← ck64 (queue_depth * Bench.Throughput.bytes_per_io);
    let '(block, rng) := random_bytes (Z.to_nat buffer_size) rng in
    _ ← fill_buffer buffer block;
    mret (0, 0, 0, [], rng);
  job_step buffer st :=
    let '(total, outstanding, ops, latencies, _) := st in
    if total <? duration then
      st ← Bench.Latency.bench_step queue_depth ns_blocks buffer write st;
      mret (Continue st)
    else
      r ← Bench.Latency.finish total outstanding ops latencies;
      mret (Break r);
  job_end qpair := NvmeDevice.delete_io_queue_pair qpair;
  job_latencies f := match f with Continue st => st.1.2 | Break r => r.2 end;
|}.

Definition qd_n_multithread (sched : list nat) (queue_depth duration : Z) (write : bool)
    (rngs : list R) : M E (NvmeDevice A) (list Z) :=
  self ← get;
  ns ← unwrap (namespaces self !! 1);
  let ns_blocks := blocks ns / Bench.Throughput.blocks_per_io in
  r ← work (job queue_depth ns_blocks duration write <$> rngs) sched;
  _ ← for_fold r.1 (λ total res, ck64 (total + res.1)) 0;
  mret r.2.

(** The measuring loop, with the time it started at, or the collecting loop. *)
Definition nanos_job (queue_depth ns_blocks duration : Z) (random write : bool) (rng : R) :
    Job A E (Z * (Z * list Z * R) + Z * list Z) (list Z) := {|
  job_buffer := self ← get; allocate self PAGESIZE_2MIB;
  job_pair := NvmeDevice.create_io_queue_pair queue_depth;
  job_start buffer :=
    buffer_size ← ck64 (queue_depth * Bench.Throughput.bytes_per_io);
    let '(block, rng) := random_bytes (Z.to_nat buffer_size) rng in
    n ← ck64 (queue_depth * Bench.Throughput.bytes_per_io);
    s ← Dma.index_range buffer 0 n;
    _ ← store (ptr s) block;
    start ← now;
    mret (inl (start, (0, [], rng)));
  job_step buffer st :=
    match st with
    | inl (start, st) =>
      e ← elapsed start;
      if e <? duration then
        st ← Bench.Latency.nanos_step queue_depth ns_blocks buffer random write st;
        mret (Continue (inl (start, st)))
      else mret (Continue (inr st.1))
    | inr st =>
      f ← Bench.Latency.collect_step st;
      mret (match f with Continue st => Continue (inr st) | Break l => Break l end)
    end;
  job_end qpair := NvmeDevice.delete_io_queue_pair qpair;
  job_latencies f :=
    match f with
    | Continue (inl (_, st)) => st.1.2
    | Continue (inr st) => st.2
    | Break l => l
    end;
|}.

Definition qd_n_multithread_latency_nanos (sched : list nat) (queue_depth duration : Z)
    (random write : bool) (rngs : list R) : M E (NvmeDevice A) (list Z) :=
  self ← get;
  ns ← unwrap (namespaces self !! 1);
  let ns_blocks := blocks ns / Bench.Throughput.blocks_per_io in
  r ← work (nanos_job queue_depth ns_blocks duration random write <$> rngs) sched;
  mret r.2.

End program.
End Latency.

(** The program of [throughput.rs]: 32 operations in flight on each of four
    threads. *)
Definition throughput_program {E S R} `{BLD : Build} `{FUEL : Fuel} `{HW : Hardware E} `{OS : Os E}
    `{LC : Libc} `{CK : Clock E} `{RN : Rng R} (args : list string) (sched : list nat)
    (rng : R) (rngs : R * R * R * R) : M E S (Z + Z) :=
  a ← throughput_args args;
  match a with
  | inl code => mret (inl code)
  | inr (pci_addr, duration, page_size) =>
    nvme ← init_with_page_size pci_addr page_size;
    let '(r1, r2, r3, r4) := rngs in
    r ← with_local nvme (
          total ← Throughput.test_throughput_random sched 32 duration true true rng [r1; r2; r3; r4];
          _ ← NvmeDevice.format_namespace (Some 1);
          mret total);
    mret (inr r.1)
  end.
