(* ===== verification/Schedule.v ===== *)
(** The threads of the benchmarks under every schedule: the theorems on
    [Workers]. *)

From stdpp Require Import gmap.
From S2P Require Import Prelude Bytes Machine Memory Cmd Mapping Queues Service Os QueuePair Device Setup Io Protocol Frame Examples Bench Measure Workers.
#[local] Open Scope Z_scope.

(** ** Laws of the monad, pointwise *)

Section laws.
Context {E S : Type}.

Lemma bind_ext {B C} (m m' : M E S B) (f f' : B → M E S C) st :
  m st = m' st → (∀ b st, f b st = f' b st) → (m ≫= f) st = (m' ≫= f') st.
Proof.
  intros Hm Hf. unfold mbind, M_bind. rewrite Hm. destruct (m' st) as [[b|e|p|] st']; auto.
Qed.

Lemma bind_assoc {B C D} (m : M E S B) (f : B → M E S C) (g : C → M E S D) st :
  ((m ≫= f) ≫= g) st = (m ≫= λ b, f b ≫= g) st.
Proof. unfold mbind, M_bind. by destruct (m st) as [[b|e|p|] st']. Qed.

(** [expect] passes what never fails. *)
Lemma expect_bind {B C} msg (m : M E S B) (f : B → M E S C) st :
  (∀ e, (m st).1 ≠ Err e) → expect msg (m ≫= f) st = (m ≫= λ b, expect msg (f b)) st.
Proof.
  intros Hm. unfold expect, mbind, M_bind. destruct (m st) as [[b|e|p|] st']; try done. by destruct (Hm e).
Qed.

(** A computation without interest in its receiver, before the use of a local
    one. *)
Lemma with_local_any {T B C} (t : T) (mt : M E T B) (m : M E S B) (f : B → M E T C) st :
  (∀ s w, mt (t, w) = let '(r, (_, w')) := m (s, w) in (r, (t, w'))) →
  (∀ s w, (m (s, w)).2.1 = s) →
  with_local t (mt ≫= f) st = (m ≫= λ b, with_local t (f b)) st.
Proof.
  destruct st as [s w]. intros Hm Hs. unfold with_local, mbind, M_bind. cbn [fst snd].
  rewrite (Hm s w). specialize (Hs s w). destruct (m (s, w)) as [[b|e|p|] [s' w']]; cbn in Hs; by subst.
Qed.

Lemma with_local_ext {T B} (t : T) (m m' : M E T B) (st : S * World E) :
  (∀ w, m (t, w) = m' (t, w)) → with_local t m st = with_local t m' st.
Proof. intros Hm. unfold with_local. by rewrite Hm. Qed.

Lemma ck_any `{BLD : Build} {T} n z (t : T) (s : S) w :
  ck n z (t, w) = let '(r, (_, w')) := ck (E:=E) n z (s, w) in (r, (t, w')).
Proof. unfold ck. destruct (fits n z); [done|]. by destruct overflow_checks. Qed.

Lemma ck_state `{BLD : Build} n z (s : S) (w : World E) : (ck n z (s, w)).2.1 = s.
Proof. unfold ck. destruct (fits n z); [done|]. by destruct overflow_checks. Qed.

Lemma ck_no_error `{BLD : Build} n z (st : S * World E) e : (ck n z st).1 ≠ Err e.
Proof. unfold ck. destruct (fits n z); [done|]. by destruct overflow_checks. Qed.

End laws.

(** ** A thread alone *)

(** What a thread has measured only grows; in the end it is [lats]. *)
Class GrowingJob {A E St V} (job : Job A E St V) (lats : V → list Z) : Prop := {
  start_lats : ∀ buffer pw st pw', job_start job buffer pw = (Ret st, pw') → job_latencies job (Continue st) = [];
  step_lats : ∀ buffer st pw f pw', job_step job buffer st pw = (Ret f, pw') →
    ∃ new, job_latencies job f = job_latencies job (Continue st) ++ new;
  end_lats : ∀ v, job_latencies job (Break v) = lats v;
}.

Section alone.
Context {A E St V : Type}.
Context (job : Job A E St V) (lats : V → list Z) `{GJ : !GrowingJob job lats}.
Implicit Types (sh : Shared A) (w : World E) (wk : Worker St V).

(** [n] steps of one thread. *)
Definition alone (n : nat) (c : Worker St V * (Shared A * World E)) : Worker St V * (Shared A * World E) :=
  Nat.iter n (λ c, advance job c.1 c.2.1 c.2.2) c.

Lemma alone_succ n c : alone (S n) c = alone n (advance job c.1 c.2.1 c.2.2).
Proof. unfold alone. by rewrite Nat.iter_succ_r. Qed.

Lemma alone_add n m c : alone (n + m) c = alone m (alone n c).
Proof. revert c. induction n as [|n IH]; intros c; [done|]. cbn [Nat.add]. by rewrite !alone_succ, IH. Qed.

Definition at_rest wk : Prop :=
  match wk with Finished _ | Dead | Stuck => True | _ => False end.

Lemma advance_rest wk sh w : at_rest wk → advance job wk sh w = (wk, (sh, w)).
Proof. by destruct wk. Qed.

Lemma alone_rest n wk sh w : at_rest wk → alone n (wk, (sh, w)) = (wk, (sh, w)).
Proof.
  intros Hr. induction n as [|n IH]; [done|]. rewrite alone_succ. cbn [fst snd].
  by rewrite advance_rest.
Qed.

(** The closure as one function: [n] bounds the iterations of its loop. *)
Definition closure (n : nat) : M E (NvmeDevice A) V :=
  buffer ← expect unwrap_err (job_buffer job);
  qpair ← expect unwrap_err (job_pair job);
  r ← with_local qpair (st ← job_start job buffer; loop n (job_step job buffer) st);
  _ ← expect unwrap_err (job_end job r.2);
  mret r.1.

(** Where a closure that ends has left its thread. *)
Definition left_in {B} (r : Res B) (wk : B → Worker St V) (c : Worker St V * (Shared A * World E)) : Prop :=
  match r with
  | Ret b => c.1 = wk b
  | Err _ | Panicked _ => c.1 = Dead
  | Diverged => True
  end.

(** The loop. *)
Lemma alone_loop n buffer st qpair sh w :
  sh_lock sh = Free →
  let '(r, (qpair', w')) := loop n (job_step job buffer) st (qpair, w) in
  r ≠ Diverged → ∃ k c, alone k (Looping buffer qpair st, (sh, w)) = c ∧
    left_in r (Ended qpair') c ∧ sh_device c.2.1 = sh_device sh ∧ sh_lock c.2.1 = Free ∧ c.2.2 = w' ∧
    (∀ v, r = Ret v → ∃ new, job_latencies job (Break v) = job_latencies job (Continue st) ++ new ∧
       sh_latencies c.2.1 = sh_latencies sh ++ new).
Proof using GJ.
  revert st qpair sh w. induction n as [|n IH]; intros st qpair sh w Hl; [by intros []|].
  cbn [loop]. unfold mbind, M_bind.
  destruct (job_step job buffer st (qpair, w)) as [r [qpair1 w1]] eqn:Hstep.
  assert (∀ k, alone (S k) (Looping buffer qpair st, (sh, w)) = alone k
    (match r with
     | Ret f => (match f with Continue st => Looping buffer qpair1 st | Break v => Ended qpair1 v end,
       (push_latencies (job_latencies job (Continue st)) (job_latencies job f) sh, w1))
     | Err _ | Panicked _ => (Dead, (sh, w1))
     | Diverged => (Stuck, (sh, w1))
     end)) as Hone.
  { intros k. rewrite alone_succ. cbn [fst snd advance]. rewrite Hstep. by destruct r. }
  destruct r as [[st1|v]|e|p|]; cbn [mret M_ret].
  - destruct (step_lats _ _ _ _ _ Hstep) as (new1 & Hnew1).
    set (sh1 := push_latencies _ _ sh) in Hone. specialize (IH st1 qpair1 sh1 w1 Hl).
    assert (sh_latencies sh1 = sh_latencies sh ++ new1) as Hsh1.
    { unfold sh1, push_latencies. cbn [sh_latencies]. by rewrite Hnew1, drop_app_length. }
    destruct (loop n (job_step job buffer) st1 (qpair1, w1)) as [r [qpair' w']].
    intros Hr. destruct (IH Hr) as (k & c & Hk & ? & ? & ? & ? & Hlats). exists (S k), c. rewrite Hone.
    split_and!; [done..|]. intros v Hv. destruct (Hlats v Hv) as (new & Hnew & ->).
    exists (new1 ++ new). by rewrite Hnew, Hnew1, Hsh1, <-!app_assoc.
  - destruct (step_lats _ _ _ _ _ Hstep) as (new1 & Hnew1).
    intros _. exists 1%nat. eexists. rewrite Hone. split_and!; try done. intros ? [= <-]. exists new1.
    split; [done|]. cbn. by rewrite Hnew1, drop_app_length.
  - intros _. exists 1%nat. eexists. rewrite Hone. by split_and!.
  - intros _. exists 1%nat. eexists. rewrite Hone. by split_and!.
  - done.
Qed.

(** From the configuration [c], the thread does what the rest [m] of its closure
    does, if that comes to an end; it leaves the lock free and adds latencies
    related by [R] to the value. *)
Definition follows {B} (wk : B → Worker St V) (R : B → list Z → Prop) (m : M E (NvmeDevice A) B)
    (c : Worker St V * (Shared A * World E)) : Prop :=
  let '(r, (d, w)) := m (sh_device c.2.1, c.2.2) in
  r ≠ Diverged → ∃ k c', alone k c = c' ∧ left_in r wk c' ∧ sh_device c'.2.1 = d ∧ c'.2.2 = w ∧
    (∀ b, r = Ret b → sh_lock c'.2.1 = Free ∧
       ∃ new, sh_latencies c'.2.1 = sh_latencies c.2.1 ++ new ∧ R b new).

Lemma follows_now {B} (wk : B → Worker St V) (R : B → list Z → Prop) b sh w :
  sh_lock sh = Free → R b [] → follows wk R (mret b) (wk b, (sh, w)).
Proof.
  intros Hl HR _. exists 0%nat, (wk b, (sh, w)). split_and!; try done. intros ? [= <-]. split; [done|].
  exists []. by rewrite app_nil_r.
Qed.

(** A statement under the free lock. *)
Lemma follows_locked {B C} (m : M E (NvmeDevice A) B) (next : B → Worker St V) wk sh w
    (wk' : C → Worker St V) R (f : B → M E (NvmeDevice A) C) :
  advance job wk sh w = locked m next sh w → sh_lock sh = Free →
  (∀ b sh' w', sh_lock sh' = Free → follows wk' R (f b) (next b, (sh', w'))) →
  follows wk' R (expect unwrap_err m ≫= f) (wk, (sh, w)).
Proof.
  intros Ha Hl Hf. unfold locked in Ha. rewrite Hl in Ha. unfold follows, expect, mbind, M_bind. cbn [fst snd].
  destruct (m (sh_device sh, w)) as [[b|e|p|] [d w1]].
  - specialize (Hf b (mkShared d Free (sh_latencies sh)) w1 eq_refl). unfold follows in Hf.
    cbn [fst snd sh_device] in Hf. destruct (f b (d, w1)) as [r [d' w']]. intros Hr.
    destruct (Hf Hr) as (k & c & Hk & ?). exists (S k), c. rewrite alone_succ. cbn [fst snd].
    by rewrite Ha.
  - intros _. exists 1%nat. eexists. split; [reflexivity|]. rewrite alone_succ. cbn [fst snd]. by rewrite Ha.
  - intros _. exists 1%nat. eexists. split; [reflexivity|]. rewrite alone_succ. cbn [fst snd]. by rewrite Ha.
  - done.
Qed.

(** Between the creation of the pair and its deletion. *)
Lemma follows_pair {C} n buffer qpair sh w (wk : C → Worker St V) (R : C → list Z → Prop)
    (f : V * NvmeQueuePair → M E (NvmeDevice A) C) :
  sh_lock sh = Free →
  (∀ v qpair' sh' w', sh_lock sh' = Free →
     follows wk (λ c new, R c (lats v ++ new)) (f (v, qpair')) (Ended qpair' v, (sh', w'))) →
  follows wk R (with_local qpair (st ← job_start job buffer; loop n (job_step job buffer) st) ≫= f)
    (Created buffer qpair, (sh, w)).
Proof using GJ.
  intros Hl Hf. unfold follows, with_local, mbind, M_bind. cbn [fst snd].
  destruct (job_start job buffer (qpair, w)) as [r [qpair1 w1]] eqn:Hst.
  assert (∀ k, alone (S k) (Created buffer qpair, (sh, w)) = alone k (match r with
    | Ret st => (Looping buffer qpair1 st, (sh, w1))
    | Err _ | Panicked _ => (Dead, (sh, w1))
    | Diverged => (Stuck, (sh, w1)) end)) as Hone.
  { intros k. rewrite alone_succ. cbn [fst snd advance]. unfold unlocked. rewrite Hst. by destruct r. }
  destruct r as [st|e|p|]; [|intros _; exists 1%nat; eexists; rewrite Hone; by split_and!..|done].
  pose proof (alone_loop n buffer st qpair1 sh w1 Hl) as Hloop.
  destruct (loop n (job_step job buffer) st (qpair1, w1)) as [r [qpair2 w2]].
  destruct r as [v|e|p|]; try done.
  - destruct Hloop as (k & [wk1 [sh1 w1']] & Hk & Hc & Hd & Hl1 & Hw & Hlats); [done|]. cbn in Hc, Hd, Hl1, Hw, Hlats.
    destruct (Hlats v eq_refl) as (new1 & Hnew1 & Hsh1). rewrite (start_lats _ _ _ _ Hst), end_lats in Hnew1. cbn in Hnew1.
    subst.
    specialize (Hf v qpair2 sh1 w2 Hl1). unfold follows in Hf. cbn [fst snd] in Hf. rewrite Hd in Hf.
    destruct (f (v, qpair2) (sh_device sh, w2)) as [r [d' w']]. intros Hr.
    destruct (Hf Hr) as (j & c & Hj & ? & ? & ? & Hadd). exists (S (k + j))%nat, c.
    rewrite (Hone (k + j)%nat), alone_add, Hk. split_and!; [done..|]. intros b Hb.
    destruct (Hadd b Hb) as (? & new & Hnew & HR). split; [done|]. eexists. split; [|exact HR].
    by rewrite Hnew, Hsh1, <-app_assoc.
  - intros _. destruct Hloop as (k & c & Hk & ? & ? & ? & ? & _); [done|]. exists (S k), c. by rewrite (Hone k).
  - intros _. destruct Hloop as (k & c & Hk & ? & ? & ? & ? & _); [done|]. exists (S k), c. by rewrite Hone.
Qed.

Lemma follows_closure n sh w :
  sh_lock sh = Free →
  follows Finished (λ v new, new = lats v) (closure n) (Started, (sh, w)).
Proof using GJ.
  intros Hl. unfold closure. eapply follows_locked; [done..|]. intros buffer sh1 w1 Hl1.
  eapply follows_locked; [done..|]. intros qpair sh2 w2 Hl2.
  apply follows_pair; [done|]. intros v qpair' sh3 w3 Hl3. cbn [fst snd].
  eapply follows_locked; [done..|]. intros [] sh4 w4 Hl4.
  apply follows_now; [done|]. by rewrite app_nil_r.
Qed.

End alone.

(** ** Threads one after the other *)

Lemma bind_returns {E S B C} (m : M E S B) (f : B → M E S C) st c st' :
  (m ≫= f) st = (Ret c, st') → ∃ b st1, m st = (Ret b, st1) ∧ f b st1 = (Ret c, st').
Proof. unfold mbind, M_bind. destruct (m st) as [[b|e|p|] st1]; try done. eauto. Qed.

Section in_turn.
Context {A E St V : Type}.
Implicit Types (sh : Shared A) (w : World E) (wk : Worker St V) (job : Job A E St V) (jobs : list (Job A E St V)).

Lemma turns_app jobs p s1 s2 : turns jobs p (s1 ++ s2) = turns jobs (turns jobs p s1) s2.
Proof. apply foldl_app. Qed.

(** A thread that has the turn [k] times in a row. *)
Lemma turns_repeat jobs job i k wk sh ws w :
  jobs !! i = Some job → ws !! i = Some wk →
  turns jobs (mkPool sh ws w) (repeat i k) =
  let '(wk, (sh, w)) := alone job k (wk, (sh, w)) in mkPool sh (<[i := wk]> ws) w.
Proof.
  intros Hj. revert wk sh ws w. induction k as [|k IH]; intros wk sh ws w Hw.
  { cbn. by rewrite list_insert_id. }
  change (repeat i (S k)) with ([i] ++ repeat i k). rewrite turns_app, alone_succ. cbn [fst snd].
  unfold turns at 2. cbn [foldl]. unfold turn. rewrite Hj. cbn [pool_workers pool_shared pool_world]. rewrite Hw.
  destruct (advance job wk sh w) as [wk1 [sh1 w1]].
  rewrite (IH wk1) by (apply list_lookup_insert_eq; by eapply lookup_lt_Some).
  destruct (alone job k (wk1, (sh1, w1))) as [wk2 [sh2 w2]]. by rewrite list_insert_insert_eq.
Qed.

(** A thread without company. *)
Lemma turns_one job wk sh w sched :
  turns [job] (mkPool sh [wk] w) sched =
  let '(wk, (sh, w)) := alone job (count_occ Nat.eq_dec sched 0%nat) (wk, (sh, w)) in mkPool sh [wk] w.
Proof.
  revert wk sh w. induction sched as [|i sched IH]; intros wk sh w; [done|].
  change (i :: sched) with ([i] ++ sched) at 1. rewrite turns_app. unfold turns at 2. cbn [foldl].
  destruct i as [|i].
  - rewrite count_occ_cons_eq, alone_succ by done. unfold turn. cbn [lookup list_lookup pool_workers fst snd].
    cbn [pool_shared pool_world]. destruct (advance job wk sh w) as [wk1 [sh1 w1]]. cbn [insert list_insert]. apply IH.
  - rewrite count_occ_cons_neq by done. unfold turn. cbn [lookup list_lookup]. apply IH.
Qed.

(** Nobody left to run. *)
Lemma turns_rest jobs p sched : Forall at_rest (pool_workers p) → turns jobs p sched = p.
Proof.
  intros Hp. induction sched as [|i sched IH]; [done|]. unfold turns in *. cbn [foldl].
  replace (turn jobs p i) with p; [done|]. symmetry. unfold turn. destruct (jobs !! i) as [job|]; [|done].
  destruct (pool_workers p !! i) as [wk|] eqn:Hw; [|done].
  rewrite advance_rest by (by eapply Forall_lookup_1). rewrite list_insert_id by done. by destruct p.
Qed.

Lemma join_finished (vs : list V) : join (Finished (St:=St) <$> vs) = Ret vs.
Proof. induction vs as [|v vs IH]; [done|]. cbn [fmap list_fmap join]. by rewrite IH. Qed.

Context (lats : V → list Z).

(** Collecting only appends. *)
Lemma collect_extends {X} (f : X → M E (NvmeDevice A) V) l vs st vs' st' :
  for_fold l (λ vs x, v ← f x; mret (vs ++ [v])) vs st = (Ret vs', st') → ∃ vs2, vs' = vs ++ vs2.
Proof.
  revert vs st. induction l as [|x l IH]; intros vs st Hrun.
  { injection Hrun as -> _. exists []. by rewrite app_nil_r. }
  cbn [for_fold] in Hrun. apply bind_returns in Hrun as (vs1 & st1 & Hone & Hrun).
  apply bind_returns in Hone as (v & st2 & _ & Hv). injection Hv as <- _.
  apply IH in Hrun as (vs2 & ->). exists (v :: vs2). by rewrite <-app_assoc.
Qed.

(** The closures of the jobs in order. *)
Definition one_by_one (n : nat) jobs : M E (NvmeDevice A) (list V) :=
  for_fold jobs (λ vs job, v ← closure job n; mret (vs ++ [v])) [].

Lemma closures_in_turn n jobs1 jobs2 vs d w l vs' d' w' :
  Forall (λ job, GrowingJob job lats) jobs2 → length vs = length jobs1 →
  for_fold jobs2 (λ vs job, v ← closure job n; mret (vs ++ [v])) vs (d, w) = (Ret (vs ++ vs'), (d', w')) →
  ∃ sched, turns (jobs1 ++ jobs2)
    (mkPool (mkShared d Free l) ((Finished <$> vs) ++ ((λ _, Started) <$> jobs2)) w) sched =
    mkPool (mkShared d' Free (l ++ (vs' ≫= lats))) (Finished <$> vs ++ vs') w'.
Proof.
  intros HG. revert jobs1 vs vs' d w l. induction HG as [|job jobs2 GJ _ IH]; intros jobs1 vs vs' d w l Hl Hrun.
  { exists []. injection Hrun as Hvs -> ->. rewrite <-(app_nil_r vs) in Hvs at 1. apply app_inv_head in Hvs as <-.
    cbn. by rewrite !app_nil_r. }
  cbn [for_fold] in Hrun. apply bind_returns in Hrun as (vs1 & [d1 w1] & Hone & Hrun).
  apply bind_returns in Hone as (v & st1 & Hone & Hv). injection Hv as <- ->.
  pose proof (follows_closure job lats n (mkShared d Free l) w eq_refl) as Hf. unfold follows in Hf.
  cbn [fst snd sh_device] in Hf. rewrite Hone in Hf.
  destruct Hf as (k & [wk [sh1 w1']] & Hk & Hwk & Hd & Hw & Hlock); [done|]. cbn in Hwk, Hd, Hw. subst wk w1'.
  destruct (Hlock v eq_refl) as (Hfree & new & Hnew & ->). cbn in Hfree, Hnew.
  destruct sh1 as [d1' lock1 lats1]. cbn in Hd, Hfree, Hnew. subst d1' lock1 lats1.
  assert (∃ vs2, vs' = v :: vs2) as [vs2 ->].
  { apply collect_extends in Hrun as (vs2 & Hvs2). rewrite <-app_assoc in Hvs2.
    apply app_inv_head in Hvs2 as ->. by exists vs2. }
  change (v :: vs2) with ([v] ++ vs2) in Hrun. rewrite (app_assoc vs) in Hrun.
  destruct (IH (jobs1 ++ [job]) (vs ++ [v]) vs2 d1 w1 (l ++ lats v)) as (sched & Hs);
    [rewrite !length_app; simpl; lia|done|].
  exists (repeat (length jobs1) k ++ sched). rewrite turns_app.
  rewrite (turns_repeat _ job _ _ Started); cycle 1.
  { by rewrite lookup_app_r, Nat.sub_diag by done. }
  { rewrite lookup_app_r by (rewrite length_fmap; lia). rewrite length_fmap, Hl, Nat.sub_diag. done. }
  rewrite Hk. cbn [mbind list_bind]. fold (vs2 ≫= lats). rewrite <-!app_assoc in Hs. cbn [app] in Hs.
  rewrite <-Hs. f_equal. f_equal.
  rewrite fmap_app, <-app_assoc. rewrite insert_app_r_alt by (rewrite length_fmap; lia).
  by rewrite length_fmap, Hl, Nat.sub_diag.
Qed.

(** The jobs one by one are one of the ways to run them. *)
Lemma work_one_by_one n jobs d w vs d' w' :
  Forall (λ job, GrowingJob job lats) jobs → one_by_one n jobs (d, w) = (Ret vs, (d', w')) →
  ∃ sched, ∀ more, work jobs (sched ++ more) (d, w) = (Ret (vs, vs ≫= lats), (d', w')).
Proof.
  intros HG Hrun. destruct (closures_in_turn n [] jobs [] d w [] vs d' w' HG eq_refl Hrun) as (sched & Hs).
  exists sched. intros more. unfold work, spawn. cbn [fst snd fmap list_fmap app] in *.
  rewrite turns_app, Hs, turns_rest by (apply Forall_fmap, Forall_true; done).
  cbn [pool_workers pool_shared pool_world]. by rewrite join_finished.
Qed.

(** One job, under any schedule that lets it finish. *)
Lemma work_one n job d w :
  GrowingJob job lats →
  let '(r, st) := closure job n (d, w) in
  r ≠ Diverged → ∃ k, ∀ sched, (k ≤ count_occ Nat.eq_dec sched 0)%nat →
    work [job] sched (d, w) =
    (match r with
     | Ret v => Ret ([v], lats v)
     | Err _ | Panicked _ => Panicked (ExpectErr "The thread creation or execution failed!")
     | Diverged => Diverged
     end, st).
Proof.
  intros GJ. pose proof (follows_closure job lats n (mkShared d Free []) w eq_refl) as Hf. unfold follows in Hf.
  cbn [fst snd sh_device] in Hf. destruct (closure job n (d, w)) as [r [d' w']]. intros Hr.
  destruct (Hf Hr) as (k & [wk [[d1 lock l] w1]] & Hk & Hwk & Hd & Hw & Hlock). cbn in Hwk, Hd, Hw, Hlock.
  subst d1 w1. exists k. intros sched Hs. unfold work, spawn. cbn [fst snd fmap list_fmap].
  rewrite turns_one. replace (count_occ Nat.eq_dec sched 0%nat) with (k + (count_occ Nat.eq_dec sched 0%nat - k))%nat by lia.
  rewrite alone_add, Hk, alone_rest by (destruct r; cbn in Hwk; try done; by subst wk).
  cbn [pool_workers pool_shared pool_world sh_device sh_lock sh_latencies join].
  destruct r as [v|e|pk|]; cbn in Hwk; [|by subst wk..|done].
  subst wk. destruct (Hlock v eq_refl) as (-> & new & -> & ->). done.
Qed.

End in_turn.
