(* ===== verification/Closures.v ===== *)
(** The threads of the benchmarks against their closures: what [qd_n_multithread]
    and [qd_n_multithread_latency_nanos] make of the functions of [Bench] that model
    one thread each. *)

From stdpp Require Import gmap.
From S2P Require Import Prelude Bytes Machine Memory Cmd Mapping Queues Service Os QueuePair Device Setup Io Protocol Frame Examples Bench Measure Workers Schedule.
#[local] Open Scope Z_scope.

(** ** Loops *)

Section loops.
Context {E S : Type}.

(** [m'] does what [m] does, if [m] comes to an end at all. *)
Definition covers {B} (m' m : M E S B) (st : S * World E) : Prop := (m st).1 = Diverged ∨ m' st = m st.

Lemma covers_eq {B} (m m' : M E S B) st : m' st = m st → covers m' m st.
Proof. by right. Qed.

Lemma covers_as {B} (m m1 m2 : M E S B) st : m1 st = m2 st → covers m2 m st → covers m1 m st.
Proof. unfold covers. by intros ->. Qed.

Lemma covers_to {B} (m m1 m2 : M E S B) st : m1 st = m2 st → covers m m2 st → covers m m1 st.
Proof. unfold covers. by intros ->. Qed.

Lemma covers_bind {B C} (m m' : M E S B) (f f' : B → M E S C) st :
  covers m' m st → (∀ b st, covers (f' b) (f b) st) → covers (m' ≫= f') (m ≫= f) st.
Proof.
  unfold covers, mbind, M_bind. intros [Hm|Hm] Hf.
  - left. by destruct (m st) as [[] ?].
  - rewrite Hm. destruct (m st) as [[b|e|p|] st']; [apply Hf|by right..].
Qed.

Lemma covers_with_local {T B} (t : T) (m m' : M E T B) (st : S * World E) :
  ((m (t, st.2)).1 = Diverged ∨ m' (t, st.2) = m (t, st.2)) → covers (with_local t m') (with_local t m) st.
Proof.
  intros [Hd|Heq]; unfold covers, with_local.
  - left. by destruct (m (t, st.2)) as [[] [? ?]].
  - right. by rewrite Heq.
Qed.

Lemma loop_ext {X B} n (f g : X → M E S (Flow X B)) x st :
  (∀ x st, f x st = g x st) → loop n f x st = loop n g x st.
Proof.
  intros Hfg. revert x st. induction n as [|n IH]; intros x st; [done|]. cbn [loop].
  apply bind_ext; [apply Hfg|]. by intros [x'|b] st'.
Qed.

(** A loop on another representation of its state. *)
Lemma loop_map {X Y B} n (φ : X → Y) (f : X → M E S (Flow X B)) (g : Y → M E S (Flow Y B)) x st :
  (∀ x st, g (φ x) st = (r ← f x; mret (match r with Continue x => Continue (φ x) | Break b => Break b end)) st) →
  loop n g (φ x) st = loop n f x st.
Proof.
  intros Hfg. revert x st. induction n as [|n IH]; intros x st; [done|]. cbn [loop].
  etrans; [apply bind_ext; [apply Hfg|done]|]. rewrite bind_assoc. apply bind_ext; [done|].
  intros [x'|b] st'; [apply IH|done].
Qed.

(** What follows a [while] as its last iteration. *)
Lemma loop_then {X B} n (cond : X → bool) (step : X → M E S X) (fin : X → M E S B) x st :
  (loop n (λ x, if cond x then x ← step x; mret (Continue x) else mret (Break x)) x ≫= fin) st =
  loop n (λ x, if cond x then x ← step x; mret (Continue x) else b ← fin x; mret (Break b)) x st.
Proof.
  revert x st. induction n as [|n IH]; intros x st; [done|]. cbn [loop]. rewrite bind_assoc.
  destruct (cond x).
  - rewrite !bind_assoc. apply bind_ext; [done|]. clear x st. intros x st. apply IH.
  - rewrite bind_assoc. unfold mbind, M_bind. cbn [mret M_ret]. by destruct (fin x st) as [[]].
Qed.

Lemma loop_more {X B} n m (body : X → M E S (Flow X B)) x st :
  covers (loop (n + m) body x) (loop n body x) st.
Proof.
  revert x st. induction n as [|n IH]; intros x st; [by left|]. cbn [Nat.add loop].
  apply covers_bind; [by right|]. intros [x'|b] st'; [apply IH|by right].
Qed.

(** Two loops as one that changes sides. *)
Lemma loop_two {X Y B} n1 n2 (check : X → M E S bool) (step : X → M E S X) (h : X → Y)
    (body : Y → M E S (Flow Y B)) x st :
  covers (loop (n1 + n2) (λ s, match s with
            | inl x => c ← check x;
                       if c : bool then x ← step x; mret (Continue (inl x)) else mret (Continue (inr (h x)))
            | inr y => f ← body y; mret (match f with Continue y => Continue (inr y) | Break b => Break b end)
            end) (inl x))
    (x ← loop n1 (λ x, c ← check x; if c : bool then x ← step x; mret (Continue x) else mret (Break x)) x;
     loop n2 body (h x)) st.
Proof.
  set (both := λ s : X + Y, _).
  assert (∀ n y st, loop n both (inr y) st = loop n body y st) as Hright.
  { intros n. induction n as [|n IH]; intros y st'; [done|]. cbn [loop both]. rewrite bind_assoc.
    apply bind_ext; [done|]. intros [y'|b] st2; [apply IH|done]. }
  revert x st. induction n1 as [|n1 IH]; intros x st; [by left|]. cbn [Nat.add loop both].
  unfold covers. rewrite !bind_assoc. apply covers_bind; [by right|]. intros c st1. unfold covers.
  destruct c.
  - rewrite !bind_assoc. apply covers_bind; [by right|]. intros x' st2. apply IH.
  - unfold mbind, M_bind. cbn [mret M_ret]. rewrite Hright, Nat.add_comm. apply loop_more.
Qed.

Lemma for_fold_ext {X B} (f g : B → X → M E S B) l b st :
  (∀ b x st, f b x st = g b x st) → for_fold l f b st = for_fold l g b st.
Proof.
  intros Hfg. revert b st. induction l as [|x l IH]; intros b st; [done|]. cbn [for_fold].
  apply bind_ext; [done|]. intros. apply IH.
Qed.

Lemma for_fold_fmap {X B Y} (g : Y → X) (f : B → X → M E S B) l b st :
  for_fold (g <$> l) f b st = for_fold l (λ b y, f b (g y)) b st.
Proof.
  revert b st. induction l as [|y l IH]; intros b st; [done|]. cbn [fmap list_fmap for_fold].
  apply bind_ext; [done|]. intros. apply IH.
Qed.

Lemma for_fold_covers {X B} (f g : B → X → M E S B) l b st :
  (∀ b x st, covers (g b x) (f b x) st) → covers (for_fold l g b) (for_fold l f b) st.
Proof.
  intros Hfg. revert b st. induction l as [|x l IH]; intros b st; [by right|]. cbn [for_fold].
  by apply covers_bind.
Qed.

End loops.

(** ** The closures of the programs *)

Section closures.
Context {A E R : Type} `{BLD : Build} `{FUEL : Fuel} `{HW : Hardware E} `{CK : Clock E} `{RN : Rng R}.
Context `{MAP : Mapping A E}.

(** Filling the buffer does not look at the receiver. *)
Lemma fill_buffer_any {S1 S2} buffer block (s1 : S1) (s2 : S2) w :
  fill_buffer buffer block (s2, w) =
  let '(r, (_, w')) := fill_buffer buffer block (s1, w) in (r, (s2, w')).
Proof.
  unfold fill_buffer, Dma.index_to, Dma.index_range, ck64, ck, assert, mbind, M_bind.
  destruct (_ <=? _); [|done]. cbn [mret M_ret].
  destruct (fits 64 _); [done|]. by destruct overflow_checks.
Qed.

Lemma fill_buffer_state {S} buffer block (s : S) w : (fill_buffer buffer block (s, w)).2.1 = s.
Proof.
  unfold fill_buffer, Dma.index_to, Dma.index_range, ck64, ck, assert, mbind, M_bind.
  destruct (_ <=? _); [|done]. cbn [mret M_ret]. destruct (fits 64 _); [done|]. by destruct overflow_checks.
Qed.

(** The start of a thread, on its pair or on the device. *)
Lemma start_closure {St B C} z buffer (start : R → St) (body : St → M E NvmeQueuePair B)
    (k : B * NvmeQueuePair → M E (NvmeDevice A) C) qpair rng st :
  (with_local qpair ((n ← ck64 z; let '(block, rng) := random_bytes (Z.to_nat n) rng in
      _ ← fill_buffer buffer block; mret (start rng)) ≫= body) ≫= k) st =
  (n ← ck64 z; let '(block, rng) := random_bytes (Z.to_nat n) rng in
   _ ← fill_buffer buffer block; r ← with_local qpair (body (start rng)); k r) st.
Proof.
  etrans; [apply bind_ext; [|done]|].
  { etrans; [apply with_local_ext; intros w; apply bind_assoc|].
    apply (with_local_any _ _ (ck64 z)); [intros; apply ck_any|apply ck_state]. }
  rewrite bind_assoc. apply bind_ext; [done|]. clear st. intros n st.
  destruct (random_bytes (Z.to_nat n) rng) as [block rng'].
  etrans; [apply bind_ext; [|done]|].
  { etrans; [apply with_local_ext; intros w; apply bind_assoc|].
    apply (with_local_any _ _ (fill_buffer buffer block)); [intros; apply fill_buffer_any|].
    intros. apply fill_buffer_state. }
  rewrite bind_assoc. apply bind_ext; [done|]. by intros.
Qed.

(** The closure of the throughput benchmark is its thread. *)
Lemma throughput_closure depth ns_blocks duration random write rng st :
  closure (Workers.Throughput.job depth ns_blocks duration random write rng) spin_fuel st =
  Bench.Throughput.thread (A:=A) depth ns_blocks duration random write rng st.
Proof.
  unfold closure, Bench.Throughput.thread. cbn [job_buffer job_pair job_end Workers.Throughput.job].
  etrans; [apply bind_ext; [by apply expect_bind|done]|].
  rewrite bind_assoc. apply bind_ext; [done|]. clear st. intros self st.
  etrans; [apply bind_ext; [by apply expect_bind, ck_no_error|done]|].
  rewrite bind_assoc. apply bind_ext; [done|]. clear st. intros n st.
  apply bind_ext; [done|]. clear st. intros buffer st. apply bind_ext; [done|]. clear st. intros qpair st.
  etrans; [apply (start_closure _ buffer (λ rng, (0, 0, 0, rng)))|]. apply bind_ext; [done|]. clear st. intros n2 st.
  destruct (random_bytes (Z.to_nat n2) rng) as [block rng']. apply bind_ext; [done|]. clear st. intros [] st.
  apply bind_ext; [|by intros [ops qpair'] st'].
  apply with_local_ext. intros w. symmetry. etrans; [apply loop_then|].
  apply loop_ext. by intros [[[total outstanding] ops] rng1] st1.
Qed.

Lemma latency_closure depth ns_blocks duration write rng st :
  closure (Workers.Latency.job depth ns_blocks duration write rng) spin_fuel st =
  Bench.Latency.thread (A:=A) depth ns_blocks duration write rng st.
Proof.
  unfold closure, Bench.Latency.thread. cbn [job_buffer job_pair job_end Workers.Latency.job].
  etrans; [apply bind_ext; [by apply expect_bind|done]|].
  rewrite bind_assoc. apply bind_ext; [done|]. clear st. intros self st.
  apply bind_ext; [done|]. clear st. intros buffer st. apply bind_ext; [done|]. clear st. intros qpair st.
  etrans; [apply (start_closure _ buffer (λ rng, (0, 0, 0, [], rng)))|]. apply bind_ext; [done|]. clear st. intros n2 st.
  destruct (random_bytes (Z.to_nat n2) rng) as [block rng']. apply bind_ext; [done|]. clear st. intros [] st.
  apply bind_ext; [|by intros [ops qpair'] st'].
  apply with_local_ext. intros w. symmetry. etrans; [apply loop_then|].
  apply loop_ext. by intros [[[[total outstanding] ops] latencies] rng1] st1.
Qed.

(** The start of the third benchmark, on its pair or on the device. *)
Lemma nanos_start {St B C} z buffer (start : Z → R → St) (body : St → M E NvmeQueuePair B)
    (k : B * NvmeQueuePair → M E (NvmeDevice A) C) qpair rng st :
  (with_local qpair ((n ← ck64 z; let '(block, rng) := random_bytes (Z.to_nat n) rng in
      n ← ck64 z; s ← Dma.index_range buffer 0 n; _ ← store (ptr s) block;
      t ← now; mret (start t rng)) ≫= body) ≫= k) st =
  (n ← ck64 z; let '(block, rng) := random_bytes (Z.to_nat n) rng in
   n ← ck64 z; s ← Dma.index_range buffer 0 n; _ ← store (ptr s) block;
   r ← with_local qpair (t ← now; body (start t rng)); k r) st.
Proof.
  etrans; [apply bind_ext; [|done]|].
  { etrans; [apply with_local_ext; intros w; apply bind_assoc|].
    apply (with_local_any _ _ (ck64 z)); [intros; apply ck_any|apply ck_state]. }
  rewrite bind_assoc. apply bind_ext; [done|]. clear st. intros n st.
  destruct (random_bytes (Z.to_nat n) rng) as [block rng'].
  etrans; [apply bind_ext; [|done]|].
  { etrans; [apply with_local_ext; intros w; apply bind_assoc|].
    apply (with_local_any _ _ (ck64 z)); [intros; apply ck_any|apply ck_state]. }
  rewrite bind_assoc. apply bind_ext; [done|]. clear st. intros n2 st.
  etrans; [apply bind_ext; [|done]|].
  { etrans; [apply with_local_ext; intros w; apply bind_assoc|].
    apply (with_local_any _ _ (Dma.index_range buffer 0 n2)).
    - intros s w. unfold Dma.index_range, assert, ck64, ck, mbind, M_bind. destruct (n2 <=? _); [|done].
      cbn [mret M_ret]. destruct (fits 64 _); [done|]. by destruct overflow_checks.
    - intros s w. unfold Dma.index_range, assert, ck64, ck, mbind, M_bind. destruct (n2 <=? _); [|done].
      cbn [mret M_ret]. destruct (fits 64 _); [done|]. by destruct overflow_checks. }
  rewrite bind_assoc. apply bind_ext; [done|]. clear st. intros s st.
  etrans; [apply bind_ext; [|done]|].
  { etrans; [apply with_local_ext; intros w; apply bind_assoc|].
    by apply (with_local_any _ _ (store (ptr s) block)). }
  rewrite bind_assoc. apply bind_ext; [done|]. clear st. intros [] st.
  apply bind_ext; [|done]. apply with_local_ext. intros w. rewrite bind_assoc. by apply bind_ext.
Qed.

(** The loops of the third benchmark may need the iterations of both. *)
Lemma nanos_closure depth ns_blocks duration random write rng st :
  covers (closure (Workers.Latency.nanos_job depth ns_blocks duration random write rng) (spin_fuel + spin_fuel))
    (Bench.Latency.nanos_thread (A:=A) depth ns_blocks duration random write rng) st.
Proof.
  unfold closure, Bench.Latency.nanos_thread. cbn [job_buffer job_pair job_end Workers.Latency.nanos_job].
  unfold covers.
  assert (∀ f st, (expect unwrap_err (self ← get; allocate (self : NvmeDevice A) PAGESIZE_2MIB) ≫= f) st =
    ((get ≫= λ self, expect unwrap_err (allocate (self : NvmeDevice A) PAGESIZE_2MIB) ≫= f) st : Res (list Z) * _)) as Hbuf.
  { intros f st'. etrans; [apply bind_ext; [by apply expect_bind|done]|]. apply bind_assoc. }
  rewrite Hbuf. clear Hbuf.
  apply covers_bind; [by right|]. clear st. intros self st.
  apply covers_bind; [by right|]. clear st. intros buffer st.
  apply covers_bind; [by right|]. clear st. intros qpair st.
  eapply covers_as; [apply (nanos_start _ buffer (λ t rng, inl (t, (0, [], rng))))|].
  apply covers_bind; [by right|]. clear st. intros n st.
  destruct (random_bytes (Z.to_nat n) rng) as [block rng'].
  apply covers_bind; [by right|]. clear st. intros n2 st.
  apply covers_bind; [by right|]. clear st. intros s st.
  apply covers_bind; [by right|]. clear st. intros [] st.
  apply covers_bind; [|intros [l qpair'] st'; by right].
  apply covers_with_local. unfold Bench.Latency.nanos_measure.
  apply covers_bind; [by right|]. intros start st1.
  set (φ := λ x : (Z * list Z * R) + (Z * list Z), match x with
    | inl x => inl (start, x) | inr y => inr y end : (Z * (Z * list Z * R)) + (Z * list Z)).
  eapply covers_as; [eapply (loop_map _ φ ?[f] _ (inl (0, [], rng')))|].
  2:{ eapply covers_to; [|apply (loop_two spin_fuel spin_fuel (λ _ : Z * list Z * R, e ← elapsed start; mret (e <? duration))
        (Bench.Latency.nanos_step depth ns_blocks buffer random write) fst Bench.Latency.collect_step (0, [], rng'))].
      apply bind_ext; [|by intros [[outstanding latencies] rng1] st2]. unfold Bench.Latency.nanos_loop.
      apply loop_ext. intros x st2. rewrite bind_assoc. by apply bind_ext. }
  intros [x|y] st2; cbn [φ job_step Workers.Latency.nanos_job].
  - rewrite !bind_assoc. apply bind_ext; [done|]. intros e st3.
    unfold mbind at 2, M_bind at 2. cbn [mret M_ret]. destruct (e <? duration); [|done].
    rewrite !bind_assoc. by apply bind_ext.
  - rewrite bind_assoc. apply bind_ext; [done|]. by intros [] st3.
Qed.

(** What the threads measure. *)
#[export] Instance throughput_growing depth ns_blocks duration random write rng :
  GrowingJob (Workers.Throughput.job (A:=A) depth ns_blocks duration random write rng) (λ _, []).
Proof. split; [done| |done]. intros. by exists []. Qed.

#[export] Instance latency_growing depth ns_blocks duration write rng :
  GrowingJob (Workers.Latency.job (A:=A) depth ns_blocks duration write rng) snd.
Proof.
  split; [| |done]; cbn.
  - intros buffer pw st pw' Hrun. apply bind_returns in Hrun as (n & ? & _ & Hrun).
    destruct (random_bytes _ _) as [block rng']. apply bind_returns in Hrun as (? & ? & _ & Hrun).
    by injection Hrun as <- _.
  - intros buffer [[[[total outstanding] ops] latencies] rng'] pw f pw' Hrun. cbn.
    destruct (total <? duration).
    + apply bind_returns in Hrun as (st1 & ? & Hstep & Hrun). injection Hrun as <- _.
      unfold Bench.Latency.bench_step in Hstep. apply bind_returns in Hstep as ([lba rng1] & ? & _ & Hstep).
      apply bind_returns in Hstep as (before & ? & _ & Hstep).
      apply bind_returns in Hstep as ([outstanding1 ops1] & ? & _ & Hstep).
      do 5 apply bind_returns in Hstep as (? & ? & _ & Hstep). injection Hstep as <- _. cbn. eauto.
    + apply bind_returns in Hrun as (st1 & ? & Hfin & Hrun). injection Hrun as <- _.
      unfold Bench.Latency.finish in Hfin. apply bind_returns in Hfin as (lats & ? & Hl & Hfin).
      do 3 apply bind_returns in Hfin as (? & ? & _ & Hfin). injection Hfin as <- _. cbn.
      destruct (negb (outstanding =? 0)).
      * do 5 apply bind_returns in Hl as (? & ? & _ & Hl). injection Hl as <- _. eauto.
      * injection Hl as <- _. exists []. by rewrite app_nil_r.
Qed.

Lemma poll_all_grows before outstanding latencies pw r pw' :
  Bench.Latency.poll_all before outstanding latencies pw = (Ret r, pw') → ∃ new, r.2 = latencies ++ new.
Proof.
  unfold Bench.Latency.poll_all. generalize spin_fuel at 1. intros n.
  revert outstanding latencies pw. induction n as [|n IH]; intros outstanding latencies pw Hrun; [done|].
  cbn [loop] in Hrun. apply bind_returns in Hrun as (f & pw1 & Hb & Hrun).
  apply bind_returns in Hb as ([[]|] & ? & _ & Hb).
  - do 2 apply bind_returns in Hb as (? & ? & _ & Hb). injection Hb as <- <-.
    apply IH in Hrun as (new & ->). rewrite <-app_assoc. eauto.
  - injection Hb as <- <-. injection Hrun as <- _. exists []. by rewrite app_nil_r.
Qed.

#[export] Instance nanos_growing depth ns_blocks duration random write rng :
  GrowingJob (Workers.Latency.nanos_job (A:=A) depth ns_blocks duration random write rng) id.
Proof.
  split; [| |done]; cbn.
  - intros buffer pw st pw' Hrun. apply bind_returns in Hrun as (n & ? & _ & Hrun).
    destruct (random_bytes _ _) as [block rng']. do 4 apply bind_returns in Hrun as (? & ? & _ & Hrun).
    by injection Hrun as <- _.
  - intros buffer [[start [[outstanding latencies] rng']]|[outstanding latencies]] pw f pw' Hrun; cbn.
    + apply bind_returns in Hrun as (e & ? & _ & Hrun). destruct (e <? duration).
      * apply bind_returns in Hrun as (st1 & ? & Hstep & Hrun). injection Hrun as <- _.
        unfold Bench.Latency.nanos_step in Hstep. apply bind_returns in Hstep as ([lba rng1] & ? & _ & Hstep).
        do 3 apply bind_returns in Hstep as (? & ? & _ & Hstep).
        apply bind_returns in Hstep as ([outstanding1 latencies1] & ? & Hpoll & Hstep). injection Hstep as <- _. cbn.
        destruct (_ =? depth); [by apply poll_all_grows in Hpoll|]. injection Hpoll as _ <- _.
        exists []. by rewrite app_nil_r.
      * injection Hrun as <- _. exists []. by rewrite app_nil_r.
    + apply bind_returns in Hrun as (g & ? & Hstep & Hrun). injection Hrun as <- _.
      unfold Bench.Latency.collect_step in Hstep. destruct (0 <? outstanding).
      * do 5 apply bind_returns in Hstep as (? & ? & _ & Hstep). injection Hstep as <- _. cbn. eauto.
      * injection Hstep as <- _. exists []. by rewrite app_nil_r.
Qed.

(** The threads one after the other. *)
Definition in_sequence {V} (thread : R → M E (NvmeDevice A) V) (rngs : list R) : M E (NvmeDevice A) (list V) :=
  for_fold rngs (λ vs rng, v ← thread rng; mret (vs ++ [v])) [].

(** With one thread the program does what the thread does, under every schedule that
    lets it finish; with several, what they do one after the other, under some
    schedule.  [result] is what the program makes of the values of its threads. *)
Definition runs_closures {V B} (thread : R → M E (NvmeDevice A) V)
    (result : list V → M E (NvmeDevice A) B) (program : list nat → list R → M E (NvmeDevice A) B)
    (st : NvmeDevice A * World E) : Prop :=
  (∀ rng,
     let '(r, st') := thread rng st in
     r ≠ Diverged → ∃ k, ∀ sched, (k ≤ count_occ Nat.eq_dec sched 0)%nat →
       program sched [rng] st =
       match r with
       | Ret v => result [v] st'
       | Err _ | Panicked _ => (Panicked (ExpectErr "The thread creation or execution failed!"), st')
       | Diverged => (Diverged, st')
       end) ∧
  (∀ rngs vs st',
     in_sequence thread rngs st = (Ret vs, st') →
     ∃ sched, ∀ more, program (sched ++ more) rngs st = result vs st').

Lemma jobs_run_closures {St V B} (mk : R → Job A E St V) lats n thread
    (fin : list V * list Z → M E (NvmeDevice A) B) program st :
  (∀ rng, GrowingJob (mk rng) lats) → (∀ rng st, covers (closure (mk rng) n) (thread rng) st) →
  (∀ sched rngs, program sched rngs st = (r ← work (mk <$> rngs) sched; fin r) st) →
  runs_closures thread (λ vs, fin (vs, vs ≫= lats)) program st.
Proof.
  intros HG Hcl Hprog. destruct st as [d w]. split.
  - intros rng. pose proof (work_one lats n (mk rng) d w (HG rng)) as Hone.
    destruct (Hcl rng (d, w)) as [Hd|Heq]; [by destruct (thread rng (d, w)) as [r st']; cbn in Hd; subst r|].
    rewrite Heq in Hone. destruct (thread rng (d, w)) as [r st']. intros Hr. destruct (Hone Hr) as (k & Hk).
    exists k. intros sched Hs. rewrite Hprog. cbn [fmap list_fmap]. unfold mbind, M_bind. rewrite (Hk sched Hs).
    destruct r as [v|e|p|]; try done. cbn. by rewrite app_nil_r.
  - intros rngs vs [d' w'] Hseq.
    assert (one_by_one n (mk <$> rngs) (d, w) = (Ret vs, (d', w'))) as Hobo.
    { unfold one_by_one. rewrite for_fold_fmap.
      destruct (for_fold_covers (λ vs rng, v ← thread rng; mret (vs ++ [v]))
        (λ vs rng, v ← closure (mk rng) n; mret (vs ++ [v])) rngs [] (d, w)) as [Hd|Heq].
      - intros vs0 rng st. apply covers_bind; [apply Hcl|by right].
      - unfold in_sequence in Hseq. by rewrite Hseq in Hd.
      - by rewrite Heq. }
    apply (work_one_by_one lats) in Hobo as (sched & Hs); [|by apply Forall_fmap, Forall_true].
    exists sched. intros more. rewrite Hprog. unfold mbind, M_bind. by rewrite Hs.
Qed.

End closures.

(** ** Properties *)


(** *** Two controllers' worth of hardware *)

(** Both see every write; the registers are the first's. *)
Definition side_by_side {E1 E2} (H1 : Hardware E1) (H2 : Hardware E2) : Hardware (E1 * E2) := {|
  hw_run e m :=
    let '(e1, m) := hw_run (Hardware:=H1) e.1 m in
    let '(e2, m) := hw_run (Hardware:=H2) e.2 m in ((e1, e2), m);
  hw_read n a e := let '(v, e1) := hw_read (Hardware:=H1) n a e.1 in (v, (e1, e.2));
  hw_write n a v e := (hw_write (Hardware:=H1) n a v e.1, hw_write (Hardware:=H2) n a v e.2);
|}.

(** The admin queue and the first pair of the demo device are served; a clock. *)
Definition demo_bench_env : Type := (Z * (Z * Z)) * (Z * (Z * Z)) * nat.

Definition demo_bench_cq : CompletionQueue :=
  mkCompletionQueue (mkDma 0x3040000 0x3040000 0x40000) 0 true QUEUE_LENGTH 69644.

Definition demo_bench_hw : Hardware demo_bench_env :=
  clocked_hw (side_by_side (demo_serving (success 4)) (serving_hw demo_bench_cq (success QUEUE_LENGTH) 69640 0)).

Definition demo_bench_mapping : Mapping unit demo_bench_env := {|
  allocate S _ size := mret (mkDma (0x3000000 + size) (0x3000000 + size) size);
  deallocate S _ _ := mret tt;
  map_resource S _ := mret (65536, 16384);
|}.

Definition demo_bench_world : World demo_bench_env := initial ((0, (0, 0)), (0, (0, 0)), 0%nat) (λ _, 0).

Definition demo_bench_device : NvmeDevice unit :=
  NvmeDevice.set_namespaces {[ 1 := mkNvmeNamespace 1 800 512 ]} (admin_pos (demo_device 0) 0).

#[local] Abbreviation demo_thread :=
  (Bench.Throughput.thread (BLD:=true) (FUEL:=10%nat) (HW:=demo_bench_hw) (CK:=counter) (RN:=lowest)
    (MAP:=demo_bench_mapping)).

#[local] Abbreviation demo_threads :=
  (Workers.Throughput.qd_n_multithread (BLD:=true) (FUEL:=10%nat) (HW:=demo_bench_hw) (CK:=counter)
    (RN:=lowest) (MAP:=demo_bench_mapping)).

Lemma demo_thread_run :
  (demo_thread 2 100 20 true false tt (demo_bench_device, demo_bench_world)).1 = Ret 4.
Proof. by vm_compute. Qed.

Lemma demo_sequential_run :
  (in_sequence (demo_thread 2 100 20 true false) [tt] (demo_bench_device, demo_bench_world)).1 = Ret [4].
Proof. by vm_compute. Qed.

