(* ===== verification/Turns.v ===== *)
(** The threads of the benchmarks under every schedule, against every controller:
    they come to rest, and their pairs never meet.  The theorems on the pool of
    [Workers] that hold of all interleavings. *)

From stdpp Require Import gmap.
From S2P Require Import Prelude Bytes Machine Memory Cmd Mapping Queues Service Format Os Receiver QueuePair Device Setup Io Protocol Frame Pairs Examples Bench Measure Workers Schedule Closures.
#[local] Open Scope Z_scope.

(** ** What a job does to its pair *)

(** The tail inside the ring. *)
Definition in_ring (p : NvmeQueuePair) : Prop := 0 ≤ sq_tail (sub_queue p) < sq_len (sub_queue p).

Lemma in_ring_shape p : in_ring p ↔ pair_shape p p.
Proof. split; [|by intros (_ & (_ & _ & _ & ?) & _)]. intros ?. by split_and!. Qed.

Lemma in_ring_kept p p' : pair_shape p p' → in_ring p'.
Proof. intros (_ & (_ & Hl & _ & ?) & _). unfold in_ring. by rewrite Hl. Qed.

(** A job whose steps stay on the pair they are given. *)
Class LocalJob {A E St V} (job : Job A E St V) : Prop := {
  start_local : ∀ p buffer, framed (pair_shape p) (λ _, True) (job_start job buffer);
  step_local : ∀ p buffer st, framed (pair_shape p) (λ _, True) (job_step job buffer st);
}.

(** A job that comes to its end: [rank] bounds the iterations left of its loop. *)
Class BoundedJob {A E St V} (job : Job A E St V) (rank : St → nat) (bound : nat) : Prop := {
  bounded_local :: LocalJob job;
  pair_in_ring : ∀ st p st', job_pair job st = (Ret p, st') → in_ring p;
  start_rank : ∀ buffer p w st s', job_start job buffer (p, w) = (Ret st, s') → (rank st ≤ bound)%nat;
  step_rank : ∀ buffer st p w st' s', in_ring p →
    job_step job buffer st (p, w) = (Ret (Continue st'), s') → (rank st' < rank st)%nat;
}.

(** The pair a thread holds. *)
Definition held {St V} (wk : Worker St V) : option NvmeQueuePair :=
  match wk with
  | Created _ p | Looping _ p _ | Ended p _ => Some p
  | _ => None
  end.

(** ** Termination *)

Section rank.
Context {A E St V : Type}.
Context (job : Job A E St V) (rank : St → nat) (bound : nat) `{BJ : !BoundedJob job rank bound}.
Implicit Types (wk : Worker St V) (sh : Shared A) (w : World E).

(** The turns a thread still needs at most. *)
Definition turns_left wk : nat :=
  match wk with
  | Started => bound + 5
  | Buffered _ => bound + 4
  | Created _ _ => bound + 3
  | Looping _ _ st => rank st + 2
  | Ended _ _ => 1
  | Finished _ | Dead | Stuck => 0
  end.

Definition holds_in_ring wk : Prop := ∀ p, held wk = Some p → in_ring p.

Lemma turns_left_rest wk : turns_left wk = 0%nat → at_rest wk.
Proof. destruct wk; cbn; lia || done. Qed.

Lemma advance_rank wk sh w :
  holds_in_ring wk →
  let wk' := (advance job wk sh w).1 in
  holds_in_ring wk' ∧ (turns_left wk' ≤ pred (turns_left wk))%nat.
Proof using BJ.
  intros Hheld. destruct wk as [|buffer|buffer p|buffer p st|p v|v| |]; cbn [advance]; try by split.
  - unfold locked. destruct (sh_lock sh); [|by split; [|cbn; lia]..].
    destruct (job_buffer job _) as [[b|e|k|] [d w']]; split; done || (cbn; lia).
  - unfold locked. destruct (sh_lock sh); [|by split; [|cbn; lia]..].
    destruct (job_pair job _) as [[p|e|k|] [d w']] eqn:Hp; split; try done || (cbn; lia).
    intros q [= <-]. by eapply pair_in_ring.
  - unfold unlocked. assert (in_ring p) as Hr by by apply Hheld. apply in_ring_shape in Hr.
    pose proof (start_local p buffer p w Hr I) as [Hs _].
    destruct (job_start job buffer (p, w)) as [[st|e|k|] [p' w']] eqn:Hst; split; try done || (cbn; lia).
    + intros q [= <-]. by eapply in_ring_kept.
    + apply start_rank in Hst. cbn. lia.
  - assert (in_ring p) as Hr by by apply Hheld. pose proof Hr as Hr'. apply in_ring_shape in Hr'.
    pose proof (step_local p buffer st p w Hr' I) as [Hs _].
    destruct (job_step job buffer st (p, w)) as [[[st'|v]|e|k|] [p' w']] eqn:Hst; split; try done || (cbn; lia).
    + intros q [= <-]. by eapply in_ring_kept.
    + apply step_rank in Hst; [|done]. cbn. lia.
    + intros q [= <-]. by eapply in_ring_kept.
  - unfold locked. destruct (sh_lock sh); [|by split; [|cbn; lia]..].
    destruct (job_end job p _) as [[b|e|k|] [d w']]; split; done || (cbn; lia).
Qed.

End rank.

Section pool.
Context {A E St V : Type} (jobs : list (Job A E St V)) (rank : St → nat) (bound : nat).
Context (BJ : ∀ i job, jobs !! i = Some job → BoundedJob job rank bound).

(** After its turns so far, a thread needs that many fewer. *)
Lemma turns_rank sched p i job wk :
  jobs !! i = Some job → pool_workers p !! i = Some wk → holds_in_ring wk →
  ∃ wk', pool_workers (turns jobs p sched) !! i = Some wk' ∧
    (turns_left rank bound wk' ≤ turns_left rank bound wk - count_occ Nat.eq_dec sched i)%nat.
Proof.
  intros Hj. revert p wk. induction sched as [|j sched IH]; intros p wk Hwk Hh.
  { exists wk. split; [done|cbn; lia]. }
  change (turns jobs p (j :: sched)) with (turns jobs (turn jobs p j) sched). unfold turn.
  destruct (decide (j = i)) as [->|Hji].
  - rewrite count_occ_cons_eq, Hj, Hwk by done. pose proof (BJ i job Hj) as BJi.
    pose proof (advance_rank job rank bound wk (pool_shared p) (pool_world p) Hh) as [Hh' Hr].
    destruct (advance job wk (pool_shared p) (pool_world p)) as [wk1 [sh1 w1]]. cbn [fst] in Hh', Hr.
    destruct (IH (mkPool sh1 (<[i := wk1]> (pool_workers p)) w1) wk1) as (wk' & Hwk' & ?);
      [apply list_lookup_insert_eq; by eapply lookup_lt_Some|done|].
    exists wk'. split; [done|lia].
  - rewrite count_occ_cons_neq by done. destruct (jobs !! j) as [jobj|]; [|by apply IH].
    destruct (pool_workers p !! j) as [wkj|]; [|by apply IH].
    destruct (advance jobj wkj _ _) as [wk1 [sh1 w1]]. apply IH; [|done].
    cbn. by rewrite list_lookup_insert_ne by done.
Qed.

Lemma turns_length sched p : length (pool_workers (turns jobs p sched)) = length (pool_workers p).
Proof.
  revert p. induction sched as [|j sched IH]; intros p; [done|].
  change (turns jobs p (j :: sched)) with (turns jobs (turn jobs p j) sched). rewrite IH. unfold turn.
  destruct (jobs !! j) as [job|]; [|done]. destruct (pool_workers p !! j) as [wk|]; [|done].
  destruct (advance job wk _ _) as [wk1 [sh1 w1]]. apply length_insert.
Qed.

(** Enough turns for each. *)
Definition fair (n : nat) (sched : list nat) : Prop :=
  ∀ i, (i < length jobs)%nat → (n ≤ count_occ Nat.eq_dec sched i)%nat.

Lemma spawn_comes_to_rest sched d w :
  fair (bound + 5) sched → Forall at_rest (pool_workers (turns jobs (spawn jobs d w) sched)).
Proof.
  intros Hfair. apply Forall_lookup. intros i wk Hwk. pose proof (lookup_lt_Some _ _ _ Hwk) as Hi.
  rewrite turns_length in Hi. cbn in Hi. rewrite length_fmap in Hi.
  destruct (lookup_lt_is_Some_2 jobs i Hi) as [job Hj].
  destruct (turns_rank sched (spawn jobs d w) i job Started) as (wk' & Hwk' & Hr); [done| |done|].
  { cbn. by rewrite list_lookup_fmap, Hj. }
  rewrite Hwk' in Hwk. injection Hwk as ->. apply (turns_left_rest rank bound).
  specialize (Hfair i Hi). cbn [turns_left] in Hr. lia.
Qed.

(** A lock that is poisoned or held for ever has left its mark on a thread. *)
Definition lock_marked (p : Pool A E St V) : Prop :=
  match sh_lock (pool_shared p) with
  | Free => True
  | Poisoned => Dead ∈ pool_workers p
  | Held => Stuck ∈ pool_workers p
  end.

Lemma advance_lock (job : Job A E St V) wk sh w :
  let '(wk', (sh', _)) := advance job wk sh w in
  sh_lock sh' = sh_lock sh ∨ (sh_lock sh = Free ∧ sh_lock sh' = Poisoned ∧ wk' = Dead) ∨
  (sh_lock sh = Free ∧ sh_lock sh' = Held ∧ wk' = Stuck).
Proof.
  destruct wk as [|buffer|buffer p|buffer p st|p v|v| |]; cbn [advance]; try by left.
  - unfold locked. destruct (sh_lock sh) eqn:Hl; [|by left..].
    destruct (job_buffer job _) as [[b|e|k|] [d w']]; cbn; auto.
  - unfold locked. destruct (sh_lock sh) eqn:Hl; [|by left..].
    destruct (job_pair job _) as [[b|e|k|] [d w']]; cbn; auto.
  - unfold unlocked. destruct (job_start job buffer (p, w)) as [[b|e|k|] [p' w']]; by left.
  - destruct (job_step job buffer st (p, w)) as [[b|e|k|] [p' w']]; by left.
  - unfold locked. destruct (sh_lock sh) eqn:Hl; [|by left..].
    destruct (job_end job p _) as [[b|e|k|] [d w']]; cbn; auto.
Qed.

Lemma elem_of_insert_other {X} (l : list X) i x y z :
  l !! i = Some x → x ≠ z → z ∈ l → z ∈ <[i := y]> l.
Proof.
  intros Hi Hxz [j Hj]%list_elem_of_lookup. apply list_elem_of_lookup. exists j.
  rewrite list_lookup_insert_ne; [done|]. intros ->. rewrite Hi in Hj. by injection Hj.
Qed.

Lemma turn_lock p i : lock_marked p → lock_marked (turn jobs p i).
Proof.
  intros Hm. unfold turn. destruct (jobs !! i) as [job|]; [|done].
  destruct (pool_workers p !! i) as [wk|] eqn:Hwk; [|done].
  assert (∀ wk', wk' ∈ <[i := wk']> (pool_workers p)) as Hin.
  { intros wk'. apply list_elem_of_lookup. exists i. apply list_lookup_insert_eq. by eapply lookup_lt_Some. }
  destruct (turns_left rank bound wk) eqn:Hr.
  { apply turns_left_rest in Hr. rewrite advance_rest by done. rewrite list_insert_id by done. by destruct p. }
  pose proof (advance_lock job wk (pool_shared p) (pool_world p)) as Ha.
  destruct (advance job wk _ _) as [wk' [sh' w']]. unfold lock_marked in *. cbn [pool_shared pool_workers].
  destruct Ha as [->|[(_ & -> & ->)|(_ & -> & ->)]]; [|apply Hin..].
  destruct (sh_lock (pool_shared p)); [done|..]; (eapply elem_of_insert_other; [done| |done]); by intros ->.
Qed.

Lemma turns_lock p sched : lock_marked p → lock_marked (turns jobs p sched).
Proof.
  revert p. induction sched as [|i sched IH]; intros p Hm; [done|].
  change (turns jobs p (i :: sched)) with (turns jobs (turn jobs p i) sched). by apply IH, turn_lock.
Qed.

(** At rest, the threads are joined unless one of them spins. *)
Lemma join_rest (ws : list (Worker St V)) :
  Forall at_rest ws → Stuck ∉ ws →
  (Dead ∈ ws ∧ join ws = Panicked (ExpectErr "The thread creation or execution failed!")) ∨
  (∃ vs, ws = Finished <$> vs ∧ join ws = Ret vs).
Proof.
  intros Hr. induction Hr as [|wk ws Hwk _ IH]; [right; by exists []|]. rewrite not_elem_of_cons.
  intros [Hs Hws]. destruct wk as [| | | | |v| |]; try done.
  - cbn [join]. destruct (IH Hws) as [[Hd ->]|(vs & -> & ->)].
    + left. split; [by right|done].
    + right. by exists (v :: vs).
  - left. split; [by left|done].
Qed.

(** What the program has to go on with. *)
Lemma work_comes_to_rest sched d w :
  fair (bound + 5) sched →
  (∀ more, work jobs (sched ++ more) (d, w) = work jobs sched (d, w)) ∧
  let p := turns jobs (spawn jobs d w) sched in
  let st := (sh_device (pool_shared p), pool_world p) in
  (Stuck ∉ pool_workers p →
   (Dead ∈ pool_workers p ∧
    work jobs sched (d, w) = (Panicked (ExpectErr "The thread creation or execution failed!"), st)) ∨
   (∃ vs, pool_workers p = Finished <$> vs ∧
      work jobs sched (d, w) = (Ret (vs, sh_latencies (pool_shared p)), st))).
Proof.
  intros Hfair. pose proof (spawn_comes_to_rest sched d w Hfair) as Hrest. split.
  - intros more. unfold work. cbn [fst snd]. by rewrite turns_app, (turns_rest _ (turns _ _ _)).
  - intros p st Hs. assert (lock_marked p) as Hlock by by apply turns_lock.
    unfold work. cbn [fst snd]. fold p.
    destruct (join_rest _ Hrest Hs) as [[Hd Hj]|(vs & Hvs & Hj)].
    + left. split; [done|]. unfold p. by rewrite Hj.
    + right. exists vs. split; [done|]. unfold p at 1. rewrite Hj. unfold lock_marked in Hlock.
      fold p in Hvs. rewrite Hvs in Hlock.
      destruct (sh_lock (pool_shared p)); [done|..]; apply list_elem_of_fmap in Hlock as (? & [=] & _).
Qed.

End pool.

(** ** The jobs of the benchmarks *)

(** What the steps of the loops touch. *)
Section framed.
Context {E R : Type} `{BLD : Build} `{FUEL : Fuel} `{HW : Hardware E} `{CK : Clock E} `{RN : Rng R}.
Context (p0 : NvmeQueuePair) (I : World E → Prop) (K : Kept p0 I).

#[local] Abbreviation pframed := (framed (pair_shape p0) I).

Lemma now_framed : pframed now.
Proof. intros p w ? ?. split; [done|]. by apply (kept_tick p0 I K). Qed.

Lemma elapsed_framed t : pframed (elapsed t).
Proof. unfold elapsed. frame_step; [apply now_framed|by frame_step]. Qed.

Lemma add_duration_framed a b : pframed (add_duration a b).
Proof. unfold add_duration. by repeat frame_step. Qed.

Lemma next_lba_framed random ns_blocks (rng : R) : pframed (Bench.Throughput.next_lba random ns_blocks rng).
Proof. unfold Bench.Throughput.next_lba, gen_range. by repeat frame_step. Qed.

Lemma slice_framed dma a b : pframed (Dma.slice dma a b).
Proof. unfold Dma.slice. by repeat frame_step. Qed.

Lemma make_room_framed depth outstanding ops : pframed (Bench.Throughput.make_room depth outstanding ops).
Proof.
  unfold Bench.Throughput.make_room, Bench.Throughput.drain.
  repeat first [apply (quick_poll_framed p0 I K) | apply (complete_io_framed p0 I K) | frame_step].
Qed.

Lemma submit_slice_framed buffer write outstanding lba :
  pframed (Bench.Throughput.submit_slice buffer write outstanding lba).
Proof.
  unfold Bench.Throughput.submit_slice.
  repeat first [apply slice_framed | apply (submit_io_framed p0 I K) | frame_step].
Qed.

Lemma collect_framed outstanding : pframed (NvmeQueuePair.complete_io outstanding).
Proof. by apply complete_io_framed. Qed.

Lemma bench_step_framed depth ns_blocks buffer random write (st : Z * Z * Z * R) :
  pframed (Bench.Throughput.bench_step depth ns_blocks buffer random write st).
Proof.
  unfold Bench.Throughput.bench_step. destruct st as [[[total outstanding] ops] rng].
  repeat first [apply next_lba_framed | apply now_framed | apply make_room_framed | apply submit_slice_framed
               | apply elapsed_framed | apply add_duration_framed | frame_step].
Qed.

Lemma finish_framed total outstanding ops : pframed (Bench.Throughput.finish total outstanding ops).
Proof.
  unfold Bench.Throughput.finish.
  repeat first [apply now_framed | apply collect_framed | apply elapsed_framed
               | apply add_duration_framed | frame_step].
Qed.

Lemma latency_step_framed depth ns_blocks buffer write (st : Z * Z * Z * list Z * R) :
  pframed (Bench.Latency.bench_step depth ns_blocks buffer write st).
Proof.
  unfold Bench.Latency.bench_step, gen_range. destruct st as [[[[total outstanding] ops] latencies] rng].
  repeat first [apply now_framed | apply make_room_framed | apply submit_slice_framed
               | apply elapsed_framed | apply add_duration_framed | frame_step].
Qed.

Lemma latency_finish_framed total outstanding ops latencies :
  pframed (Bench.Latency.finish total outstanding ops latencies).
Proof.
  unfold Bench.Latency.finish.
  repeat first [apply now_framed | apply collect_framed | apply elapsed_framed
               | apply add_duration_framed | frame_step].
Qed.

Lemma nanos_step_framed depth ns_blocks buffer random write (st : Z * list Z * R) :
  pframed (Bench.Latency.nanos_step depth ns_blocks buffer random write st).
Proof.
  unfold Bench.Latency.nanos_step, Bench.Latency.poll_all, gen_range. destruct st as [[outstanding latencies] rng].
  repeat first [apply now_framed | apply submit_slice_framed | apply (quick_poll_framed p0 I K)
               | apply elapsed_framed | frame_step].
Qed.

Lemma collect_step_framed st : pframed (Bench.Latency.collect_step st).
Proof.
  unfold Bench.Latency.collect_step. destruct st as [outstanding latencies].
  repeat first [apply now_framed | apply collect_framed | apply (quick_poll_framed p0 I K)
               | apply elapsed_framed | frame_step].
Qed.

End framed.

(** The sum of the times measured grows with every iteration. *)
Section timed.
Context {E R : Type} `{BLD : Build} `{FUEL : Fuel} `{HW : Hardware E} `{CK : Clock E} `{RN : Rng R}.
Context `{CL : !ClockLaws}.

Lemma clock_kept p t : Kept p (λ w : World E, t ≤ clock (env w)).
Proof.
  split; intros; try done.
  - pose proof (clock_tick w). lia.
  - etrans; [done|apply clock_write].
  - etrans; [done|apply clock_write].
Qed.

Lemma framed_returns {S B} (J : S → Prop) (I : World E → Prop) (m : M E S B) s w r s' w' :
  framed J I m → J s → I w → m (s, w) = (r, (s', w')) → J s' ∧ I w'.
Proof. intros Hm Hs Hw Hrun. specialize (Hm s w Hs Hw). by rewrite Hrun in Hm. Qed.

Lemma elapsed_returns {S} t (s : S) (w : World E) e st :
  t ≤ clock (env w) → elapsed t (s, w) = (Ret e, st) → 1 ≤ e.
Proof.
  intros Ht [= <- _]. pose proof (clock_tick w). lia.
Qed.

Lemma add_duration_returns {S} a b (st : S * World E) z st' : add_duration a b st = (Ret z, st') → z = a + b.
Proof. unfold add_duration. destruct (_ <? _); [by intros [= <- _]|done]. Qed.

(** Choosing a position touches nothing. *)
Lemma still_returns {S B} (m : M E S B) st b st' : still m → m st = (Ret b, st') → st' = st.
Proof. intros Hm Hrun. specialize (Hm st). by rewrite Hrun in Hm. Qed.

Lemma gen_range_still {S} lo hi (rng : R) : still (E:=E) (S:=S) (gen_range lo hi rng).
Proof. unfold gen_range. apply still_bind; [apply still_assert|done]. Qed.

Lemma next_lba_still {S} random ns_blocks (rng : R) :
  still (E:=E) (S:=S) (Bench.Throughput.next_lba random ns_blocks rng).
Proof.
  unfold Bench.Throughput.next_lba. destruct random; [apply gen_range_still|].
  apply still_bind; [apply still_ck|intros]. apply still_bind; [apply still_umod|done].
Qed.

Lemma bench_step_total depth ns_blocks buffer random write total rest ops rng p (w : World E) st' s' :
  in_ring p →
  Bench.Throughput.bench_step depth ns_blocks buffer random write (total, rest, ops, rng : R) (p, w) = (Ret st', s') →
  total + 1 ≤ st'.1.1.1.
Proof using CL.
  intros Hr Hrun. unfold Bench.Throughput.bench_step in Hrun.
  apply bind_returns in Hrun as ([lba rng'] & s1 & Hl & Hrun).
  apply still_returns in Hl as ->; [|apply next_lba_still].
  apply bind_returns in Hrun as (before & [p2 w2] & Hb & Hrun). injection Hb as <- <- <-.
  apply in_ring_shape in Hr. pose proof (clock_kept p (clock (env (tick w)))) as K.
  apply bind_returns in Hrun as ([outstanding' ops'] & [p3 w3] & Hm & Hrun).
  eapply framed_returns in Hm as [Hp3 Hw3]; [|exact (make_room_framed _ _ K _ _ _)|done|cbn; lia].
  apply bind_returns in Hrun as ([] & [p4 w4] & Hm & Hrun).
  eapply framed_returns in Hm as [Hp4 Hw4]; [|exact (submit_slice_framed _ _ K _ _ _ _)|done|done].
  apply bind_returns in Hrun as (e & s5 & He & Hrun). apply elapsed_returns in He; [|done].
  apply bind_returns in Hrun as (total' & s6 & Ht & Hrun). apply add_duration_returns in Ht as ->.
  apply bind_returns in Hrun as (n & s7 & _ & Hrun). injection Hrun as <- _. cbn. lia.
Qed.

Lemma latency_step_total depth ns_blocks buffer write total rest ops lats rng p (w : World E) st' s' :
  in_ring p →
  Bench.Latency.bench_step depth ns_blocks buffer write (total, rest, ops, lats, rng : R) (p, w) = (Ret st', s') →
  total + 1 ≤ st'.1.1.1.1.
Proof using CL.
  intros Hr Hrun. unfold Bench.Latency.bench_step in Hrun.
  apply bind_returns in Hrun as ([lba rng'] & s1 & Hl & Hrun). 
  apply still_returns in Hl as ->; [|apply gen_range_still].
  apply bind_returns in Hrun as (before & [p2 w2] & Hb & Hrun). injection Hb as <- <- <-.
  apply in_ring_shape in Hr. pose proof (clock_kept p (clock (env (tick w)))) as K.
  apply bind_returns in Hrun as ([outstanding' ops'] & [p3 w3] & Hm & Hrun).
  eapply framed_returns in Hm as [Hp3 Hw3]; [|exact (make_room_framed _ _ K _ _ _)|done|cbn; lia].
  apply bind_returns in Hrun as ([] & [p4 w4] & Hm & Hrun).
  eapply framed_returns in Hm as [Hp4 Hw4]; [|exact (submit_slice_framed _ _ K _ _ _ _)|done|done].
  apply bind_returns in Hrun as (l & [p5 w5] & He5 & Hrun). pose proof (clock_tick w4).
  cbn beta in Hw4. injection He5 as <- <- <-.
  apply bind_returns in Hrun as (e & s6 & He & Hrun). apply elapsed_returns in He; [|lia].
  apply bind_returns in Hrun as (total' & s7 & Ht & Hrun). apply add_duration_returns in Ht as ->.
  apply bind_returns in Hrun as (n & s8 & _ & Hrun). injection Hrun as <- _. cbn. lia.
Qed.

End timed.

Section jobs.
Context {A E R : Type} `{BLD : Build} `{FUEL : Fuel} `{HW : Hardware E} `{CK : Clock E} `{RN : Rng R}.
Context `{MAP : Mapping A E}.

Lemma anything_kept p : Kept p (λ _ : World E, True).
Proof. done. Qed.

Lemma fill_framed p buffer block : framed (pair_shape p) (λ _ : World E, True) (fill_buffer buffer block).
Proof. unfold fill_buffer, Dma.index_to, Dma.index_range. repeat first [by apply framed_store | frame_step]. Qed.

#[export] Instance throughput_local depth ns_blocks duration random write (rng : R) :
  LocalJob (Workers.Throughput.job (A:=A) depth ns_blocks duration random write rng).
Proof.
  split; cbn.
  - intros p buffer. repeat first [apply fill_framed | frame_step].
  - intros p buffer [[[total outstanding] ops] rng']. pose proof (anything_kept p) as K.
    destruct (total <? duration); frame_step; [|by frame_step| |by frame_step].
    + by apply bench_step_framed.
    + by apply finish_framed.
Qed.

#[export] Instance latency_local depth ns_blocks duration write (rng : R) :
  LocalJob (Workers.Latency.job (A:=A) depth ns_blocks duration write rng).
Proof.
  split; cbn.
  - intros p buffer. repeat first [apply fill_framed | frame_step].
  - intros p buffer [[[[total outstanding] ops] latencies] rng']. pose proof (anything_kept p) as K.
    destruct (total <? duration); frame_step; [|by frame_step| |by frame_step].
    + by apply latency_step_framed.
    + by apply latency_finish_framed.
Qed.

#[export] Instance nanos_local depth ns_blocks duration random write (rng : R) :
  LocalJob (Workers.Latency.nanos_job (A:=A) depth ns_blocks duration random write rng).
Proof.
  split; cbn.
  - intros p buffer. unfold Dma.index_range. pose proof (anything_kept p) as K.
    repeat first [by apply now_framed | by apply framed_store | frame_step].
  - intros p buffer [[start st]|st]; pose proof (anything_kept p) as K.
    + frame_step; [by apply elapsed_framed|]. destruct (_ <? duration); [|by frame_step].
      frame_step; [by apply nanos_step_framed|by frame_step].
    + frame_step; [by apply collect_step_framed|by frame_step].
Qed.

(** A pair as it is created. *)
Lemma create_returns len st (p : NvmeQueuePair) st' :
  0 < len → NvmeDevice.create_io_queue_pair (A:=A) len st = (Ret p, st') →
  qp_id p = q_id st.1 ∧ sq_tail (sub_queue p) = 0 ∧ 0 < sq_len (sub_queue p).
Proof.
  intros Hlen Hrun. unfold NvmeDevice.create_io_queue_pair in Hrun. apply bind_returns in Hrun as (self & st0 & Hs & Hrun).
  injection Hs as <- <-. do 15 apply bind_returns in Hrun as (? & ? & _ & Hrun).
  apply bind_returns in Hrun as (sub & ? & Hsub & Hrun).
  do 4 apply bind_returns in Hrun as (? & ? & _ & Hrun). injection Hrun as <- _.
  unfold SubmissionQueue.new in Hsub. apply bind_returns in Hsub as (? & ? & _ & Hsub).
  injection Hsub as <- _. cbn. rewrite QUEUE_LENGTH_value. lia.
Qed.

Lemma create_in_ring len st (p : NvmeQueuePair) st' :
  0 < len → NvmeDevice.create_io_queue_pair (A:=A) len st = (Ret p, st') → in_ring p.
Proof. intros Hlen Hrun. destruct (create_returns _ _ _ _ Hlen Hrun) as (_ & Ht & Hl). unfold in_ring. lia. Qed.

Lemma queue_length_pos : 0 < QUEUE_LENGTH.
Proof. by rewrite QUEUE_LENGTH_value. Qed.

#[export] Instance throughput_bounded depth ns_blocks duration random write (rng : R) :
  ClockLaws (HW:=HW) →
  BoundedJob (Workers.Throughput.job (A:=A) depth ns_blocks duration random write rng)
    (λ st, Z.to_nat (duration - st.1.1.1)) (Z.to_nat duration).
Proof.
  intros CL. split; [apply _|..]; cbn.
  - intros st p st'. apply create_in_ring, queue_length_pos.
  - intros buffer p w st s' Hrun. apply bind_returns in Hrun as (n & ? & _ & Hrun).
    destruct (random_bytes _ _) as [block rng']. apply bind_returns in Hrun as (? & ? & _ & Hrun).
    injection Hrun as <- _. cbn. lia.
  - intros buffer [[[total rest] ops] rng'] p w st' s' Hr Hrun. cbn.
    destruct (Z.ltb_spec total duration); cycle 1.
    { by apply bind_returns in Hrun as (? & ? & _ & [=]). }
    apply bind_returns in Hrun as (st1 & ? & Hstep & Hrun). injection Hrun as <- _.
    apply bench_step_total in Hstep; [lia|done].
Qed.

#[export] Instance latency_bounded depth ns_blocks duration write (rng : R) :
  ClockLaws (HW:=HW) →
  BoundedJob (Workers.Latency.job (A:=A) depth ns_blocks duration write rng)
    (λ st, Z.to_nat (duration - st.1.1.1.1)) (Z.to_nat duration).
Proof.
  intros CL. split; [apply _|..]; cbn.
  - intros st p st'. apply create_in_ring, queue_length_pos.
  - intros buffer p w st s' Hrun. apply bind_returns in Hrun as (n & ? & _ & Hrun).
    destruct (random_bytes _ _) as [block rng']. apply bind_returns in Hrun as (? & ? & _ & Hrun).
    injection Hrun as <- _. cbn. lia.
  - intros buffer [[[[total rest] ops] latencies] rng'] p w st' s' Hr Hrun. cbn.
    destruct (Z.ltb_spec total duration); cycle 1.
    { by apply bind_returns in Hrun as (? & ? & _ & [=]). }
    apply bind_returns in Hrun as (st1 & ? & Hstep & Hrun). injection Hrun as <- _.
    apply latency_step_total in Hstep; [lia|done].
Qed.

End jobs.

(** ** Properties *)

(** C9: the threads of the benchmarks come to rest.  The clock moves; nothing is
    assumed of the controller, of the other threads or of the order of the turns.
    A thread that has had [duration + 5] turns (a duration is a number of
    nanoseconds) has finished, has panicked, or spins inside one of its waits for
    the controller: further turns change nothing.  When no thread spins, the program
    ends: with the panic of [join] if a thread has panicked, and otherwise with what
    all the threads have returned, the lock around the device being free.  This
    holds of the throughput and of the latency benchmark. *)
Theorem threads_come_to_rest {A E R} `{BLD : Build} `{FUEL : Fuel} `{HW : Hardware E} `{CK : Clock E}
    `{RN : Rng R} `{MAP : Mapping A E} (d : NvmeDevice A) (w : World E) (ns : NvmeNamespace)
    (depth duration : Z) (random write : bool) (rngs : list R) (sched : list nat) :
  ClockLaws (HW:=HW) → namespaces d !! 1 = Some ns →
  (∀ i, (i < length rngs)%nat → (Z.to_nat duration + 5 ≤ count_occ Nat.eq_dec sched i)%nat) →
  let failed := ExpectErr "The thread creation or execution failed!" in
  (let run sched := Workers.Throughput.qd_n_multithread sched depth duration random write rngs (d, w) in
   let jobs := Workers.Throughput.job depth (blocks ns / 8) duration random write <$> rngs in
   let p := turns jobs (spawn jobs d w) sched in
   let st := (sh_device (pool_shared p), pool_world p) in
   (∀ more, run (sched ++ more) = run sched) ∧
   (Stuck ∉ pool_workers p →
    (Dead ∈ pool_workers p ∧ run sched = (Panicked failed, st)) ∨
    (∃ vs, pool_workers p = Finished <$> vs ∧
       run sched = for_fold vs (λ total ops, ck64 (total + ops)) 0 st))) ∧
  (let run sched := Workers.Latency.qd_n_multithread sched depth duration write rngs (d, w) in
   let jobs := Workers.Latency.job depth (blocks ns / 8) duration write <$> rngs in
   let p := turns jobs (spawn jobs d w) sched in
   let st := (sh_device (pool_shared p), pool_world p) in
   (∀ more, run (sched ++ more) = run sched) ∧
   (Stuck ∉ pool_workers p →
    (Dead ∈ pool_workers p ∧ run sched = (Panicked failed, st)) ∨
    (∃ vs, pool_workers p = Finished <$> vs ∧
       run sched = (_ ← for_fold vs (λ total res, ck64 (total + res.1)) 0;
                    mret (sh_latencies (pool_shared p))) st))).
Proof.
  intros HCL Hns Hfair failed. split; intros run jobs p st.
  - destruct (work_comes_to_rest jobs (λ st, Z.to_nat (duration - st.1.1.1)) (Z.to_nat duration)) with
      (sched := sched) (d := d) (w := w) as [Hmore Hend].
    { intros i job (rng & -> & _)%list_lookup_fmap_Some. by apply throughput_bounded. }
    { intros i. unfold jobs. rewrite length_fmap. apply Hfair. }
    unfold run, Workers.Throughput.qd_n_multithread, get, unwrap, mbind, M_bind. cbn [fst snd]. rewrite Hns.
    cbn [mret M_ret]. change (blocks ns / Bench.Throughput.blocks_per_io) with (blocks ns / 8). fold jobs.
    split; [intros more; by rewrite Hmore|]. intros Hs.
    destruct (Hend Hs) as [[Hd ->]|(vs & Hvs & ->)]; [by left|]. right. by exists vs.
  - destruct (work_comes_to_rest jobs (λ st, Z.to_nat (duration - st.1.1.1.1)) (Z.to_nat duration)) with
      (sched := sched) (d := d) (w := w) as [Hmore Hend].
    { intros i job (rng & -> & _)%list_lookup_fmap_Some. by apply latency_bounded. }
    { intros i. unfold jobs. rewrite length_fmap. apply Hfair. }
    unfold run, Workers.Latency.qd_n_multithread, get, unwrap, mbind, M_bind. cbn [fst snd]. rewrite Hns.
    cbn [mret M_ret]. change (blocks ns / Bench.Throughput.blocks_per_io) with (blocks ns / 8). fold jobs.
    split; [intros more; by rewrite Hmore|]. intros Hs.
    destruct (Hend Hs) as [[Hd ->]|(vs & Hvs & ->)]; [by left|]. right. by exists vs.
Qed.

(** Two threads in turn.  The controller only knows the pair of the first, and the
    allocator gives the second the same ring: it finds completions of commands that
    it has not sent. *)
Definition demo_turns : list nat := flat_map (λ _, [0; 1]%nat) (seq 0 25).

#[local] Abbreviation demo_two_jobs :=
  (Workers.Throughput.job (BLD:=true) (FUEL:=10%nat) (HW:=demo_bench_hw) (CK:=counter) (RN:=lowest)
    (MAP:=demo_bench_mapping) 2 100 20 true false <$> [tt; tt]).

#[local] Abbreviation demo_two_threads sched :=
  (Workers.Throughput.qd_n_multithread (BLD:=true) (FUEL:=10%nat) (HW:=demo_bench_hw) (CK:=counter)
    (RN:=lowest) (MAP:=demo_bench_mapping) sched 2 20 true false [tt; tt] (demo_bench_device, demo_bench_world)).

Lemma demo_two_end :
  pool_workers (turns demo_two_jobs (spawn demo_two_jobs demo_bench_device demo_bench_world) demo_turns) =
  [Finished 4; Dead].
Proof. by vm_compute. Qed.

Lemma threads_come_to_rest_witness :
  (∀ more, demo_two_threads (demo_turns ++ more) = demo_two_threads demo_turns) ∧
  (demo_two_threads demo_turns).1 = Panicked (ExpectErr "The thread creation or execution failed!").
Proof.
  destruct (threads_come_to_rest (BLD:=true) (FUEL:=10%nat) (HW:=demo_bench_hw) (CK:=counter)
    (RN:=lowest) (MAP:=demo_bench_mapping) demo_bench_device demo_bench_world (mkNvmeNamespace 1 800 512)
    2 20 true false [tt; tt] demo_turns) as [[Hmore Hend] _].
  - apply (clocked_laws (side_by_side (demo_serving (success 4))
      (serving_hw demo_bench_cq (success QUEUE_LENGTH) 69640 0))).
  - done.
  - intros [|[|i]] Hi; [by apply Nat.leb_le|by apply Nat.leb_le|cbn in Hi; lia].
  - split; [exact Hmore|]. pose proof demo_two_end as Hws.
    change (blocks (mkNvmeNamespace 1 800 512) / 8) with 100 in Hend. rewrite Hws in Hend.
    destruct Hend as [[_ ->]|(vs & Hvs & _)]; [|done|].
    + by intros [?|[?|[]%elem_of_nil]%elem_of_cons]%elem_of_cons.
    + destruct vs as [|v1 [|v2 vs]]; done.
Defined.
