(* ===== verification/Apart.v ===== *)
(** The pairs of the threads of the benchmarks, under every schedule and against
    every controller: no two threads ever hold pairs with the same id or a doorbell
    in common. *)

From stdpp Require Import gmap.
From S2P Require Import Prelude Bytes Machine Memory Cmd Mapping Queues Service Format Os Receiver QueuePair Device Setup Io Protocol Frame Pairs Examples Bench Measure Workers Schedule Closures Turns.
#[local] Open Scope Z_scope.

(** ** What the device keeps *)

(** The registers of [d0], with [q] as the next id. *)
Definition device_of {A} (d0 : NvmeDevice A) (q : Z) (d : NvmeDevice A) : Prop :=
  addr d = addr d0 ∧ dev_len d = dev_len d0 ∧ dstrd d = dstrd d0 ∧ q_id d = q.

(** A pair with the doorbells of its id. *)
Definition rings_its_own {A} (d0 : NvmeDevice A) (p : NvmeQueuePair) : Prop :=
  in_ring p ∧ own_doorbells d0 p.

(** After a creation: a pair under the next id, or nothing. *)
Definition created {A E} (d0 : NvmeDevice A) (q : Z) (r : Res NvmeQueuePair) (d : NvmeDevice A) (w : World E) : Prop :=
  match r with
  | Ret p => device_of d0 (q + 1) d ∧ qp_id p = q ∧ rings_its_own d0 p
  | _ => device_of d0 q d
  end.

Lemma framed_anything {E S B} (m : M E S B) : framed (λ _, True) (λ _, True) m.
Proof. by intros s w _ _. Qed.

Lemma framed_keeps {E S B} (J : S → Prop) (m : M E S B) : keeps m → framed J (λ _, True) m.
Proof. intros Hm s w ? _. by rewrite (Hm (s, w)). Qed.

Lemma wp_framed {E S B} (J : S → Prop) (m : M E S B) s w (Q : Res B → S → World E → Prop) :
  framed J (λ _, True) m → J s → (∀ r s' w', J s' → Q r s' w') → wp m Q s w.
Proof. intros Hm Hs HQ. apply HQ. by apply (Hm s w Hs I). Qed.

(** The device allocates what its allocator does. *)
#[export] Instance silent_device {A E} `{MAP : Mapping A E} `{SM : !SilentMapping (A:=A) (E:=E)} :
  SilentMapping (A:=NvmeDevice A) (E:=E).
Proof.
  split; intros S self x; cbn; [apply (allocate_keeps (A:=A))|apply (deallocate_keeps (A:=A))].
Qed.

Section device.
Context {A E : Type} `{BLD : Build} `{FUEL : Fuel} `{HW : Hardware E} `{MAP : Mapping A E} `{SM : !SilentMapping (A:=A) (E:=E)}.
Context (d0 : NvmeDevice A).

#[local] Abbreviation dframed q := (framed (device_of d0 q) (λ _ : World E, True)).

Lemma write_reg_framed q reg qid v : dframed q (NvmeDevice.write_reg_idx reg qid v).
Proof.
  unfold NvmeDevice.write_reg_idx, shl. apply framed_get. intros d Hd.
  repeat first [by apply framed_write | frame_step].
Qed.

Lemma admin_framed q cmd_init :
  (∀ c a, dframed q (cmd_init c a)) → dframed q (NvmeDevice.submit_and_complete_admin cmd_init).
Proof.
  intros Hc. unfold NvmeDevice.submit_and_complete_admin. apply framed_get. intros d _.
  frame_step; [apply Hc|]. frame_step.
  { eapply framed_zoom; [apply framed_anything|done|]. by intros d' sq (? & ? & ? & ?) _. }
  frame_step; [apply write_reg_framed|]. frame_step.
  { eapply framed_zoom; [apply framed_anything|done|]. by intros d' sq (? & ? & ? & ?) _. }
  destruct a2 as [[head entry] prev]. frame_step; [apply write_reg_framed|]. by repeat frame_step.
Qed.

Lemma wp_admin_any q d w cmd_init (Q : Res NvmeCompletion → NvmeDevice A → World E → Prop) :
  (∀ c a, dframed q (cmd_init c a)) → device_of d0 q d →
  (∀ r d' w', device_of d0 q d' → Q r d' w') →
  wp (NvmeDevice.submit_and_complete_admin cmd_init) Q d w.
Proof. intros Hc. apply wp_framed. by apply admin_framed. Qed.

Lemma delete_framed q p : dframed q (NvmeDevice.delete_io_queue_pair p).
Proof.
  unfold NvmeDevice.delete_io_queue_pair.
  repeat first [apply admin_framed; intros ? ? | apply framed_keeps, deallocate_keeps | frame_step].
Qed.

Lemma allocate_framed q n : dframed q (self ← get; allocate self n).
Proof. apply framed_get. intros d _. apply framed_keeps, allocate_keeps. Qed.

Lemma new_sub_keeps len doorbell a : keeps (E:=E) (S:=NvmeDevice A) (SubmissionQueue.new (A:=A) a len doorbell).
Proof. unfold SubmissionQueue.new. apply keeps_bind; [apply allocate_keeps|done]. Qed.

Lemma new_comp_keeps len doorbell a : keeps (E:=E) (S:=NvmeDevice A) (CompletionQueue.new (A:=A) a len doorbell).
Proof. unfold CompletionQueue.new. apply keeps_bind; [apply allocate_keeps|done]. Qed.

(** The stride is a [usize] in the creation: no value of the field is too large. *)
Lemma any_stride s : 0 ≤ s < 16 → wrap 64 (Z.shiftl 4 s) = 2 ^ (2 + s) ∧ 4 ≤ 2 ^ (2 + s) ≤ 2 ^ 17.
Proof.
  intros. assert (4 ≤ 2 ^ (2 + s) ≤ 2 ^ 17).
  { split; [change 4 with (2 ^ 2)|]; apply Z.pow_le_mono_r; lia. }
  split; [|done]. rewrite Z.shiftl_mul_pow2 by lia. change 4 with (2 ^ 2) at 1.
  rewrite <-Z.pow_add_r by lia. apply wrap_small. lia.
Qed.

(** A creation, whatever the controller does.  The offset of the completion doorbell
    is checked against the mapping. *)
Lemma wp_create q d w len :
  dev_ok d0 → 0 ≤ q < 2 ^ 15 → 0 < len → device_of d0 q d →
  wp (NvmeDevice.create_io_queue_pair len) (created d0 q) d w.
Proof using SM.
  intros (? & ? & ? & ? & ?) Hq Hlen Hd. pose proof Hd as (Ha & Hl & Hs & Hid).
  pose proof (any_stride (dstrd d0) ltac:(lia)) as [Hst Hp].
  unfold NvmeDevice.create_io_queue_pair. do 2 wp_step. rewrite Hid, Hs, Hl. do 2 wp_step. rewrite Hst.
  do 4 wp_step. do 6 (wp_step; try nia). wp_step. apply wp_assert; [|by intros _].
  intros Hle%Z.leb_le. cbn [then_]. rewrite Ha. wp_step. wp_step; try nia. wp_step.
  unfold CompletionQueue.new. wp_step. apply wp_keeps; [apply allocate_keeps|].
  intros [dma_cq|e|k|] w1; cbn [then_]; [|done..]. do 2 wp_step.
  apply (wp_admin_any q); [intros; by repeat frame_step|done|].
  intros [c1|e|k|] d1 w2 Hd1; cbn [then_]; [|done..].
  do 2 (wp_step; try nia). wp_step. wp_step. rewrite Hst. do 6 (wp_step; try nia).
  wp_step. unfold SubmissionQueue.new. wp_step. apply wp_keeps; [apply allocate_keeps|].
  intros [dma_sq|e|k|] w3; cbn [then_]; [|done..]. do 2 wp_step.
  apply (wp_admin_any q); [intros; by repeat frame_step|done|].
  intros [c2|e|k|] d2 w4 Hd2; cbn [then_]; [|done..].
  destruct Hd2 as (? & ? & ? & Hid2). do 2 wp_step. rewrite Hid2. do 4 (wp_step; try lia).
  wp_step. split; [by split_and!|]. split; [done|].
  unfold rings_its_own, own_doorbells, in_ring, doorbell_at, doorbell_offset. cbn. rewrite QUEUE_LENGTH_value. lia.
Qed.

End device.

(** ** The pairs of a pool *)

(** A job that uses the device as the benchmarks do. *)
Class DeviceJob {A E St V} (d0 : NvmeDevice A) (job : Job A E St V) : Prop := {
  device_local :: LocalJob job;
  buffer_kept : ∀ q, framed (device_of d0 q) (λ _, True) (job_buffer job);
  pair_created : ∀ q d w, 0 ≤ q < 2 ^ 15 → device_of d0 q d → wp (job_pair job) (created d0 q) d w;
  end_kept : ∀ q p, framed (device_of d0 q) (λ _, True) (job_end job p);
}.

(** Pairs still to be created. *)
Definition yet {St V} (wk : Worker St V) : nat :=
  match wk with Started | Buffered _ => 1 | _ => 0 end.

Lemma sum_insert {X} (f : X → nat) (l : list X) i x y :
  l !! i = Some x → (sum_list (f <$> <[i := y]> l) + f x = sum_list (f <$> l) + f y)%nat.
Proof.
  revert i. induction l as [|z l IH]; intros [|i] Hi; [done..|injection Hi as ->|].
  - cbn. lia.
  - specialize (IH i Hi). change (<[S i:=y]> (z :: l)) with (z :: <[i:=y]> l). rewrite !fmap_cons. cbn. lia.
Qed.

Lemma sum_elem {X} (f : X → nat) (l : list X) i x y :
  l !! i = Some x → f y = 0%nat → (f x ≤ sum_list (f <$> l))%nat.
Proof. intros Hi Hy. pose proof (sum_insert f l i x y Hi). lia. Qed.

Section advance.
Context {A E St V : Type} (d0 : NvmeDevice A) (job : Job A E St V) `{DJ : !DeviceJob d0 job}.
Implicit Types (wk : Worker St V) (sh : Shared A) (w : World E).

Lemma locked_device {B} q (m : M E (NvmeDevice A) B) (next : B → Worker St V) sh w :
  framed (device_of d0 q) (λ _, True) m → device_of d0 q (sh_device sh) →
  device_of d0 q (sh_device (locked m next sh w).2.1).
Proof.
  intros Hm Hd. unfold locked. destruct (sh_lock sh); [|done..].
  destruct (Hm _ w Hd I) as [Hd' _]. by destruct (m (sh_device sh, w)) as [[b|e|k|] [d w']].
Qed.

Lemma locked_held {B} (m : M E (NvmeDevice A) B) (next : B → Worker St V) sh w :
  (∀ b, held (next b) = None ∧ yet (next b) = 0%nat) →
  held (locked m next sh w).1 = None ∧ yet (locked m next sh w).1 = 0%nat.
Proof.
  intros Hn. unfold locked. destruct (sh_lock sh); [|done..].
  destruct (m (sh_device sh, w)) as [[b|e|k|] [d w']]; [apply Hn|done..].
Qed.

(** One turn: the thread keeps its pair, or gets a new one. *)
Definition advanced q wk wk' sh' : Prop :=
  (device_of d0 q (sh_device sh') ∧ (yet wk' ≤ yet wk)%nat ∧
   ∀ p', held wk' = Some p' → ∃ p, held wk = Some p ∧ qp_id p' = qp_id p ∧ rings_its_own d0 p') ∨
  (device_of d0 (q + 1) (sh_device sh') ∧ yet wk = 1%nat ∧ yet wk' = 0%nat ∧
   ∃ p', held wk' = Some p' ∧ qp_id p' = q ∧ rings_its_own d0 p').

Lemma rings_kept p p' : rings_its_own d0 p → pair_shape p p' → qp_id p' = qp_id p ∧ rings_its_own d0 p'.
Proof.
  unfold rings_its_own, own_doorbells. intros (_ & Hs & Hc) Hp. pose proof (in_ring_kept _ _ Hp). destruct Hp as (Hid & (_ & _ & Hs' & _) & _ & _ & Hc').
  split; [done|]. split; [done|]. by rewrite Hid, Hs', Hc'.
Qed.

Lemma advance_pairs q wk sh w :
  0 ≤ q → (yet wk = 1%nat → q < 2 ^ 15) → device_of d0 q (sh_device sh) →
  (∀ p, held wk = Some p → rings_its_own d0 p) →
  advanced q wk (advance job wk sh w).1 (advance job wk sh w).2.1.
Proof using DJ.
  intros Hq0 Hq Hd Hh. destruct wk as [|buffer|buffer p|buffer p st|p v|v| |]; cbn [advance].
  - left. split; [apply locked_device; [apply buffer_kept|done]|].
    unfold locked. destruct (sh_lock sh); [|by split; [cbn; lia|]..].
    by destruct (job_buffer job _) as [[b|e|k|] [d w']]; (split; [cbn; lia|]).
  - unfold locked. destruct (sh_lock sh); [|by left; split_and!; [|cbn; lia|]..].
    pose proof (pair_created q (sh_device sh) w (conj Hq0 (Hq eq_refl)) Hd) as Hc. unfold wp, created in Hc.
    destruct (job_pair job _) as [[p|e|k|] [d w']]; cbn [fst snd] in Hc; [|by left; split_and!; [|cbn; lia|]..].
    destruct Hc as (? & ? & ?). right. split_and!; [done..|]. by exists p.
  - left. assert (rings_its_own d0 p) as Hr by by apply Hh. pose proof (proj1 Hr) as Hi. apply in_ring_shape in Hi.
    unfold unlocked. pose proof (start_local p buffer p w Hi I) as [Hs _].
    destruct (job_start job buffer (p, w)) as [[st|e|k|] [p' w']]; (split_and!; [done|cbn; lia|]); try done.
    intros ? [= <-]. exists p. split; [done|]. by apply rings_kept.
  - left. assert (rings_its_own d0 p) as Hr by by apply Hh. pose proof (proj1 Hr) as Hi. apply in_ring_shape in Hi.
    pose proof (step_local p buffer st p w Hi I) as [Hs _].
    destruct (job_step job buffer st (p, w)) as [[[st'|v]|e|k|] [p' w']]; (split_and!; [done|cbn; lia|]); try done;
      intros ? [= <-]; exists p; (split; [done|by apply rings_kept]).
  - left. destruct (locked_held (job_end job p) (λ _, Finished v) sh w) as [Hn Hy]; [done|].
    split; [apply locked_device; [apply end_kept|done]|]. split; [lia|]. by rewrite Hn.
  - by left.
  - by left.
  - by left.
Qed.

End advance.

Section pool.
Context {A E St V : Type} (d0 : NvmeDevice A) (jobs : list (Job A E St V)).
Context (DJ : ∀ i job, jobs !! i = Some job → DeviceJob d0 job).

Record pool_inv (p : Pool A E St V) (q : Z) : Prop := {
  inv_device : device_of d0 q (sh_device (pool_shared p));
  inv_first : q_id d0 ≤ q;
  inv_yet : q + Z.of_nat (sum_list (yet <$> pool_workers p)) ≤ 2 ^ 15;
  inv_held : ∀ i wk qp, pool_workers p !! i = Some wk → held wk = Some qp →
    rings_its_own d0 qp ∧ q_id d0 ≤ qp_id qp < q;
  inv_distinct : ∀ i j wi wj qi qj, i ≠ j → pool_workers p !! i = Some wi → pool_workers p !! j = Some wj →
    held wi = Some qi → held wj = Some qj → qp_id qi ≠ qp_id qj;
}.

Lemma turn_inv p q i : 0 ≤ q_id d0 → pool_inv p q → ∃ q', pool_inv (turn jobs p i) q'.
Proof using DJ.
  intros Hq0 Hinv. unfold turn. destruct (jobs !! i) as [job|] eqn:Hj; [|by exists q].
  destruct (pool_workers p !! i) as [wk|] eqn:Hwk; [|by exists q]. destruct Hinv as [Hd Hf Hy Hh Hdis].
  pose proof (sum_elem yet _ i wk Dead Hwk eq_refl) as Hone.
  pose proof (DJ i job Hj) as DJi.
  pose proof (advance_pairs d0 job q wk (pool_shared p) (pool_world p) ltac:(lia) ltac:(lia) Hd
    (λ qp Hqp, proj1 (Hh i wk qp Hwk Hqp))) as Ha.
  destruct (advance job wk (pool_shared p) (pool_world p)) as [wk' [sh' w']]. cbn [fst snd] in Ha.
  pose proof (sum_insert yet _ i wk wk' Hwk) as Hsum.
  destruct Ha as [(Hd' & Hy' & Hh')|(Hd' & Hy1 & Hy0 & qp' & Hh' & Hid & Hr)]; [exists q|exists (q + 1)].
  - split; cbn [pool_shared pool_workers]; [done|done|lia|..].
    + intros j wj qj Hwj Hqj. apply list_lookup_insert_Some in Hwj as [(<- & <- & _)|(_ & Hwj)]; [|by eapply Hh].
      destruct (Hh' qj Hqj) as (qp & Hqp & Hid & ?). split; [done|]. rewrite Hid. by eapply Hh.
    + intros j k wj wk2 qj qk Hjk Hwj Hwk2 Hqj Hqk.
      apply list_lookup_insert_Some in Hwj as [(<- & <- & _)|(? & Hwj)];
        apply list_lookup_insert_Some in Hwk2 as [(<- & <- & _)|(? & Hwk2)]; [done|..|by apply (Hdis j k wj wk2)].
      * destruct (Hh' qj Hqj) as (qp & Hqp & -> & _). by apply (Hdis i k wk wk2).
      * destruct (Hh' qk Hqk) as (qp & Hqp & -> & _). by apply (Hdis j i wj wk).
  - split; cbn [pool_shared pool_workers]; [done|lia|lia|..].
    + intros j wj qj Hwj Hqj. apply list_lookup_insert_Some in Hwj as [(<- & <- & _)|(_ & Hwj)].
      { rewrite Hh' in Hqj. injection Hqj as <-. split; [done|lia]. }
      destruct (Hh j wj qj Hwj Hqj). split; [done|lia].
    + intros j k wj wk2 qj qk Hjk Hwj Hwk2 Hqj Hqk.
      apply list_lookup_insert_Some in Hwj as [(<- & <- & _)|(? & Hwj)];
        apply list_lookup_insert_Some in Hwk2 as [(<- & <- & _)|(? & Hwk2)]; [done|..|by apply (Hdis j k wj wk2)].
      * rewrite Hh' in Hqj. injection Hqj as <-. destruct (Hh k wk2 qk Hwk2 Hqk). lia.
      * rewrite Hh' in Hqk. injection Hqk as <-. destruct (Hh j wj qj Hwj Hqj). lia.
Qed.

(** Every reachable pool. *)
Lemma pool_reachable d w sched :
  0 ≤ q_id d0 → device_of d0 (q_id d0) d → q_id d0 + Z.of_nat (length jobs) ≤ 2 ^ 15 →
  ∃ q, pool_inv (turns jobs (spawn jobs d w) sched) q.
Proof using DJ.
  intros Hq0 Hd Hl.
  assert (pool_inv (spawn jobs d w) (q_id d0)) as Hinit.
  { assert (∀ i wk, pool_workers (spawn jobs d w) !! i = Some wk → wk = Started) as Hst.
    { intros i wk (job & -> & _)%list_lookup_fmap_Some. done. }
    split; cbn [spawn pool_shared sh_device]; [done|lia|..].
    - assert (sum_list (yet <$> pool_workers (spawn jobs d w)) = length jobs) as ->; [|done].
      cbn [spawn pool_workers]. clear. induction jobs as [|j l IH]; [done|]. cbn in *. lia.
    - intros i wk qp Hwk%Hst. by subst wk.
    - intros i j wi wj qi qj _ Hwi%Hst _. by subst wi. }
  revert Hinit. generalize (spawn jobs d w), (q_id d0) at 1. clear Hd. intros p q Hinv.
  revert p q Hinv. induction sched as [|i sched IH]; intros p q Hinv; [by exists q|].
  destruct (turn_inv p q i Hq0 Hinv) as (q' & Hinv'). by apply (IH _ q').
Qed.

End pool.

(** The pairs held by the threads. *)
Definition pairs_held {A E St V} (p : Pool A E St V) : list NvmeQueuePair := omap held (pool_workers p).

Lemma held_ids {St V} (ws : list (Worker St V)) :
  (∀ i j wi wj qi qj, i ≠ j → ws !! i = Some wi → ws !! j = Some wj →
     held wi = Some qi → held wj = Some qj → qp_id qi ≠ qp_id qj) →
  NoDup (qp_id <$> omap held ws).
Proof.
  induction ws as [|wk ws IH]; intros Hdis; [constructor|].
  assert (NoDup (qp_id <$> omap held ws)) as Hws.
  { apply IH. intros i j wi wj qi qj Hij. apply (Hdis (S i) (S j)). lia. }
  cbn [omap list_omap]. destruct (held wk) as [q|] eqn:Hq; [|done]. rewrite fmap_cons. apply NoDup_cons.
  split; [|done]. intros (q' & Hid & (w' & Hw' & Hq')%list_elem_of_omap)%list_elem_of_fmap.
  apply list_elem_of_lookup in Hw' as [j Hj]. by apply (Hdis 0%nat (S j) wk w' q q').
Qed.

(** The pairs of different threads have different ids and different doorbells, none
    of them those of the admin queue or of the queue of the device. *)
Definition never_meet {A E St V} (jobs : list (Job A E St V)) (d : NvmeDevice A) (w : World E) : Prop :=
  ∀ sched, let p := turns jobs (spawn jobs d w) sched in
    NoDup (qp_id <$> pairs_held p) ∧ NoDup (doorbells (pairs_held p)) ∧
    Forall (λ qp, q_id d ≤ qp_id qp < q_id (sh_device (pool_shared p))) (pairs_held p) ∧
    (∀ i a, i < q_id d → 0 ≤ a ≤ 1 → doorbell_at d i a ∉ doorbells (pairs_held p)).

Lemma device_jobs_never_meet {A E St V} (jobs : list (Job A E St V)) (d : NvmeDevice A) (w : World E) :
  (∀ i job, jobs !! i = Some job → DeviceJob d job) → dev_ok d →
  0 ≤ q_id d → q_id d + Z.of_nat (length jobs) ≤ 2 ^ 15 → never_meet jobs d w.
Proof.
  intros DJ Hok Hq0 Hl sched p.
  destruct (pool_reachable d jobs DJ d w sched Hq0) as (q & [Hd Hf _ Hh Hdis]); [by split_and!|done|].
  fold p in Hd, Hh, Hdis. destruct Hd as (_ & _ & _ & Hq).
  assert (Forall (λ qp, rings_its_own d qp ∧ q_id d ≤ qp_id qp < q) (pairs_held p)) as Hall.
  { apply Forall_forall. intros qp (wk & [i Hi]%list_elem_of_lookup & Hqp)%list_elem_of_omap. by apply (Hh i wk). }
  assert (NoDup (qp_id <$> pairs_held p)) as Hnd by by apply held_ids.
  split; [done|]. split; [|split].
  - apply (doorbells_NoDup d); [done..|]. eapply Forall_impl; [exact Hall|]. by intros qp [[_ ?] _].
  - rewrite Hq. eapply Forall_impl; [exact Hall|]. by intros qp [_ ?].
  - intros i a Hi Ha (qp & Hqp & Hx)%elem_of_doorbells. rewrite Forall_forall in Hall.
    destruct (Hall qp Hqp) as [[_ [Hs Hc]] ?]. rewrite Hs, Hc in Hx.
    destruct Hx as [Hx|Hx]; apply (doorbell_at_inj d) in Hx; lia || done.
Qed.

Section jobs.
Context {A E R : Type} `{BLD : Build} `{FUEL : Fuel} `{HW : Hardware E} `{CK : Clock E} `{RN : Rng R}.
Context `{MAP : Mapping A E} `{SM : !SilentMapping (A:=A) (E:=E)} (d0 : NvmeDevice A).

#[export] Instance throughput_device depth ns_blocks duration random write (rng : R) :
  dev_ok d0 → DeviceJob d0 (Workers.Throughput.job (A:=A) depth ns_blocks duration random write rng).
Proof.
  intros Hok. split; [apply _|..]; cbn.
  - intros q. apply framed_get. intros d _. frame_step; [by frame_step|]. apply framed_keeps, allocate_keeps.
  - intros q d w Hq Hd. by apply wp_create; [..|apply queue_length_pos|].
  - intros q p. apply delete_framed.
Qed.

#[export] Instance latency_device depth ns_blocks duration write (rng : R) :
  dev_ok d0 → DeviceJob d0 (Workers.Latency.job (A:=A) depth ns_blocks duration write rng).
Proof.
  intros Hok. split; [apply _|..]; cbn.
  - intros q. apply allocate_framed.
  - intros q d w Hq Hd. by apply wp_create; [..|apply queue_length_pos|].
  - intros q p. apply delete_framed.
Qed.

#[export] Instance nanos_device depth ns_blocks duration random write (rng : R) :
  dev_ok d0 → 0 < depth →
  DeviceJob d0 (Workers.Latency.nanos_job (A:=A) depth ns_blocks duration random write rng).
Proof.
  intros Hok Hdepth. split; [apply _|..]; cbn.
  - intros q. apply allocate_framed.
  - intros q d w Hq Hd. by apply wp_create.
  - intros q p. apply delete_framed.
Qed.

End jobs.

(** ** Properties *)

(** C10: the threads of the benchmarks never share a queue pair.  At every moment of
    every schedule, whatever the controller and the other threads do, failed
    creations and panics under the lock included: the pairs the threads hold have
    distinct ids and distinct doorbells, which are also none of those the device
    already uses, as long as the device can give an id below 2^15 to every thread.
    The 16-bit doorbell index of [create_io_queue_pair] would overflow above.  This
    holds of the three benchmarks with threads. *)
Theorem threads_never_share {A E R} `{BLD : Build} `{FUEL : Fuel} `{HW : Hardware E} `{CK : Clock E}
    `{RN : Rng R} `{MAP : Mapping A E} (d : NvmeDevice A) (w : World E)
    (depth ns_blocks duration : Z) (random write : bool) (rngs : list R) :
  SilentMapping (A:=A) (E:=E) → dev_ok d → 0 ≤ q_id d → q_id d + Z.of_nat (length rngs) ≤ 2 ^ 15 →
  never_meet (Workers.Throughput.job depth ns_blocks duration random write <$> rngs) d w ∧
  never_meet (Workers.Latency.job depth ns_blocks duration write <$> rngs) d w ∧
  (0 < depth → never_meet (Workers.Latency.nanos_job depth ns_blocks duration random write <$> rngs) d w).
Proof.
  intros SM Hok Hq Hl.
  split; [|split; [|intros Hdepth]]; (apply device_jobs_never_meet; [|done|done|by rewrite length_fmap]);
    intros i job (rng & -> & _)%list_lookup_fmap_Some.
  - by apply throughput_device.
  - by apply latency_device.
  - by apply nanos_device.
Qed.

(** Three threads with a pair each. *)
#[local] Abbreviation demo_pool :=
  (turns (Workers.Throughput.job (BLD:=true) (FUEL:=10%nat) (HW:=demo_bench_hw) (CK:=counter) (RN:=lowest)
     (MAP:=demo_bench_mapping) 2 100 20 true false <$> [tt; tt; tt])
   (spawn (Workers.Throughput.job (BLD:=true) (FUEL:=10%nat) (HW:=demo_bench_hw) (CK:=counter) (RN:=lowest)
     (MAP:=demo_bench_mapping) 2 100 20 true false <$> [tt; tt; tt]) demo_bench_device demo_bench_world)
   [1; 0; 1; 2; 0; 2; 1]%nat).

Lemma demo_pairs_held : qp_id <$> pairs_held demo_pool = [2; 1; 3].
Proof. by vm_compute. Qed.

Lemma demo_silent : SilentMapping (MAP:=demo_bench_mapping).
Proof. by split. Qed.

Lemma threads_never_share_witness :
  qp_id <$> pairs_held demo_pool = [2; 1; 3] ∧ NoDup (doorbells (pairs_held demo_pool)).
Proof.
  split; [apply demo_pairs_held|].
  destruct (threads_never_share (BLD:=true) (FUEL:=10%nat) (HW:=demo_bench_hw) (CK:=counter) (RN:=lowest)
    (MAP:=demo_bench_mapping) demo_bench_device demo_bench_world 2 100 20 true false [tt; tt; tt] demo_silent)
    as [Hmeet _].
  - apply (demo_device_ok 0). lia.
  - cbn. lia.
  - cbn. lia.
  - exact (proj1 (proj2 (Hmeet [1; 0; 1; 2; 0; 2; 1]%nat))).
Defined.
