(* ===== verification/Storage.v ===== *)
(** The driver and a disk in a closed loop: the data paths and the example
    programs against any controller that executes the commands it finds in the
    ring of the device's own queue, on its disk and on the memory of the host,
    before it posts their completions. *)

From stdpp Require Import gmap relations.
From S2P Require Import Prelude Bytes Machine Memory Cmd Mapping Queues Service QueuePair Device Setup Startup Io Prp Protocol Disk Batch Examples.
#[local] Open Scope Z_scope.

(** ** What the accesses of a driver mean *)

(** Storage that is the same where the memory is [free]. *)
Definition agree (free : Z → Prop) (st st' : Storage) : Prop :=
  (∀ x, st'.1 x = st.1 x) ∧ (∀ x, free x → st'.2 x = st.2 x).

(** A command that does not touch other memory. *)
Definition insensitive (bus : Z → Z) (free : Z → Prop) (st : Storage) (cmd : NvmeCommand) : Prop :=
  ∀ st', agree free st st' → agree free (perform bus st cmd) (perform bus st' cmd).

(** Memory outside the completion queues of the device, where the controller
    posts. *)
Definition in_cq (c : CompletionQueue) (x : Z) : bool :=
  (virt (cq_commands c) <=? x) && (x <? virt (cq_commands c) + NvmeCompletion.size_of * cq_len c).

Lemma in_cq_apart c x : in_cq c x = false ↔ cq_apart c x 1.
Proof.
  unfold in_cq, cq_apart. rewrite size_of_completion.
  destruct (Z.leb_spec (virt (cq_commands c)) x), (Z.ltb_spec x (virt (cq_commands c) + 16 * cq_len c));
    simpl; split; intros ?; done || lia.
Qed.

Definition posted_at {A} (d : NvmeDevice A) (x : Z) : bool := in_cq (io_cq d) x || in_cq (admin_cq d) x.

Definition free {A} (d : NvmeDevice A) (x : Z) : Prop := posted_at d x = false.

Lemma free_apart {A} (d : NvmeDevice A) x : free d x ↔ cq_apart (io_cq d) x 1 ∧ cq_apart (admin_cq d) x 1.
Proof. unfold free, posted_at. by rewrite orb_false_iff, !in_cq_apart. Qed.

Section play.
Context (bus : Z → Z) (q : SubmissionQueue) (open : Z → Prop) (sqdb : Z).

(** A store changes the memory, a ring of the doorbell executes the next command;
    the other accesses change nothing. *)
Definition play_event (st : Z * Storage) (ev : Event) : Z * Storage :=
  let '(k, (disk, m)) := st in
  match ev with
  | EvStore a bs => (k, (disk, store_bytes m a bs))
  | EvWrite _ a _ =>
    if a =? sqdb then (k + 1, perform bus (disk, m) (sq_entry m q (k `mod` sq_len q))) else st
  | _ => st
  end.

Definition play (st : Z * Storage) (t : list Event) : Z * Storage := foldl play_event st t.

(** None of the commands touches other memory. *)
Fixpoint play_safe (st : Z * Storage) (t : list Event) : Prop :=
  match t with
  | [] => True
  | ev :: t =>
    match ev with
    | EvWrite _ a _ =>
      a = sqdb → insensitive bus open st.2 (sq_entry st.2.2 q (st.1 `mod` sq_len q))
    | _ => True
    end ∧ play_safe (play_event st ev) t
  end.

Lemma play_app st t1 t2 : play st (t1 ++ t2) = play (play st t1) t2.
Proof. apply foldl_app. Qed.

Lemma play_safe_app st t1 t2 :
  play_safe st (t1 ++ t2) ↔ play_safe st t1 ∧ play_safe (play st t1) t2.
Proof. revert st. induction t1 as [|ev t1 IH]; intros st; simpl; [tauto|]. rewrite IH. tauto. Qed.

End play.

(** ** A controller with a disk *)

(** The accesses of a driver that stores and rings only when nothing is in
    flight. *)
Inductive sync_access {E} `{HW : Hardware E} (idle : World E → Prop) (sqdb : Z) :
    World E → World E → Prop :=
| access_tick w : sync_access idle sqdb w (tick w)
| access_read w n a : sync_access idle sqdb w (reading n a w)
| access_write w n a v : a ≠ sqdb → sync_access idle sqdb w (written n a v w)
| access_store w a bs : idle w → sync_access idle sqdb w (stored a bs w)
| access_ring w v : idle w → sync_access idle sqdb w (written 4 sqdb v w).

(** From one idle world to another the disk and the memory have become what the
    accesses mean. *)
Class DiskService {A E} `{FUEL : Fuel} `{HW : Hardware E} (d : NvmeDevice A)
    (posted : Z → NvmeCompletion) (N : nat) (serves : Z → Z → Z → World E → Prop)
    (bus : Z → Z) (disk : World E → Mem) : Prop := {
  disk_io :: IoService d posted N serves;
  disk_follows : ∀ k k' w w' t,
    serves k k k w → serves k' k' k' w' →
    rtc (sync_access (λ w, ∃ G, serves G G G w) (doorbell_at d 1 0)) w w' →
    trace w' = trace w ++ t →
    play_safe bus (io_sq d) (free d) (doorbell_at d 1 0) (k, (disk w, mem w)) t →
    agree (free d) (play bus (io_sq d) (doorbell_at d 1 0) (k, (disk w, mem w)) t).2
      (disk w', mem w');
}.

(** One byte more than was stored. *)
Lemma load_store_snoc m a bs :
  Forall is_byte bs →
  load_bytes (store_bytes m a bs) a (S (length bs)) =
  bs ++ [m (a + Z.of_nat (length bs)) `mod` 256].
Proof.
  intros Hbs. unfold load_bytes. rewrite seq_S, fmap_app. cbn [fmap list_fmap Nat.add].
  rewrite store_bytes_other by lia. f_equal. by apply load_store_same.
Qed.

(** Slices of a region from its beginning. *)
Lemma wp_index_to `{BLD : Build} {E S} (b : Dma) n (Q : Res Slice → S → World E → Prop) s w :
  0 ≤ n ≤ size b → n < 2 ^ 64 → Q (Ret (mkSlice (virt b) n)) s w → wp (Dma.index_to b n) Q s w.
Proof.
  intros ? ? HQ. unfold Dma.index_to, Dma.index_range, assert.
  rewrite (proj2 (Z.leb_le _ _)) by lia. do 3 (wp_step; try lia). wp_step.
  by rewrite Z.add_0_r, Z.sub_0_r.
Qed.

Section closed.
Context {A E : Type} `{BLD : Build} `{FUEL : Fuel} `{HW : Hardware E}.
Context (d : NvmeDevice A) (posted : Z → NvmeCompletion) (N : nat).
Context (serves : Z → Z → Z → World E → Prop) (bus : Z → Z) (disk : World E → Mem).
Context `{DS : !DiskService d posted N serves bus disk}.
Implicit Types w : World E.

#[local] Abbreviation sqdb := (doorbell_at d 1 0).
#[local] Abbreviation plays := (play bus (io_sq d) sqdb).
#[local] Abbreviation safe := (play_safe bus (io_sq d) (free d) sqdb).

(** What is served, with how it was reached from [w0]. *)
Definition since w0 (G C P : Z) w : Prop :=
  serves G C P w ∧ rtc (sync_access (λ w, ∃ G, serves G G G w) sqdb) w0 w.

Lemma since_service w0 : IoService d posted N (since w0).
Proof.
  pose proof (disk_io (d:=d)) as [[Hv Ht Htake Hst Hri Hw Hr Hl] Hd Hs Hrings Hf].
  split; [|done..]. split.
  - intros G C P w [HP _]. by apply Hv.
  - intros G C P w [HP Ha]. destruct (Ht _ _ _ _ HP) as (P' & ? & ?). exists P'.
    split; [done|]. split; [done|]. eapply rtc_r; [exact Ha|apply access_tick].
  - intros G C P w [HP Ha] ?. split; [by apply Htake|done].
  - intros G w a bs [HP Ha] ?. split; [by apply Hst|].
    eapply rtc_r; [exact Ha|]. apply access_store. by exists G.
  - intros G w [HP Ha] ?. split; [by apply Hri|].
    eapply rtc_r; [exact Ha|]. apply access_ring. by exists G.
  - intros G C P w n a v [HP Ha] ?. split; [by apply Hw|].
    eapply rtc_r; [exact Ha|]. by apply access_write.
  - intros G C P w n a [HP Ha]. split; [by apply Hr|].
    eapply rtc_r; [exact Ha|]. by apply access_read.
  - intros G C P w [HP Ha] ?. destruct (Hl _ _ _ _ HP) as (i & P' & ? & ? & ?); [done|].
    exists i, P'. split; [done|]. split; [done|]. split; [done|].
    clear -Ha. generalize (S i). intros n. induction n as [|n IH]; [done|].
    eapply rtc_r; [exact IH|apply access_tick].
Qed.

Lemma since_refl w0 G : serves G G G w0 → since w0 G G G w0.
Proof. by split. Qed.

(** ** One command *)

Lemma play_command k cmd D m :
  0 ≤ k → NvmeCommand.wf cmd →
  let m' := store_bytes m (sq_slot (io_sq d) (k `mod` sq_len (io_sq d))) (NvmeCommand.encode cmd) in
  plays (k, (D, m)) (io_events d k cmd) = (k + 1, perform bus (D, m') cmd) ∧
  (insensitive bus (free d) (D, m') cmd → safe (k, (D, m)) (io_events d k cmd)).
Proof.
  intros Hk Hwf m'. pose proof (io_doorbells_distinct d posted N serves) as Hne.
  assert (sq_entry m' (io_sq d) (k `mod` sq_len (io_sq d)) = cmd) as He.
  { unfold m'. rewrite sq_entry_store by done. by rewrite Z.eqb_refl. }
  unfold play, io_events. cbn [foldl play_event play_safe fst snd].
  rewrite Z.eqb_refl. fold m'. rewrite He.
  destruct (perform bus (D, m') cmd) as [D' m2].
  cbn [play_event]. rewrite (proj2 (Z.eqb_neq _ _) Hne).
  split; [done|]. intros Hi. split; [done|]. split; [done|].
  split; [|done]. intros Hx. by destruct Hne.
Qed.

(** Memory away from the completion queues. *)
Definition cqs_apart (h n : Z) : Prop :=
  cq_apart (io_cq d) h (Z.to_nat n) ∧ cq_apart (admin_cq d) h (Z.to_nat n).

(** A page-aligned part of the memory that the controller reaches at [addr] and
    the driver at [h], away from the rings. *)
Definition reached (addr h n : Z) : Prop :=
  addr `mod` 4096 = 0 ∧ 0 ≤ addr ∧ addr + 4096 < 2 ^ 64 ∧ 0 ≤ n ∧ mapped bus addr h n ∧
  sq_apart (io_sq d) h (Z.to_nat n) ∧ cqs_apart h n.

Lemma apart_byte_sq (r : SubmissionQueue) h n j :
  sq_apart r h (Z.to_nat n) → 0 ≤ j < n → sq_apart r (h + j) 1.
Proof. unfold sq_apart. lia. Qed.

Lemma apart_byte_cq h n j : cqs_apart h n → 0 ≤ j < n → free d (h + j).
Proof. unfold cqs_apart, cq_apart. intros. apply free_apart. unfold cq_apart. lia. Qed.

Lemma chunk_insensitive k (write : bool) blocks lba addr h st :
  1 ≤ blocks ≤ 16 → 0 ≤ lba < 2 ^ 64 → reached addr h (blocks * 512) →
  insensitive bus (free d) st (io_cmd d k write 1 blocks lba addr).
Proof.
  intros Hb Hl (Hal & _ & _ & _ & Hm & _ & Hc) [D' m'] [HD Hmem]. destruct st as [D m].
  cbn [fst snd] in *.
  pose proof (perform_chunk d bus h k write blocks lba addr D m Hb Hal Hl Hm) as H1.
  pose proof (perform_chunk d bus h k write blocks lba addr D' m' Hb Hal Hl Hm) as H2.
  cbn zeta in *. destruct write; destruct H1 as [H1a H1b], H2 as [H2a H2b]; split; intros x.
  - rewrite H1a, H2a. unfold patched. destruct (Z.leb_spec (lba * 512) x), (Z.ltb_spec x (lba * 512 + blocks * 512));
      cbn [andb]; try apply HD. apply Hmem. apply (apart_byte_cq _ (blocks * 512)); [done|lia].
  - rewrite H1b, H2b. apply Hmem.
  - rewrite H1a, H2a. apply HD.
  - intros Hx. rewrite H1b, H2b. unfold patched.
    destruct (Z.leb_spec h x), (Z.ltb_spec x (h + blocks * 512)); cbn [andb]; try by apply Hmem. apply HD.
Qed.

(** The command after its entry has been stored. *)
Lemma play_chunk k (write : bool) blocks lba addr h D m :
  0 ≤ k → addrs_ok d → 1 ≤ blocks ≤ 16 → 0 ≤ lba < 2 ^ 64 → reached addr h (blocks * 512) →
  let n := blocks * 512 in
  let t := io_events d k (io_cmd d k write 1 blocks lba addr) in
  safe (k, (D, m)) t ∧
  ∃ D' m', plays (k, (D, m)) t = (k + 1, (D', m')) ∧
    if write
    then (∀ x, D' x = patched D (lba * 512) n (λ j, m (h + j)) x) ∧
         (∀ x, sq_apart (io_sq d) x 1 → m' x = m x)
    else (∀ x, D' x = D x) ∧
         (∀ x, sq_apart (io_sq d) x 1 → m' x = patched m h n (λ j, D (lba * 512 + j)) x).
Proof.
  intros Hk Ha Hb Hl Hr n t. pose proof Hr as (Hal & Ha0 & Ha1 & Hn & Hm & Hsq & Hcq).
  destruct io_rings as (Hql & _).
  assert (NvmeCommand.wf (io_cmd d k write 1 blocks lba addr)) as Hwf.
  { pose proof Hql as Hq'. rewrite QUEUE_LENGTH_value in Hq'. destruct Ha as [? ?].
    pose proof (Z.mod_pos_bound k (sq_len (io_sq d)) ltac:(lia)).
    assert (0 ≤ io_ptr1 d blocks addr < 2 ^ 64)
      by (unfold io_ptr1; destruct (_ <=? _); [lia|]; destruct (_ <=? _); lia).
    unfold io_cmd. destruct write; [apply io_write_wf|apply io_read_wf]; lia. }
  destruct (play_command k (io_cmd d k write 1 blocks lba addr) D m Hk Hwf) as [Hp Hs]. fold t in Hp, Hs.
  split; [by apply Hs, (chunk_insensitive _ _ _ _ _ h)|]. set (m1 := store_bytes m _ _) in Hp.
  pose proof (perform_chunk d bus h k write blocks lba addr D m1 Hb Hal Hl Hm) as Hc. cbn zeta in Hc.
  assert (∀ x, sq_apart (io_sq d) x 1 → m1 x = m x) as Hout.
  { intros x Hx. apply store_bytes_other. rewrite encode_length. unfold sq_apart, sq_slot in *.
    pose proof (Z.mod_pos_bound k (sq_len (io_sq d)) ltac:(lia)). rewrite size_of_command in *. lia. }
  rewrite Hp. destruct (perform bus (D, m1) _) as [D' m']. exists D', m'. split; [done|].
  cbn [fst snd] in Hc. destruct write; destruct Hc as [Hc1 Hc2].
  - split; [|by intros x Hx; rewrite Hc2, Hout]. intros x. rewrite Hc1. unfold patched.
    fold n. destruct (Z.leb_spec (lba * 512) x), (Z.ltb_spec x (lba * 512 + n)); cbn [andb]; try done.
    apply Hout, (apart_byte_sq _ _ n); [done|lia].
  - split; [by intros x; rewrite Hc1|]. intros x Hx. rewrite Hc2. unfold patched. by rewrite Hout.
Qed.

(** ** A whole region *)

Definition region_reached (data : Dma) : Prop :=
  block_region data ∧ mapped bus (phys data) (virt data) (size data) ∧
  sq_apart (io_sq d) (virt data) (Z.to_nat (size data)) ∧
  cqs_apart (virt data) (size data).

Lemma chunk_reached data i :
  region_reached data → 0 ≤ i < n_chunks data 8192 →
  reached (phys data + 8192 * i) (virt data + 8192 * i) (chunk_blocks (nth_chunk data 8192 i) * 512).
Proof.
  intros (Hb & Hm & Hsq & Hcq) Hi. destruct (chunk_sent data i Hb Hi) as (Hbl & _ & _ & He).
  pose proof Hb as ((? & ? & ? & ?) & _ & _ & ?).
  split; [by apply chunk_address|]. split; [lia|]. split; [lia|]. split; [lia|]. split.
  - intros j Hj. rewrite <-!Z.add_assoc. apply Hm. lia.
  - unfold cqs_apart, sq_apart, cq_apart in *. lia.
Qed.

Lemma play_region k (write : bool) data lba D m i :
  0 ≤ k → addrs_ok d → region_reached data → 0 ≤ lba → lba + 16 * n_chunks data 8192 < 2 ^ 64 →
  0 ≤ i ≤ n_chunks data 8192 →
  let t := zrange 0 i ≫= transfer_events d k write data lba in
  safe (k, (D, m)) t ∧
  ∃ D' m', plays (k, (D, m)) t = (k + i, (D', m')) ∧
    if write
    then (∀ x, D' x = patched D (lba * 512) (sent data i) (λ j, m (virt data + j)) x) ∧
         (∀ x, sq_apart (io_sq d) x 1 → m' x = m x)
    else (∀ x, D' x = D x) ∧
         (∀ x, sq_apart (io_sq d) x 1 →
            m' x = patched m (virt data) (sent data i) (λ j, D (lba * 512 + j)) x).
Proof.
  intros Hk Ha Hr Hl0 Hl Hi. pose proof Hr as (Hb & _ & Hsq & _).
  remember (Z.to_nat i) as c eqn:Hc. revert i Hi Hc. induction c as [|c IH]; intros i Hi Hc t.
  { assert (i = 0) as -> by lia. unfold t. rewrite zrange_nil by lia. split; [done|].
    exists D, m. split; [simpl; f_equal; lia|].
    assert (sent data 0 ≤ 0) as Hs by (unfold sent; lia).
    destruct write; (split; [intros x|intros x _]); by rewrite ?patched_empty. }
  destruct (IH (i - 1)) as (Hs1 & D1 & m1 & Hp1 & H1); [lia..|].
  destruct (chunk_sent data (i - 1) Hb) as (Hbl & Hst & Hst' & He); [lia|].
  assert (t = (zrange 0 (i - 1) ≫= transfer_events d k write data lba) ++
    transfer_events d k write data lba (i - 1)) as ->.
  { unfold t. replace i with (i - 1 + 1) at 1 by lia. by rewrite zrange_bind_snoc by lia. }
  rewrite play_app, play_safe_app, Hp1.
  change (transfer_events d k write data lba (i - 1)) with (io_events d (k + (i - 1))
    (io_cmd d (k + (i - 1)) write 1 (chunk_blocks (nth_chunk data 8192 (i - 1))) (lba + 16 * (i - 1))
      (phys data + 8192 * (i - 1)))).
  destruct (play_chunk (k + (i - 1)) write (chunk_blocks (nth_chunk data 8192 (i - 1)))
    (lba + 16 * (i - 1)) (phys data + 8192 * (i - 1)) (virt data + 8192 * (i - 1)) D1 m1)
    as (Hs2 & D2 & m2 & Hp2 & H2); [lia|done|done|lia|apply chunk_reached; [done|lia]|].
  split; [by split|]. exists D2, m2. split; [rewrite Hp2; f_equal; lia|].
  replace (i - 1 + 1) with i in Hst' by lia.
  destruct write; destruct H1 as [H1a H1b], H2 as [H2a H2b]; split.
  - intros x. rewrite H2a, Hst'. rewrite <-patched_snoc by lia. rewrite <-Hst.
    replace ((lba + 16 * (i - 1)) * 512) with (lba * 512 + sent data (i - 1)) by lia.
    unfold patched at 1 2. destruct (Z.leb_spec (lba * 512 + sent data (i - 1)) x),
      (Z.ltb_spec x (lba * 512 + sent data (i - 1) + chunk_blocks (nth_chunk data 8192 (i - 1)) * 512));
      cbn [andb]; try apply H1a.
    rewrite H1b; [f_equal; lia|]. destruct Hb as ((_ & _ & ? & _) & _).
    replace (virt data + sent data (i - 1) + (x - (lba * 512 + sent data (i - 1)))) with
      (virt data + (sent data (i - 1) + (x - (lba * 512 + sent data (i - 1))))) by lia.
    apply (apart_byte_sq _ _ (size data)); [done|lia].
  - intros x Hx. by rewrite H2b, H1b.
  - intros x. by rewrite H2a, H1a.
  - intros x Hx. rewrite H2b by done. rewrite Hst'. rewrite <-patched_snoc by lia. rewrite <-Hst.
    apply patched_ext; [by apply H1b|]. intros j. rewrite H1a. f_equal. lia.
Qed.

(** ** The example programs *)

(** The transfer of a region, reached from [w0]. *)
Lemma wp_since_transfer w0 k h s data lba (write : bool) w
    (Q : Res unit → NvmeDevice A → World E → Prop) :
  since w0 k k k w → addrs_ok d → block_region data →
  let n := n_chunks data 8192 in
  0 ≤ lba → lba + 16 * n < 2 ^ 64 → stats_room s n →
  (∀ j, k ≤ j < k + n → sc_field (posted j) = 0) →
  (∀ w', since w0 (k + n) (k + n) (k + n) w' →
     trace w' = trace w ++ (zrange 0 n ≫= transfer_events d k write data lba) →
     Q (Ret tt) (io_pos d (k + n) (io_head posted k h n) (stats_add s n)) w') →
  wp (if write then Io.write data lba else Io.read data lba) Q (io_pos d k h s) w.
Proof.
  intros Hw Ha (Hd & _ & _ & He) n Hl0 Hl Hs Hok HQ.
  pose proof (since_service w0) as IS.
  destruct (transfer_run d posted N (since w0) k h s data lba write w Hw Ha Hd He Hl0 Hl Hs Hok)
    as (w' & Hrun & Hw' & Ht).
  unfold wp. rewrite Hrun. by apply HQ.
Qed.

Lemma since_stored w0 k w a bs :
  since w0 k k k w → cq_apart (io_cq d) a (length bs) → since w0 k k k (stored a bs (tick w)).
Proof.
  intros Hw Ha. pose proof (since_service w0) as IS. pose proof (io_service (IoService:=IS)) as SV.
  apply service_store_idle; [|done].
  by apply (service_idle_tick (io_cq d) posted sqdb (sq_len (io_sq d)) N (since w0)).
Qed.

Lemma since_tick w0 k w : since w0 k k k w → since w0 k k k (tick w).
Proof.
  intros Hw. pose proof (since_service w0) as IS. pose proof (io_service (IoService:=IS)) as SV.
  by apply (service_idle_tick (io_cq d) posted sqdb (sq_len (io_sq d)) N (since w0)).
Qed.

(** The accesses of a program that puts [bytes] into a region, writes the region
    to the disk, puts something else there, and reads it back. *)
Definition there_and_back (k : Z) (data : Dma) (lba : Z) (bytes others : list Z) : list Event :=
  let n := n_chunks data 8192 in
  ([EvStore (virt data) bytes] ++ (zrange 0 n ≫= transfer_events d k true data lba)) ++
  ([EvStore (virt data) others] ++ (zrange 0 n ≫= transfer_events d (k + n) false data lba)).

Lemma play_there_and_back k data lba bytes others D m :
  0 ≤ k → addrs_ok d → region_reached data → 0 ≤ lba → lba + 16 * n_chunks data 8192 < 2 ^ 64 →
  Z.of_nat (length bytes) ≤ size data → Forall is_byte bytes →
  let t := there_and_back k data lba bytes others in
  safe (k, (D, m)) t ∧
  load_bytes (plays (k, (D, m)) t).2.2 (virt data) (length bytes) = bytes.
Proof.
  intros Hk Ha Hr Hl0 Hl Hn Hbs t. pose proof Hr as (((_ & _ & Hsz & _) & _) & _ & Hsq & _).
  pose proof (n_chunks_nonneg data 8192 ltac:(lia) Hsz) as Hc. set (n := n_chunks data 8192) in *.
  pose proof (sent_all data ltac:(apply Hr)) as Hall. fold n in Hall.
  set (m0 := store_bytes m (virt data) bytes).
  destruct (play_region k true data lba D m0 n Hk Ha Hr Hl0 Hl ltac:(lia))
    as (Hs1 & D1 & m1 & Hp1 & HD1 & Hm1).
  set (m2 := store_bytes m1 (virt data) others).
  destruct (play_region (k + n) false data lba D1 m2 n ltac:(lia) Ha Hr Hl0 Hl ltac:(lia))
    as (Hs2 & D2 & m3 & Hp2 & HD2 & Hm3).
  assert (plays (k, (D, m)) ([EvStore (virt data) bytes] ++
    (zrange 0 n ≫= transfer_events d k true data lba)) = (k + n, (D1, m1))) as Hfst.
  { rewrite play_app. exact Hp1. }
  unfold t, there_and_back. fold n. split.
  - apply play_safe_app. split.
    + apply play_safe_app. split; [done|exact Hs1].
    + rewrite Hfst. apply play_safe_app. split; [done|exact Hs2].
  - rewrite play_app, Hfst, play_app.
    change (plays (k + n, (D1, m1)) [EvStore (virt data) others]) with (k + n, (D1, m2)).
    rewrite Hp2. cbn [snd]. rewrite <-(load_store_same m (virt data) bytes) at 2 by done.
    apply load_bytes_ext. intros x Hx. fold m0.
    rewrite Hm3, Hall by (replace x with (virt data + (x - virt data)) by lia;
      apply (apart_byte_sq _ _ (size data)); [done|lia]).
    unfold patched. rewrite (proj2 (Z.leb_le _ _)), (proj2 (Z.ltb_lt _ _)) by lia. cbn [andb].
    rewrite HD1, Hall. unfold patched. rewrite (proj2 (Z.leb_le _ _)), (proj2 (Z.ltb_lt _ _)) by lia.
    cbn [andb]. f_equal. lia.
Qed.

(** *** Small transfers through the device's buffer *)

(** [n] bytes at [lba], with room for the counters: the namespace has blocks of
    512 bytes. *)
Definition copied_room (ns : NvmeNamespace) (n lba : Z) (s : NvmeStats) : Prop :=
  namespaces d !! 1 = Some ns ∧ block_size ns = 512 ∧ 0 < n ≤ 8192 ∧ n ≤ size (buffer d) ∧
  0 ≤ phys (buffer d) ∧ phys (buffer d) + 4096 < 2 ^ 64 ∧ 0 ≤ lba ∧ lba + 16 < 2 ^ 64 ∧ stats_room s 1.

Lemma wp_blocks_of ns n (Q : Res Z → NvmeDevice A → World E → Prop) s w :
  block_size ns = 512 → 0 < n ≤ 8192 → Q (Ret ((n + 511) / 512)) s w → wp (Io.blocks_of ns n) Q s w.
Proof.
  intros Hb Hn HQ. unfold Io.blocks_of. rewrite Hb. do 2 (wp_step; try lia). do 2 (wp_step; try lia).
  wp_step; try lia. by replace (n + 512 - 1) with (n + 511) by lia.
Qed.

Lemma copied_blocks n : 0 < n ≤ 8192 → 1 ≤ (n + 511) / 512 ≤ 16.
Proof.
  intros. split; [apply Z.div_le_lower_bound; lia|]. apply Z.lt_succ_r, Z.div_lt_upper_bound; lia.
Qed.

(** The command of such a transfer. *)
Definition copied_cmd (k : Z) (write : bool) (n lba : Z) : NvmeCommand :=
  io_cmd d k write 1 ((n + 511) / 512) lba (phys (buffer d)).

Lemma wp_since_copied w0 k h s ns n lba (write : bool) w (Q : Res unit → NvmeDevice A → World E → Prop) :
  since w0 k k k w → addrs_ok d → copied_room ns n lba s → sc_field (posted k) = 0 →
  (∀ w', since w0 (k + 1) (k + 1) (k + 1) w' →
     trace w' = trace w ++ io_events d k (copied_cmd k write n lba) →
     Q (Ret tt) (io_pos d (k + 1) (cpl_sq_head (posted k)) (counted s)) w') →
  wp (Io.namespace_io 1 ((n + 511) / 512) lba (phys (buffer d)) write) Q (io_pos d k h s) w.
Proof.
  intros Hw [Ha1 Ha2] (_ & _ & Hn & _ & Hp & Hp' & _ & _ & Hs) Hok HQ.
  pose proof (since_service w0) as IS. pose proof (copied_blocks n Hn).
  apply (wp_namespace_io d posted N (since w0)); [done|done|apply io_rejected_small; lia|done..|].
  intros w' Hw' Ht. rewrite Hok. by apply HQ.
Qed.

Lemma wp_since_write_copied w0 k h s ns data lba w (Q : Res unit → NvmeDevice A → World E → Prop) :
  let n := Z.of_nat (length data) in
  since w0 k k k w → addrs_ok d → copied_room ns n lba s →
  cq_apart (io_cq d) (virt (buffer d)) (length data) → sc_field (posted k) = 0 →
  (∀ w', since w0 (k + 1) (k + 1) (k + 1) w' →
     trace w' = trace w ++ EvStore (virt (buffer d)) data :: io_events d k (copied_cmd k true n lba) →
     Q (Ret tt) (io_pos d (k + 1) (cpl_sq_head (posted k)) (counted s)) w') →
  wp (Io.write_copied data lba) Q (io_pos d k h s) w.
Proof.
  intros n Hw Ha Hroom Hap Hok HQ. pose proof Hroom as (Hns & Hbs & Hn & Hsz & _ & _ & Hl0 & Hl & _).
  pose proof (copied_blocks n Hn) as Hb.
  unfold Io.write_copied. do 3 wp_step. apply wp_unwrap.
  change (namespaces (io_pos d k h s)) with (namespaces d). rewrite Hns. cbn [then_].
  rewrite chunks_one by (change (128 * 4096) with 524288; lia). cbn [for_fold].
  wp_step. wp_step. unfold Io.copy_to_buffer. do 4 wp_step.
  change (buffer (io_pos d k h s)) with (buffer d). apply wp_index_to; [lia|lia|]. cbn [then_ ptr].
  wp_step. apply (since_stored w0 k w (virt (buffer d)) data) in Hw; [|done].
  wp_step. apply (wp_blocks_of ns); [done|done|]. cbn [then_]. do 3 wp_step.
  apply (wp_since_copied w0 k h s ns n); [done..|]. intros w' Hw' Ht. cbn [then_].
  fold n. do 3 wp_step. apply HQ; [done|].
  rewrite Ht, <-(trace_tick w). symmetry. apply (app_assoc _ [_]).
Qed.

Lemma wp_since_read_copied w0 k h s ns dest lba w (Q : Res (list Z) → NvmeDevice A → World E → Prop) :
  let n := Z.of_nat (length dest) in
  since w0 k k k w → addrs_ok d → copied_room ns n lba s → sc_field (posted k) = 0 →
  (∀ w', since w0 (k + 1) (k + 1) (k + 1) w' →
     trace w' = trace w ++ io_events d k (copied_cmd k false n lba) →
     Q (Ret (load_bytes (mem w') (virt (buffer d)) (length dest)))
       (io_pos d (k + 1) (cpl_sq_head (posted k)) (counted s)) w') →
  wp (Io.read_copied dest lba) Q (io_pos d k h s) w.
Proof.
  intros n Hw Ha Hroom Hok HQ. pose proof Hroom as (Hns & Hbs & Hn & Hsz & _ & _ & Hl0 & Hl & _).
  pose proof (copied_blocks n Hn) as Hb.
  unfold Io.read_copied. do 3 wp_step. apply wp_unwrap.
  change (namespaces (io_pos d k h s)) with (namespaces d). rewrite Hns. cbn [then_].
  rewrite chunks_one by (change (128 * 4096) with 524288; lia). cbn [for_fold].
  wp_step. wp_step. wp_step. apply (wp_blocks_of ns); [done|done|]. cbn [then_]. do 3 wp_step.
  apply (wp_since_copied w0 k h s ns n); [done..|]. intros w' Hw' Ht. cbn [then_].
  wp_step. fold n. do 2 wp_step. unfold Io.copy_from_buffer. do 3 wp_step.
  change (buffer (io_pos d (k + 1) (cpl_sq_head (posted k)) (counted s))) with (buffer d).
  apply wp_index_to; [lia|lia|]. cbn [then_ ptr len]. do 4 wp_step. replace (Z.to_nat n) with (length dest) by lia. cbn [fst snd app].
  apply HQ; [by apply since_tick|by rewrite trace_tick].
Qed.


(** What a write and a read of one block range leave in the buffer: the data over
    what was there. *)
Definition copied_twice (k : Z) (data dest : list Z) (lba : Z) : list Event :=
  (EvStore (virt (buffer d)) data :: io_events d k (copied_cmd k true (Z.of_nat (length data)) lba)) ++
  io_events d (k + 1) (copied_cmd (k + 1) false (Z.of_nat (length dest)) lba).

Lemma play_copied k (data dest : list Z) blocks lba D m :
  0 ≤ k → addrs_ok d → 1 ≤ blocks ≤ 16 → 0 ≤ lba < 2 ^ 64 →
  (Z.of_nat (length data) + 511) / 512 = blocks → (Z.of_nat (length dest) + 511) / 512 = blocks →
  reached (phys (buffer d)) (virt (buffer d)) (blocks * 512) →
  let t := copied_twice k data dest lba in
  safe (k, (D, m)) t ∧
  ∀ x, virt (buffer d) ≤ x < virt (buffer d) + blocks * 512 →
    (plays (k, (D, m)) t).2.2 x = store_bytes m (virt (buffer d)) data x.
Proof.
  intros Hk Ha Hb Hl Hn Hn' Hr t. pose proof Hr as (_ & _ & _ & _ & _ & Hsq & _).
  set (m0 := store_bytes m (virt (buffer d)) data).
  destruct (play_chunk k true blocks lba (phys (buffer d)) (virt (buffer d)) D m0)
    as (Hs1 & D1 & m1 & Hp1 & HD1 & Hm1); [done..|].
  destruct (play_chunk (k + 1) false blocks lba (phys (buffer d)) (virt (buffer d)) D1 m1)
    as (Hs2 & D2 & m2 & Hp2 & HD2 & Hm2); [lia|done..|].
  assert (plays (k, (D, m)) (EvStore (virt (buffer d)) data :: io_events d k
    (copied_cmd k true (Z.of_nat (length data)) lba)) = (k + 1, (D1, m1))) as Hfst.
  { unfold copied_cmd. rewrite Hn. exact Hp1. }
  unfold t, copied_twice. rewrite play_app, play_safe_app, Hfst. unfold copied_cmd. rewrite Hn, Hn'.
  split; [by split|]. intros x Hx. rewrite Hp2. cbn [snd].
  rewrite Hm2 by (replace x with (virt (buffer d) + (x - virt (buffer d))) by lia;
    apply (apart_byte_sq _ _ (blocks * 512)); [done|lia]).
  unfold patched. rewrite (proj2 (Z.leb_le _ _)), (proj2 (Z.ltb_lt _ _)) by lia. cbn [andb].
  rewrite HD1. unfold patched. rewrite (proj2 (Z.leb_le _ _)), (proj2 (Z.ltb_lt _ _)) by lia. cbn [andb].
  f_equal. lia.
Qed.

Lemma copied_back w0 k k' w data (dest : list Z) blocks lba :
  serves k k k w0 → since w0 k' k' k' w → 0 ≤ k → addrs_ok d → 1 ≤ blocks ≤ 16 → 0 ≤ lba < 2 ^ 64 →
  (Z.of_nat (length data) + 511) / 512 = blocks → (Z.of_nat (length dest) + 511) / 512 = blocks →
  reached (phys (buffer d)) (virt (buffer d)) (blocks * 512) →
  trace w = trace w0 ++ copied_twice k data dest lba →
  load_bytes (mem w) (virt (buffer d)) (length dest) =
  load_bytes (store_bytes (mem w0) (virt (buffer d)) data) (virt (buffer d)) (length dest).
Proof.
  intros Hw0 [Hw Hacc] Hk Ha Hb Hl Hn Hn' Hr Ht. pose proof Hr as (_ & _ & _ & _ & _ & _ & Hcq).
  assert (Z.of_nat (length dest) ≤ blocks * 512) as Hlen by (Z.to_euclidean_division_equations; lia).
  destruct (play_copied k data dest blocks lba (disk w0) (mem w0) Hk Ha Hb Hl Hn Hn' Hr) as [Hs Hm].
  destruct (disk_follows (d:=d) k k' w0 w _ Hw0 Hw Hacc Ht Hs) as [_ Hag].
  apply load_bytes_ext. intros x Hx. rewrite <-Hm by lia. apply Hag.
  replace x with (virt (buffer d) + (x - virt (buffer d))) by lia.
  apply (apart_byte_cq _ (blocks * 512)); [done|lia].
Qed.

(** What is in the memory after the transfers of a region. *)
Lemma read_back w0 k k' w data lba bytes others :
  serves k k k w0 → since w0 k' k' k' w → 0 ≤ k → addrs_ok d → region_reached data →
  0 ≤ lba → lba + 16 * n_chunks data 8192 < 2 ^ 64 →
  Z.of_nat (length bytes) ≤ size data → Forall is_byte bytes →
  trace w = trace w0 ++ there_and_back k data lba bytes others →
  load_bytes (mem w) (virt data) (length bytes) = bytes.
Proof.
  intros Hw0 [Hw Hacc] Hk Ha Hr Hl0 Hl Hn Hbs Ht. pose proof Hr as (_ & _ & _ & Hcq).
  destruct (play_there_and_back k data lba bytes others (disk w0) (mem w0) Hk Ha Hr Hl0 Hl Hn Hbs)
    as [Hs Hload].
  destruct (disk_follows (d:=d) k k' w0 w _ Hw0 Hw Hacc Ht Hs) as [_ Hm].
  rewrite <-Hload at 2. apply load_bytes_ext. intros x Hx. symmetry. symmetry. apply Hm.
  replace x with (virt data + (x - virt data)) by lia.
  apply (apart_byte_cq _ (size data)); [done|lia].
Qed.

End closed.

(** ** A controller with a disk that has the interface *)

#[local] Arguments perform : simpl never.
#[local] Arguments sq_entry : simpl never.

Section disk.
Context (bus : Z → Z) (q : SubmissionQueue) (c : CompletionQueue) (posted : Z → NvmeCompletion).
Context (shut : Z → bool) (sqdb : Z).

(** The disk, the numbers of rings and of completions.  A run executes the next
    command and posts its completion; what a command would put into the
    memory that is [shut] is dropped. *)
Definition disk_hw : Hardware (Mem * (Z * Z)) := {|
  hw_run e m :=
    let '(disk, (G, P)) := e in
    if P <? G
    then
      let st := perform bus (disk, m) (sq_entry m q (P `mod` sq_len q)) in
      ((st.1, (G, P + 1)),
       store_bytes (λ x, if shut x then m x else st.2 x)
         (CompletionQueue.slot c (P `mod` cq_len c)) (NvmeCompletion.encode (posted P)))
    else (e, m);
  hw_read _ _ e := (0, e);
  hw_write _ a _ e :=
    let '(disk, (G, P)) := e in if a =? sqdb then (disk, (G + 1, P)) else e;
|}.

Definition disk_serving (G C P : Z) (w : World (Mem * (Z * Z))) : Prop :=
  (env w).2 = (G, P) ∧ P ≤ G ≤ C + cq_len c ∧ cq_view c posted C P (mem w).

Definition disk_of (w : World (Mem * (Z * Z))) : Mem := (env w).1.

Context (Hlen : 0 < cq_len c ≤ QUEUE_LENGTH) (Hq : 0 < sq_len q).
Context (Hshut : ∀ x, shut x = false → cq_apart c x 1).
Context (Hap : ∀ i x, 0 ≤ i < sq_len q → sq_slot q i ≤ x < sq_slot q i + 64 → shut x = false).
Context (Hwf : ∀ k, 0 ≤ k → NvmeCompletion.wf (posted k)).
Context (Hphase : ∀ k, 0 ≤ k → Z.odd (cpl_status (posted k)) = phase_at (cq_len c) k).

#[local] Existing Instance disk_hw.

Lemma disk_tick G C P w :
  disk_serving G C P w → disk_serving G C (if P <? G then P + 1 else P) (tick w).
Proof.
  intros (He & HPg & Hv). unfold disk_serving, tick. simpl.
  destruct (env w) as [D [? ?]]. simpl in He. injection He as -> ->.
  destruct (Z.ltb_spec P G); simpl; [|done]. split; [done|]. split; [lia|].
  pose proof Hv as (? & _). apply cq_view_post; [done|apply Hwf; lia|apply Hphase; lia|lia|].
  apply (cq_view_ext _ _ Hlen _ _ (mem w)); [|done]. intros x Hx.
  destruct (shut x) eqn:Hin; [done|]. by apply Hshut in Hin.
Qed.

Lemma disk_service : CqService c posted sqdb (sq_len q) 1 disk_serving.
Proof.
  apply cq_service_intro.
  - by intros G C P w (_ & [? _] & ?).
  - intros G C P w HP%disk_tick. eexists; split; [|done]. destruct (_ <? _); lia.
  - intros G C P w (? & ? & ?) ?. split; [done|]. split; [lia|]. apply cq_view_take; [lia|done..].
  - intros G C P w a bs (? & ? & ?) ?. split; [done|]. split; [done|]. by apply cq_view_store.
  - intros G C P w (He & ? & ?) ?. unfold disk_serving. simpl. rewrite Z.eqb_refl.
    destruct (env w) as [v0 [? ?]]. simpl in He. injection He as -> ->. simpl.
    split; [done|]. split; [lia|done].
  - intros G C P w n a v (He & ? & ?) Ha. unfold disk_serving. simpl.
    destruct (env w) as [v0 [? ?]]. simpl in *. by rewrite (proj2 (Z.eqb_neq _ _) Ha).
  - by intros.
  - intros G C P w HP%disk_tick HPg. exists 0%nat, (P + 1).
    rewrite (proj2 (Z.ltb_lt _ _) HPg) in HP. split; [lia|]. split; [lia|done].
Qed.

(** *** It does what the accesses mean *)

#[local] Abbreviation plays := (play bus q sqdb).
#[local] Abbreviation open := (λ x, shut x = false).
#[local] Abbreviation safe := (play_safe bus q open sqdb).
#[local] Abbreviation idle := (λ w, ∃ G, disk_serving G G G w).

(** The commands announced, with at most one of them still to be executed. *)
Definition followed (k : Z) (st0 : Storage) (t : list Event) (w : World (Mem * (Z * Z))) : Prop :=
  safe (k, st0) t →
  ∃ G P st, (env w).2 = (G, P) ∧ plays (k, st0) t = (G, st) ∧
    ((P = G ∧ agree open st (disk_of w, mem w)) ∨
     (P + 1 = G ∧ ∃ st1, let cmd := sq_entry st1.2 q (P `mod` sq_len q) in
        st = perform bus st1 cmd ∧ agree open st1 (disk_of w, mem w) ∧ insensitive bus open st1 cmd)).

Lemma agree_entry st st' i :
  agree open st st' → 0 ≤ i < sq_len q → sq_entry st'.2 q i = sq_entry st.2 q i.
Proof.
  intros [_ Hm] Hi. unfold sq_entry. f_equal. apply load_bytes_ext. intros x Hx. apply Hm.
  apply (Hap i); [done|]. rewrite size_of_command in *. lia.
Qed.

Lemma followed_tick k st0 t w : followed k st0 t w → followed k st0 t (tick w).
Proof.
  intros Hf Hs. destruct (Hf Hs) as (G & P & st & He & Hp & Hst). clear Hf.
  unfold tick, disk_of in *. cbn [hw_run disk_hw]. destruct (env w) as [D [G' P']].
  cbn [fst snd] in He, Hst. injection He as -> ->.
  destruct Hst as [[-> Ha]|[HG (st1 & -> & Ha & Hi)]].
  { exists G, G, st. rewrite Z.ltb_irrefl. split; [done|]. split; [done|]. by left. }
  rewrite (proj2 (Z.ltb_lt P G)) by lia. exists G, (P + 1), (perform bus st1 (sq_entry st1.2 q (P `mod` sq_len q))).
  split; [done|]. split; [done|]. left. split; [done|]. cbn [env mem upd fst snd].
  assert (sq_entry (mem w) q (P `mod` sq_len q) = sq_entry st1.2 q (P `mod` sq_len q)) as ->
    by (apply (agree_entry st1 (D, mem w)); [done|by apply Z.mod_pos_bound]).
  destruct (Hi _ Ha) as [HD Hm]. split; [exact HD|]. intros x Hx. cbn [snd].
  rewrite store_bytes_other.
  - rewrite Hx. by apply Hm.
  - apply Hshut in Hx. rewrite completion_encode_length. unfold cq_apart, CompletionQueue.slot in *.
    rewrite size_of_completion in *. pose proof (Z.mod_pos_bound P (cq_len c) ltac:(lia)). lia.
Qed.

Lemma followed_nothing k st0 t w w' ev :
  (∀ st, play_event bus q sqdb st ev = st) → env w' = env w → mem w' = mem w →
  followed k st0 t w → followed k st0 (t ++ [ev]) w'.
Proof.
  intros Hev He Hm Hf [Hs _]%play_safe_app. destruct (Hf Hs) as (G & P & st & ? & Hp & Hst).
  exists G, P, st. unfold disk_of in *. rewrite He, Hm, play_app, Hp.
  split; [done|]. split; [apply Hev|done].
Qed.

(** Between commands. *)
Lemma followed_idle k st0 t w :
  followed k st0 t w → idle w → safe (k, st0) t →
  ∃ G st, (env w).2 = (G, G) ∧ plays (k, st0) t = (G, st) ∧ agree open st (disk_of w, mem w).
Proof.
  intros Hf (G' & He' & _) Hs. destruct (Hf Hs) as (G & P & st & He & Hp & Hst).
  rewrite He in He'. injection He' as -> ->. exists G', st.
  destruct Hst as [[_ ?]|[? _]]; [done|lia].
Qed.

Lemma followed_store k st0 t w a bs :
  idle w → followed k st0 t w → followed k st0 (t ++ [EvStore a bs]) (stored a bs w).
Proof.
  intros Hi Hf [Hs _]%play_safe_app. destruct (followed_idle _ _ _ _ Hf Hi Hs) as (G & [D m] & He & Hp & HD & Hm).
  exists G, G, (D, store_bytes m a bs). rewrite play_app, Hp. split; [done|]. split; [done|]. left.
  split; [done|]. split; [exact HD|]. intros x Hx. specialize (Hm x Hx). simpl in *.
  unfold store_bytes. by destruct (_ && _).
Qed.

Lemma followed_ring k st0 t w v :
  idle w → followed k st0 t w → followed k st0 (t ++ [EvWrite 4 sqdb v]) (written 4 sqdb v w).
Proof.
  intros Hi Hf [Hs Hr]%play_safe_app. destruct (followed_idle _ _ _ _ Hf Hi Hs) as (G & [D m] & He & Hp & Ha).
  rewrite Hp in Hr. destruct Hr as [Hr _]. specialize (Hr eq_refl). cbn [fst snd] in Hr.
  exists (G + 1), G, (perform bus (D, m) (sq_entry m q (G `mod` sq_len q))).
  rewrite play_app, Hp. unfold disk_of in *. unfold play. cbn [foldl play_event]. rewrite Z.eqb_refl.
  unfold written. simpl. rewrite Z.eqb_refl. destruct (env w) as [D' [? ?]]. simpl in *.
  injection He as -> ->. split; [done|]. split; [done|]. right. split; [done|]. by exists (D, m).
Qed.

Lemma followed_access w0 k w :
  rtc (sync_access idle sqdb) w0 w → disk_serving k k k w0 →
  ∃ t, trace w = trace w0 ++ t ∧ followed k (disk_of w0, mem w0) t w.
Proof.
  intros Hacc Hw0. revert w Hacc. apply (rtc_ind_r _ w0).
  { exists []. rewrite app_nil_r. split; [done|]. intros _. exists k, k, (disk_of w0, mem w0).
    split; [apply Hw0|]. split; [done|]. left. by split. }
  intros w w' _ Ha (t & Ht & IH). destruct Ha as [w|w n a|w n a v Hne|w a bs Hi|w v Hi].
  - exists t. rewrite trace_tick. split; [done|]. by apply followed_tick.
  - eexists. rewrite trace_reading, Ht, <-app_assoc. split; [done|].
    by apply (followed_nothing _ _ _ w); [intros [? []]|..].
  - eexists. rewrite trace_written, Ht, <-app_assoc. split; [done|].
    apply (followed_nothing _ _ _ w); [|..|done].
    + intros [? []]. cbn [play_event]. by rewrite (proj2 (Z.eqb_neq _ _) Hne).
    + unfold written. cbn [env log upd hw_write disk_hw]. destruct (env w) as [? []].
      by rewrite (proj2 (Z.eqb_neq _ _) Hne).
    + done.
  - eexists. rewrite trace_stored, Ht, <-app_assoc. split; [done|]. by apply followed_store.
  - eexists. rewrite trace_written, Ht, <-app_assoc. split; [done|]. by apply followed_ring.
Qed.

Lemma disk_follows_accesses k k' w w' t :
  disk_serving k k k w → disk_serving k' k' k' w' → rtc (sync_access idle sqdb) w w' →
  trace w' = trace w ++ t → safe (k, (disk_of w, mem w)) t →
  agree open (plays (k, (disk_of w, mem w)) t).2 (disk_of w', mem w').
Proof.
  intros Hw Hw' Hacc Ht Hs.
  destruct (followed_access w k w' Hacc Hw) as (t' & Ht' & Hf).
  rewrite Ht in Ht'. apply app_inv_head in Ht' as <-.
  destruct (followed_idle _ _ _ w' Hf ltac:(by exists k') Hs) as (G & st & _ & Hp & Ha).
  change st with (G, st).2 in Ha. rewrite <-Hp in Ha. exact Ha.
Qed.

End disk.

(** ** Properties *)

Lemma as_bytes_is_byte s : Forall is_byte (as_bytes s).
Proof.
  apply Forall_forall. intros z (c & -> & _)%list_elem_of_fmap. pose proof (Ascii.nat_ascii_bounded c).
  unfold is_byte. lia.
Qed.

(** The example program [simple_io] reads back what it wrote.  On a device
    whose own queue is served by a controller with a disk, which completes the two
    commands with success, with an allocator that gives a page that the
    controller reaches: the program writes its text to the disk, overwrites it in
    memory, reads it back and returns it, whatever the controller does in between
    and whatever the disk and the memory held before. *)
Lemma simple_io_reads_back `{BLD : Build} `{FUEL : Fuel} {A E} `{HW : Hardware E} `{MAP : Mapping A E}
    (d : NvmeDevice A) (posted : Z → NvmeCompletion) (N : nat)
    (serves : Z → Z → Z → World E → Prop) (bus : Z → Z) (disk : World E → Mem)
    (buf : Dma) (k h : Z) (s : NvmeStats) (w w1 : World E) :
  DiskService d posted N serves bus disk → addrs_ok d → region_reached d bus buf →
  size buf = PAGESIZE_4KIB → stats_room s 2 →
  allocate (allocator d) PAGESIZE_4KIB (io_pos d k h s, w) = (Ret buf, (io_pos d k h s, w1)) →
  (∀ d' w2, ∃ w3, deallocate (allocator d) buf (d', w2) = (Ret tt, (d' : NvmeDevice A, w3))) →
  serves k k k w1 → sc_field (posted k) = 0 → sc_field (posted (k + 1)) = 0 →
  ∃ d' w', simple_io (io_pos d k h s, w) = (Ret (as_bytes "hello world! vroom test bytes"), (d', w')).
Proof.
  intros DS Ha Hr Hsz (? & ? & ? & ?) Halloc Hde Hw Hok0 Hok1. change PAGESIZE_4KIB with 4096 in Hsz.
  assert (wp simple_io (λ r _ _, r = Ret (as_bytes "hello world! vroom test bytes"))
    (io_pos d k h s) w) as Hwp.
  2:{ apply wp_run in Hwp as (r & d' & w' & Hrun & ->). by exists d', w'. }
  pose proof (as_bytes_is_byte "hello world! vroom test bytes") as Hbs.
  unfold simple_io. cbv zeta. assert (length (as_bytes "hello world! vroom test bytes") = 29%nat) as Hlen by done.
  remember (as_bytes "hello world! vroom test bytes") as text eqn:Htext. clear Htext. rewrite Hlen.
  remember (repeat 0 29) as zeros eqn:Hz. assert (length zeros = 29%nat) as Hlz by by rewrite Hz.
  clear Hz. change (Z.of_nat 29) with 29.
  do 3 wp_step. unfold wp at 1.
  change (allocate (io_pos d k h s) PAGESIZE_4KIB) with
    (allocate (S := NvmeDevice A) (allocator d) PAGESIZE_4KIB).
  rewrite Halloc. cbn [fst snd then_].
  pose proof Hr as (Hblk & _ & _ & Hcq). assert (n_chunks buf 8192 = 1) as Hn
    by (unfold n_chunks; by rewrite Hsz).
  assert (∀ bs : list Z, length bs = 29%nat → cq_apart (io_cq d) (virt buf) (length bs)) as Hap.
  { intros bs Hl. rewrite Hl. destruct Hcq. unfold cq_apart in *. lia. }
  pose proof (since_stored d posted N serves bus disk w1) as Hstored.
  pose proof (since_refl d serves w1 k Hw) as Hw1.
  wp_step. apply wp_index_to; [lia|lia|]. cbn [then_ ptr]. do 2 wp_step.
  apply (Hstored k _ (virt buf) text) in Hw1; [|by apply Hap].
  wp_step. apply (wp_since_transfer d posted N serves bus disk w1 k h s buf 0 true _ _ Hw1 Ha Hblk);
    rewrite ?Hn; [lia|lia|unfold stats_room; lia|intros j Hj; by replace j with k by lia|].
  intros w2 Hw2 Ht2. cbn [then_].
  wp_step. apply wp_index_to; [lia|lia|]. cbn [then_ ptr]. do 2 wp_step.
  apply (Hstored (k + 1) _ (virt buf) zeros) in Hw2; [|by apply Hap].
  wp_step. apply (wp_since_transfer d posted N serves bus disk w1 (k + 1) _ _ buf 0 false _ _ Hw2 Ha Hblk);
    rewrite ?Hn; [lia|lia|unfold stats_room, stats_add; simpl; lia|intros j Hj; by replace j with (k + 1) by lia|].
  intros w3 Hw3 Ht3. cbn [then_].
  apply (since_tick d posted N serves bus disk) in Hw3. wp_step. apply (wp_index_to buf 29); [lia|lia|].
  cbn [then_ ptr len]. do 2 wp_step.
  assert (load_bytes (mem (tick w3)) (virt buf) (Z.to_nat 29) = text) as ->.
  { change (Z.to_nat 29) with 29%nat. rewrite <-Hlen.
    pose proof (io_service (d:=d)) as SV. destruct (service_view (SyncService:=SV) _ _ _ _ Hw) as (_ & (? & ?) & _).
    apply (read_back d posted N serves bus disk w1 k (k + 1 + 1) _ buf 0 text zeros); try done; try lia.
    unfold there_and_back. rewrite Hn, trace_tick, Ht3, trace_stored, trace_tick, Ht2, trace_stored,
      trace_tick. by rewrite <-!app_assoc. }
  unfold wp, mbind, M_bind. change (deallocate (io_pos d k h s) buf) with
    (deallocate (S := NvmeDevice A) (allocator d) buf).
  set (d' := io_pos d (k + 1 + 1) _ _). destruct (Hde d' (tick w3)) as [w4 ->]. done.
Qed.

(** C23: the example program [hello_world] reads back what it wrote, and one byte
    more.  On a device with a namespace of 512-byte blocks whose own queue is
    served by a controller with a disk, which completes the two commands with
    success: the program writes its eleven bytes through the buffer of the device
    and reads twelve; it returns its text followed by the byte that the buffer
    held behind it before, which the first command has put on the disk with the
    rest of the block. *)
Theorem hello_world_reads_back `{BLD : Build} `{FUEL : Fuel} {A E} `{HW : Hardware E}
    (d : NvmeDevice A) (posted : Z → NvmeCompletion) (N : nat)
    (serves : Z → Z → Z → World E → Prop) (bus : Z → Z) (disk : World E → Mem)
    (ns : NvmeNamespace) (k h : Z) (s : NvmeStats) (w : World E) :
  DiskService d posted N serves bus disk → addrs_ok d →
  reached d bus (phys (buffer d)) (virt (buffer d)) 512 → 512 ≤ size (buffer d) →
  namespaces d !! 1 = Some ns → block_size ns = 512 → stats_room s 2 →
  serves k k k w → sc_field (posted k) = 0 → sc_field (posted (k + 1)) = 0 →
  ∃ d' w', hello_world (io_pos d k h s, w) =
    (Ret (as_bytes "hello world" ++ [mem w (virt (buffer d) + 11) `mod` 256]), (d', w')).
Proof.
  intros DS Ha Hr Hsz Hns Hbs Hst Hw Hok0 Hok1. pose proof Hr as (_ & ? & ? & _ & _ & _ & Hcq).
  pose proof (as_bytes_is_byte "hello world") as Hbytes.
  assert (length (as_bytes "hello world") = 11%nat) as Hlen by done.
  assert (∀ r, wp hello_world (λ r' _ _, r' = Ret r) (io_pos d k h s) w →
    ∃ d' w', hello_world (io_pos d k h s, w) = (Ret r, (d', w'))) as Hrun.
  { intros r (r' & d' & w' & Hrun & ->)%wp_run. by exists d', w'. }
  apply Hrun. clear Hrun. unfold hello_world.
  set (text := as_bytes "hello world") in *. clearbody text.
  assert (∀ n s', 0 < n ≤ 12 → stats_room s' 1 → copied_room d ns n 0 s') as Hroom.
  { intros n s' Hn Hs'. unfold copied_room, stats_room in *. repeat split; try done; lia. }
  wp_step.
  apply (wp_since_write_copied d posted N serves bus disk w k h s ns);
    [by apply since_refl|done|rewrite Hlen; apply Hroom; [lia|unfold stats_room in *; lia]|..|done|].
  { destruct Hcq. unfold cq_apart in *. lia. }
  intros w1 Hw1 Ht1. cbn [then_].
  apply (wp_since_read_copied d posted N serves bus disk w (k + 1) _ _ ns);
    [done|done|apply Hroom; [simpl; lia|unfold stats_room, counted in *; simpl; lia]|done|].
  intros w2 Hw2 Ht2. f_equal.
  pose proof (io_service (d:=d)) as SV. destruct (service_view (SyncService:=SV) _ _ _ _ Hw) as (_ & (? & ?) & _).
  rewrite (copied_back d posted N serves bus disk w k (k + 1 + 1) w2 text (repeat 0 12) 1 0); try done; try lia.
  - change (length (repeat 0 12)) with (S 11). rewrite <-Hlen at 1. rewrite load_store_snoc by done.
    by rewrite Hlen.
  - by rewrite Hlen.
  - rewrite Ht2, Ht1. by rewrite <-app_assoc.
Qed.

Definition demo_disk_hw : Hardware (Mem * (Z * Z)) :=
  disk_hw id (io_sq (demo_device 0)) (io_cq (demo_device 0)) (success 4) (posted_at (demo_device 0))
    (doorbell_at (demo_device 0) 1 0).

Definition demo_disk_serves : Z → Z → Z → World (Mem * (Z * Z)) → Prop :=
  disk_serving (io_cq (demo_device 0)) (success 4).

Definition demo_disk_world : World (Mem * (Z * Z)) := initial (λ _, 0, (0, 0)) (λ _, 0).

Lemma demo_disk_service :
  DiskService (FUEL:=10%nat) (HW:=demo_disk_hw) (demo_device 0) (success 4) 1 demo_disk_serves id disk_of.
Proof.
  pose proof demo_io_service as [_ Hd Hs Hr Hf].
  assert (∀ k, 0 ≤ k → NvmeCompletion.wf (success 4 k)) as Hwf.
  { intros. apply success_wf. rewrite QUEUE_LENGTH_value. lia. }
  assert (∀ x, posted_at (demo_device 0) x = false → cq_apart (io_cq (demo_device 0)) x 1) as Hshut.
  { by intros x [? _]%free_apart. }
  split.
  - split; [|exact Hd|exact Hs|exact Hr|exact Hf].
    apply (disk_service _ _ _ _ (posted_at (demo_device 0))); [exact demo_io_len|exact Hshut|exact Hwf|].
    intros. apply success_phase.
  - intros k k' w w' t. apply disk_follows_accesses; [exact demo_io_len|simpl; lia|exact Hshut|].
    intros i x Hi Hx. apply free_apart. unfold sq_slot, cq_apart in *.
    rewrite size_of_command, size_of_completion in *. simpl in *. lia.
Qed.

Lemma demo_disk_init : demo_disk_serves 0 0 0 demo_disk_world.
Proof.
  split; [done|]. split; [simpl; lia|]. apply (serving_init (io_cq (demo_device 0)) (success 4) demo_io_len).
Qed.

(** The same device with a namespace. *)
Lemma demo_copy_service :
  DiskService (FUEL:=10%nat) (HW:=demo_disk_hw) demo_batch_device (success 4) 1 demo_disk_serves id disk_of.
Proof.
  destruct demo_disk_service as [[H1 H2 H3 H4 H5] Hf]. split; [by split|exact Hf].
Qed.

Lemma hello_world_reads_back_witness :
  ∃ d' w', hello_world (BLD:=true) (FUEL:=10%nat) (HW:=demo_disk_hw)
      (io_pos demo_batch_device 0 0 (mkNvmeStats 0 0), demo_disk_world) =
    (Ret (as_bytes "hello world" ++ [0]), (d', w')).
Proof.
  apply (hello_world_reads_back (BLD:=true) (FUEL:=10%nat) (HW:=demo_disk_hw) demo_batch_device
    (success 4) 1 demo_disk_serves id disk_of demo_namespace 0 0 (mkNvmeStats 0 0) demo_disk_world
    demo_copy_service demo_addrs_ok).
  - unfold reached, mapped, cqs_apart, sq_apart, cq_apart. rewrite size_of_command, size_of_completion. simpl.
    split; [done|]. split; [lia|]. split; [lia|]. split; [lia|]. split; [by intros j|lia].
  - done.
  - reflexivity.
  - reflexivity.
  - apply demo_stats_room. lia.
  - exact demo_disk_init.
  - reflexivity.
  - reflexivity.
Defined.
