(* ===== verification/Single.v ===== *)
(** The benchmarks with one operation at a time ([qd_1_singlethread] of
    [examples/throughput.rs] and [qd_1_singlethread_latency] of
    [examples/latency.rs]), on the queue of the device itself. *)

From stdpp Require Import gmap.
From S2P Require Import Prelude Bytes Machine Memory Cmd Mapping Queues Service Os QueuePair Device Io Bench Protocol Measure Examples Storage.
#[local] Open Scope Z_scope.

(** The value of an [i32] counter after [n] increments in a release build. *)
Definition i32 (n : Z) : Z := (n + 2 ^ 31) `mod` 2 ^ 32 - 2 ^ 31.

Lemma i32_small n : - 2 ^ 31 ≤ n < 2 ^ 31 → i32 n = n.
Proof. intros. unfold i32. rewrite Z.mod_small; lia. Qed.

Lemma i32_succ n : i32 (i32 n + 1) = i32 (n + 1).
Proof. unfold i32. Z.to_euclidean_division_equations. lia. Qed.

Lemma i32_bounds n : - 2 ^ 31 ≤ i32 n < 2 ^ 31.
Proof. unfold i32. pose proof (Z.mod_pos_bound (n + 2 ^ 31) (2 ^ 32) ltac:(lia)). lia. Qed.

Lemma random_bytes_length {R} `{RN : Rng R} n (rng : R) : length (random_bytes n rng).1 = n.
Proof.
  revert rng. induction n as [|n IH]; intros rng; [done|]. cbn [random_bytes].
  destruct (random_u8 rng) as [b rng1]. specialize (IH rng1).
  destruct (random_bytes n rng1) as [bs rng2]. cbn in *. by rewrite IH.
Qed.

Section single.
Context {A E R : Type} `{BLD : Build} `{FUEL : Fuel} `{HW : Hardware E} `{CK : Clock E} `{RN : Rng R}.
Context `{CL : !ClockLaws} `{RL : !RngLaws}.
Context (d : NvmeDevice A) (posted : Z → NvmeCompletion) (N : nat).
Context (serves : Z → Z → Z → World E → Prop) `{IS : !IoService d posted N serves}.
Implicit Types (w : World E) (k h : Z) (s : NvmeStats) (js : list Z).

(** The service, not before the time [t]. *)
Lemma timed_io t : IoService d posted N (timed serves t).
Proof using IS CL.
  destruct IS as [[Hv Ht Htake Hst Hri Hw Hr Hl] Hd Hs Hrings Hf]. split; [|done..]. split.
  - intros G C P w [HP _]. by apply Hv.
  - intros G C P w [HP ?]. destruct (Ht _ _ _ _ HP) as (P' & ? & ?). pose proof (clock_tick w).
    exists P'. split; [done|]. split; [done|lia].
  - intros G C P w [HP ?] ?. split; [by apply Htake|done].
  - intros G w a bs [HP ?] ?. split; [by apply Hst|done].
  - intros G w [HP ?] ?. split; [by apply Hri|]. etrans; [done|apply clock_write].
  - intros G C P w n a v [HP ?] ?. split; [by apply Hw|]. etrans; [done|apply clock_write].
  - intros G C P w n a [HP ?]. split; [by apply Hr|]. etrans; [done|apply clock_read].
  - intros G C P w [HP ?] ?. destruct (Hl _ _ _ _ HP) as (i & P' & ? & ? & ?); [done|].
    exists i, P'. split; [done|]. split; [done|]. split; [done|]. etrans; [done|apply clock_ticks].
Qed.

Context (buf : Dma) (write : bool) (k h : Z) (s : NvmeStats) (w0 : World E).

(** The accesses of operation [i]: one command for the eight blocks from [8 * j]. *)
Definition op_events (i j : Z) : list Event :=
  io_events d (k + i) (io_cmd d (k + i) write 1 8 (8 * j) (phys buf)).

Fixpoint ops_events (i : Z) js : list Event :=
  match js with
  | [] => []
  | j :: js => op_events i j ++ ops_events (i + 1) js
  end.

Lemma ops_events_snoc i js j :
  ops_events i (js ++ [j]) = ops_events i js ++ op_events (i + Z.of_nat (length js)) j.
Proof.
  revert i. induction js as [|j' js IH]; intros i; cbn [ops_events app length].
  - by rewrite app_nil_r, Z.add_0_r.
  - rewrite IH, <-app_assoc. do 3 f_equal. lia.
Qed.

(** After the operations [js], at the time [total] at least. *)
Definition ops_done (total : Z) js (d' : NvmeDevice A) w : Prop :=
  let n := Z.of_nat (length js) in
  d' = io_pos d (k + n) (io_head posted k h n) (stats_add s n) ∧
  timed serves total (k + n) (k + n) (k + n) w ∧ trace w = trace w0 ++ ops_events 0 js ∧ n ≤ total ∧
  (overflow_checks = true → n < 2 ^ 31).

Lemma ops_done_nil w : serves k k k w → trace w = trace w0 → ops_done 0 [] (io_pos d k h s) w.
Proof using CL.
  intros Hw Ht. unfold ops_done. cbn. rewrite Z.add_0_r, app_nil_r. split; [|split; [|by rewrite Ht]].
  - unfold io_head, stats_add. cbn. rewrite !Z.add_0_r. by destruct s.
  - split; [done|apply clock_nonneg].
Qed.

(** A region that holds one operation. *)
Definition op_buffer : Prop := dma_ok buf ∧ 4096 ≤ size buf ∧ phys buf + 8192 < 2 ^ 64.

Context (Hbuf : op_buffer) (Haddr : addrs_ok d).
Context (Hok : ∀ j, k ≤ j → sc_field (posted j) = 0).

(** The ends of a run other than the regular one, the operations [js] being done:
    the sum of the times overflows, or in a debug build the counter does. *)
Definition stopped {B} js (r : Res B) w : Prop :=
  (r = Panicked too_late ∧ MAX_DURATION ≤ clock (env w)) ∨
  (r = Panicked Overflow ∧ overflow_checks = true ∧ Z.of_nat (length js) = 2 ^ 31).

Definition or_stopped {S B} (Q : Res B → S → World E → Prop) : Prop :=
  ∀ js r x w, stopped js r w → trace w = trace w0 ++ ops_events 0 js → Q r x w.

Lemma or_stopped_then {S B B'} (f : B → M E S B') (Q : Res B' → S → World E → Prop) :
  or_stopped Q → or_stopped (then_ (λ b, wp (f b) Q) Q).
Proof.
  intros HQ js r x w Hr Ht. destruct Hr as [[-> ?]|[-> ?]]; cbn [then_]; apply (HQ js); try done;
    [by left|by right].
Qed.

(** The transfer alone. *)
Lemma wp_single_io t js j d' w (Q : Res unit → NvmeDevice A → World E → Prop) :
  ops_done t js d' w → stats_room s (Z.of_nat (length js) + 1) → 0 ≤ j → 8 * j + 16 < 2 ^ 64 →
  ∀ t', t ≤ t' → t' ≤ clock (env w) →
  (∀ d'' w', let n := Z.of_nat (length js) + 1 in
     d'' = io_pos d (k + n) (io_head posted k h n) (stats_add s n) →
     timed serves t' (k + n) (k + n) (k + n) w' → trace w' = trace w0 ++ ops_events 0 (js ++ [j]) →
     Q (Ret tt) d'' w') →
  let sl := mkDma (virt buf + 0) (phys buf + 0) (4096 - 0) in
  wp (if write then Io.write sl (8 * j) else Io.read sl (8 * j)) Q d' w.
Proof using IS CL Hbuf Haddr Hok.
  intros (-> & [Hw _] & Ht & _ & _) (? & ? & ? & ?) ? ? t' ? Ht' HQ sl. destruct Hbuf as ((? & ? & ? & ? & ?) & ? & ?).
  set (n := Z.of_nat (length js)) in *.
  assert (dma_ok sl) as Hsl by (unfold dma_ok, sl; cbn; lia).
  assert (n_chunks sl 8192 = 1) as Hn by done.
  destruct (transfer_run d posted N (timed serves t') (IS:=timed_io t') (k + n) (io_head posted k h n)
    (stats_add s n) sl (8 * j) write w) as (w' & Hrun & Hw' & Htr).
  - by split.
  - done.
  - done.
  - unfold sl. cbn. lia.
  - lia.
  - rewrite Hn. lia.
  - rewrite Hn. unfold stats_room, stats_add. cbn. lia.
  - intros i Hi. apply Hok. lia.
  - rewrite Hn in Hrun, Hw', Htr. unfold wp. rewrite Hrun. cbn [fst snd]. apply HQ.
    + rewrite <-Z.add_assoc. f_equal; [|unfold stats_add; cbn; f_equal; lia].
      unfold io_head at 1 3. rewrite (proj2 (Z.eqb_neq (n + 1) 0)) by lia. cbn. do 2 f_equal. lia.
    + by rewrite Z.add_assoc.
    + rewrite Htr, Ht, ops_events_snoc, <-app_assoc. do 2 f_equal. fold n.
      change (zrange 0 1 ≫= transfer_events d (k + n) write sl (8 * j)) with
        (transfer_events d (k + n) write sl (8 * j) 0 ++ []). rewrite app_nil_r.
      unfold transfer_events, op_events. change (chunk_blocks (nth_chunk sl 8192 0)) with 8.
      rewrite !Z.add_0_r. unfold sl. cbn [phys]. by rewrite Z.add_0_r, Z.add_0_l.
Qed.

Lemma wp_ck_i32 n (d' : NvmeDevice A) w (Q : Res Z → NvmeDevice A → World E → Prop) :
  0 ≤ n → (overflow_checks = true → n < 2 ^ 31) →
  ((overflow_checks = true → n + 1 < 2 ^ 31) → Q (Ret (i32 (n + 1))) d' w) →
  (overflow_checks = true → n + 1 = 2 ^ 31 → Q (Panicked Overflow) d' w) →
  wp (ck_i32 (i32 n + 1)) Q d' w.
Proof.
  intros Hn Hov HQ HP. pose proof (i32_bounds n). unfold ck_i32.
  destruct (Z.leb_spec (- 2 ^ 31) (i32 n + 1)), (Z.ltb_spec (i32 n + 1) (2 ^ 31)); try lia; cbn [andb].
  - rewrite <-i32_succ, i32_small in HQ by lia. apply HQ. intros Hov1. specialize (Hov Hov1).
    rewrite i32_small in * by lia. lia.
  - destruct overflow_checks.
    + specialize (Hov eq_refl). rewrite i32_small in * by lia. apply wp_panic, HP; lia.
    + change (wp (mret (i32 (i32 n + 1))) Q d' w). rewrite i32_succ. by apply HQ.
Qed.

(** What the iterations of both benchmarks have in common: the operation, the time
    it took and the counters. *)
Lemma wp_timed_io {B} total js j d' w (f : Z → Z → Z → M E (NvmeDevice A) B)
    (Q : Res B → NvmeDevice A → World E → Prop) :
  ops_done total js d' w → stats_room s (Z.of_nat (length js) + 1) → 0 ≤ j → 8 * j + 16 < 2 ^ 64 →
  or_stopped Q →
  (∀ e d'' w', 1 ≤ e → ops_done (total + e) (js ++ [j]) d'' w' →
     wp (f e (total + e) (i32 (Z.of_nat (length (js ++ [j]))))) Q d'' w') →
  wp (before ← now;
      sl ← Dma.slice buf 0 Bench.Throughput.bytes_per_io;
      l ← ck64 (j * Bench.Throughput.blocks_per_io);
      _ ← (if write then Io.write sl l else Io.read sl l);
      e ← elapsed before;
      total ← add_duration total e;
      ios ← ck_i32 (i32 (Z.of_nat (length js)) + 1);
      f e total ios) Q d' w.
Proof using IS CL Hbuf Haddr Hok.
  intros Hdone Hroom Hj Hj2 Hstop HQ. pose proof Hbuf as ((? & ? & ? & ? & ?) & ? & ?).
  wp_step. apply wp_now. cbn [then_]. pose proof (clock_tick w).
  destruct Hdone as (-> & [Hw Hclk] & Ht & Hn & Hov). set (n := Z.of_nat (length js)) in *.
  pose proof (io_service (d:=d)) as SV.
  apply (service_idle_tick _ _ _ _ _ serves (SV:=SV)) in Hw.
  wp_step. unfold wp at 1. change Bench.Throughput.bytes_per_io with 4096. change Bench.Throughput.blocks_per_io with 8.
  rewrite slice_ok by (done || lia). cbn [fst snd then_]. do 2 (wp_step; try lia). wp_step.
  replace (j * 8) with (8 * j) by lia.
  apply (wp_single_io total js j _ (tick w)) with (t' := clock (env (tick w))); try done; try lia.
  { split; [done|]. split; [by split; [|lia]|]. split; [by rewrite trace_tick|done]. }
  cbn zeta. fold n. intros d'' w' -> [Hw' Hclk'] Ht'. cbn [then_]. wp_step.
  apply wp_elapsed; [done|]. intros e He He1. cbn [then_]. wp_step.
  unfold add_duration. rewrite <-(trace_tick w') in Ht'.
  destruct (Z.ltb_spec (total + e) MAX_DURATION); cycle 1.
  { apply wp_panic. apply (Hstop (js ++ [j])); [|done]. left. split; [done|lia]. }
  assert (Z.of_nat (length (js ++ [j])) = n + 1) as Hl by (rewrite length_app; cbn; lia).
  wp_step. cbn [then_]. wp_step. apply wp_ck_i32; [lia|done|..]; cbn [then_]; cycle 1.
  { intros Hov1 Hn1. apply (Hstop (js ++ [j])); [|done]. right. by rewrite Hl. }
  intros Hov1. rewrite <-Hl. apply HQ; [done|]. unfold ops_done. rewrite Hl.
  apply (service_idle_tick _ _ _ _ _ serves (SV:=SV)) in Hw'.
  split; [done|]. split; [by split; [|lia]|]. split; [done|]. split; [lia|done].
Qed.

(** A loop whose variant is what is left of the duration. *)
Lemma wp_while {T} fuel (cond : T → bool) (left : T → Z) (I : T → NvmeDevice A → World E → Prop)
    (step : T → M E (NvmeDevice A) T) (Q : Res T → NvmeDevice A → World E → Prop) x d' w :
  I x d' w → (Z.to_nat (left x) < fuel)%nat → (∀ x, cond x = (0 <? left x)) → or_stopped Q →
  (∀ x d' w (R' : Res T → NvmeDevice A → World E → Prop), I x d' w → 0 < left x → or_stopped R' →
     (∀ y d'' w', left y < left x → I y d'' w' → R' (Ret y) d'' w') → wp (step x) R' d' w) →
  (∀ x d' w, I x d' w → left x ≤ 0 → Q (Ret x) d' w) →
  wp (loop fuel (λ x, if cond x then y ← step x; mret (Continue y) else mret (Break x)) x) Q d' w.
Proof.
  intros HI Hf Hcond Hstop Hstep Hend. revert x d' w HI Hf.
  induction fuel as [|fuel IH]; intros x d' w HI Hf; [lia|]. cbn [loop]. wp_step.
  rewrite Hcond. destruct (Z.ltb_spec 0 (left x)); cycle 1.
  { do 2 wp_step. by apply Hend. }
  wp_step. apply Hstep; [done|done|exact (or_stopped_then _ _ Hstop)|].
  - intros y d'' w' Hlt HI'. cbn [then_]. wp_step. apply IH; [done|lia].
Qed.

(** *** The measuring loops *)

Context (ns_blocks duration : Z) (random : bool).

(** The blocks of the namespace are addressed in groups of eight, and there is room
    for what a run may do. *)
Definition run_ok : Prop :=
  0 < ns_blocks ∧ 8 * ns_blocks + 8 < 2 ^ 64 ∧ 0 ≤ duration ∧
  (Z.to_nat duration < spin_fuel)%nat ∧ stats_room s duration.

Context (Hrun : run_ok).

(** The positions of the throughput benchmark. *)
Definition fixed_position (j : Z) : Prop :=
  0 ≤ j < ns_blocks ∧ (random = false → j = 1 `mod` ns_blocks).

Definition throughput_inv (st : Z * Z * R) (d' : NvmeDevice A) w : Prop :=
  ∃ js, ops_done st.1.1 js d' w ∧ st.1.2 = i32 (Z.of_nat (length js)) ∧
    Z.of_nat (length js) ≤ duration ∧ Forall fixed_position js ∧ (0 < st.1.1 → js ≠ []).

Lemma ops_done_nonneg total js d' w : ops_done total js d' w → 0 ≤ total.
Proof. intros (_ & _ & _ & ? & _). lia. Qed.

Lemma wp_throughput_step st d' w (Q : Res (Z * Z * R) → NvmeDevice A → World E → Prop) :
  throughput_inv st d' w → 0 < duration - st.1.1 → or_stopped Q →
  (∀ st' d'' w', duration - st'.1.1 < duration - st.1.1 → throughput_inv st' d'' w' →
     Q (Ret st') d'' w') →
  wp (Throughput.single_step ns_blocks buf random write st) Q d' w.
Proof using IS CL RL Hbuf Haddr Hok Hrun.
  destruct st as [[total ios] rng]. intros (js & Hdone & Hios & Hlen & Hjs & Hne) Ht Hstop HQ.
  destruct Hrun as (? & ? & ? & _ & Hroom). cbn [fst snd] in *. subst ios.
  pose proof Hdone as (_ & _ & _ & Hn & _).
  unfold Throughput.single_step. wp_step. apply wp_next_lba; [done|].
  intros j rng' Hj Hr. cbn [then_].
  eapply (wp_timed_io total js j d' w (λ _ total ios, mret (total, ios, rng'))); [done| |lia|lia|done|].
  { unfold stats_room in *. lia. }
  intros e d'' w' He Hdone'. wp_step. apply HQ; [cbn; lia|].
  exists (js ++ [j]). split; [exact Hdone'|]. split; [done|]. cbn [fst].
  split; [rewrite length_app; cbn [length]; lia|]. split; [|by intros _ []%app_nil].
  apply Forall_app. split; [done|]. by constructor.
Qed.

Lemma wp_throughput_loop rng w (Q : Res (Z * Z * R) → NvmeDevice A → World E → Prop) :
  serves k k k w → trace w = trace w0 → or_stopped Q →
  (∀ st d' w', throughput_inv st d' w' → duration ≤ st.1.1 → Q (Ret st) d' w') →
  wp (loop spin_fuel (λ st : Z * Z * R,
    if st.1.1 <? duration then
      st ← Throughput.single_step ns_blocks buf random write st;
      mret (Continue st)
    else mret (Break st)) (0, 0, rng)) Q (io_pos d k h s) w.
Proof using IS CL RL Hbuf Haddr Hok Hrun.
  intros Hw Ht Hstop HQ. pose proof Hrun as (? & ? & ? & ? & Hroom).
  apply (wp_while spin_fuel (λ st, st.1.1 <? duration) (λ st, duration - st.1.1) throughput_inv).
  - exists []. split; [by apply ops_done_nil|]. cbn. split; [done|]. split; [lia|]. by split; [constructor|].
  - cbn. lia.
  - intros st. by destruct (Z.ltb_spec st.1.1 duration), (Z.ltb_spec 0 (duration - st.1.1)); try lia.
  - done.
  - intros st d' w' R' HI Hl Hs HR. by apply wp_throughput_step.
  - intros st d' w' HI Hl. apply HQ; [done|lia].
Qed.

(** The positions of the latency benchmark. *)
Definition next_positions js : Prop :=
  Forall (λ j, 0 ≤ j < ns_blocks) js ∧
  (random = false → js = (λ i, (i + 1) `mod` ns_blocks) <$> zrange 0 (Z.of_nat (length js))).

Lemma next_positions_snoc js j :
  next_positions js → 0 ≤ j < ns_blocks →
  (random = false → j = (Z.of_nat (length js) + 1) `mod` ns_blocks) → next_positions (js ++ [j]).
Proof.
  intros [Hjs Hseq] Hj Hr. split; [apply Forall_app; by rewrite Forall_singleton|]. intros Hrnd.
  rewrite length_app, Nat2Z.inj_add, zrange_snoc by lia. rewrite fmap_app, <-Hseq by done. cbn.
  by rewrite Hr.
Qed.

(** The latencies of a run, all but the last of which were within the duration. *)
Definition measured (ls : list Z) (total : Z) : Prop :=
  foldr Z.add 0 ls = total ∧ Forall (λ e, 1 ≤ e) ls ∧
  (∀ ls' e, ls = ls' ++ [e] → foldr Z.add 0 ls' < duration).

Lemma sum_snoc ls e : foldr Z.add 0 (ls ++ [e]) = foldr Z.add 0 ls + e.
Proof. induction ls as [|l ls IH]; cbn in *; lia. Qed.

Lemma measured_snoc ls total e :
  measured ls total → total < duration → 1 ≤ e → measured (ls ++ [e]) (total + e).
Proof.
  intros (<- & Hls & _) ? ?. split; [apply sum_snoc|]. split; [apply Forall_app; by rewrite Forall_singleton|].
  by intros ls' e' [-> _]%app_inj_tail.
Qed.

Definition latency_inv (st : Z * Z * Z * list Z * R) (d' : NvmeDevice A) w : Prop :=
  let '(total, ios, lba, latencies, rng) := st in
  ∃ js, ops_done total js d' w ∧ ios = i32 (Z.of_nat (length js)) ∧
    Z.of_nat (length js) ≤ duration ∧ next_positions js ∧ length latencies = length js ∧
    measured latencies total ∧ 0 ≤ lba < ns_blocks ∧
    (random = false → lba = Z.of_nat (length js) `mod` ns_blocks).

(** The position, carried from one iteration to the next. *)
Lemma wp_carried_lba rng lba n (x : NvmeDevice A) w
    (Q : Res (Z * R) → NvmeDevice A → World E → Prop) :
  0 ≤ lba < ns_blocks → (random = false → lba = n `mod` ns_blocks) →
  (∀ j rng', 0 ≤ j < ns_blocks → (random = false → j = (n + 1) `mod` ns_blocks) →
     Q (Ret (j, rng')) x w) →
  wp (if random then gen_range 0 ns_blocks rng
      else l ← ck64 (lba + 1); l ← umod l ns_blocks; mret (l, rng)) Q x w.
Proof using RL Hrun.
  destruct Hrun as (? & ? & _). intros Hlba Hn HQ. destruct random.
  - unfold gen_range. wp_step. apply wp_assert; [intros _|by rewrite Z.ltb_ge; lia].
    cbn [then_]. wp_step. pose proof (sample_range 0 ns_blocks rng ltac:(done)).
    destruct (range_sample 0 ns_blocks rng) as [j rng']. by apply HQ.
  - do 5 (wp_step; try lia). apply HQ; [by apply Z.mod_pos_bound|]. intros _.
    rewrite Hn by done. by rewrite Z.add_mod_idemp_l by lia.
Qed.

Lemma wp_latency_step st d' w (Q : Res (Z * Z * Z * list Z * R) → NvmeDevice A → World E → Prop) :
  latency_inv st d' w → 0 < duration - st.1.1.1.1 → or_stopped Q →
  (∀ st' d'' w', duration - st'.1.1.1.1 < duration - st.1.1.1.1 → latency_inv st' d'' w' →
     Q (Ret st') d'' w') →
  wp (Latency.single_step ns_blocks buf random write st) Q d' w.
Proof using IS CL RL Hbuf Haddr Hok Hrun.
  destruct st as [[[[total ios] lba] ls] rng].
  intros (js & Hdone & -> & Hlen & Hjs & Hls & Hms & Hlba & Hpos) Ht Hstop HQ.
  pose proof Hrun as (? & ? & ? & _ & Hroom). cbn [fst snd] in *.
  pose proof Hdone as (_ & _ & _ & Hn & _).
  unfold Latency.single_step. wp_step. apply (wp_carried_lba rng lba (Z.of_nat (length js))); [done..|].
  intros j rng' Hj Hr. cbn [then_].
  eapply (wp_timed_io total js j d' w (λ e total ios, mret (total, ios, j, ls ++ [e], rng')));
    [done| |lia|lia|done|].
  { unfold stats_room in *. lia. }
  intros e d'' w' He Hdone'. wp_step. apply HQ; [cbn; lia|].
  exists (js ++ [j]). split; [exact Hdone'|]. split; [done|].
  split; [rewrite length_app; cbn [length]; lia|]. split; [by apply next_positions_snoc|].
  split; [by rewrite !length_app, Hls|]. split; [apply measured_snoc; [done|lia|done]|].
  split; [done|]. intros Hrnd. rewrite Hr by done. f_equal. rewrite length_app. cbn [length]. lia.
Qed.

Lemma wp_latency_loop rng w (Q : Res (Z * Z * Z * list Z * R) → NvmeDevice A → World E → Prop) :
  serves k k k w → trace w = trace w0 → or_stopped Q →
  (∀ st d' w', latency_inv st d' w' → duration ≤ st.1.1.1.1 → Q (Ret st) d' w') →
  wp (loop spin_fuel (λ st : Z * Z * Z * list Z * R,
    if st.1.1.1.1 <? duration then
      st ← Latency.single_step ns_blocks buf random write st;
      mret (Continue st)
    else mret (Break st)) (0, 0, 0, [], rng)) Q (io_pos d k h s) w.
Proof using IS CL RL Hbuf Haddr Hok Hrun.
  intros Hw Ht Hstop HQ. pose proof Hrun as (? & ? & ? & ? & Hroom).
  apply (wp_while spin_fuel (λ st, st.1.1.1.1 <? duration) (λ st, duration - st.1.1.1.1) latency_inv).
  - exists []. split; [by apply ops_done_nil|]. cbn. split; [done|]. split; [lia|].
    split; [by split; [constructor|]|]. split; [done|].
    split; [|split; [lia|by rewrite Z.mod_0_l by lia]].
    split; [done|]. split; [constructor|]. by intros ls' e []%app_cons_not_nil.
  - cbn. lia.
  - intros st. by destruct (Z.ltb_spec st.1.1.1.1 duration), (Z.ltb_spec 0 (duration - st.1.1.1.1)); try lia.
  - done.
  - intros st d' w' R' HI Hl Hs HR. by apply wp_latency_step.
  - intros st d' w' HI Hl. apply HQ; [done|lia].
Qed.

End single.

(** ** The programs *)

Section programs.
Context {A E R : Type} `{BLD : Build} `{FUEL : Fuel} `{HW : Hardware E} `{CK : Clock E} `{RN : Rng R}.
Context `{MAP : Mapping A E} `{CL : !ClockLaws} `{RL : !RngLaws}.
Context (d : NvmeDevice A) (posted : Z → NvmeCompletion) (N : nat).
Context (serves : Z → Z → Z → World E → Prop) `{IS : !IoService d posted N serves}.
Context (buf : Dma) (write random : bool) (k h duration : Z) (s : NvmeStats) (rng : R) (w w1 : World E).

(** The first block that both programs put into the buffer. *)
Definition first_block : list Z := (random_bytes 4096 rng).1.

Definition filled_world : World E := stored (virt buf) first_block (tick w1).

(** How a run ends: [good] of the operations done and of the result, or stopped. *)
Definition single_end {B} (good : list Z → B → Prop) (r : Res B) (d' : NvmeDevice A) (w' : World E) : Prop :=
  ∃ js, let n := Z.of_nat (length js) in
    trace w' = trace w1 ++ EvStore (virt buf) first_block :: ops_events d buf write k 0 js ∧
    ((∃ b, r = Ret b ∧ d' = io_pos d (k + n) (io_head posted k h n) (stats_add s n) ∧
        serves (k + n) (k + n) (k + n) w' ∧ n ≤ duration ∧ (0 < duration → 0 < n) ∧ good js b) ∨
     stopped js r w').

Lemma filled_trace t :
  trace filled_world ++ t = trace w1 ++ EvStore (virt buf) first_block :: t.
Proof. unfold filled_world. rewrite trace_stored, trace_tick. by rewrite <-app_assoc. Qed.

Context (Hbuf : op_buffer buf) (Hap : cq_apart (io_cq d) (virt buf) 4096) (Haddr : addrs_ok d).
Context (Hok : ∀ j, k ≤ j → sc_field (posted j) = 0) (Hw1 : serves k k k w1).

Lemma stopped_end {B} (good : list Z → B → Prop) :
  or_stopped d buf write k filled_world (single_end good).
Proof. intros js r x w' Hr Ht. exists js. split; [by rewrite Ht, filled_trace|by right]. Qed.

Lemma wp_fill_buffer (x : NvmeDevice A) (Q : Res unit → NvmeDevice A → World E → Prop) :
  (serves k k k filled_world → Q (Ret tt) x filled_world) →
  wp (fill_buffer buf first_block) Q x w1.
Proof using IS Hbuf Hap Hw1.
  intros HQ. destruct Hbuf as ((? & ? & ? & ? & ?) & ? & ?). unfold fill_buffer.
  assert (length first_block = 4096%nat) as Hl by apply random_bytes_length. rewrite Hl.
  wp_step. apply wp_index_to; [lia|lia|]. cbn [then_ ptr]. apply wp_store. apply HQ.
  pose proof (io_service (d:=d)) as SV. apply service_store_idle; [|by rewrite Hl].
  by apply (service_idle_tick (io_cq d) posted (doorbell_at d 1 0) (sq_len (io_sq d)) N serves).
Qed.

Lemma wp_allocated n {B} (f : Dma → M E (NvmeDevice A) B) (Q : Res B → NvmeDevice A → World E → Prop) :
  allocate (allocator d) n (io_pos d k h s, w) = (Ret buf, (io_pos d k h s, w1)) →
  wp (f buf) Q (io_pos d k h s) w1 →
  wp (b ← allocate (io_pos d k h s) n; f b) Q (io_pos d k h s) w.
Proof.
  intros Hn HQ. wp_step. unfold wp at 1.
  change (allocate (io_pos d k h s) n) with (allocate (S := NvmeDevice A) (allocator d) n).
  by rewrite Hn.
Qed.

Context (ns : NvmeNamespace) (Hns : namespaces d !! 1 = Some ns) (Hblocks : 16 ≤ blocks ns < 2 ^ 64).
Context (Hdur : 0 ≤ duration) (Hfuel : (Z.to_nat duration < spin_fuel)%nat) (Hroom : stats_room s duration).

Definition single_blocks : Z := blocks ns / 8 - 1.

Lemma single_run_ok : run_ok s single_blocks duration.
Proof using Hblocks Hdur Hfuel Hroom.
  unfold run_ok, single_blocks. split; [|split; [|done]]; Z.to_euclidean_division_equations; lia.
Qed.

Lemma wp_throughput_single :
  allocate (allocator d) PAGESIZE_4KIB (io_pos d k h s, w) = (Ret buf, (io_pos d k h s, w1)) →
  wp (Throughput.qd_1_singlethread write random duration rng)
    (single_end (λ js n, n = i32 (Z.of_nat (length js)) ∧ Forall (fixed_position single_blocks random) js))
    (io_pos d k h s) w.
Proof using All.
  intros Halloc. pose proof single_run_ok as Hrun. pose proof Hrun as (? & ? & _).
  unfold Throughput.qd_1_singlethread. do 3 wp_step.
  change (namespaces (io_pos d k h s)) with (namespaces d). rewrite Hns. apply wp_unwrap. cbn [then_].
  change Throughput.blocks_per_io with 8. fold single_blocks.
  do 2 wp_step. apply wp_allocated; [done|].
  change (Z.to_nat Throughput.bytes_per_io) with 4096%nat. pose proof (wp_fill_buffer) as Hfill.
  unfold first_block at 1 in Hfill. destruct (random_bytes 4096 rng) as [block rng'].
  wp_step. apply Hfill. intros Hw. cbn [then_]. wp_step.
  apply (wp_throughput_loop d posted N serves buf write k h s filled_world Hbuf Haddr Hok
    single_blocks duration random Hrun); [done|done|by apply or_stopped_then, stopped_end|].
  intros st d' w' (js & (-> & [? _] & Ht & ? & _) & Hios & ? & ? & Hne) Hl. cbn [then_]. wp_step.
  exists js. split; [by rewrite Ht, filled_trace|]. left. exists st.1.2. repeat split; try done.
  intros. destruct js; [by destruct Hne; [lia|]|cbn; lia].
Qed.

Lemma wp_latency_single :
  allocate (allocator d) PAGESIZE_2MIB (io_pos d k h s, w) = (Ret buf, (io_pos d k h s, w1)) →
  wp (Latency.qd_1_singlethread_latency write random duration rng)
    (single_end (λ js ls, length ls = length js ∧ next_positions single_blocks random js ∧
      ∃ total, duration ≤ total ∧ measured duration ls total))
    (io_pos d k h s) w.
Proof using All.
  intros Halloc. pose proof single_run_ok as Hrun. pose proof Hrun as (? & ? & _).
  unfold Latency.qd_1_singlethread_latency. do 2 wp_step. apply wp_allocated; [done|]. wp_step.
  change (namespaces (io_pos d k h s)) with (namespaces d). rewrite Hns. apply wp_unwrap. cbn [then_].
  change Throughput.blocks_per_io with 8. fold single_blocks. do 2 wp_step.
  change (Z.to_nat Throughput.bytes_per_io) with 4096%nat. pose proof wp_fill_buffer as Hfill.
  unfold first_block at 1 in Hfill. destruct (random_bytes 4096 rng) as [block rng'].
  wp_step. apply Hfill. intros Hw. cbn [then_]. wp_step.
  apply (wp_latency_loop d posted N serves buf write k h s filled_world Hbuf Haddr Hok
    single_blocks duration random Hrun); [done|done|by apply or_stopped_then, stopped_end|].
  intros [[[[total ios] lba] ls] rng''] d' w' (js & (-> & [? _] & Ht & ? & _) & _ & ? & ? & Hls & Hms & _) Hl.
  cbn [then_ fst snd] in *. wp_step. exists js. split; [by rewrite Ht, filled_trace|]. left. exists ls.
  do 4 (split; [done|]). split; [|split; [done|split; [done|by exists total]]].
  intros. destruct Hms as (Hsum & _). destruct js; [|cbn; lia]. destruct ls; [cbn in Hsum; lia|done].
Qed.

End programs.

(** ** Properties *)

(** C17: the benchmarks with one operation at a time terminate and report what they
    did.  On the queue of the device itself, served by a controller that
    completes every command with success, with a namespace of at least 16 blocks and a
    clock that moves, both programs put 4096 random bytes into their buffer and send
    one command of eight blocks per iteration, each completed before the next.  The
    throughput benchmark returns the number of the commands as an [i32], wrapped
    around in a release build; the latency benchmark returns one latency per command,
    the sum of which reaches the duration with the last and not before.  In the
    sequential mode the latency benchmark goes through the groups of eight blocks
    one after the other, the throughput benchmark stays at one of them.  (The
    only other ends are the overflow of a duration, after five hundred billion
    years, and in a debug build that of the counter, after 2 ^ 31 commands.) *)
Theorem single_thread_benchmarks {A E R} `{BLD : Build} `{FUEL : Fuel} `{HW : Hardware E} `{CK : Clock E}
    `{RN : Rng R} `{MAP : Mapping A E} (d : NvmeDevice A) (posted : Z → NvmeCompletion) (N : nat)
    (serves : Z → Z → Z → World E → Prop) (buf : Dma) (write random : bool) (k h duration : Z)
    (s : NvmeStats) (rng : R) (ns : NvmeNamespace) (w w1 : World E) :
  ClockLaws (HW:=HW) → RngLaws (R:=R) → IoService d posted N serves → addrs_ok d →
  op_buffer buf → cq_apart (io_cq d) (virt buf) 4096 →
  (∀ j, k ≤ j → sc_field (posted j) = 0) → serves k k k w1 →
  namespaces d !! 1 = Some ns → 16 ≤ blocks ns < 2 ^ 64 →
  0 ≤ duration → (Z.to_nat duration < spin_fuel)%nat → stats_room s duration →
  let allocated n := allocate (allocator d) n (io_pos d k h s, w) = (Ret buf, (io_pos d k h s, w1)) in
  let groups := single_blocks ns in
  (allocated PAGESIZE_4KIB → ∃ r d' w',
     Throughput.qd_1_singlethread write random duration rng (io_pos d k h s, w) = (r, (d', w')) ∧
     single_end d posted serves buf write k h duration s rng w1
       (λ js n, n = i32 (Z.of_nat (length js)) ∧ Forall (fixed_position groups random) js) r d' w') ∧
  (allocated PAGESIZE_2MIB → ∃ r d' w',
     Latency.qd_1_singlethread_latency write random duration rng (io_pos d k h s, w) = (r, (d', w')) ∧
     single_end d posted serves buf write k h duration s rng w1
       (λ js ls, length ls = length js ∧ next_positions groups random js ∧
          ∃ total, duration ≤ total ∧ measured duration ls total) r d' w').
Proof.
  intros HCL HRL HIS Haddr Hbuf Hap Hok Hw1 Hns Hblocks Hdur Hfuel Hroom allocated groups.
  split; intros Halloc.
  - destruct (wp_run _ _ _ _ (wp_throughput_single d posted N serves buf write random k h duration s
      rng w w1 Hbuf Hap Haddr Hok Hw1 ns Hns Hblocks Hdur Hfuel Hroom Halloc)) as (r & d' & w' & ? & ?).
    by exists r, d', w'.
  - destruct (wp_run _ _ _ _ (wp_latency_single d posted N serves buf write random k h duration s
      rng w w1 Hbuf Hap Haddr Hok Hw1 ns Hns Hblocks Hdur Hfuel Hroom Halloc)) as (r & d' & w' & ? & ?).
    by exists r, d', w'.
Qed.

(** *** A controller with a clock *)

Lemma clocked_sync {E} (HW : Hardware E) q posted sqdb sqlen N serves :
  SyncService q posted sqdb sqlen N serves →
  SyncService (HW:=clocked_hw HW) q posted sqdb sqlen N (λ G C P w, serves G C P (unclocked w)).
Proof.
  intros [Hv Ht Htake Hst Hri Hw Hr Hl]. split.
  - intros G C P w HP. exact (Hv _ _ _ (unclocked w) HP).
  - intros G C P w ?. setoid_rewrite unclocked_tick. eauto.
  - intros G C P w ? ?. eauto.
  - intros G w a bs HP ?. by apply (Hst _ (unclocked w)).
  - intros G w HP ?. by apply (Hri _ (unclocked w)).
  - intros G C P w n a v HP ?. by apply (Hw _ _ _ (unclocked w)).
  - intros G C P w n a ?. rewrite unclocked_reading. eauto.
  - intros G C P w ? ?. setoid_rewrite unclocked_ticks. eauto.
Qed.

Definition demo_clocked_hw : Hardware (Z * (Z * Z) * nat) := clocked_hw demo_io_hw.

Definition demo_single_region (n : Z) : Dma := mkDma 0x4000000 0x4000000 n.

Definition single_region : Mapping unit (Z * (Z * Z) * nat) := {|
  allocate S _ n := mret (demo_single_region n);
  deallocate S _ _ := mret tt;
  map_resource S _ := mret (0, 0);
|}.

Lemma demo_single_service :
  IoService (FUEL:=20%nat) (HW:=demo_clocked_hw) demo_fill_device (success 4) 1
    (λ G C P w, demo_io_serves G C P (unclocked w)).
Proof.
  destruct demo_io_service as [Hs Hd ? ? ?]. split; [by apply clocked_sync, Hs|exact Hd|done..|].
  unfold spin_fuel. lia.
Qed.

Definition demo_single_start : NvmeDevice unit * World (Z * (Z * Z) * nat) :=
  (io_pos demo_fill_device 0 0 (mkNvmeStats 0 0), demo_clocked_world).

Definition demo_throughput : Res Z * (NvmeDevice unit * World (Z * (Z * Z) * nat)) :=
  Throughput.qd_1_singlethread (BLD:=true) (FUEL:=20%nat) (HW:=demo_clocked_hw) (CK:=counter) (RN:=lowest)
    (MAP:=single_region) true false 15 tt demo_single_start.

Definition demo_latency : Res (list Z) * (NvmeDevice unit * World (Z * (Z * Z) * nat)) :=
  Latency.qd_1_singlethread_latency (BLD:=true) (FUEL:=20%nat) (HW:=demo_clocked_hw) (CK:=counter)
    (RN:=lowest) (MAP:=single_region) true false 15 tt demo_single_start.

Lemma demo_throughput_run : demo_throughput.1 = Ret 3.
Proof. by vm_compute. Qed.

Lemma demo_latency_run : demo_latency.1 = Ret [6; 6; 6].
Proof. by vm_compute. Qed.

Lemma single_thread_benchmarks_witness :
  (∃ js d' w', demo_throughput = (Ret 3, (d', w')) ∧ 3 = i32 (Z.of_nat (length js)) ∧
     Forall (fixed_position 1124 false) js) ∧
  (∃ js d' w', demo_latency = (Ret [6; 6; 6], (d', w')) ∧ 3%nat = length js ∧
     next_positions 1124 false js).
Proof.
  pose proof (λ buf, single_thread_benchmarks (BLD:=true) (FUEL:=20%nat) (HW:=demo_clocked_hw) (CK:=counter)
    (RN:=lowest) (MAP:=single_region) demo_fill_device (success 4) 1
    (λ G C P w, demo_io_serves G C P (unclocked w)) buf true false 0 0 15 (mkNvmeStats 0 0) tt
    (mkNvmeNamespace 1 9000 512) demo_clocked_world demo_clocked_world (clocked_laws demo_io_hw)
    (λ lo hi (_ : unit) H, conj (Z.le_refl lo) H) demo_single_service demo_addrs_ok) as Hthm.
  assert (∀ n, n = PAGESIZE_4KIB ∨ n = PAGESIZE_2MIB → op_buffer (demo_single_region n)) as Hbuf.
  { intros n [-> | ->]; [change PAGESIZE_4KIB with 4096|change PAGESIZE_2MIB with 2097152];
      unfold op_buffer, dma_ok, demo_single_region; simpl; lia. }
  assert (∀ j, 0 ≤ j → sc_field (success 4 j) = 0) as Hok.
  { intros j _. unfold sc_field, success. simpl. by destruct (phase_at 4 j). }
  assert (∀ n, cq_apart (io_cq demo_fill_device) (virt (demo_single_region n)) 4096) as Hap.
  { intros n. unfold cq_apart. rewrite size_of_completion. simpl. lia. }
  split.
  - destruct (Hthm (demo_single_region PAGESIZE_4KIB)) as [Ht _];
      [by apply Hbuf; left|apply Hap|exact Hok|exact demo_io_init|done|simpl; lia|lia|unfold spin_fuel; simpl; lia|
       by apply demo_stats_room|].
    destruct Ht as (r & d' & w' & Hrun & js & _ & Hend); [done|].
    pose proof (eq_trans (eq_sym demo_throughput_run) (f_equal fst Hrun)) as Hr. cbn [fst] in Hr. subst r. exists js, d', w'.
    destruct Hend as [(n & [= <-] & _ & _ & _ & _ & Hn & Hpos)|[[[=] _]|[[=] _]]].
    split; [exact Hrun|]. by split.
  - destruct (Hthm (demo_single_region PAGESIZE_2MIB)) as [_ Hl];
      [by apply Hbuf; right|apply Hap|exact Hok|exact demo_io_init|done|simpl; lia|lia|unfold spin_fuel; simpl; lia|
       by apply demo_stats_room|].
    destruct Hl as (r & d' & w' & Hrun & js & _ & Hend); [done|].
    pose proof (eq_trans (eq_sym demo_latency_run) (f_equal fst Hrun)) as Hr. cbn [fst] in Hr. subst r. exists js, d', w'.
    destruct Hend as [(ls & [= <-] & _ & _ & _ & _ & Hn & Hpos & _)|[[[=] _]|[[=] _]]].
    split; [exact Hrun|]. by split.
Defined.
