(* ===== verification/Bringup.v ===== *)
(** The device from nothing: [NvmeDevice::init] of [src/nvme.rs], from the
    allocation of its rings to its I/O queues, the identification of its
    namespaces, and the entry point of [src/lib.rs] that puts them together. *)

From stdpp Require Import gmap.
From S2P Require Import Prelude Bytes Machine Memory Cmd Mapping Queues Service Format Os Ioctl Pci Vfio Physical MemoryAccess QueuePair Device Setup Startup Lib.
#[local] Open Scope Z_scope.

Section bringup.
Context {A E : Type} `{BLD : Build} `{FUEL : Fuel} `{HW : Hardware E} `{MAP : Mapping A E}.
Context (alloc : A).

(** The device structure that [init] makes of its regions. *)
Definition fresh_device (pci : string) (a l dstrd : Z) (asq acq isq icq buf list : Dma) : NvmeDevice A :=
  let sq r := mkSubmissionQueue r 0 0 QUEUE_LENGTH 0 in
  let cq r := mkCompletionQueue r 0 true QUEUE_LENGTH 0 in
  mkNvmeDevice pci a l dstrd (sq asq) (cq acq) (sq isq) (cq icq) buf list ∅ (mkNvmeStats 0 0) 1 alloc.

(** The world [w'] after the regions of [d] have been allocated, and the stride of
    the doorbells read. *)
Definition acquired {S} (d : NvmeDevice A) (s : S) (w w' : World E) : Prop :=
  let sq_size := NvmeCommand.size_of * QUEUE_LENGTH in
  let cq_size := NvmeCompletion.size_of * QUEUE_LENGTH in
  ∃ w1 w2 w3 w4 w5 w6,
    map_resource alloc (s, w) = (Ret (addr d, dev_len d), (s, w1)) ∧
    allocate alloc BUFFER_SIZE (s, w1) = (Ret (buffer d), (s, w2)) ∧
    allocate alloc PRP_LIST_SIZE (s, w2) = (Ret (prp_list d), (s, w3)) ∧
    (let cap := wrap 64 (hw_read 8 (addr d + reg64 CAP) (env (tick w3))).1 in
     dstrd d = Z.land (Z.shiftr cap 32) 15) ∧
    allocate alloc sq_size (s, reading 8 (addr d + reg64 CAP) (tick w3)) =
      (Ret (sq_commands (admin_sq d)), (s, w4)) ∧
    allocate alloc cq_size (s, w4) = (Ret (cq_commands (admin_cq d)), (s, w5)) ∧
    allocate alloc sq_size (s, w5) = (Ret (sq_commands (io_sq d)), (s, w6)) ∧
    allocate alloc cq_size (s, w6) = (Ret (cq_commands (io_cq d)), (s, w')) ∧
    d = fresh_device (pci_addr d) (addr d) (dev_len d) (dstrd d) (sq_commands (admin_sq d))
      (cq_commands (admin_cq d)) (sq_commands (io_sq d)) (cq_commands (io_cq d)) (buffer d) (prp_list d).

Lemma fresh_admin_pos pci a l dstrd asq acq isq icq buf list :
  let d := fresh_device pci a l dstrd asq acq isq icq buf list in admin_pos d 0 = d.
Proof.
  unfold admin_pos, fresh_device, cq_pos, NvmeDevice.set_admin_cq, NvmeDevice.set_admin_sq.
  by rewrite QUEUE_LENGTH_value.
Qed.

(** [init] is the configuration of the device it has allocated. *)
Lemma init_run {S} (d : NvmeDevice A) (s : S) w w' :
  acquired d s w w' → 0 ≤ addr d → addr d + dev_len d < 2 ^ 64 → 0x1000 ≤ dev_len d →
  NvmeDevice.init (pci_addr d) alloc (s, w) =
  match NvmeDevice.configure (admin_pos d 0, w') with
  | (Ret _, (d', w'')) => (Ret d', (s, w''))
  | (Err e, (_, w'')) => (Err e, (s, w''))
  | (Panicked p, (_, w'')) => (Panicked p, (s, w''))
  | (Diverged, (_, w'')) => (Diverged, (s, w''))
  end.
Proof.
  intros (w1 & w2 & w3 & w4 & w5 & w6 & H1 & H2 & H3 & Hd & H4 & H5 & H6 & H7 & Hfresh) ? ? ?.
  assert (admin_pos d 0 = d) as -> by (rewrite Hfresh; apply fresh_admin_pos).
  unfold NvmeDevice.init, SubmissionQueue.new, CompletionQueue.new.
  unfold mbind, M_bind. rewrite H1. cbn [fst snd]. rewrite H2, H3.
  unfold ck64. rewrite ck_fits by (simpl; lia). cbn [mret M_ret].
  rewrite read_volatile_run. cbn zeta in Hd. change (8 * 8) with 64.
  assert (as_u16 (dstrd d) = dstrd d) as H16.
  { rewrite Hd. apply wrap_small. change 15 with (Z.ones 4). rewrite Z.land_ones by done.
    pose proof (Z.mod_pos_bound (Z.shiftr (wrap 64 (hw_read 8 (addr d + reg64 CAP) (env (tick w3))).1) 32)
      (2 ^ 4) ltac:(lia)). lia. }
  rewrite <-Hd, H16, H4. cbn [mret M_ret]. rewrite H5. cbn [mret M_ret]. rewrite H6. cbn [mret M_ret].
  rewrite H7. cbn [mret M_ret]. rewrite Z.min_id.
  unfold with_local. cbn [fst snd]. unfold fresh_device in Hfresh. rewrite <-Hfresh.
  by destruct (NvmeDevice.configure (d, w')) as [[] [? ?]].
Qed.

Context (d : NvmeDevice A) (posted : Z → NvmeCompletion) (N n : nat).
Context (serves : Z → Z → Z → World E → Prop) `{AS : !AdminService d posted N serves}.
Context `{ST : !Startup d serves n} (Hn : (n ≤ spin_fuel)%nat).

(** What [init] returns. *)
Definition initialised : Res (NvmeDevice A) :=
  match (queues_created d posted).1.1 with
  | Ret _ => Ret (queues_created d posted).1.2
  | Err e => Err e
  | Panicked p => Panicked p
  | Diverged => Diverged
  end.

(** The accesses of the start. *)
Definition start_events (t : list Event) : Prop :=
  ∃ cap cap' vs cc c0 c1 c2 polls0 polls1, polled d false polls0 ∧ polled d true polls1 ∧
    t = prp_stores d ++ disable_events d cap cap' vs cc c0 ++ polls0 ++
      enable_events d c1 c2 ++ polls1 ++ (queues_created d posted).2.

Lemma wp_init {S} (s : S) w w1 (Q : Res (NvmeDevice A) → S → World E → Prop) :
  acquired d s w w1 → serves 0 0 0 w1 →
  (∀ w' t, let k := queue_commands posted in serves k k k w' →
     trace w' = trace w1 ++ t → start_events t → Q initialised s w') →
  wp (NvmeDevice.init (pci_addr d) alloc) Q s w.
Proof.
  intros Hacq Hw HQ. pose proof (startup_len (d:=d)). destruct (admin_dev_ok (d:=d)) as (? & ? & ? & ? & ?).
  assert (q_id d = 1) as Hq.
  { destruct Hacq as (? & ? & ? & ? & ? & ? & _ & _ & _ & _ & _ & _ & _ & _ & ->). done. }
  unfold wp. rewrite (init_run d s w w1) by (done || lia).
  assert (wp NvmeDevice.configure (λ r d' w', Q (match r with
      | Ret _ => Ret d' | Err e => Err e | Panicked p => Panicked p | Diverged => Diverged end) s w')
    (admin_pos d 0) w1) as Hwp.
  { apply (wp_configure d posted N n serves Hn); [done|lia|].
    intros w' cap cap' vs cc c0 c1 c2 polls0 polls1 Hp0 Hp1 Hw' Ht. unfold initialised in HQ.
    eapply HQ; [done|done|]. by exists cap, cap', vs, cc, c0, c1, c2, polls0, polls1. }
  unfold wp in Hwp. by destruct (NvmeDevice.configure (admin_pos d 0, w1)) as [[] [? ?]].
Qed.

End bringup.

(** ** Identification *)

Section identify.
Context {E : Type} `{BLD : Build} `{FUEL : Fuel} `{HW : Hardware E}.
Context (d : NvmeDevice MemoryAccess) (posted : Z → NvmeCompletion) (N : nat).
Context (serves : Z → Z → Z → World E → Prop) `{AS : !AdminService d posted N serves}.
Implicit Types w : World E.

Lemma admin_idle_tick k w : serves k k k w → serves k k k (tick w).
Proof.
  pose proof (admin_service (AdminService:=AS)) as SV.
  apply (service_idle_tick (admin_cq d) posted (doorbell_at d 0 0) (sq_len (admin_sq d)) N serves).
Qed.

(** The commands for the namespaces [ids] from number [k] on. *)
Fixpoint identify_events (k : Z) (ids : list Z) : list Event :=
  match ids with
  | [] => []
  | id :: ids =>
    admin_events d k (NvmeCommand.identify_namespace (admin_cid d k) (phys (buffer d)) id) ++
    identify_events (k + 1) ids
  end.

(** What the device knows when the controller has described each of [ids] by its
    data. *)
Fixpoint known (m : gmap Z NvmeNamespace) (ids : list Z) (data : list (list Z)) : gmap Z NvmeNamespace :=
  match ids, data with
  | id :: ids, bs :: data => known (<[id := parse_namespace id bs]> m) ids data
  | _, _ => m
  end.

Definition identify_data (bs : list Z) : Prop := length bs = 4096%nat ∧ Forall is_byte bs.

Lemma wp_identify_namespace m k id w (Q : Res NvmeNamespace → NvmeDevice MemoryAccess → World E → Prop) :
  serves k k k w →
  (∀ w' bs, identify_data bs → serves (k + 1) (k + 1) (k + 1) w' →
     trace w' = trace w ++ admin_events d k (NvmeCommand.identify_namespace (admin_cid d k) (phys (buffer d)) id) →
     Q (Ret (parse_namespace id bs))
       (NvmeDevice.set_namespaces (<[id := parse_namespace id bs]> m) (admin_pos d (k + 1))) w') →
  wp (NvmeDevice.identify_namespace id) Q (NvmeDevice.set_namespaces m (admin_pos d k)) w.
Proof.
  intros Hw HQ. pose proof (admin_service_namespaces d m posted N serves AS) as AS'.
  unfold NvmeDevice.identify_namespace. wp_step.
  change (NvmeDevice.set_namespaces m (admin_pos d k)) with
    (admin_pos (NvmeDevice.set_namespaces m d) k).
  eapply (wp_admin_ignored _ posted N serves k (λ c a, NvmeCommand.identify_namespace c a id)); [done|].
  intros w1 Hw1 Ht1. cbn [then_]. repeat wp_step.
  apply HQ; [split; [apply load_bytes_length|apply load_bytes_is_byte]|by apply admin_idle_tick|].
  by rewrite trace_tick.
Qed.

Lemma wp_identify_all ids m k w (Q : Res unit → NvmeDevice MemoryAccess → World E → Prop) :
  serves k k k w →
  (∀ w' data, length data = length ids → Forall identify_data data →
     let n := k + Z.of_nat (length ids) in serves n n n w' →
     trace w' = trace w ++ identify_events k ids →
     Q (Ret tt) (NvmeDevice.set_namespaces (known m ids data) (admin_pos d n)) w') →
  wp (identify_all ids) Q (NvmeDevice.set_namespaces m (admin_pos d k)) w.
Proof.
  revert m k w. induction ids as [|id ids IH]; intros m k w Hw HQ; cbn [identify_all].
  - wp_step. specialize (HQ w []). simpl in HQ. rewrite Z.add_0_r, app_nil_r in HQ. by apply HQ.
  - wp_step. apply wp_identify_namespace; [done|]. intros w1 bs Hbs Hw1 Ht1. cbn [then_].
    apply IH; [done|]. intros w' data Hlen Hdata n Hn Ht.
    specialize (HQ w' (bs :: data)). simpl in HQ.
    replace (k + Z.of_nat (S (length ids))) with n in HQ by (unfold n; lia).
    apply HQ; [by f_equal|by constructor|done|]. by rewrite Ht, Ht1, <-app_assoc.
Qed.

(** The ids of a namespace list: up to the first zero. *)
Definition listed (bs : list Z) : list Z := take_while (λ id, negb (id =? 0)) (u32s 1024 bs).

Definition command_failed : Error := Vroom "Requesting i/o completion queue failed".

(** The commands of the identification from number [k] on. *)
Definition identification (k : Z) (ids : list Z) : list Event :=
  admin_events d (k + 1)
    (NvmeCommand.identify_namespace_list (admin_cid d (k + 1)) (phys (buffer d)) 0) ++
  identify_events (k + 2) ids.

Lemma wp_identify_controller k w (Q : Res unit → NvmeDevice MemoryAccess → World E → Prop) :
  serves k k k w → 72 ≤ size (buffer d) →
  (∀ w', serves (k + 1) (k + 1) (k + 1) w' →
     trace w' = trace w ++
       admin_events d k (NvmeCommand.identify_controller (admin_cid d k) (phys (buffer d))) →
     Q (if sc_field (posted k) =? 0 then Ret tt else Err command_failed) (admin_pos d (k + 1)) w') →
  wp NvmeDevice.identify_controller_print Q (admin_pos d k) w.
Proof.
  intros Hw Hsz HQ. unfold NvmeDevice.identify_controller_print, NvmeDevice.identify_controller.
  do 2 wp_step.
  eapply (wp_admin d posted N serves k (λ c a, mret (NvmeCommand.identify_controller c a))); [done|done|].
  intros w1 Hw1 Ht1. unfold admin_result, then_ at 1.
  destruct (sc_field (posted k) =? 0); [|by apply HQ].
  unfold wp, mbind, M_bind.
  do 3 (rewrite buffer_text_run by lia; change (buffer (admin_pos d (k + 1))) with (buffer d);
    rewrite (proj2 (Z.leb_le _ _)) by lia).
  cbn [mret M_ret fst snd]. apply HQ; [by do 3 apply admin_idle_tick|]. by rewrite !trace_tick.
Qed.

Lemma wp_identify_device k w (Q : Res unit → NvmeDevice MemoryAccess → World E → Prop) :
  serves k k k w → 72 ≤ size (buffer d) →
  let ev := admin_events d k (NvmeCommand.identify_controller (admin_cid d k) (phys (buffer d))) in
  (sc_field (posted k) ≠ 0 → ∀ w', serves (k + 1) (k + 1) (k + 1) w' → trace w' = trace w ++ ev →
     Q (Err command_failed) (admin_pos d (k + 1)) w') →
  (sc_field (posted k) = 0 → ∀ w' bs data, let ids := listed bs in
     let n := k + 2 + Z.of_nat (length ids) in
     identify_data bs → length data = length ids → Forall identify_data data → serves n n n w' →
     trace w' = trace w ++ ev ++ identification k ids →
     Q (Ret tt) (NvmeDevice.set_namespaces (known (namespaces d) ids data) (admin_pos d n)) w') →
  wp identify_device Q (admin_pos d k) w.
Proof.
  intros Hw Hsz ev Herr HQ. unfold identify_device. wp_step. apply wp_identify_controller; [done..|].
  intros w1 Hw1 Ht1. destruct (Z.eqb_spec (sc_field (posted k)) 0) as [Hok|Hok]; cbn [then_]; [|by apply Herr].
  wp_step. unfold NvmeDevice.identify_namespace_list. wp_step.
  eapply (wp_admin_ignored d posted N serves (k + 1) (λ c a, NvmeCommand.identify_namespace_list c a 0)); [done|].
  intros w2 Hw2 Ht2. cbn [then_]. repeat wp_step. apply admin_idle_tick in Hw2.
  change (admin_pos d (k + 1 + 1)) with (NvmeDevice.set_namespaces (namespaces d) (admin_pos d (k + 1 + 1))).
  replace (k + 1 + 1) with (k + 2) in * by lia.
  change (buffer _) with (buffer d).
  set (bs := load_bytes _ _ _). apply wp_identify_all; [done|]. intros w3 data Hlen Hdata n Hn Ht3.
  apply (HQ Hok w3 bs data); [split; [apply load_bytes_length|apply load_bytes_is_byte]|done..|].
  rewrite Ht3, trace_tick, Ht2, Ht1. unfold identification. by rewrite <-!app_assoc.
Qed.

End identify.

(** [NvmeDevice::init] as a whole.  From an allocator that gives the regions
    of a device and the address of its registers, with a controller whose RDY bit
    follows its enable bit and that serves the admin queue in those regions:
    [init] makes the structure, with the doorbell stride that CAP shows, and
    starts the controller in the order NVMe prescribes.  It fills the PRP list,
    clears CC.EN and waits until CSTS.RDY is 0, only then sets the addresses and
    sizes of the admin queues and CC, sets CC.EN and waits until CSTS.RDY is 1, and
    only then sends admin commands: it creates the completion queue and then the
    submission queue of the device, both of the full length, under the queue id 1,
    and moves on to the next id.  A failed command ends the call with its error.
    The waits terminate. *)
Lemma device_init `{BLD : Build} `{FUEL : Fuel} {A E S} `{HW : Hardware E} `{MAP : Mapping A E}
    (alloc : A) (d : NvmeDevice A) (posted : Z → NvmeCompletion) (N n : nat)
    (serves : Z → Z → Z → World E → Prop) (s : S) (w w1 : World E) :
  AdminService d posted N serves → Startup d serves n → (n ≤ spin_fuel)%nat →
  acquired alloc d s w w1 → serves 0 0 0 w1 →
  ∃ w' t, NvmeDevice.init (pci_addr d) alloc (s, w) = (initialised d posted, (s, w')) ∧
    trace w' = trace w1 ++ t ∧ start_events d posted t.
Proof.
  intros HAS HST Hn Hacq Hw.
  assert (wp (NvmeDevice.init (pci_addr d) alloc) (λ r s' w', r = initialised d posted ∧ s' = s ∧
    ∃ t, trace w' = trace w1 ++ t ∧ start_events d posted t) s w) as Hwp.
  { apply (wp_init alloc d posted N n serves Hn s w w1); [done..|].
    intros w' t _ _ Ht Hs. split; [done|]. split; [done|]. by exists t. }
  apply wp_run in Hwp as (r & s' & w' & Hrun & -> & -> & t & Ht & Hs). by exists w', t.
Qed.

(** ** The entry point *)

(** What [init_with_page_size] returns, and its accesses after the allocations:
    [d] is the device structure before the controller is started. *)
Definition entry_outcome `{BLD : Build} (d : NvmeDevice MemoryAccess) (posted : Z → NvmeCompletion)
    (r : Res (NvmeDevice MemoryAccess)) (t : list Event) : Prop :=
  ∃ start, start_events d posted start ∧
    let d1 := NvmeDevice.set_q_id 2 d in
    let ev := admin_events d1 2 (NvmeCommand.identify_controller (admin_cid d1 2) (phys (buffer d1))) in
    if negb (sc_field (posted 0) =? 0) || negb (sc_field (posted 1) =? 0)
    then r = Err command_failed ∧ t = start
    else if negb (sc_field (posted 2) =? 0)
    then r = Err command_failed ∧ t = start ++ ev
    else ∃ bs data, let ids := listed bs in
      identify_data bs ∧ length data = length ids ∧ Forall identify_data data ∧
      r = Ret (NvmeDevice.set_namespaces (known ∅ ids data) (admin_pos d1 (4 + Z.of_nat (length ids)))) ∧
      t = start ++ ev ++ identification d1 2 ids.

Lemma wp_entry {E S} `{BLD : Build} `{FUEL : Fuel} `{HW : Hardware E} `{OS : Os E} `{LC : Libc}
    (alloc : MemoryAccess) (d : NvmeDevice MemoryAccess) (posted : Z → NvmeCompletion) (N n : nat)
    (serves : Z → Z → Z → World E → Prop) (s : S) (w w1 : World E) :
  AdminService d posted N serves → Startup d serves n → (n ≤ spin_fuel)%nat →
  acquired alloc d s w w1 → serves 0 0 0 w1 → 72 ≤ size (buffer d) →
  wp (nvme ← NvmeDevice.init (pci_addr d) alloc; r ← with_local nvme identify_device; mret r.2)
    (λ r s' w', s' = s ∧ (∃ k, serves k k k w') ∧
       ∃ t, trace w' = trace w1 ++ t ∧ entry_outcome d posted r t) s w.
Proof.
  intros HAS HST Hn Hacq Hw Hsz. wp_step.
  assert (q_id d = 1 ∧ namespaces d = ∅) as [Hq Hns].
  { destruct Hacq as (? & ? & ? & ? & ? & ? & _ & _ & _ & _ & _ & _ & _ & _ & ->). done. }
  apply (wp_init alloc d posted N n serves Hn s w w1); [done..|].
  intros w2 t k Hw2 Ht2 Hst. unfold initialised, queues_created, k, queue_commands in *.
  assert (∀ r t', r = Err command_failed → entry_outcome d posted r t' →
    trace w2 = trace w1 ++ t' → s = s ∧ (∃ k, serves k k k w2) ∧
      ∃ t, trace w2 = trace w1 ++ t ∧ entry_outcome d posted r t)
    as Hend by (intros r t' _ ? ?; split; [done|split; [by eexists|by exists t']]).
  destruct (sc_field (posted 0) =? 0) eqn:H0, (sc_field (posted 1) =? 0) eqn:H1; cbn [negb fst snd then_];
    try (apply (Hend _ t); [done| |done]; exists t; split; [done|]; by rewrite H0, ?H1).
  wp_step. apply wp_with_local.
  pose proof (admin_service_q_id d 2 posted N serves HAS) as HAS1. rewrite Hq.
  change (NvmeDevice.set_q_id (1 + 1) (admin_pos d 2)) with (admin_pos (NvmeDevice.set_q_id 2 d) 2).
  apply (wp_identify_device _ posted N serves); [done|done| |].
  - intros H2 w3 Hw3 Ht3. cbn [then_]. split; [done|]. split; [by eexists|]. eexists. rewrite Ht3, Ht2, <-app_assoc. split; [done|].
    exists t. split; [done|]. cbn zeta. by rewrite H0, H1, (proj2 (Z.eqb_neq _ _) H2).
  - intros H2 w3 bs data ids m Hbs Hlen Hdata Hw3 Ht3. cbn [then_]. wp_step. split; [done|]. split; [by eexists|]. eexists.
    rewrite Ht3, Ht2, <-app_assoc. split; [done|]. exists t. split; [done|]. cbn zeta.
    rewrite H0, H1, H2. cbn [negb orb Z.eqb]. exists bs, data.
    change (namespaces (NvmeDevice.set_q_id 2 d)) with (namespaces d). by rewrite Hns.
Qed.


(** A kernel for a device with rings of the full length, behind VFIO: it gives the
    regions of [demo_regions] one after the other, and one more.  Here it keeps the
    number of those given where the controller below has its register CC. *)
Definition demo_vfio : MemoryAccess :=
  OfVfio (Vfio.mkVfio "0000:01:00.0" 3 Pagesize.Page4K (Vfio.Legacy 3)).

Definition demo_fresh : NvmeDevice MemoryAccess :=
  fresh_device demo_vfio "0000:01:00.0" 65536 16384 0 (mkDma 0x1000000 0x1000000 0x100000)
    (mkDma 0x1100000 0x1100000 0x40000) (mkDma 0x1200000 0x1200000 0x100000)
    (mkDma 0x1300000 0x1300000 0x40000) (mkDma 0x2000000 0x2000000 4096) (mkDma 0x2200000 0x2200000 4096).

Definition demo_regions : list Z :=
  [0x2000000; 0x2200000; 0x1000000; 0x1100000; 0x1200000; 0x1300000].

Definition demo_ioctl (op : Z) (arg : list Z) : Z * list Z :=
  if op =? IoctlOp.op VFIO_GROUP_GET_STATUS then (0, struct_bytes vfio_group_status [8; 1])
  else if op =? IoctlOp.op VFIO_DEVICE_GET_REGION_INFO then (0, struct_bytes vfio_region_info [32; 0; 0; 0; 16384; 0])
  else if op =? IoctlOp.op VFIO_GROUP_GET_DEVICE_FD then (3, arg)
  else (0, arg).

Definition demo_kernel_at {E} (next : E → nat * E) : Os E := {|
  os_mmap _ _ _ _ fd _ e m :=
    if fd =? -1
    then let '(k, e) := next e in (inr (nth k demo_regions 0x4000000), (e, m))
    else (inr 65536, (e, m));
  os_munmap _ _ e m := (inr 0, (e, m));
  os_mlock _ _ e m := (inr 0, (e, m));
  os_munlock _ _ e m := (inr 0, (e, m));
  os_ioctl _ op arg e m := (inr (demo_ioctl op arg), (e, m));
  os_pread _ count _ e m := (inr (repeat 0 (Z.to_nat count)), (e, m));
  os_pwrite _ buf _ e m := (inr (Z.of_nat (length buf)), (e, m));
  os_open _ _ _ e m := (inr 3, (e, m));
  os_create _ e m := (inr 3, (e, m));
  os_seek _ off e m := (inr off, (e, m));
  os_read_exact _ _ e m := (inr [0; 0; 8; 1], (e, m));
  os_write_all _ buf e m := (inr (Z.of_nat (length buf)), (e, m));
  os_read_to_string _ e m := (inr "0x1b36"%string, (e, m));
  os_read_link _ e m := (inr "../../7"%string, (e, m));
  os_exists path e m :=
    (inr (bool_decide (path = "/sys/bus/pci/devices/0000:01:00.0/iommu_group"%string)), (e, m));
  os_read_dir _ e m := (inr [], (e, m));
  os_file_len _ e m := (inr 16384, (e, m));
  os_pagesize := 4096;
  os_pid := 1;
  io_display _ := EmptyString;
  io_kind _ := EmptyString;
|}.

Definition demo_kernel : Os (Z * (Z * Z)) :=
  demo_kernel_at (λ e, (Z.to_nat e.1, (e.1 + 1, e.2))).

Definition demo_fresh_hw : Hardware (Z * (Z * Z)) :=
  serving_hw (admin_cq demo_fresh) (success QUEUE_LENGTH) (doorbell_at demo_fresh 0 0)
    (addr demo_fresh + reg32 CC).

Definition demo_fresh_serves : Z → Z → Z → World (Z * (Z * Z)) → Prop :=
  serving (admin_cq demo_fresh) (success QUEUE_LENGTH).

Lemma demo_fresh_len : 0 < cq_len (admin_cq demo_fresh) ≤ QUEUE_LENGTH.
Proof. rewrite QUEUE_LENGTH_value. simpl. rewrite QUEUE_LENGTH_value. lia. Qed.

Lemma demo_fresh_service :
  AdminService (FUEL:=10%nat) (HW:=demo_fresh_hw) demo_fresh (success QUEUE_LENGTH) 1 demo_fresh_serves.
Proof.
  pose proof QUEUE_LENGTH_value as HQ. split.
  - apply serving_service; [exact demo_fresh_len| |].
    + intros. apply success_wf. lia.
    + intros. apply success_phase.
  - unfold dev_ok. simpl. lia.
  - simpl. lia.
  - unfold rings_ok. simpl. rewrite HQ. repeat split; try lia.
    intros i Hi. left. unfold sq_slot. rewrite size_of_command. simpl. lia.
  - unfold spin_fuel. lia.
Qed.

Lemma demo_fresh_startup : Startup (HW:=demo_fresh_hw) demo_fresh demo_fresh_serves 1.
Proof.
  split.
  - intros w v. by apply serving_ready.
  - intros w _. simpl. reflexivity.
  - simpl. lia.
  - intros i Hi. right. simpl. rewrite size_of_completion, QUEUE_LENGTH_value. lia.
  - simpl. lia.
Qed.

Lemma demo_brought_up :
  ∃ w1 w2 w3,
    check_class (HW:=demo_fresh_hw) (OS:=demo_kernel) "0000:01:00.0"
      (tt, initial (0, (0, 0)) (λ _, 0)) = (Ret tt, (tt, w1)) ∧
    MemoryAccess.init_with_page_size (BLD:=true) (HW:=demo_fresh_hw) (OS:=demo_kernel)
      "0000:01:00.0" Pagesize.Page4K (tt, w1) = (Ret demo_vfio, (tt, w2)) ∧
    acquired (HW:=demo_fresh_hw)
      (MAP:=MemoryAccess.MemoryAccess_mapping (BLD:=true) (HW:=demo_fresh_hw) (OS:=demo_kernel) (LC:=linux_libc))
      demo_vfio demo_fresh tt w2 w3 ∧
    demo_fresh_serves 0 0 0 w3.
Proof.
  do 3 eexists. split; [vm_compute; reflexivity|]. split; [vm_compute; reflexivity|].
  split.
  - do 6 eexists. repeat (split; [vm_compute; reflexivity|]). reflexivity.
  - exact (serving_init (admin_cq demo_fresh) (success QUEUE_LENGTH) demo_fresh_len).
Qed.

