(* ===== verification/Whole.v ===== *)
(** The whole of the example program [simple_io]: the entry point of the library
    ([src/lib.rs], [src/nvme.rs]), which uses the admin queue, and then the I/O on
    the queue it has created ([examples/simple_io.rs]), against one controller
    that serves both queues. *)

From stdpp Require Import gmap relations.
From S2P Require Import Prelude Bytes Machine Memory Cmd Mapping Queues Service Format Os Ioctl Pci Vfio Physical MemoryAccess QueuePair Device Setup Startup Io Lib Protocol Disk Examples Storage Iommu Bringup.
#[local] Open Scope Z_scope.

(** ** The I/O queue while the device is started *)

Section boot.
Context {A E : Type} `{BLD : Build} `{FUEL : Fuel} `{HW : Hardware E}.
Context (d : NvmeDevice A) (posted_a posted_i : Z → NvmeCompletion) (Na Ni : nat).
Context (admin io : Z → Z → Z → World E → Prop).
Context `{AS : !AdminService d posted_a Na admin} `{IS : !IoService d posted_i Ni io}.
Implicit Types w : World E.

(** An access that leaves the I/O queue alone. *)
Definition aloof (ev : Event) : Prop :=
  match ev with
  | EvStore a bs => cq_apart (io_cq d) a (length bs)
  | EvWrite _ a _ => a ≠ doorbell_at d 1 0
  | _ => True
  end.

(** The admin queue is served; the I/O queue is as it was at [w0] if the driver has
    left it alone. *)
Definition starting w0 (G C P : Z) w : Prop :=
  admin G C P w ∧ ∃ t, trace w = trace w0 ++ t ∧ (Forall aloof t → io 0 0 0 w).

Lemma starting_refl w : admin 0 0 0 w → io 0 0 0 w → starting w 0 0 0 w.
Proof. intros. split; [done|]. exists []. by rewrite app_nil_r. Qed.

Lemma starting_keeps w0 w w' evs :
  (∃ t, trace w = trace w0 ++ t ∧ (Forall aloof t → io 0 0 0 w)) →
  trace w' = trace w ++ evs → (Forall aloof evs → io 0 0 0 w → io 0 0 0 w') →
  ∃ t, trace w' = trace w0 ++ t ∧ (Forall aloof t → io 0 0 0 w').
Proof.
  intros (t & Ht & Hio) Ht' Hkeep. exists (t ++ evs). rewrite Ht', Ht, <-app_assoc. split; [done|].
  intros [? ?]%Forall_app. auto.
Qed.

Lemma io_idle_tick w : io 0 0 0 w → io 0 0 0 (tick w).
Proof.
  pose proof (io_service (d:=d)) as SV.
  apply (service_idle_tick (io_cq d) posted_i (doorbell_at d 1 0) (sq_len (io_sq d)) Ni io).
Qed.

Lemma starting_tick w0 w :
  (∃ t, trace w = trace w0 ++ t ∧ (Forall aloof t → io 0 0 0 w)) →
  ∃ t, trace (tick w) = trace w0 ++ t ∧ (Forall aloof t → io 0 0 0 (tick w)).
Proof.
  intros Hw. eapply (starting_keeps _ _ _ []); [done|by rewrite trace_tick, app_nil_r|].
  intros _. apply io_idle_tick.
Qed.

Lemma starting_service w0 : AdminService d posted_a Na (starting w0).
Proof using AS IS.
  pose proof (io_service (d:=d)) as SI.
  destruct AS as [[[Hv Ht Htake _ _ Hw Hr Hl] Hst Hri] Hd Hs Hrings Hf]. split; [|done..].
  apply cq_service_intro.
  - intros G C P w [HP _]. by apply Hv.
  - intros G C P w [HP HI]. destruct (Ht _ _ _ _ HP) as (P' & ? & ?). exists P'.
    split; [done|]. split; [done|]. by apply starting_tick.
  - intros G C P w [HP HI] ?. split; [by apply Htake|done].
  - intros G C P w a bs [HP HI] ?. split; [by apply Hst|].
    eapply (starting_keeps _ _ _ [_]); [done|apply trace_stored|].
    intros Ha%Forall_inv ?. apply (service_store_idle (SyncService:=SI)); [done|exact Ha].
  - intros G C P w [HP HI] ?. split; [by apply Hri|].
    eapply (starting_keeps _ _ _ [_]); [done|apply trace_written|].
    intros Ha%Forall_inv ?. apply (service_write (SyncService:=SI)); [done|exact Ha].
  - intros G C P w n a v [HP HI] ?. split; [by apply Hw|].
    eapply (starting_keeps _ _ _ [_]); [done|apply trace_written|].
    intros Ha%Forall_inv ?. apply (service_write (SyncService:=SI)); [done|exact Ha].
  - intros G C P w n a [HP HI]. split; [by apply Hr|].
    eapply (starting_keeps _ _ _ [_]); [done|apply trace_reading|].
    intros _ ?. by apply (service_read (SyncService:=SI)).
  - intros G C P w [HP HI] ?. destruct (Hl _ _ _ _ HP) as (i & P' & ? & ? & ?); [done|].
    exists i, P'. split; [done|]. split; [done|]. split; [done|].
    clear -HI IS. generalize (S i). intros n. induction n as [|n IH]; [done|].
    by apply starting_tick in IH.
Qed.

Lemma starting_startup w0 n : Startup d admin n → Startup d (starting w0) n.
Proof.
  intros [Hr Hm ? ? ?]. split; [|by intros w [? _]; apply Hm|done..]. intros w v [? _]. by apply Hr.
Qed.

(** ** What the driver does at the start is aloof *)

(** The memory that the start writes is not that of the I/O completion queue. *)
Definition start_apart : Prop :=
  (∀ i, 0 ≤ i < 511 → cq_apart (io_cq d) (virt (prp_list d) + 8 * i) 8) ∧
  (∀ i, 0 ≤ i < sq_len (admin_sq d) → cq_apart (io_cq d) (sq_slot (admin_sq d) i) 64).

Context (Hap : start_apart).

Lemma register_aloof n reg v : 0 ≤ reg < 0x1000 → aloof (EvWrite n (addr d + reg) v).
Proof using AS.
  intros ?. destruct (admin_dev_ok (d:=d)) as (? & ? & ? & ? & ?). unfold aloof, doorbell_at, doorbell_offset.
  assert (0 < 2 ^ (2 + dstrd d)) by lia. lia.
Qed.

Lemma admin_doorbell_aloof n k v : 0 ≤ k ≤ 1 → aloof (EvWrite n (doorbell_at d 0 k) v).
Proof using AS.
  intros ?. destruct (admin_dev_ok (d:=d)) as (? & ? & ? & ? & ?). unfold aloof, doorbell_at, doorbell_offset.
  assert (0 < 2 ^ (2 + dstrd d)) by lia. nia.
Qed.

Lemma admin_aloof k cmd : Forall aloof (admin_events d k cmd).
Proof using AS Hap.
  destruct Hap as [_ Hsq]. destruct (admin_rings (d:=d)) as (? & _).
  repeat (apply Forall_cons; split); [|apply admin_doorbell_aloof; lia|apply admin_doorbell_aloof; lia|].
  - unfold aloof. rewrite encode_length. apply Hsq, Z.mod_pos_bound. lia.
  - constructor.
Qed.

Lemma reads_aloof ready t : polled d ready t → Forall aloof t.
Proof.
  intros (vs & v & -> & _). apply Forall_app. split; [|by repeat constructor].
  apply Forall_fmap, Forall_true. done.
Qed.

Lemma prp_stores_aloof : Forall aloof (prp_stores d).
Proof using Hap.
  apply Forall_fmap, Forall_forall. intros i Hi%elem_of_zrange. unfold compose, aloof. rewrite le_bytes_length.
  apply Hap. lia.
Qed.

Lemma start_aloof t : start_events d posted_a t → Forall aloof t.
Proof using AS Hap.
  intros (cap & cap' & vs & cc & c0 & c1 & c2 & polls0 & polls1 & Hp0 & Hp1 & ->).
  pose proof (register_aloof 4) as H4. pose proof (register_aloof 8) as H8.
  assert (Forall aloof (queues_created d posted_a).2) as Hq.
  { unfold queues_created. destruct (negb _); [apply admin_aloof|].
    destruct (negb _); (apply Forall_app; split; apply admin_aloof). }
  rewrite !Forall_app. split; [exact prp_stores_aloof|].
  split; [|split; [by eapply reads_aloof|split; [|split; [by eapply reads_aloof|done]]]].
  - unfold disable_events.
    repeat first [apply Forall_nil_2 | apply Forall_cons_2 | exact I | apply H4; simpl; lia].
  - unfold enable_events. repeat first
      [apply Forall_nil_2 | apply Forall_cons_2 | exact I | apply H4; simpl; lia | apply H8; simpl; lia].
Qed.

End boot.

Section entry.
Context {E : Type} `{BLD : Build} `{FUEL : Fuel} `{HW : Hardware E} `{OS : Os E} `{LC : Libc}.
Context (d : NvmeDevice MemoryAccess) (posted_a posted_i : Z → NvmeCompletion) (Na Ni : nat).
Context (admin io : Z → Z → Z → World E → Prop).
Context `{AS : !AdminService d posted_a Na admin} `{IS : !IoService d posted_i Ni io}.
Context (Hap : start_apart d).

Lemma identify_aloof k ids : Forall (aloof d) (identify_events d k ids).
Proof using AS Hap.
  revert k. induction ids as [|id ids IH]; intros k; cbn [identify_events]; [constructor|].
  apply Forall_app. split; [by eapply admin_aloof|apply IH].
Qed.

Lemma entry_aloof r t : entry_outcome d posted_a r t → Forall (aloof d) t.
Proof using AS Hap.
  intros (start & Hstart & Ho). eapply start_aloof in Hstart; [|done..].
  pose proof (admin_aloof d posted_a Na admin Hap) as Hadmin. cbn zeta in Ho.
  destruct (_ || _); [by destruct Ho as [_ ->]|]. destruct (negb _).
  - destruct Ho as [_ ->]. apply Forall_app. split; [done|apply (Hadmin 2)].
  - destruct Ho as (bs & data & _ & _ & _ & _ & ->). rewrite !Forall_app.
    split; [done|]. split; [apply (Hadmin 2)|]. unfold identification. apply Forall_app.
    split; [apply (Hadmin 3)|apply (identify_aloof 4)].
Qed.

(** The device that [init_with_page_size] returns. *)
Definition brought_up (ids : list Z) (data : list (list Z)) : NvmeDevice MemoryAccess :=
  NvmeDevice.set_namespaces (known ∅ ids data)
    (admin_pos (NvmeDevice.set_q_id 2 d) (4 + Z.of_nat (length ids))).

(** From nothing to a device with its own queue ready. *)
Lemma wp_brought_up {S} (page_size : Pagesize.Pagesize) (alloc : MemoryAccess) (n : nat) (s : S)
    (w w1 w2 w3 : World E) (Q : Res (NvmeDevice MemoryAccess) → S → World E → Prop) :
  check_class (pci_addr d) (s, w) = (Ret tt, (s, w1)) →
  MemoryAccess.init_with_page_size (pci_addr d) page_size (s, w1) = (Ret alloc, (s, w2)) →
  acquired alloc d s w2 w3 → 72 ≤ size (buffer d) →
  Startup d admin n → (n ≤ spin_fuel)%nat → admin 0 0 0 w3 → io 0 0 0 w3 →
  (∀ k, 0 ≤ k ≤ 2 → sc_field (posted_a k) = 0) →
  (∀ ids data w', length data = length ids → io 0 0 0 w' → Q (Ret (brought_up ids data)) s w') →
  wp (init_with_page_size (pci_addr d) page_size) Q s w.
Proof using AS IS Hap.
  intros Hclass Hback Hacq Hsz HST Hn Hw3 Hio Hok HQ.
  pose proof (starting_service d posted_a posted_i Na Ni admin io w3) as HAS.
  apply (starting_startup d admin io w3) in HST.
  pose proof (wp_entry alloc d posted_a Na n _ s w2 w3 HAS HST Hn Hacq (starting_refl d admin io w3 Hw3 Hio) Hsz)
    as Hwp.
  assert (∀ Q', wp (nvme ← NvmeDevice.init (pci_addr d) alloc; r ← with_local nvme identify_device; mret r.2)
    Q' s w2 → wp (init_with_page_size (pci_addr d) page_size) Q' s w) as Hpre.
  { intros Q' H. unfold init_with_page_size. wp_step. unfold wp at 1. rewrite Hclass. cbn [fst snd then_].
    wp_step. unfold wp at 1. rewrite Hback. exact H. }
  apply Hpre. eapply wp_mono; [exact Hwp|]. intros r s' w' (-> & (k & _ & t' & Ht' & Hready) & t & Ht & Ho).
  assert (t' = t) as -> by (rewrite Ht in Ht'; by apply app_inv_head in Ht').
  specialize (Hready (entry_aloof _ _ Ho)). destruct Ho as (start & _ & Ho). cbn zeta in Ho.
  rewrite !Hok in Ho by lia. cbn [negb orb Z.eqb] in Ho.
  destruct Ho as (bs & data & _ & Hlen & _ & -> & _). by apply HQ.
Qed.

(** Its own queue has not been used. *)
Lemma brought_up_fresh {S} (alloc : MemoryAccess) (s : S) w w' ids data :
  acquired alloc d s w w' →
  brought_up ids data = io_pos (brought_up ids data) 0 0 (mkNvmeStats 0 0) ∧
  allocator (brought_up ids data) = alloc.
Proof.
  intros (? & ? & ? & ? & ? & ? & _ & _ & _ & _ & _ & _ & _ & _ & Hd).
  unfold brought_up. rewrite Hd. unfold fresh_device. cbn. rewrite QUEUE_LENGTH_value. done.
Qed.

End entry.

(** The service of the device before the start is that of the device after it. *)
Lemma brought_up_service {E} `{FUEL : Fuel} `{HW : Hardware E} (d : NvmeDevice MemoryAccess) posted N
    serves bus disk ids data :
  DiskService d posted N serves bus disk → DiskService (brought_up d ids data) posted N serves bus disk.
Proof. intros [[? ? ? ? ?] Hf]. split; [by split|exact Hf]. Qed.

(** ** Properties *)


(** *** A controller with both queues *)

Section system.
Context (a c : CompletionQueue) (q : SubmissionQueue) (posted_a posted_i : Z → NvmeCompletion).
Context (bus : Z → Z) (shut : Z → bool) (sqdb_a sqdb_i cc : Z).

(** The number of regions that the kernel has given, and the states of the two
    queues. *)
Definition SystemEnv : Type := nat * ((Z * (Z * Z)) * (Mem * (Z * Z))).

#[local] Abbreviation admin_hw := (serving_hw a posted_a sqdb_a cc).
#[local] Abbreviation io_hw := (disk_hw bus q c posted_i shut sqdb_i).

(** Both queues take their turn in a run. *)
Definition system_hw : Hardware SystemEnv := {|
  hw_run e m :=
    let r := hw_run (Hardware:=admin_hw) e.2.1 m in
    let r' := hw_run (Hardware:=io_hw) e.2.2 r.2 in
    ((e.1, (r.1, r'.1)), r'.2);
  hw_read n x e :=
    let r := hw_read (Hardware:=admin_hw) n x e.2.1 in (r.1, (e.1, (r.2, e.2.2)));
  hw_write n x v e :=
    (e.1, (hw_write (Hardware:=admin_hw) n x v e.2.1, hw_write (Hardware:=io_hw) n x v e.2.2));
|}.

#[local] Existing Instance system_hw.
Implicit Types w : World SystemEnv.

Definition admin_side w : World (Z * (Z * Z)) := mkWorld (env w).2.1 (mem w) (trace w) (statics w).
Definition io_side w : World (Mem * (Z * Z)) := mkWorld (env w).2.2 (mem w) (trace w) (statics w).

(** The memory between the two turns. *)
Definition after_admin w : Mem := (hw_run (Hardware:=admin_hw) (env w).2.1 (mem w)).2.

Definition system_admin (G C P : Z) w : Prop := serving a posted_a G C P (admin_side w).

(** The regions of the device have been given. *)
Definition system_io (G C P : Z) w : Prop :=
  disk_serving c posted_i G C P (io_side w) ∧ ∃ j, (env w).1 = (6 + j)%nat.

Definition system_disk w : Mem := disk_of (io_side w).

Context (Ha : 0 < cq_len a ≤ QUEUE_LENGTH) (Hc : 0 < cq_len c ≤ QUEUE_LENGTH) (Hq : 0 < sq_len q).
Context (Hshut_a : ∀ x, shut x = false → cq_apart a x 1) (Hshut_c : ∀ x, shut x = false → cq_apart c x 1).
Context (Happ : ∀ x, cq_apart a x 1 ∨ cq_apart c x 1).
Context (Hslots : ∀ i x, 0 ≤ i < sq_len q → sq_slot q i ≤ x < sq_slot q i + 64 → shut x = false).
Context (Hwf_a : ∀ k, 0 ≤ k → NvmeCompletion.wf (posted_a k)).
Context (Hwf_i : ∀ k, 0 ≤ k → NvmeCompletion.wf (posted_i k)).
Context (Hph_a : ∀ k, 0 ≤ k → Z.odd (cpl_status (posted_a k)) = phase_at (cq_len a) k).
Context (Hph_i : ∀ k, 0 ≤ k → Z.odd (cpl_status (posted_i k)) = phase_at (cq_len c) k).

Lemma slot_apart r k m bs x :
  0 < cq_len r → cq_apart r x 1 → length bs = 16%nat →
  store_bytes m (CompletionQueue.slot r (k `mod` cq_len r)) bs x = m x.
Proof.
  intros Hl Hx Hbs. apply store_bytes_other. rewrite Hbs. unfold cq_apart, CompletionQueue.slot in *.
  rewrite size_of_completion in *. pose proof (Z.mod_pos_bound k (cq_len r) Hl). lia.
Qed.

Lemma admin_run_mem e m x : cq_apart a x 1 → (hw_run (Hardware:=admin_hw) e m).2 x = m x.
Proof.
  intros Hx. destruct e as [v [G P]]. unfold hw_run, serving_hw.
  destruct (_ <? _); [|done]. apply slot_apart; [lia|done|apply completion_encode_length].
Qed.

Lemma io_run_mem e m x :
  shut x = true → cq_apart c x 1 → (hw_run (Hardware:=io_hw) e m).2 x = m x.
Proof.
  intros Hs Hx. destruct e as [D [G P]]. unfold hw_run, disk_hw.
  destruct (_ <? _); [|done]. cbn [snd]. rewrite slot_apart; [|lia|done|apply completion_encode_length].
  by rewrite Hs.
Qed.

Lemma tick_run {E} `{HW : Hardware E} (w : World E) :
  tick w = upd (hw_run (env w) (mem w)).1 (hw_run (env w) (mem w)).2 w.
Proof. unfold tick. by destruct (hw_run _ _). Qed.

Lemma admin_side_tick w :
  env (admin_side (tick w)) = env (tick (HW:=admin_hw) (admin_side w)) ∧
  ∀ x, ¬ cq_apart a x 1 → mem (tick w) x = mem (tick (HW:=admin_hw) (admin_side w)) x.
Proof.
  rewrite !tick_run. split; [done|]. intros x Hx.
  apply (io_run_mem (env w).2.2 (after_admin w) x).
  - destruct (shut x) eqn:Hs; [done|]. by apply Hshut_a in Hs.
  - by destruct (Happ x).
Qed.

Lemma io_side_tick w :
  io_side (tick w) =
  tick (HW:=io_hw) (mkWorld (env w).2.2 (after_admin w) (trace w) (statics w)).
Proof. by rewrite !tick_run. Qed.

Lemma system_admin_tick G C P w :
  system_admin G C P w → system_admin G C (if P <? G then P + 1 else P) (tick w).
Proof.
  intros Hw. destruct (admin_side_tick w) as [He Hm].
  apply (serving_tick a posted_a sqdb_a cc Ha Hwf_a Hph_a) in Hw as (He' & HPg & Hv).
  split; [by rewrite He|]. split; [done|]. by apply (cq_view_ext a posted_a Ha _ _ _ _ Hm).
Qed.

Lemma system_admin_service sqlen : CqService a posted_a sqdb_a sqlen 1 system_admin.
Proof.
  pose proof (serving_service a posted_a sqdb_a sqlen cc Ha Hwf_a Hph_a) as SV.
  apply cq_service_intro.
  - intros G C P w. apply (service_view (SyncService:=service_sync (CqService:=SV))).
  - intros G C P w HP%system_admin_tick. eexists; split; [|done]. destruct (_ <? _) eqn:?; lia.
  - intros G C P w. apply (service_take (SyncService:=service_sync (CqService:=SV))).
  - intros G C P w x bs HP Hx. exact (service_store (CqService:=SV) _ _ _ _ x bs HP Hx).
  - intros G C P w HP HG. exact (service_ring (CqService:=SV) _ _ _ _ HP HG).
  - intros G C P w n x v HP Hx. exact (service_write (SyncService:=service_sync (CqService:=SV)) _ _ _ _ n x v HP Hx).
  - intros G C P w n x HP. exact HP.
  - intros G C P w HP%system_admin_tick HPg. exists 0%nat, (P + 1).
    rewrite (proj2 (Z.ltb_lt _ _) HPg) in HP. split; [lia|]. split; [lia|done].
Qed.

(** *** The I/O queue *)

Lemma after_admin_mem w x : shut x = false → after_admin w x = mem w x.
Proof. intros Hx. by apply admin_run_mem, Hshut_a. Qed.

Lemma system_io_tick G C P w :
  system_io G C P w → system_io G C (if P <? G then P + 1 else P) (tick w).
Proof.
  intros [Hw Hr]. split; [|by rewrite tick_run]. rewrite io_side_tick.
  apply (disk_tick bus q c posted_i shut sqdb_i Hc Hshut_c Hwf_i Hph_i).
  destruct Hw as (He & HPg & Hv). split; [done|]. split; [done|].
  apply (cq_view_ext c posted_i Hc _ _ (mem w)); [|done]. intros x Hx.
  apply admin_run_mem. by destruct (Happ x).
Qed.

Lemma system_io_service : CqService c posted_i sqdb_i (sq_len q) 1 system_io.
Proof.
  pose proof (disk_service bus q c posted_i shut sqdb_i Hc Hshut_c Hwf_i Hph_i) as SV.
  apply cq_service_intro.
  - intros G C P w [HP _]. apply (service_view (SyncService:=service_sync (CqService:=SV)) _ _ _ _ HP).
  - intros G C P w HP%system_io_tick. eexists; split; [|done]. destruct (_ <? _) eqn:?; lia.
  - intros G C P w [HP Hr] ?. split; [|done]. by apply (service_take (SyncService:=service_sync (CqService:=SV))).
  - intros G C P w x bs [HP Hr] Hx. split; [|done]. exact (service_store (CqService:=SV) _ _ _ _ x bs HP Hx).
  - intros G C P w [HP Hr] HG. split; [|done]. exact (service_ring (CqService:=SV) _ _ _ _ HP HG).
  - intros G C P w n x v [HP Hr] Hx. split; [|done].
    exact (service_write (SyncService:=service_sync (CqService:=SV)) _ _ _ _ n x v HP Hx).
  - intros G C P w n x HP. exact HP.
  - intros G C P w HP%system_io_tick HPg. exists 0%nat, (P + 1).
    rewrite (proj2 (Z.ltb_lt _ _) HPg) in HP. split; [lia|]. split; [lia|done].
Qed.

(** A turn of the admin queue is nothing to a follower of the disk. *)
#[local] Abbreviation open := (λ x, shut x = false).
#[local] Abbreviation tracks := (followed bus q shut sqdb_i).
#[local] Abbreviation idle := (λ w, ∃ G, system_io G G G w).

Lemma followed_mem k st0 t (w : World (Mem * (Z * Z))) m :
  (∀ x, open x → m x = mem w x) → tracks k st0 t w →
  tracks k st0 t (mkWorld (env w) m (trace w) (statics w)).
Proof.
  intros Hm Hf Hs. destruct (Hf Hs) as (G & P & st & He & Hp & Hst). exists G, P, st.
  split; [done|]. split; [done|].
  assert (∀ st, agree open st (disk_of w, mem w) →
    agree open st (disk_of (mkWorld (env w) m (trace w) (statics w)), m)) as Ha'.
  { intros st' [HD Hst']. split; [exact HD|]. intros x Hx. cbn [snd]. by rewrite Hm, <-Hst'. }
  destruct Hst as [[? ?]|[? (st1 & ? & ? & ?)]]; [left; by split; [|apply Ha']|right].
  split; [done|]. exists st1. split; [done|]. by split; [apply Ha'|].
Qed.

Lemma system_followed w0 k w :
  rtc (sync_access idle sqdb_i) w0 w → system_io k k k w0 →
  ∃ t, trace w = trace w0 ++ t ∧ tracks k (system_disk w0, mem w0) t (io_side w).
Proof.
  intros Hacc Hw0. revert w Hacc. apply (rtc_ind_r _ w0).
  { exists []. rewrite app_nil_r. split; [done|]. intros _. exists k, k, (system_disk w0, mem w0).
    split; [apply Hw0|]. split; [done|]. left. by split. }
  intros w w' _ Hacc (t & Ht & IH). destruct Hacc as [w|w n x|w n x v Hne|w x bs [G Hi]|w v [G Hi]].
  - exists t. rewrite trace_tick. split; [done|]. rewrite io_side_tick.
    apply (followed_tick bus q c posted_i shut sqdb_i Hc Hq Hshut_c Hslots).
    apply (followed_mem _ _ _ (io_side w)); [apply after_admin_mem|done].
  - eexists. rewrite trace_reading, Ht, <-app_assoc. split; [done|].
    by apply (followed_nothing bus q shut sqdb_i _ _ _ (io_side w)); [intros [? []]|..].
  - eexists. rewrite trace_written, Ht, <-app_assoc. split; [done|].
    apply (followed_nothing bus q shut sqdb_i _ _ _ (io_side w)); [| |done|done].
    + intros [? []]. cbn [play_event]. by rewrite (proj2 (Z.eqb_neq _ _) Hne).
    + unfold written, io_side. cbn [env log upd hw_write system_hw disk_hw snd].
      destruct (env w).2.2 as [? []]. by rewrite (proj2 (Z.eqb_neq _ _) Hne).
  - eexists. rewrite trace_stored, Ht, <-app_assoc. split; [done|].
    apply (followed_store bus q c posted_i shut sqdb_i _ _ _ (io_side w) x bs); [|done]. exists G. apply Hi.
  - eexists. rewrite trace_written, Ht, <-app_assoc. split; [done|].
    apply (followed_ring bus q c posted_i shut sqdb_i _ _ _ (io_side w)); [|done]. exists G. apply Hi.
Qed.

Lemma system_follows k k' w w' t :
  system_io k k k w → system_io k' k' k' w' → rtc (sync_access idle sqdb_i) w w' →
  trace w' = trace w ++ t → play_safe bus q open sqdb_i (k, (system_disk w, mem w)) t →
  agree open (play bus q sqdb_i (k, (system_disk w, mem w)) t).2 (system_disk w', mem w').
Proof.
  intros Hw [Hw' _] Hacc Ht Hs.
  destruct (system_followed w k w' Hacc Hw) as (t' & Ht' & Hf).
  rewrite Ht in Ht'. apply app_inv_head in Ht' as <-.
  destruct (followed_idle bus q c posted_i shut sqdb_i _ _ _ (io_side w') Hf ltac:(by exists k') Hs)
    as (G & st & _ & Hp & Hag).
  change st with (G, st).2 in Hag. rewrite <-Hp in Hag. exact Hag.
Qed.

End system.

Definition demo_system_hw : Hardware SystemEnv :=
  system_hw (admin_cq demo_fresh) (io_cq demo_fresh) (io_sq demo_fresh) (success QUEUE_LENGTH)
    (success QUEUE_LENGTH) id (posted_at demo_fresh) (doorbell_at demo_fresh 0 0)
    (doorbell_at demo_fresh 1 0) (addr demo_fresh + reg32 CC).

Definition demo_system_kernel : Os SystemEnv := demo_kernel_at (λ e, (e.1, (S e.1, e.2))).

Definition demo_admin : Z → Z → Z → World SystemEnv → Prop :=
  system_admin (admin_cq demo_fresh) (success QUEUE_LENGTH).
Definition demo_io : Z → Z → Z → World SystemEnv → Prop :=
  system_io (io_cq demo_fresh) (success QUEUE_LENGTH).

Definition demo_power_on : World SystemEnv := initial (0%nat, ((0, (0, 0)), (λ _, 0, (0, 0)))) (λ _, 0).

Lemma demo_cq_len (c : CompletionQueue) : cq_len c = QUEUE_LENGTH → 0 < cq_len c ≤ QUEUE_LENGTH.
Proof. rewrite QUEUE_LENGTH_value. lia. Qed.

Lemma demo_success_wf k : NvmeCompletion.wf (success QUEUE_LENGTH k).
Proof. apply success_wf. rewrite QUEUE_LENGTH_value. lia. Qed.

Lemma demo_cqs_apart x : cq_apart (admin_cq demo_fresh) x 1 ∨ cq_apart (io_cq demo_fresh) x 1.
Proof. unfold cq_apart. rewrite size_of_completion. simpl. rewrite QUEUE_LENGTH_value. lia. Qed.

Lemma demo_shut_admin x : posted_at demo_fresh x = false → cq_apart (admin_cq demo_fresh) x 1.
Proof. by intros [_ ?]%free_apart. Qed.

Lemma demo_shut_io x : posted_at demo_fresh x = false → cq_apart (io_cq demo_fresh) x 1.
Proof. by intros [? _]%free_apart. Qed.

Lemma demo_system_admin :
  AdminService (FUEL:=10%nat) (HW:=demo_system_hw) demo_fresh (success QUEUE_LENGTH) 1 demo_admin.
Proof.
  destruct demo_fresh_service as [_ ? ? ? ?]. split; [|done..].
  apply system_admin_service; try by apply demo_cq_len.
  all: auto using demo_shut_admin, demo_shut_io, demo_cqs_apart, demo_success_wf, success_phase.
Qed.

Lemma demo_system_disk :
  DiskService (FUEL:=10%nat) (HW:=demo_system_hw) demo_fresh (success QUEUE_LENGTH) 1 demo_io id system_disk.
Proof.
  destruct demo_fresh_service as [_ ? ? ? ?]. pose proof QUEUE_LENGTH_value as HQ. split.
  - split; [|done|simpl; lia| |done].
    + apply system_io_service; try by apply demo_cq_len.
      all: auto using demo_shut_admin, demo_shut_io, demo_cqs_apart, demo_success_wf, success_phase.
    + unfold rings_ok. simpl. rewrite HQ. repeat split; try lia.
      intros i Hi. left. unfold sq_slot. rewrite size_of_command. simpl. lia.
  - apply system_follows; try by apply demo_cq_len.
    all: auto using demo_shut_admin, demo_shut_io, demo_cqs_apart, demo_success_wf, success_phase.
    intros i x Hi Hx. apply free_apart. unfold sq_slot, cq_apart in *.
    rewrite size_of_command, size_of_completion in *. simpl in *. rewrite HQ in *. lia.
Qed.

Lemma demo_system_startup : Startup (HW:=demo_system_hw) demo_fresh demo_admin 1.
Proof.
  split.
  - intros w v Hw.
    destruct (serving_ready demo_fresh (admin_cq demo_fresh) (success QUEUE_LENGTH) (doorbell_at demo_fresh 0 0)
      (admin_side w) v) as (i & Hi & Hr); [done|exact Hw|].
    exists i. split; [done|]. assert (i = 0%nat) as -> by lia. rewrite <-Hr. f_equal.
    unfold csts_value, csts_reads. cbn [Nat.iter nat_rect]. by rewrite !tick_run.
  - intros w _. simpl. reflexivity.
  - simpl. lia.
  - intros i Hi. right. simpl. rewrite size_of_completion, QUEUE_LENGTH_value. lia.
  - simpl. lia.
Qed.

Lemma demo_system_brought_up :
  ∃ w1 w2 w3,
    check_class (HW:=demo_system_hw) (OS:=demo_system_kernel) "0000:01:00.0" (tt, demo_power_on) =
      (Ret tt, (tt, w1)) ∧
    MemoryAccess.init_with_page_size (BLD:=true) (HW:=demo_system_hw) (OS:=demo_system_kernel)
      "0000:01:00.0" Pagesize.Page4K (tt, w1) = (Ret demo_vfio, (tt, w2)) ∧
    acquired (HW:=demo_system_hw)
      (MAP:=MemoryAccess.MemoryAccess_mapping (BLD:=true) (HW:=demo_system_hw) (OS:=demo_system_kernel) (LC:=linux_libc))
      demo_vfio demo_fresh tt w2 w3 ∧
    demo_admin 0 0 0 w3 ∧ demo_io 0 0 0 w3.
Proof.
  do 3 eexists. split; [vm_compute; reflexivity|]. split; [vm_compute; reflexivity|].
  split.
  { do 6 eexists. repeat (split; [vm_compute; reflexivity|]). reflexivity. }
  split.
  - exact (serving_init (admin_cq demo_fresh) (success QUEUE_LENGTH) (demo_cq_len (admin_cq demo_fresh) eq_refl)).
  - split; [|by exists 0%nat]. split; [done|]. split; [simpl; rewrite QUEUE_LENGTH_value; lia|].
    apply (serving_init (io_cq demo_fresh) (success QUEUE_LENGTH) (demo_cq_len (io_cq demo_fresh) eq_refl)).
Qed.

Definition demo_page : Dma := mkDma 0x4000000 0x4000000 4096.

(** A call of the kernel leaves the I/O queue alone. *)
Lemma demo_io_called {B} call (val : B → Z) (f : SystemEnv → Mem → Answer SystemEnv B) w :
  (∀ e m, (f e m).2.2 = m ∧ (f e m).2.1.2 = e.2 ∧ ∃ j, (f e m).2.1.1 = (j + e.1)%nat) →
  demo_io 0 0 0 w → demo_io 0 0 0 (after_sys (HW:=demo_system_hw) call val f w).2.
Proof.
  intros Hf Hw. unfold after_sys. cbn [snd].
  pose proof (io_idle_tick (HW:=demo_system_hw) (FUEL:=10%nat) demo_fresh (success QUEUE_LENGTH) 1 demo_io
    (IS:=disk_io (DiskService:=demo_system_disk)) w Hw) as Ht.
  set (v := tick w) in *. clearbody v. destruct Ht as [Ht [j Hj]].
  destruct (Hf (env v) (mem v)) as (Hm & He & i & Hi).
  unfold demo_io, system_io, io_side, disk_serving in *. cbn [env mem upd log] in *.
  rewrite Hm, He, Hi, Hj. split; [done|]. exists (i + j)%nat. lia.
Qed.

Lemma demo_mmap addr len prot flags off w r w' :
  demo_io 0 0 0 w →
  mmap_sys (HW:=demo_system_hw) (OS:=demo_system_kernel) addr len prot flags (-1) off w = (r, w') →
  r = inr 0x4000000 ∧ demo_io 0 0 0 w'.
Proof.
  intros Hw H. split.
  - apply (f_equal fst) in H. cbn [fst] in H. rewrite <-H. unfold mmap_sys, after_sys. cbn [fst].
    change (inr (nth (env (tick (HW:=demo_system_hw) w)).1 demo_regions 0x4000000) = (inr 0x4000000 : IoError + Z)).
    rewrite tick_run. change (env (upd _ _ w)).1 with (env w).1. by destruct Hw as [_ [[|j] ->]].
  - apply (f_equal snd) in H. cbn [snd] in H. rewrite <-H.
    apply demo_io_called; [|done]. intros e m. split; [done|]. split; [done|]. by exists 1%nat.
Qed.

Lemma demo_ioctl_call fd o arg w r w' :
  demo_io 0 0 0 w →
  ioctl_sys (HW:=demo_system_hw) (OS:=demo_system_kernel) fd o arg w = (r, w') →
  r = inr (demo_ioctl (IoctlOp.op o) arg) ∧ demo_io 0 0 0 w'.
Proof.
  intros Hw H. split; [by apply (f_equal fst) in H|].
  apply (f_equal snd) in H. cbn [snd] in H. rewrite <-H.
  apply demo_io_called; [|done]. intros e m. split; [done|]. split; [done|]. by exists 0%nat.
Qed.

Lemma demo_allocate {S} (s : S) w :
  demo_io 0 0 0 w → ∃ w',
    allocate (Mapping:=MemoryAccess.MemoryAccess_mapping (BLD:=true) (HW:=demo_system_hw)
      (OS:=demo_system_kernel) (LC:=linux_libc)) demo_vfio PAGESIZE_4KIB (s, w) = (Ret demo_page, (s, w')) ∧
    demo_io 0 0 0 w'.
Proof.
  intros Hw.
  assert (wp (Vfio.Vfio.allocate (BLD:=true) (HW:=demo_system_hw) (OS:=demo_system_kernel) (LC:=linux_libc)
      (Vfio.mkVfio "0000:01:00.0" 3 Pagesize.Page4K (Vfio.Legacy 3)) PAGESIZE_4KIB)
    (λ r s' w', r = Ret demo_page ∧ s' = s ∧ demo_io 0 0 0 w') s w) as Hwp.
  2:{ apply wp_run in Hwp as (r & s' & w' & Hrun & -> & -> & Hw'). by exists w'. }
  unfold Vfio.Vfio.allocate. cbn [Vfio.page_size Vfio.iommu]. wp_step.
  assert (∀ flags, wp (mmap_anonymous_unsafe (HW:=demo_system_hw) (OS:=demo_system_kernel) (LC:=linux_libc)
      (Pagesize.shift_up Pagesize.Page4K PAGESIZE_4KIB) flags)
    (λ r s' w', r = Ret 0x4000000 ∧ s' = s ∧ demo_io 0 0 0 w') s w) as Hmap.
  { intros flags. apply wp_mmap_unsafe; intros ? w1 [Hr ?]%demo_mmap; try done. by injection Hr as ->. }
  apply wp_mono with (λ r s' w', r = Ret 0x4000000 ∧ s' = s ∧ demo_io 0 0 0 w').
  { unfold Vfio.Vfio.allocate_4kib. wp_step. apply wp_get_statics. cbn [then_].
    destruct (_ <? _); apply Hmap. }
  intros r s' w1 (-> & -> & Hw1). cbn [then_].
  apply wp_map_dma; intros ? w2 [Hr ?]%demo_ioctl_call; try done. injection Hr as ->.
  split; [by vm_compute|done].
Qed.

Lemma demo_deallocate {S} (s : S) w : ∃ w',
  deallocate (Mapping:=MemoryAccess.MemoryAccess_mapping (BLD:=true) (HW:=demo_system_hw)
    (OS:=demo_system_kernel) (LC:=linux_libc)) demo_vfio demo_page (s, w) = (Ret tt, (s, w')).
Proof.
  assert (wp (Vfio.Vfio.deallocate (HW:=demo_system_hw) (OS:=demo_system_kernel)
      (Vfio.mkVfio "0000:01:00.0" 3 Pagesize.Page4K (Vfio.Legacy 3)) demo_page)
    (λ r s' _, r = Ret tt ∧ s' = s) s w) as Hwp.
  2:{ apply wp_run in Hwp as (r & s' & w' & Hrun & -> & ->). by exists w'. }
  unfold Vfio.Vfio.deallocate. wp_step. apply wp_unmap_dma; intros ? w1 H; [|by apply (f_equal fst) in H].
  cbn [then_]. wp_step. apply wp_munmap_unsafe; intros ? w2 H2; [|by apply (f_equal fst) in H2].
  cbn [then_]. by wp_step.
Qed.

